(* ===== verification/_CoqProject ===== *)
-Q . S2P
Prelude.v
State.v
CString.v
JSON.v
Str.v
StrConv.v
StrMem.v
Vector.v
Dictionary.v
DictTree.v
DictSpec.v
DictBalance.v
Mapping.v
Date.v
Time.v
Logger.v
ByteBuffer.v
Base64.v
URI.v
UriQuery.v
XML.v
RpcValue.v
RpcProtocol.v
TextFile.v
FS.v
IniParser.v
ArgumentParser.v
CheckSum.v
IcmpMessage.v
Random.v
Socket.v
TcpSocket.v
HttpHeaders.v
HttpRequest.v
HttpClient.v
XmlRpcProtocol.v
Mutex.v
Thread.v
ThreadPool.v
