(* ===== verification/Prelude.v ===== *)
(** * SRL, the system resource library: verified core

    This library models the parts of the C++ library under src/cpp that carry its own logic: strings, a
    growable array, a dictionary on a red-black tree, dates, byte buffers, base64, URIs with their
    query, an XML pull parser, JSON, files and directories with the parsers of ini files and command
    lines on top of them, check sums, random numbers, logging, buffered sockets, the HTTP server from the
    bytes of a connection to the response with the XML-RPC service on top of it, the HTTP client, and the
    mutex, the threads and the thread pool below.
    The definitions are executable translations of the code, and the theorems say what the code does,
    on every branch that is in reach, including what it does wrongly.

    ** How the program is modelled

    - [Prelude] (this file): the outcomes of C++ code ([res]: a value, an exception, undefined
      behaviour, or the exhaustion of a loop's fuel), machine integers as [Z] with their wrap-around
      ([wrapU], [wrapS] and the abbreviations [u32], [s32], ...), characters, and lists indexed by [Z]
      as C arrays are.  [ROUNDUP] is the macro of include/srl/types.h.  [State] adds a state to [res]:
      what was changed before an exception stays changed, which the callers that catch one can see.
    - [CString]: what the code uses of the C library on terminated text ([strlen], [strchr], [strstr],
      [strtol], [toupper], ...), with the lemmas that characterise it.
    - String (include/srl/String.h, src/String.cpp) is modelled in three files.  [Str] has the const
      searching methods and the methods that take parts ([find], [mid], [between], [section]), which
      read the characters of the object; [StrConv] comparison, classes, numbers, escapes; [StrMem] the
      object itself: its buffer cell by cell, a cell that was never written being [None], its
      allocated size, reserved size and cached hash value, with every method that changes it.
      [StrMem.repr] says which list of characters an object holds; [StrMem.op] is the interface the
      other files use.
    - [Vector] (include/srl/util/Vector.h): both versions of the template, for values and for
      pointers.  Their methods have the same text and differ in [resize]; the methods are written
      once against the class [Resizer], of which the two versions are the instances.
    - Dictionary (include/srl/util/Dictionary.h).  [Dictionary] is the code: a heap of entries, each of
      them in a tree ordered by the hash of its key and in a list in the order of insertion, the
      pointers and the colours as the code writes them.  The proofs are in three files: [DictTree]
      relates the heap to trees and lists and proves the insertion and the removal, [DictSpec] has the
      public methods and the refinement, [DictBalance] the colours.  [Mapping] gives the hash of a
      String, and the interface against which the users of a dictionary are proved.
    - [Date] (src/Date.cpp; the comparisons of src/DateTime.cpp for any time of day) and [Time]
      (src/Time.cpp, DateTime.cpp): the time of day as a whole number of seconds, and the arithmetic of a
      DateTime on both.
    - [Logger] (src/log/Logger.cpp, SysLog.cpp): the loggers by name, their levels and their outputs.
    - [ByteBuffer] (src/io/ByteBuffer.cpp, BinaryReader.cpp, BinaryWriter.cpp): the abstract classes
      are the type classes [BinaryWriter] and [BinaryReader]; [AppendWriter] is the promise of a
      writer that [Base64] relies on, and [ByteBuffer_append] discharges it for the buffer.
    - [Base64] (src/util/Base64.cpp), [URI] and [UriQuery] (src/net/URI.cpp: the text and the
      dictionary of query fields), [XML] (src/xml/XML.cpp), [CheckSum] (src/util/CheckSum.cpp),
      [Random] (src/math/Random.cpp).  [XML] reads from the class [TextFile], the operations of
      FS::TextFile it calls; [TextFile] has an instance of it.
    - [JSON] (src/json/JSON.cpp) reads from a stream of the C++ library, which is modelled with its
      state bits and what [putback] does; how a library reads and prints a [double] is the class
      [Number], with what the code relies on in [NumberLaws].
    - Files.  [TextFile] (src/fs/File.cpp, FileStream.cpp, TextFile.cpp) is an open file: the text the
      system holds for it, the position and the end flag, and the object with the size it keeps.  [FS]
      (src/fs/FS.cpp) works on a hierarchy of files, [OS], with its modes and the umask; the system
      calls are functions on it, which do what POSIX says for a user who may do everything.
    - [IniParser] (src/app/IniParser.cpp) and [ArgumentParser] (src/app/ArgumentParser.cpp) keep
      pointers in a dictionary, to objects in a heap of their own, and are proved against the
      interface of [Mapping]; the first reads its lines from [TextFile].
    - The HTTP server, from below.  [Socket] (src/net/Socket.cpp) keeps the descriptor over any
      operating system: the system calls are the parameter of type [system], whose answers depend on a
      state of its own.  [TcpSocket] (src/net/TcpSocket.cpp) adds the receive buffer, a [ByteBuffer].
      [HttpHeaders] (src/net/HttpHeaders.cpp) reads from a [TcpSocket] into a dictionary, and
      [HttpRequest] (HttpRequest in src/net/HttpServer.cpp) reads a request, calls the handler, which is
      a parameter, and writes the response to the same socket.  [HttpClient] (src/net/HttpClient.cpp)
      sends a request and reads the response with the same parts.
    - XML-RPC.  [RpcValue] (src/rpc/RpcValue.cpp) is a tree of values with their text as XML, which it
      reads with [XML]; [RpcProtocol] (src/rpc/RpcProtocol.cpp) has the dictionaries of services and
      methods, and [XmlRpcProtocol] (src/xml/XmlRpcProtocol.cpp) is the handler that [HttpRequest] calls
      for a POST: it parses the content, finds the method, calls it and sends the value.
    - [IcmpMessage] (src/net/IcmpMessage.cpp) builds echo requests and reads the replies, in a [ByteBuffer]
      into which it keeps pointers, with the check sum of [CheckSum].
    - Concurrency, as step relations with a program counter for each thread.  [Mutex] (src/sys/Mutex.cpp
      and Semaphore.cpp) has one step for each statement of [lock], [tryLock] and [unlock];
      [Thread] (src/sys/Thread.cpp) the loop of a thread against [pause], [unpause] and [cancel];
      [ThreadPool] (src/sys/ThreadPool.cpp, and the pool that src/net/HttpServer.cpp writes out again)
      the clients of a pool against the completion of its threads.

    An access outside an object, a read of a cell that was never written, a pointer to no entry and a
    write to the shared constant [EMPTY] are [UB]: a theorem that ends in [Ok] excludes them.
    Exceptions carry their class and not their message; where a message is sent, it is a parameter.  A
    text that printf makes is given by the definition that names its format; whether it fits the buffer
    of [String::Format] or of the logger is tested ([StrConv.Format], [StrConv.logva]).  Loggers have
    the level they are made with, INFO: the messages of the level DEBUG, and what a message writes, are
    left out of the components that log.  Allocation succeeds.  A [char] is signed, as
    on the targets of the build, and [long] has 64 bits.  Where the code lets a signed integer
    overflow, the model wraps around.

    A read or a write of one field that threads share is one step, in the order of the program; the
    sections that a pool runs under its mutex are one step each, which [mutual_exclusion] justifies.
    A semaphore of the system is its number of permits.

    ** What the theorems show

    - Refinement: any sequence of mutations of a [String] whose conditions hold ([StrMem.allowed])
      does on the object what [StrMem.spec] does on the list of characters ([String_refines]); a
      [Vector] is a list ([Vector_refines]); a [Dictionary] is an association list in the order of
      insertion ([Dictionary_refines]); the statements of the [Mutex] implement an atomic lock
      ([Mutex_refines]); parsing an ini file folds its items into the configuration
      ([reparse_spec]), parsing a command line walks over its arguments ([parse_spec]); the services and
      methods are a list of named lists ([registry_refines]).
    - Invariants and safety: the tree and the list of a dictionary ([dictionary_invariant]) and its
      balance while it grows ([find_depth]), the states of a socket ([socket_invariant]), mutual
      exclusion ([mutual_exclusion]), the threads of a pool ([pool_safe]), the sections of an ini file
      ([clear_frees]), the instant that a DateTime stands for ([DateTime_instant]), the state vector of the random numbers ([random_total]), the types of what the
      JSON parser returns on any stream ([json_parse_total]).
    - Liveness and termination: who is inside the mutex gets on or waits for one who does
      ([lock_progress]), a paused thread wakes ([unpause_parked]) and a cancelled one ends
      ([cancel_terminates]), the clients of a pool are served ([pool_progress], [waitAll_spec]), a
      request is answered and the loop of its thread ends ([run_one_request]).
    - The HTTP server: a request is read in whatever pieces its bytes arrive ([readUntil_stream],
      [parse_headers], [read_request_spec]), all of the data that is sent reaches the system in order
      ([send_spec]), and the response has the announced length ([sendResponse_spec], [missing_host]).
      A posted call reaches its method with its parameters, and the result is sent ([http_post_spec]).
      The client says its request and reads the response ([exchange_spec]), and the server reads what the
      client says ([client_request_read]).
    - Logging: a name gets one logger ([GetInstance_spec]), and a message is written on every console
      exactly when its level is reached ([log_all_spec]).
    - Round trips: numbers ([Val_Int_roundtrip]), escapes ([unescape_escape]), hexadecimal
      ([Hex_UnHex]), dates ([date_roundtrip]), the byte buffer ([String_framing]), base64
      ([base64_roundtrip]), percent encoding, parsing and the query of URIs ([uri_roundtrip],
      [uri_parse], [query_roundtrip]), XML entities ([xml_roundtrip]), JSON values ([json_roundtrip]),
      RPC values ([rpc_roundtrip]), times ([tm_roundtrip]),
      files ([text_file_roundtrip]), permissions ([permission_roundtrip]), the tempering of the random
      numbers ([untemper_temper]).
    - Functional behaviour: the calendar ([julian_calendar], [dayOfYear_spec], [addToMonth_spec]), the
      parts of strings ([section_char_join], [between_cc_spec]), sorting ([sort_permutation],
      [partition_spec]), the buffer ([writeData_spec], [read_spec], [readUntil_spec]), the parser on a
      whole document ([elements_spec], [attributes_spec], [getContent_spec]), the query fields
      ([getQueryMap_spec], [addQueryField_spec]), the lines of a file ([read_lines_spec], [readAll_ok]),
      the parts of a path ([path_parts]), directories ([MakeDir_recursive], [Copy_spec], [Move_spec],
      [Delete_spec]), check sums ([value16_spec], [ip_checksum_verifies]), echo requests and replies
      ([echo_request_spec], [echo_reply_spec], [error_reply_spec]),
      the Mersenne Twister ([reload_recurrence], [randomInt_to_spec]).
    - Defects, as theorems on the same definitions: an [unpause] that is lost for ever ([lost_wakeup])
      and a [pause] without effect ([pause_ineffective]); pools that run into a null pointer
      ([pool_defects]); a dictionary that loses its balance on removal ([removal_unbalances]) and takes
      strings of one hash for one key ([colliding_keys]); a connection with a time limit that cannot be
      used ([connect_timeout_unconnected]); reads that lose a byte ([readAll_short], [read_spec]) or
      write beyond the buffer ([bufferedRecv_overflow]); requests and headers that are misread
      ([request_defects], [header_defects], [query_defects], [uri_query_and_fragment]); a replacement
      by the empty string that never ends ([replace_by_empty_diverges]) and hangs the XML parser
      ([attributes_line_end_hangs]); vectors that lose or overwrite elements ([value_shrink_loses],
      [addAt_last_overwrites]); December ([addToMonth_december]); what JSON, ini files and command
      lines lose ([json_defects], [ini_defects], [argument_defects]); RPC values and services, whose faults
      are never sent ([rpc_defects], [registry_defects], [fault_undefined], [xmlrpc_defects]); the HTTP
      client ([client_defects]); messages that overrun the logger ([log_defects]); echo requests
      whose buffer moves ([icmp_defects]); times ([datetime_defects]); lines that are joined
      ([readLine_joins]); directories that everybody may write to ([permission_bits], [fs_defects]) and
      a copy without end ([copy_into_itself]); and smaller ones:
      [toUpper_stale_hash], [empty_String_hazards], [IsValidHex_spec], [endsWith_spec],
      [Val_int64_negative], [between_cc_unclosed], [sort_two_unsorted], [dayOfWeek_from_monday],
      [datetime_incomparable], [decode_not_filtered], [empty_attribute_value], [cipher_overflows].

    ** Fuel

    A loop over a text recurses on the text or on a count that its length bounds, and the theorems
    show that the count is enough.  The find-and-replace loops take their fuel from the caller
    ([StrMem.run_op] gives one more than the length, which [String_refines] shows to be enough).  The
    walks through a dictionary have one more than its number of entries, which [Dictionary_refines]
    shows to be enough.  The loops that read a file or a socket and the draws of a bounded random
    number, which nothing in the state bounds, take their fuel from the caller too: the theorems give
    an amount that is enough for the bytes of the stream.  [Copy] and [Delete] recurse with the fuel of
    the caller, and the height of the directory is enough.

    ** Not modelled

    Floating point (Float, Double, the random numbers in [0, 1], the fractions of a second in Time and
    DateTime, Timer), what printf and strftime write for a format (the texts are definitions or calls of
    the system), wide characters; of the concurrent parts tryLock with a time limit, terminate and join,
    the exceptions that leave a thread's [run], and the destructors; the mutexes of the loggers; and
    everything that is a thin layer over the operating system: directory listings, addresses, datagrams,
    the sockets of ICMP and the round trip times, processes, the registry, system information and the RPC
    service that reports it, Windows services, log files, the input of the console, the bindings for Java
    and the programs built on the library. *)

From stdpp Require Export base list list_numbers strings numbers gmap.
From Stdlib Require Export ZArith Lia Ascii.

#[global] Open Scope Z_scope.

(** ** Outcomes of C++ code *)

(** The exceptions the modelled code throws ([include/srl/Exceptions.h], and those the headers of the
    components declare; [out_of_range] is that of the standard library). *)
Inductive exn :=
  | IOException
  | NullPointerException
  | OutOfMemoryException
  | IndexOutOfBoundsException
  | PermissionDeniedException
  | InvalidArgumentException
  | InvalidXML
  | MutexException
  | SemaphoreException
  | SocketException
  | SocketDisconnected
  | SocketTimeoutException
  | FileNotFoundException
  | out_of_range.

(** The outcome of running a piece of code: a value, an exception, undefined
    behaviour (an access outside an object, a write to a constant object, a
    read of an indeterminate byte), or the exhaustion of the fuel of a loop. *)
Inductive res (A : Type) :=
  | Ok (a : A)
  | Throw (e : exn)
  | UB
  | NoFuel.
Arguments Ok {A} a.
Arguments Throw {A} e.
Arguments UB {A}.
Arguments NoFuel {A}.

Definition bind {A B} (m : res A) (f : A -> res B) : res B :=
  match m with
  | Ok a => f a
  | Throw e => Throw e
  | UB => UB
  | NoFuel => NoFuel
  end.

Definition of_option {A} (o : option A) : res A :=
  match o with Some a => Ok a | None => UB end.

(** [assume b] is undefined behaviour unless [b] holds. *)
Definition assume (b : bool) : res unit := if b then Ok tt else UB.

Declare Scope srl_scope.
Delimit Scope srl_scope with srl.
Notation "'let?' x ':=' m 'in' k" := (bind m (fun x => k))
  (at level 10, x pattern, m at level 100, k at level 200) : srl_scope.
Notation "m ';;?' k" := (bind m (fun _ => k))
  (at level 199, right associativity) : srl_scope.
#[global] Open Scope srl_scope.

Lemma bind_Ok {A B} (m : res A) (f : A -> res B) b :
  bind m f = Ok b <-> exists a, m = Ok a /\ f a = Ok b.
Proof. destruct m; simpl; split; first [by eauto | discriminate | intros (? & ? & ?); congruence]. Qed.

Lemma bind_assoc {A B C} (m : res A) (f : A -> res B) (g : B -> res C) :
  bind (bind m f) g = bind m (fun a => bind (f a) g).
Proof. by destruct m. Qed.

#[export] Instance exn_eq_dec : EqDecision exn.
Proof. solve_decision. Defined.

#[export] Instance res_eq_dec `{EqDecision A} : EqDecision (res A).
Proof. solve_decision. Defined.

(** ** Machine integers, kept as [Z] with their wrap-around *)

Definition wrapU (w z : Z) : Z := z mod 2 ^ w.
Definition wrapS (w z : Z) : Z := (z + 2 ^ (w - 1)) mod 2 ^ w - 2 ^ (w - 1).

Abbreviation u8 := (wrapU 8).
Abbreviation u16 := (wrapU 16).
Abbreviation u32 := (wrapU 32).
Abbreviation u64 := (wrapU 64).
Abbreviation s8 := (wrapS 8).
Abbreviation s16 := (wrapS 16).
Abbreviation s32 := (wrapS 32).
Abbreviation s64 := (wrapS 64).

Lemma wrapU_range w z : 0 <= w -> 0 <= wrapU w z < 2 ^ w.
Proof. intros. apply Z.mod_pos_bound. by apply Z.pow_pos_nonneg. Qed.

Lemma wrapU_small w z : 0 <= z < 2 ^ w -> wrapU w z = z.
Proof. apply Z.mod_small. Qed.

Lemma wrapS_small w z : 0 < w -> - 2 ^ (w - 1) <= z < 2 ^ (w - 1) -> wrapS w z = z.
Proof.
  intros Hw Hz. unfold wrapS.
  assert (2 ^ w = 2 * 2 ^ (w - 1)) as E.
  { rewrite <- Z.pow_succ_r by lia. f_equal. lia. }
  rewrite Z.mod_small; lia.
Qed.

Lemma wrapS_range w z : 0 < w -> - 2 ^ (w - 1) <= wrapS w z < 2 ^ (w - 1).
Proof.
  intros Hw. unfold wrapS.
  assert (2 ^ w = 2 * 2 ^ (w - 1)) as E.
  { rewrite <- Z.pow_succ_r by lia. f_equal. lia. }
  pose proof (Z.mod_pos_bound (z + 2 ^ (w - 1)) (2 ^ w)).
  assert (0 < 2 ^ w) by (apply Z.pow_pos_nonneg; lia). lia.
Qed.

Lemma wrapU_wrapU w z : wrapU w (wrapU w z) = wrapU w z.
Proof. apply Zmod_mod. Qed.

Lemma wrapS_wrapU w z : wrapS w (wrapU w z) = wrapS w z.
Proof. unfold wrapS, wrapU. by rewrite Zplus_mod_idemp_l. Qed.

(** Normalise the powers of two of the widths and finish with [lia]. *)
Ltac width :=
  unfold wrapU, wrapS in *;
  change (2 ^ 8) with 256 in *; change (2 ^ 16) with 65536 in *;
  change (2 ^ 32) with 4294967296 in *;
  change (2 ^ (8 - 1)) with 128 in *; change (2 ^ (16 - 1)) with 32768 in *;
  change (2 ^ (32 - 1)) with 2147483648 in *;
  change (2 ^ 64) with 18446744073709551616 in *;
  change (2 ^ (64 - 1)) with 9223372036854775808 in *;
  lia.

(** [ROUNDUP(n, roundval)] of [types.h], at type [uint32]. *)
Definition ROUNDUP (n roundval : Z) : Z :=
  Z.land (u32 (n + roundval - 1)) (u32 (- roundval)).

Lemma land_neg_pow2 x k :
  0 <= k <= 32 -> 0 <= x < 2 ^ 32 -> Z.land x (u32 (- 2 ^ k)) = x / 2 ^ k * 2 ^ k.
Proof.
  intros Hk Hx. unfold wrapU.
  rewrite <- Z.land_ones by lia.
  rewrite (Z.land_comm (- 2 ^ k)), Z.land_assoc, (Z.land_ones x) by lia.
  rewrite (Z.mod_small x) by done.
  replace (- 2 ^ k) with (Z.lnot (Z.ones k)) by (rewrite Z.ones_equiv; unfold Z.lnot; lia).
  rewrite <- Z.ldiff_land, Z.ldiff_ones_r by lia.
  rewrite Z.shiftl_mul_pow2, Z.shiftr_div_pow2 by lia. done.
Qed.

Lemma ROUNDUP_spec n k :
  0 <= k <= 32 -> 0 <= n -> n + 2 ^ k - 1 < 2 ^ 32 ->
  ROUNDUP n (2 ^ k) = (n + 2 ^ k - 1) / 2 ^ k * 2 ^ k.
Proof.
  intros. unfold ROUNDUP.
  assert (0 < 2 ^ k) by (apply Z.pow_pos_nonneg; lia).
  rewrite (wrapU_small 32 (n + _ - 1)) by lia.
  apply land_neg_pow2; lia.
Qed.

(** The rounded size is the least multiple of [2 ^ k] that is at least [n]. *)
Lemma ROUNDUP_bounds n k :
  0 <= k <= 32 -> 0 <= n -> n + 2 ^ k - 1 < 2 ^ 32 ->
  n <= ROUNDUP n (2 ^ k) < n + 2 ^ k /\ (2 ^ k | ROUNDUP n (2 ^ k)).
Proof.
  intros. rewrite ROUNDUP_spec by done.
  assert (0 < 2 ^ k) by (apply Z.pow_pos_nonneg; lia).
  pose proof (Z.div_mod (n + 2 ^ k - 1) (2 ^ k)).
  pose proof (Z.mod_pos_bound (n + 2 ^ k - 1) (2 ^ k)).
  split; [lia|]. eexists. reflexivity.
Qed.

(** ** Characters: the C [char] is [ascii]; [ord] is its value as [unsigned char],
    [sord] its value as (signed) [char] on the targets of the build *)

Abbreviation char := ascii.
Abbreviation str := (list ascii).

Definition ord (c : char) : Z := Z.of_N (N_of_ascii c).
Definition sord (c : char) : Z := s8 (ord c).
Definition chr (z : Z) : char := ascii_of_N (Z.to_N (u8 z)).

Definition NUL : char := chr 0.

Lemma ord_range c : 0 <= ord c < 256.
Proof. destruct c as [[] [] [] [] [] [] [] []]; vm_compute; split; congruence. Qed.

Lemma chr_ord c : chr (ord c) = c.
Proof. destruct c as [[] [] [] [] [] [] [] []]; reflexivity. Qed.

Lemma ord_chr z : ord (chr z) = u8 z.
Proof.
  unfold ord, chr. rewrite N_ascii_embedding.
  - rewrite Z2N.id; [done|]. apply wrapU_range. lia.
  - pose proof (wrapU_range 8 z). change (2 ^ 8) with 256 in *. lia.
Qed.

Lemma ord_inj c d : ord c = ord d -> c = d.
Proof. intros E. rewrite <- (chr_ord c), <- (chr_ord d). by rewrite E. Qed.

(** Prove a statement about every character by evaluating it on the 256 of them. *)
Ltac all_chars c := destruct c as [[] [] [] [] [] [] [] []]; vm_compute.

(** The characters of a string literal of the source. *)
Definition lit (s : string) : str := String.list_ascii_of_string s.
Arguments lit s%_string.

(** ** Lists indexed by [Z], as C arrays are *)

Definition zlen {A} (l : list A) : Z := Z.of_nat (length l).

Definition zget {A} (l : list A) (i : Z) : option A :=
  if i <? 0 then None else l !! Z.to_nat i.

(** [l[i] = x]; [None] outside the array. *)
Definition zset {A} (l : list A) (i : Z) (x : A) : option (list A) :=
  if (0 <=? i) && (i <? zlen l) then Some (<[Z.to_nat i := x]> l) else None.

Definition ztake {A} (i : Z) (l : list A) : list A := take (Z.to_nat i) l.
Definition zdrop {A} (i : Z) (l : list A) : list A := drop (Z.to_nat i) l.

(** The [n] elements from index [i]. *)
Definition zsub {A} (i n : Z) (l : list A) : list A := ztake n (zdrop i l).

Lemma zlen_nonneg {A} (l : list A) : 0 <= zlen l.
Proof. unfold zlen. lia. Qed.
Lemma zlen_nil {A} : zlen (@nil A) = 0.
Proof. done. Qed.
Lemma zlen_cons {A} (x : A) l : zlen (x :: l) = zlen l + 1.
Proof. unfold zlen. simpl. lia. Qed.
Lemma zlen_app {A} (l k : list A) : zlen (l ++ k) = zlen l + zlen k.
Proof. unfold zlen. rewrite length_app. lia. Qed.
Lemma zlen_take {A} i (l : list A) : zlen (ztake i l) = Z.min (Z.max 0 i) (zlen l).
Proof. unfold zlen, ztake. rewrite length_take. lia. Qed.
Lemma zlen_drop {A} i (l : list A) : zlen (zdrop i l) = zlen l - Z.min (Z.max 0 i) (zlen l).
Proof. unfold zlen, zdrop. rewrite length_drop. lia. Qed.
Lemma zlen_fmap {A B} (f : A -> B) l : zlen (f <$> l) = zlen l.
Proof. unfold zlen. by rewrite length_fmap. Qed.
Lemma zlen_replicate {A} n (x : A) : zlen (replicate n x) = Z.of_nat n.
Proof. unfold zlen. by rewrite length_replicate. Qed.
Lemma zlen_insert {A} i (x : A) l : zlen (<[i := x]> l) = zlen l.
Proof. unfold zlen. by rewrite length_insert. Qed.

Lemma zget_lookup {A} (l : list A) i : 0 <= i -> zget l i = l !! Z.to_nat i.
Proof. intros. unfold zget. by destruct (Z.ltb_spec i 0); [lia|]. Qed.

Lemma zget_Some {A} (l : list A) i x : zget l i = Some x -> 0 <= i < zlen l.
Proof.
  unfold zget, zlen. destruct (Z.ltb_spec i 0); [done|].
  intros ?%lookup_lt_Some. lia.
Qed.

Lemma zget_is_Some {A} (l : list A) i : 0 <= i < zlen l -> exists x, zget l i = Some x.
Proof.
  intros H. rewrite zget_lookup by lia. apply lookup_lt_is_Some. unfold zlen in H. lia.
Qed.

Lemma zget_None {A} (l : list A) i : zget l i = None <-> i < 0 \/ zlen l <= i.
Proof.
  unfold zget, zlen. destruct (Z.ltb_spec i 0); [naive_solver lia|].
  rewrite lookup_ge_None. lia.
Qed.

Lemma zget_app_l {A} (l k : list A) i : i < zlen l -> zget (l ++ k) i = zget l i.
Proof.
  intros. unfold zget, zlen in *. destruct (Z.ltb_spec i 0); [done|].
  apply lookup_app_l. lia.
Qed.

Lemma zget_app_r {A} (l k : list A) i : zlen l <= i -> zget (l ++ k) i = zget k (i - zlen l).
Proof.
  intros. unfold zget, zlen in *.
  destruct (Z.ltb_spec i 0), (Z.ltb_spec (i - Z.of_nat (length l)) 0); try lia.
  rewrite lookup_app_r by lia. f_equal. lia.
Qed.

Lemma zset_Some {A} (l : list A) i x :
  0 <= i < zlen l -> zset l i x = Some (<[Z.to_nat i := x]> l).
Proof.
  intros. unfold zset. by replace ((0 <=? i) && (i <? zlen l)) with true by lia.
Qed.

Lemma zset_None {A} (l : list A) i x : i < 0 \/ zlen l <= i -> zset l i x = None.
Proof.
  intros. unfold zset. by replace ((0 <=? i) && (i <? zlen l)) with false by lia.
Qed.

Lemma zget_insert {A} (l : list A) i j x :
  0 <= i < zlen l -> 0 <= j -> zget (<[Z.to_nat i := x]> l) j = if i =? j then Some x else zget l j.
Proof.
  intros Hi Hj. rewrite !zget_lookup by lia. unfold zlen in Hi.
  destruct (Z.eqb_spec i j) as [->|].
  - apply list_lookup_insert_eq. lia.
  - apply list_lookup_insert_ne. lia.
Qed.

Lemma ztake_zdrop {A} i (l : list A) : ztake i l ++ zdrop i l = l.
Proof. apply take_drop. Qed.

Lemma ztake_ge {A} i (l : list A) : zlen l <= i -> ztake i l = l.
Proof. intros. apply take_ge. unfold zlen in *. lia. Qed.

Lemma zdrop_ge {A} i (l : list A) : zlen l <= i -> zdrop i l = [].
Proof. intros. apply drop_ge. unfold zlen in *. lia. Qed.

Lemma ztake_le {A} i (l : list A) : i <= 0 -> ztake i l = [].
Proof. intros. unfold ztake. by replace (Z.to_nat i) with 0%nat by lia. Qed.

Lemma zdrop_le {A} i (l : list A) : i <= 0 -> zdrop i l = l.
Proof. intros. unfold zdrop. by replace (Z.to_nat i) with 0%nat by lia. Qed.

(** The lengths of list expressions, for [lia]. *)
Create Rewrite HintDb zlen.
#[export] Hint Rewrite @zlen_nil @zlen_cons @zlen_app @zlen_take @zlen_drop @zlen_fmap
  @zlen_replicate @zlen_insert : zlen.
Ltac pose_zlen l :=
  lazymatch goal with
  | _ : 0 <= zlen l |- _ => fail
  | _ => pose proof (zlen_nonneg l)
  end.
Ltac zlen_lia :=
  autorewrite with zlen in *;
  repeat match goal with
  | |- context [zlen ?l] => pose_zlen l
  | H : context [zlen ?l] |- _ => pose_zlen l
  end; lia.
