(* ===== verification/State.v ===== *)
(** * Commands on an object

    A method that changes its object runs in this monad: it maps the object to an outcome and the
    object it leaves behind.  Unlike an outcome in [res] of a pair, an exception keeps the changes made
    before it was thrown.  [does] and [yields] state what a method does from a given object, with rules that follow
    the code. *)

From S2P Require Import Prelude.

Definition ST (S A : Type) : Type := S -> res A * S.

Section commands.
Context {S : Type}.

Definition sret {A} (a : A) : ST S A := fun s => (Ok a, s).
Definition sbind {A B} (m : ST S A) (f : A -> ST S B) : ST S B := fun s =>
  match m s with
  | (Ok a, s) => f a s
  | (Throw e, s) => (Throw e, s)
  | (UB, s) => (UB, s)
  | (NoFuel, s) => (NoFuel, s)
  end.
Definition sthrow {A} (e : exn) : ST S A := fun s => (Throw e, s).
Definition sfail {A} : ST S A := fun s => (NoFuel, s).
Definition get {A} (f : S -> A) : ST S A := fun s => (Ok (f s), s).
Definition modify (f : S -> S) : ST S unit := fun s => (Ok tt, f s).
Definition lift {A} (r : res A) : ST S A := fun s => (r, s).

(** Run a command on a part of the object. *)
Definition zoom {T A} (f : S -> T) (upd : S -> T -> S) (m : ST T A) : ST S A := fun s =>
  let '(r, t) := m (f s) in (r, upd s t).

(** [try { m } catch (Exception &e) { h }] *)
Definition try {A} (m : ST S A) (h : exn -> ST S A) : ST S A := fun s =>
  match m s with
  | (Throw e, s) => h e s
  | r => r
  end.
End commands.

Notation "'let!' x ':=' m 'in' k" := (sbind m (fun x => k))
  (at level 10, x pattern, m at level 100, k at level 200) : srl_scope.
Notation "m ';;!' k" := (sbind m (fun _ => k)) (at level 199, right associativity) : srl_scope.

(** ** What a command does *)

Section runs.
Context {S : Type}.
Implicit Types s : S.

(** From [s], the command ends as [Q] says. *)
Definition does {A} (m : ST S A) s (Q : res A -> S -> Prop) : Prop := Q (m s).1 (m s).2.

(** ... and succeeds. *)
Definition yields {A} (m : ST S A) s (Q : A -> S -> Prop) : Prop :=
  does m s (fun r s' => match r with Ok a => Q a s' | _ => False end).

Lemma does_bind {A B} (m : ST S A) (f : A -> ST S B) s (Q : res B -> S -> Prop) :
  does m s (fun r s' => match r with
    | Ok a => does (f a) s' Q | Throw e => Q (Throw e) s' | UB => Q UB s' | NoFuel => Q NoFuel s' end) ->
  does (let! a := m in f a) s Q.
Proof. unfold does, sbind. by destruct (m s) as [[]]. Qed.

Lemma yields_bind {A B} (m : ST S A) (f : A -> ST S B) s (Q : B -> S -> Prop) :
  yields m s (fun a s' => yields (f a) s' Q) -> yields (let! a := m in f a) s Q.
Proof. unfold yields. intros H. apply does_bind. unfold does in *. by destruct (m s) as [[]]. Qed.

Lemma yields_mono {A} (m : ST S A) s (Q Q' : A -> S -> Prop) :
  yields m s Q -> (forall a s', Q a s' -> Q' a s') -> yields m s Q'.
Proof. unfold yields, does. destruct (m s) as [[]]; naive_solver. Qed.

Lemma does_mono {A} (m : ST S A) s (Q Q' : res A -> S -> Prop) :
  does m s Q -> (forall r s', Q r s' -> Q' r s') -> does m s Q'.
Proof. unfold does. auto. Qed.

Lemma yields_Ok {A} (m : ST S A) s (Q : A -> S -> Prop) :
  yields m s Q <-> exists a s', m s = (Ok a, s') /\ Q a s'.
Proof.
  unfold yields, does. destruct (m s) as [[a|e| |] s']; cbn; split;
    first [by eauto | done | by intros (? & ? & [= -> ->] & ?) | by intros (? & ? & ? & ?)].
Qed.

Lemma yields_ret {A} (a : A) s (Q : A -> S -> Prop) : Q a s -> yields (sret a) s Q.
Proof. done. Qed.
Lemma yields_get {A} (f : S -> A) s (Q : A -> S -> Prop) : Q (f s) s -> yields (get f) s Q.
Proof. done. Qed.
Lemma yields_modify f s (Q : unit -> S -> Prop) : Q tt (f s) -> yields (modify f) s Q.
Proof. done. Qed.
Lemma yields_lift {A} (r : res A) a s (Q : A -> S -> Prop) : r = Ok a -> Q a s -> yields (lift r) s Q.
Proof. by intros ->. Qed.
End runs.

Section zoom.
Context {S T : Type}.
Implicit Types s : S.

Lemma yields_zoom {A} (f : S -> T) upd (m : ST T A) s (Q : A -> S -> Prop) :
  (exists a t, m (f s) = (Ok a, t) /\ Q a (upd s t)) -> yields (zoom f upd m) s Q.
Proof. intros (a & t & E & HQ). unfold yields, does, zoom. by rewrite E. Qed.
Lemma does_zoom {A} (f : S -> T) upd (m : ST T A) s (Q : res A -> S -> Prop) :
  does m (f s) (fun r t => Q r (upd s t)) -> does (zoom f upd m) s Q.
Proof. unfold does, zoom. by destruct (m (f s)). Qed.
End zoom.
