(* ===== verification/CString.v ===== *)
(** * The C library functions on characters and NUL-terminated strings

    A [const char*] argument is the list of the characters found in memory from
    the pointer on; a NUL follows the list.  The list may itself contain a NUL,
    which ends the C string earlier ([cstr]).  These are the functions of
    <cstring>, <cctype> and <cstdlib> (in the "C" locale, with 64-bit [long])
    that [String] and its clients call. *)

From S2P Require Import Prelude.

(** The characters before the terminator. *)
Fixpoint cstr (s : str) : str :=
  match s with
  | [] => []
  | c :: s' => if decide (c = NUL) then [] else c :: cstr s'
  end.

Definition strlen (s : str) : Z := zlen (cstr s).

(** Offset of the first [c]; the terminator is part of the string. *)
Fixpoint strchr (s : str) (c : char) : option Z :=
  match s with
  | [] => if decide (c = NUL) then Some 0 else None
  | d :: s' =>
      if decide (d = c) then Some 0
      else if decide (d = NUL) then None else Z.succ <$> strchr s' c
  end.

Fixpoint is_prefix (p s : str) : bool :=
  match p, s with
  | [], _ => true
  | c :: p', d :: s' => bool_decide (c = d) && is_prefix p' s'
  | _ :: _, [] => false
  end.

(** Offset of the first occurrence of [p] in [s]. *)
Fixpoint search (p s : str) : option Z :=
  if is_prefix p s then Some 0
  else match s with [] => None | _ :: s' => Z.succ <$> search p s' end.

Definition strstr (s p : str) : option Z := search (cstr p) (cstr s).

(** [strncmp(a, b, n) == 0] *)
Fixpoint strncmp_eq (a b : str) (n : nat) : bool :=
  match n with
  | O => true
  | S n' =>
      let c := default NUL (head a) in
      let d := default NUL (head b) in
      bool_decide (c = d) && (bool_decide (c = NUL) || strncmp_eq (tail a) (tail b) n')
  end.

Definition between_ord (lo hi : char) (c : char) : bool := (ord lo <=? ord c) && (ord c <=? ord hi).

Definition isupper (c : char) : bool := between_ord "A" "Z" c.
Definition islower (c : char) : bool := between_ord "a" "z" c.
Definition isdigit (c : char) : bool := between_ord "0" "9" c.
Definition isxdigit (c : char) : bool :=
  isdigit c || between_ord "a" "f" c || between_ord "A" "F" c.
Definition toupper (c : char) : char := if islower c then chr (ord c - 32) else c.
Definition tolower (c : char) : char := if isupper c then chr (ord c + 32) else c.

(** ' ' and '\t' .. '\r' *)
Definition isspace (c : char) : bool := (ord c =? 32) || ((9 <=? ord c) && (ord c <=? 13)).

(** The value of a digit of [strtol]. *)
Definition digit_value (c : char) : option Z :=
  if isdigit c then Some (ord c - 48)
  else if islower c then Some (ord c - 97 + 10)
  else if isupper c then Some (ord c - 65 + 10)
  else None.

(** The digits of base [base] at the front of [s], accumulated on [acc]. *)
Fixpoint read_digits (base : Z) (s : str) (acc : Z) : Z :=
  match s with
  | [] => acc
  | c :: s' =>
      match digit_value c with
      | Some v => if v <? base then read_digits base s' (acc * base + v) else acc
      | None => acc
      end
  end.

Fixpoint skip_space (s : str) : str :=
  match s with
  | c :: s' => if isspace c then skip_space s' else s
  | [] => []
  end.

Definition read_sign (s : str) : bool * str :=
  match s with
  | c :: s' => if decide (c = "-"%char) then (true, s')
               else if decide (c = "+"%char) then (false, s') else (false, s)
  | [] => (false, [])
  end.

(** The "0x" prefix base 16 allows, when a hexadecimal digit follows it. *)
Definition skip_0x (base : Z) (s : str) : str :=
  match s with
  | z :: x :: d :: s' =>
      if (base =? 16) && bool_decide (z = "0"%char) &&
         (bool_decide (x = "x"%char) || bool_decide (x = "X"%char)) && isxdigit d
      then d :: s' else s
  | _ => s
  end.

Definition strto (s : str) (base : Z) : bool * Z :=
  let '(neg, s1) := read_sign (skip_space (cstr s)) in
  (neg, read_digits base (skip_0x base s1) 0).

(** [strtol(s, NULL, base)] for [2 <= base <= 36], with the clamping to [long]. *)
Definition strtol (s : str) (base : Z) : Z :=
  let '(neg, v) := strto s base in
  Z.max (- 2 ^ 63) (Z.min (2 ^ 63 - 1) (if neg then - v else v)).

(** [strtoul(s, NULL, base)]: the negation is done in [unsigned long]. *)
Definition strtoul (s : str) (base : Z) : Z :=
  let '(neg, v) := strto s base in
  if 2 ^ 64 <=? v then 2 ^ 64 - 1 else if neg then u64 (- v) else v.

(** ** Their laws *)

(** The strings without an embedded NUL, on which C and C++ views agree. *)
Definition nul_free (s : str) : Prop := Forall (fun c => c <> NUL) s.

#[export] Instance nul_free_dec s : Decision (nul_free s).
Proof. apply Forall_dec. intros c. destruct (decide (c = NUL)); [right; by intros ?|by left]. Defined.

Lemma cstr_nul_free s : nul_free (cstr s).
Proof. induction s; simpl; [constructor|]. case_decide; by constructor. Qed.

Lemma cstr_id s : nul_free s -> cstr s = s.
Proof. induction 1; simpl; [done|]. rewrite decide_False by done. by f_equal. Qed.

Lemma nul_free_app s t : nul_free (s ++ t) <-> nul_free s /\ nul_free t.
Proof. apply Forall_app. Qed.

Lemma nul_free_cons c s : nul_free (c :: s) <-> c <> NUL /\ nul_free s.
Proof. apply Forall_cons_iff. Qed.

Lemma strlen_id s : nul_free s -> strlen s = zlen s.
Proof. intros. unfold strlen. by rewrite cstr_id. Qed.

(** [strchr] returns the least offset that holds [c]. *)
Lemma strchr_Some s c i :
  nul_free s -> strchr s c = Some i ->
  0 <= i <= zlen s /\ zget (s ++ [NUL]) i = Some c /\
  forall j, 0 <= j < i -> zget s j <> Some c.
Proof.
  revert i. induction s as [|d s IH]; intros i Hf; simpl.
  - case_decide; [|done]. intros [= <-]. subst c. split_and!; [lia|done|done|lia].
  - apply nul_free_cons in Hf as [Hd Hf]. case_decide as E.
    + intros [= <-]. subst d. rewrite zlen_cons. pose proof (zlen_nonneg s).
      split_and!; [lia|lia|done|lia].
    + rewrite decide_False by done. destruct (strchr s c) as [k|]; [|done].
      intros [= <-]. destruct (IH k Hf eq_refl) as ((? & ?) & Hg & Hn).
      rewrite zlen_cons. split_and!; [lia|lia| |].
      * unfold zget in *. destruct (Z.ltb_spec k 0), (Z.ltb_spec (Z.succ k) 0); try lia.
        by rewrite Z2Nat.inj_succ.
      * intros j Hj. destruct (decide (j = 0)) as [->|].
        { unfold zget. simpl. congruence. }
        specialize (Hn (j - 1)). rewrite zget_lookup in Hn |- * by lia.
        replace (Z.to_nat j) with (S (Z.to_nat (j - 1))) by lia. apply Hn. lia.
Qed.

Lemma strchr_None s c : nul_free s -> strchr s c = None <-> c <> NUL /\ c ∉ s.
Proof.
  induction s as [|d s IH]; intros Hf; simpl.
  - case_decide; split; [done|naive_solver|split; [done|apply not_elem_of_nil]|done].
  - apply nul_free_cons in Hf as [Hd Hf]. rewrite not_elem_of_cons.
    case_decide as E; [naive_solver|]. rewrite decide_False by done.
    destruct (strchr s c); simpl; naive_solver.
Qed.

(** The search for a delimiter stops right after a prefix that has none. *)
Lemma strchr_app s c t :
  nul_free s -> c ∉ s -> strchr (s ++ c :: t) c = Some (zlen s).
Proof.
  induction s as [|d s IH]; intros Hf Hc; simpl.
  - by rewrite decide_True.
  - apply nul_free_cons in Hf as [Hd Hf]. apply not_elem_of_cons in Hc as [Hc1 Hc2].
    rewrite decide_False by done. rewrite decide_False by done.
    rewrite IH by done. simpl. f_equal. zlen_lia.
Qed.

Lemma is_prefix_spec p s : is_prefix p s = true <-> exists k, s = p ++ k.
Proof.
  revert s. induction p as [|c p IH]; intros s; simpl.
  - naive_solver.
  - destruct s as [|d s]; [naive_solver|].
    rewrite andb_true_iff, bool_decide_eq_true, IH. naive_solver.
Qed.

(** [search] returns the least offset at which [p] occurs. *)
Lemma search_Some p s i :
  search p s = Some i ->
  0 <= i <= zlen s /\ is_prefix p (zdrop i s) = true /\
  forall j, 0 <= j < i -> is_prefix p (zdrop j s) = false.
Proof.
  revert i. induction s as [|d s IH]; intros i; simpl.
  - destruct (is_prefix p []) eqn:E; [|done]. intros [= <-].
    split_and!; [lia|done|done|lia].
  - destruct (is_prefix p (d :: s)) eqn:E.
    + intros [= <-]. split_and!; [lia|apply zlen_nonneg|done|lia].
    + destruct (search p s) as [k|] eqn:Ek; [|done]. intros [= <-].
      destruct (IH k eq_refl) as ((? & ?) & Hg & Hn).
      assert (forall j, 0 <= j -> zdrop (Z.succ j) (d :: s) = zdrop j s) as Hs.
      { intros. unfold zdrop. by rewrite Z2Nat.inj_succ by lia. }
      rewrite zlen_cons. split_and!; [lia|lia|by rewrite Hs by lia|].
      intros j Hj. destruct (decide (j = 0)) as [->|]; [done|].
      replace j with (Z.succ (j - 1)) by lia. rewrite Hs by lia. apply Hn. lia.
Qed.

Lemma search_None p s i :
  search p s = None -> 0 <= i <= zlen s -> is_prefix p (zdrop i s) = false.
Proof.
  revert i. induction s as [|d s IH]; intros i; simpl.
  - destruct (is_prefix p []) eqn:E; [done|]. intros _ Hi.
    replace i with 0 by (revert Hi; zlen_lia). done.
  - destruct (is_prefix p (d :: s)) eqn:E; [done|].
    destruct (search p s) eqn:Es; [done|]. rewrite zlen_cons. intros _ Hi.
    destruct (decide (i = 0)) as [->|]; [done|].
    unfold zdrop. replace (Z.to_nat i) with (S (Z.to_nat (i - 1))) by lia.
    apply IH; [done|lia].
Qed.

Lemma cstr_app s t : nul_free s -> cstr (s ++ t) = s ++ cstr t.
Proof.
  induction s as [|c s IH]; intros Hf; [done|]. apply nul_free_cons in Hf as [Hc Hf].
  simpl. by rewrite decide_False, IH by done.
Qed.

Lemma search_first c p a t : c ∉ a -> search (c :: p) (a ++ (c :: p) ++ t) = Some (zlen a).
Proof.
  assert (is_prefix (c :: p) ((c :: p) ++ t) = true) as Hp by (apply is_prefix_spec; by eexists).
  induction a as [|d a IH]; intros Ha.
  - simpl in *. by rewrite Hp.
  - apply not_elem_of_cons in Ha as [Hc Ha]. specialize (IH Ha). simpl in *.
    rewrite IH, (bool_decide_eq_false_2 (c = d)) by done. simpl. by rewrite zlen_cons.
Qed.
