(* ===== verification/JSON.v ===== *)
(** * JSON (src/cpp/src/json/JSON.cpp, include/srl/json/JSON.h)

    The recursive parser reads a [std::istream] and gives up only the last character when a pattern
    does not match, so the state of the stream is modelled: the characters ahead, [eofbit] and
    [failbit], with the operations of <istream> that the code calls.  A [std::map] is the list of its
    pairs in the order of the keys.  How the standard library reads and writes a [double] is the
    parameter [Number]. *)

From stdpp Require Import sorting.
From S2P Require Import Prelude State CString.

(** ** Input streams *)

Record istream := mkStream { ahead : str; eofbit : bool; failbit : bool }.
Definition stream_of (s : str) : istream := mkStream s false false.
Definition good (s : istream) : bool := negb (eofbit s) && negb (failbit s).

Abbreviation M := (ST istream).

Definition set_fail (s : istream) : istream := mkStream (ahead s) (eofbit s) true.
Definition at_end (l : str) : bool := bool_decide (l = []).

(** Every input function first makes a sentry, which fails on a stream that is not good. *)
Definition sentry {A} (a : A) (m : M A) : M A :=
  let! g := get good in if g : bool then m else (modify set_fail ;;! sret a).

(** [input >> std::ws] *)
Definition ws : M unit := sentry tt
  (modify (fun s => let l := skip_space (ahead s) in mkStream l (at_end l) false)).

(** [input.get(ch)] keeps [ch] when there is no character; [None] is a variable not yet written. *)
Definition getc (ch : option char) : M (option char) := sentry ch
  (fun s => match ahead s with
            | c :: l => (Ok (Some c), mkStream l false false)
            | [] => (Ok ch, mkStream [] true true)
            end).

(** [input.putback(ch)] of the character read last: it clears [eofbit] first. *)
Definition putback (ch : char) : M unit :=
  modify (fun s => mkStream (ahead s) false (failbit s)) ;;!
  sentry tt (modify (fun s => mkStream (ch :: ahead s) false false)).

Definition peek : M (option char) := sentry None
  (fun s => match ahead s with
            | c :: _ => (Ok (Some c), s)
            | [] => (Ok None, mkStream [] true false)
            end).

(** [input.clear()] *)
Definition clear : M unit := modify (fun s => mkStream (ahead s) false false).

(** [operator>>] and [operator<<] of a [double]: [num_get] takes the value off the front of the
    characters, if they have one, and leaves the rest; it may leave less than it was given even when
    it fails. *)
Class Number := {
  double : Type;
  num_get : str -> option double * str;
  num_put : double -> str;
}.

(** ** Values *)

Unset Elimination Schemes.
Section JSON.
Context {num : Number}.

Inductive Value :=
  | INVALID_
  | NUMBER_ (d : double)
  | STRING_ (s : str)
  | BOOL_ (b : bool)
  | NULL_
  | ARRAY_ (l : list Value)
  | OBJECT_ (m : list (str * Value)).

(** [std::less<std::string>]: characters compare as [unsigned char]. *)
Fixpoint str_lt (a b : str) : bool :=
  match a, b with
  | _, [] => false
  | [], _ :: _ => true
  | c :: a', d :: b' => (ord c <? ord d) || ((ord c =? ord d) && str_lt a' b')
  end.

(** [object.value_map_[key] = v] *)
Fixpoint map_set (key : str) (v : Value) (m : list (str * Value)) : list (str * Value) :=
  match m with
  | [] => [(key, v)]
  | (k, w) :: m' =>
      if str_lt key k then (key, v) :: m
      else if bool_decide (key = k) then (key, v) :: m' else (k, w) :: map_set key v m'
  end.

(** ** The parser *)

Fixpoint match_loop (cur : str) (ch : option char) : M bool :=
  match cur with
  | [] => sret true
  | c :: cur' =>
      let! go := get good in
      if go : bool then
        let! ch := getc ch in
        match ch with
        | None => lift UB
        | Some d => if bool_decide (d = c) then match_loop cur' ch else putback d ;;! sret false
        end
      else sret false
  end.
Definition match_ (pattern : str) : M bool := ws ;;! match_loop pattern (Some NUL).

Definition QUOTE : char := chr 34.
Definition BACKSLASH : char := chr 92.

(** What the character behind a backslash adds to the string. *)
Definition unescaped (ch : char) : str :=
  if bool_decide (ch = QUOTE) || bool_decide (ch = BACKSLASH) || bool_decide (ch = "/"%char) then [ch]
  else match ch with
       | "b" => [chr 8] | "f" => [chr 12] | "n" => [chr 10] | "r" => [chr 13] | "t" => [chr 9]
       | _ => [BACKSLASH; ch]
       end%char.

(** The last character read, and the string. *)
Fixpoint string_loop (ch : option char) (value : str) (fuel : nat) : M (option char * str) :=
  match fuel with
  | O => sfail
  | S fuel =>
      let! go := get good in
      if go : bool then
        let! ch := getc ch in
        match ch with
        | None => lift UB
        | Some c =>
            if bool_decide (c = QUOTE) then sret (ch, value)
            else if bool_decide (c = BACKSLASH) then
              let! ch := getc ch in
              match ch with
              | None => lift UB
              | Some e => string_loop ch (value ++ unescaped e) fuel
              end
            else string_loop ch (value ++ [c]) fuel
        end
      else sret (ch, value)
  end.

Definition parse_string : M (option str) :=
  let! m := match_ [QUOTE] in
  if m : bool then
    let! fuel := get (fun s => S (S (length (ahead s)))) in
    let! (ch, value) := string_loop None [] fuel in
    let! fail := get failbit in
    if fail : bool then sret None
    else match ch with
         | None => lift UB
         | Some c => sret (if bool_decide (c = QUOTE) then Some value else None)
         end
  else sret None.

Definition parse_bool : M (option bool) :=
  let! m := match_ (lit "true") in
  if m : bool then sret (Some true)
  else
    let! m := match_ (lit "false") in
    sret (if m : bool then Some false else None).

Definition parse_null : M bool := match_ (lit "null").

(** [input >> *value] *)
Definition extract : M (option double) := sentry None
  (let! _ := modify (fun s => mkStream (skip_space (ahead s)) false false) in
   fun s => let '(d, l) := num_get (ahead s) in
            (Ok d, mkStream l (at_end l) (match d with Some _ => false | None => true end))).

Definition parse_number : M (option double) :=
  ws ;;!
  let! d := extract in
  let! fail := get failbit in
  if fail : bool then clear ;;! sret None else sret d.

(** The loops of [Array::parse] and [Object::parse], for the parser [value] of the elements; [None]
    is an early return of false. *)
Section containers.
Variable value : M (option Value).

Fixpoint array_loop (values : list Value) (fuel : nat) : M (list Value) :=
  match fuel with
  | O => sfail
  | S fuel =>
      let! v := value in
      match v with
      | None => sret values
      | Some v =>
          let! more := match_ [","%char] in
          if more : bool then array_loop (values ++ [v]) fuel else sret (values ++ [v])
      end
  end.

Definition array_parse (fuel : nat) : M (option (list Value)) :=
  let! m := match_ ["["%char] in
  if m : bool then
    let! values := array_loop [] fuel in
    let! m := match_ ["]"%char] in
    sret (if m : bool then Some values else None)
  else sret None.

Fixpoint object_loop (object : list (str * Value)) (fuel : nat) : M (option (list (str * Value))) :=
  match fuel with
  | O => sfail
  | S fuel =>
      let! key := parse_string in
      match key with
      | None => sret None
      | Some key =>
          let! m := match_ [":"%char] in
          if m : bool then
            let! v := value in
            match v with
            | None => sret (Some object)
            | Some v =>
                let object := map_set key v object in
                let! more := match_ [","%char] in
                if more : bool then object_loop object fuel else sret (Some object)
            end
          else sret None
      end
  end.

Definition object_parse (fuel : nat) : M (option (list (str * Value))) :=
  let! m := match_ ["{"%char] in
  if m : bool then
    let! object := object_loop [] fuel in
    match object with
    | None => sret None
    | Some object =>
        let! m := match_ ["}"%char] in
        sret (if m : bool then Some object else None)
    end
  else sret None.
End containers.

(** [Value::parse] into a new value; [None] leaves it invalid. *)
Definition parse_value (value : M (option Value)) (fuel : nat) : M (option Value) :=
  let! string_value := parse_string in
  match string_value with
  | Some s => sret (Some (STRING_ s))
  | None =>
      let! number := parse_number in
      match number with
      | Some d => sret (Some (NUMBER_ d))
      | None =>
          let! b := parse_bool in
          match b with
          | Some b => sret (Some (BOOL_ b))
          | None =>
              let! n := parse_null in
              if n : bool then sret (Some NULL_)
              else
                let! c := peek in
                let! array_value :=
                  if bool_decide (c = Some "["%char) then array_parse value fuel else sret None in
                match array_value with
                | Some l => sret (Some (ARRAY_ l))
                | None =>
                    let! object_value := object_parse value fuel in
                    sret (option_map OBJECT_ object_value)
                end
          end
      end
  end.

(** The calls within each other, and the turns of a loop, are at most [fuel]. *)
Fixpoint parse (fuel : nat) : M (option Value) :=
  match fuel with
  | O => sfail
  | S fuel' => parse_value (parse fuel') fuel
  end.

(** ** Printing *)

(** [std::hex << std::setw(6) << std::setfill('0')] of an [int]. *)
Fixpoint hex_digits (n : Z) (fuel : nat) (acc : str) : str :=
  match fuel with
  | O => acc
  | S fuel =>
      let d := n mod 16 in
      let acc := chr (if d <? 10 then 48 + d else 87 + d) :: acc in
      if n / 16 =? 0 then acc else hex_digits (n / 16) fuel acc
  end.
Definition hex6 (n : Z) : str :=
  let d := hex_digits (u32 n) 8 [] in replicate (6 - length d) "0"%char ++ d.

Definition escaped (c : char) : str :=
  if bool_decide (c = QUOTE) || bool_decide (c = BACKSLASH) || bool_decide (c = "/"%char) then [BACKSLASH; c]
  else if bool_decide (c = chr 8) then [BACKSLASH; "b"%char]
  else if bool_decide (c = chr 12) then [BACKSLASH; "f"%char]
  else if bool_decide (c = chr 10) then [BACKSLASH; "n"%char]
  else if bool_decide (c = chr 13) then [BACKSLASH; "r"%char]
  else if bool_decide (c = chr 9) then [BACKSLASH; "t"%char]
  else if sord c <? 32 then [BACKSLASH; "u"%char] ++ hex6 (sord c)
  else [c].

Definition stream_string (s : str) : str := [QUOTE] ++ flat_map escaped s ++ [QUOTE].

Definition COMMA : str := lit ", ".

(** The last element of an array is written behind its loop, in an empty one too. *)
Fixpoint print (v : Value) : res str :=
  let fix print_array (l : list Value) : res str :=
    match l with
    | [] => UB
    | [v] => print v
    | v :: l' => let? t := print v in let? r := print_array l' in Ok (t ++ COMMA ++ r)
    end in
  let fix print_object (m : list (str * Value)) : res str :=
    match m with
    | [] => Ok []
    | (k, v) :: m' =>
        let? t := print v in
        let? r := print_object m' in
        Ok (stream_string k ++ lit ": " ++ t ++ match m' with [] => [] | _ => COMMA ++ r end)
    end in
  match v with
  | NUMBER_ d => Ok (num_put d)
  | STRING_ s => Ok (stream_string s)
  | BOOL_ b => Ok (if b then lit "true" else lit "false")
  | NULL_ => Ok (lit "null")
  | ARRAY_ l => let? t := print_array l in Ok (lit "[" ++ t ++ lit "]")
  | OBJECT_ m => let? t := print_object m in Ok (lit "{" ++ t ++ lit "}")
  | INVALID_ => Ok []
  end.

(** ** Access: the templates [is<T>] and [get<T>] *)

Definition is_Null (v : Value) : bool := match v with NULL_ => true | _ => false end.
Definition is_bool (v : Value) : bool := match v with BOOL_ _ => true | _ => false end.
Definition is_string (v : Value) : bool := match v with STRING_ _ => true | _ => false end.
Definition is_double (v : Value) : bool := match v with NUMBER_ _ => true | _ => false end.
Definition is_Array (v : Value) : bool := match v with ARRAY_ _ => true | _ => false end.
Definition is_Object (v : Value) : bool := match v with OBJECT_ _ => true | _ => false end.

(** The assertions are compiled away, so another member of the union is read. *)
Definition get_bool (v : Value) : res bool := match v with BOOL_ b => Ok b | _ => UB end.
Definition get_string (v : Value) : res str := match v with STRING_ s => Ok s | _ => UB end.
Definition get_double (v : Value) : res double := match v with NUMBER_ d => Ok d | _ => UB end.
Definition get_Array (v : Value) : res (list Value) := match v with ARRAY_ l => Ok l | _ => UB end.
Definition get_Object (v : Value) : res (list (str * Value)) := match v with OBJECT_ m => Ok m | _ => UB end.

(** A type for which the templates have both specialisations; [get] is fit for what [is_member] accepts. *)
Class Member (T : Type) := {
  is_member : Value -> bool;
  get_member : Value -> res T;
  is_get v : is_member v = true <-> exists x, get_member v = Ok x;
}.
#[global] Program Instance Member_bool : Member bool := {| is_member := is_bool; get_member := get_bool |}.
Next Obligation. intros []; cbn; naive_solver. Qed.
#[global] Program Instance Member_string : Member str := {| is_member := is_string; get_member := get_string |}.
Next Obligation. intros []; cbn; naive_solver. Qed.
#[global] Program Instance Member_double : Member double := {| is_member := is_double; get_member := get_double |}.
Next Obligation. intros []; cbn; naive_solver. Qed.
#[global] Program Instance Member_Array : Member (list Value) := {| is_member := is_Array; get_member := get_Array |}.
Next Obligation. intros []; cbn; naive_solver. Qed.
#[global] Program Instance Member_Object : Member (list (str * Value)) := {| is_member := is_Object; get_member := get_Object |}.
Next Obligation. intros []; cbn; naive_solver. Qed.

Definition Array_has (T : Type) `{Member T} (values : list Value) (i : Z) : bool :=
  if zlen values <=? i then false else match zget values i with Some v => is_member v | None => false end.

Definition Array_get (T : Type) `{Member T} (values : list Value) (i : Z) : res T :=
  match zget values i with Some v => get_member v | None => Throw out_of_range end.

Fixpoint find_key (key : str) (m : list (str * Value)) : option Value :=
  match m with
  | [] => None
  | (k, v) :: m' => if bool_decide (key = k) then Some v else find_key key m'
  end.

Definition Object_has (T : Type) `{Member T} (key : str) (m : list (str * Value)) : bool :=
  match find_key key m with Some v => is_member v | None => false end.

Definition Object_get (T : Type) `{Member T} (key : str) (m : list (str * Value)) : res T :=
  match find_key key m with Some v => get_member v | None => UB end.
End JSON.

(** ** Values, by induction *)

Section values.
Context {num : Number}.
Implicit Types (v : Value) (k : str).

Lemma Value_ind (P : Value -> Prop) :
  P INVALID_ -> (forall d, P (NUMBER_ d)) -> (forall s, P (STRING_ s)) -> (forall b, P (BOOL_ b)) -> P NULL_ ->
  (forall l, Forall P l -> P (ARRAY_ l)) ->
  (forall m : list (str * Value), Forall (fun p => P p.2) m -> P (OBJECT_ m)) -> forall v, P v.
Proof.
  intros HI HN HS HB H0 HA HO. fix IH 1. intros [|d|s|b| |l|m].
  - done.
  - apply HN.
  - apply HS.
  - apply HB.
  - done.
  - apply HA. induction l; constructor; auto.
  - apply HO. induction m as [|[k v] m IHm]; constructor; auto.
Qed.

(** [get] gives a value exactly where [has] says so, and otherwise reads what is not there. *)
Lemma object_access (T : Type) `{Member T} key (m : list (str * Value)) :
  if Object_has T key m then exists x, Object_get T key m = Ok x else forall x, Object_get T key m <> Ok x.
Proof.
  unfold Object_has, Object_get. destruct (find_key key m) as [v|]; [|done]. destruct (is_member v) eqn:E.
  - by apply is_get.
  - intros x Hx. rewrite (proj2 (is_get v) (ex_intro _ x Hx)) in E. done.
Qed.

Lemma array_access (T : Type) `{Member T} (l : list Value) i : 0 <= i ->
  if Array_has T l i then exists x, Array_get T l i = Ok x
  else Array_get T l i = Throw out_of_range \/ (i < zlen l /\ forall x, Array_get T l i <> Ok x).
Proof.
  intros Hi. unfold Array_has, Array_get. destruct (Z.leb_spec (zlen l) i) as [Hl|Hl].
  - left. by rewrite (proj2 (zget_None l i)) by lia.
  - destruct (zget_is_Some l i ltac:(lia)) as [v ->]. destruct (is_member v) eqn:E.
    + by apply is_get.
    + right. split; [done|]. intros x Hx. by rewrite (proj2 (is_get v) (ex_intro _ x Hx)) in E.
Qed.

(** *** The order of the keys *)

Lemma str_lt_cons c a d b : str_lt (c :: a) (d :: b) = (ord c <? ord d) || ((ord c =? ord d) && str_lt a b).
Proof. reflexivity. Qed.

Lemma str_lt_irrefl (s : str) : str_lt s s = false.
Proof. induction s as [|c s IH]; [done|]. rewrite str_lt_cons, IH. lia. Qed.

Lemma str_lt_trans a b c : str_lt a b = true -> str_lt b c = true -> str_lt a c = true.
Proof.
  revert b c. induction a as [|x a IH]; intros [|y b] [|z c]; try done. rewrite !str_lt_cons.
  intros Hab Hbc. destruct (str_lt a c) eqn:E; [lia|].
  destruct (str_lt a b) eqn:Eab, (str_lt b c) eqn:Ebc; try lia. by rewrite (IH b c) in E.
Qed.

Lemma str_lt_total a b : str_lt a b = false -> a <> b -> str_lt b a = true.
Proof.
  revert b. induction a as [|x a IH]; intros [|y b]; try done. rewrite !str_lt_cons. intros Hlt Hne.
  destruct (decide (ord x = ord y)) as [E%ord_inj|]; [|lia]. subst y.
  rewrite IH; [lia| |congruence]. destruct (str_lt a b); lia.
Qed.

Definition key_lt (p q : str * Value) : Prop := str_lt p.1 q.1 = true.

Lemma map_set_keys k v (m : list (str * Value)) p : p ∈ map_set k v m -> p = (k, v) \/ p ∈ m.
Proof.
  induction m as [|[k' w] m IH]; cbn; [set_solver|]. repeat case_match; set_solver.
Qed.

Lemma map_set_sorted k v (m : list (str * Value)) : StronglySorted key_lt m -> StronglySorted key_lt (map_set k v m).
Proof.
  induction 1 as [|[k' w] m Hm IH Hall]; cbn; [repeat constructor|].
  destruct (str_lt k k') eqn:E1; [|case_bool_decide as E2].
  - constructor; [by constructor|]. constructor; [done|].
    eapply Forall_impl; [done|]. intros [k2 w2]. unfold key_lt. cbn. by apply str_lt_trans.
  - subst k'. by constructor.
  - constructor; [done|]. rewrite Forall_forall in Hall |- *. intros p [->|Hp]%map_set_keys; [|by apply Hall].
    by apply str_lt_total.
Qed.

Lemma map_set_last k v (m : list (str * Value)) :
  Forall (fun p => key_lt p (k, v)) m -> map_set k v m = m ++ [(k, v)].
Proof.
  induction 1 as [|[k' w] m Hp _ IH]; [done|]. unfold key_lt in Hp. cbn in Hp |- *.
  destruct (str_lt k k') eqn:E.
  { pose proof (str_lt_trans _ _ _ Hp E) as Hk. by rewrite str_lt_irrefl in Hk. }
  rewrite bool_decide_false; [by rewrite IH|]. intros ->. by rewrite str_lt_irrefl in Hp.
Qed.



(** ** What the parser does on any stream *)

(** What a number may start with. *)
Definition number_start (c : char) : bool :=
  isdigit c || bool_decide (c = "+"%char) || bool_decide (c = "-"%char) || bool_decide (c = "."%char).
Definition starts_number (s : str) : bool := match s with c :: _ => number_start c | [] => false end.

(** The extraction of a [double] takes characters off the front: some for a value, none of a text that
    does not start like a number. *)
Class NumberLaws `{Number} := {
  num_get_suffix s : (num_get s).2 `suffix_of` s;
  num_get_some s d l : num_get s = (Some d, l) -> l <> s;
  num_get_none s : starts_number s = false -> num_get s = (None, s);
}.

(** From [s], [m] ends as [Q] says and leaves a rest of the text, unless it reads the character that
    was never written behind an opening quote that ends the text. *)
Definition settles {A} (m : M A) (s : istream) (Q : A -> istream -> Prop) : Prop :=
  match m s with
  | (Ok a, s') => ahead s' `suffix_of` ahead s /\ Q a s'
  | (UB, _) => exists p, ahead s = p ++ [QUOTE]
  | _ => False
  end.

(** It takes something off the text. *)
Definition shorter (s' s : istream) : Prop := (length (ahead s') < length (ahead s))%nat.

Lemma settles_bind {A B} (m : M A) (f : A -> M B) s (Q : B -> istream -> Prop) :
  settles m s (fun a s' => ahead s' `suffix_of` ahead s -> settles (f a) s' Q) -> settles (let! a := m in f a) s Q.
Proof.
  unfold settles, sbind. destruct (m s) as [[a|e| |] s1]; try done. intros [[x Ex] H].
  specialize (H ltac:(by exists x)). destruct (f a s1) as [[b|e| |] s2]; try done.
  - destruct H as [Hs HQ]. split; [|done]. etrans; [done|]. by exists x.
  - destruct H as [p Ep]. exists (x ++ p). by rewrite Ex, Ep, app_assoc.
Qed.
Lemma settles_ret {A} (a : A) s (Q : A -> istream -> Prop) : Q a s -> settles (sret a) s Q.
Proof. done. Qed.
Lemma settles_get {A} (f : istream -> A) s (Q : A -> istream -> Prop) : Q (f s) s -> settles (get f) s Q.
Proof. done. Qed.
Lemma settles_mono {A} (m : M A) s (Q Q' : A -> istream -> Prop) :
  settles m s Q -> (forall a s', Q a s' -> Q' a s') -> settles m s Q'.
Proof. unfold settles. destruct (m s) as [[]]; naive_solver. Qed.

Lemma skip_space_suffix l : skip_space l `suffix_of` l.
Proof. induction l as [|c l IH]; cbn; [done|]. case_match; [|done]. by apply suffix_cons_r. Qed.

Lemma ws_good l : ws (stream_of l) = (Ok tt, mkStream (skip_space l) (at_end (skip_space l)) false).
Proof. reflexivity. Qed.

Lemma ws_settles s : settles ws s (fun _ s' => failbit s' = false -> good s = true /\ ahead s' = skip_space (ahead s) /\
  eofbit s' = at_end (ahead s')).
Proof.
  unfold settles, ws, sentry, sbind, get. destruct (good s) eqn:E; cbn; [|done]. split; [apply skip_space_suffix|done].
Qed.

Lemma match_loop_settles cur x s : settles (match_loop cur (Some x)) s (fun _ _ => True).
Proof.
  revert x s. induction cur as [|c cur IH]; intros x [l e f]; [done|].
  cbn. unfold settles, sbind, get, getc, sentry, sbind, get. destruct (good (mkStream l e f)) eqn:E; cbn; [|done].
  rewrite E. unfold good in E. cbn in E. destruct e, f; try done. destruct l as [|d l]; cbn.
  - case_bool_decide; [|done]. apply (IH _ (mkStream [] true true)).
  - case_bool_decide; [|done]. specialize (IH d (mkStream l false false)). unfold settles in IH. cbn in IH.
    destruct (match_loop cur (Some d) (mkStream l false false)) as [[b|e| |] s']; try done.
    + split; [|done]. apply suffix_cons_r. by apply IH.
    + destruct IH as [p ->]. by exists (d :: p).
Qed.

(** A pattern that matches has taken its first character off the text. *)
Lemma match_start c w s : settles (match_ (c :: w)) s
  (fun b s' => b = true -> exists sp l, ahead s = sp ++ c :: l /\ ahead s' `suffix_of` l /\
     (w = [] -> s' = stream_of l)).
Proof.
  unfold match_. apply settles_bind. eapply settles_mono; [apply ws_settles|].
  intros [] s1 H1 _. cbn. apply settles_bind, settles_get. intros _. destruct (good s1) eqn:Eg; [|by apply settles_ret].
  unfold good in Eg. destruct s1 as [l1 [|] [|]]; try done. destruct (H1 eq_refl) as (_ & El & He). cbn in El, He.
  destruct l1 as [|d l1]; [done|]. unfold settles, sbind, getc, sentry, sbind, get. cbn.
  case_bool_decide as Ed; [subst d|done].
  pose proof (match_loop_settles w c (mkStream l1 false false)) as Hw. unfold settles in Hw. cbn in Hw.
  destruct (skip_space_suffix (ahead s)) as [sp Esp]. rewrite <- El in Esp.
  destruct (match_loop w (Some c) (mkStream l1 false false)) as [[b|e| |] s'] eqn:Ew; try done.
  - split; [by apply suffix_cons_r, Hw|]. intros _. exists sp, l1. split; [done|]. split; [apply Hw|].
    intros ->. by injection Ew.
  - destruct Hw as [p ->]. by exists (c :: p).
Qed.

Lemma match_settles c w s : settles (match_ (c :: w)) s (fun b s' => b = true -> shorter s' s).
Proof.
  eapply settles_mono; [apply match_start|]. intros b s' H Hb. destruct (H Hb) as (sp & l & E & Hs & _).
  unfold shorter. rewrite E, length_app. cbn. apply suffix_length in Hs. lia.
Qed.

(** What is left to read, counting the end. *)
Definition left (s : istream) : nat := length (ahead s) + (if good s then 1 else 0).

Lemma getc_settles ch s : ch <> None \/ good s = true /\ ahead s <> [] ->
  settles (getc ch) s (fun ch' s' => ch' <> None /\ (left s' <= left s)%nat /\ (good s = true -> (left s' < left s)%nat)).
Proof.
  intros Hch. unfold settles, getc, sentry, sbind, get, left. destruct (good s) eqn:Eg.
  - destruct s as [[|c l] e f]; cbn in *.
    + split; [done|]. split; [naive_solver|]. lia.
    + split; [by apply suffix_cons_r|]. split; [done|]. unfold good. cbn. lia.
  - cbn. split; [done|]. split; [naive_solver|]. split; [|done].
    replace (good (set_fail s)) with false; [lia|]. unfold good. cbn. by rewrite andb_false_r.
Qed.

Lemma string_loop_settles ch value fuel s :
  (left s < fuel)%nat -> ch <> None \/ good s = true /\ ahead s <> [] ->
  settles (string_loop ch value fuel) s (fun r _ => r.1 <> None).
Proof.
  revert ch value s. induction fuel as [|fuel IH]; intros ch value s Hf Hch; [lia|]. cbn.
  apply settles_bind, settles_get. intros _. destruct (good s) eqn:Eg; [|apply settles_ret; cbn; naive_solver].
  apply settles_bind. eapply settles_mono; [by apply getc_settles; rewrite Eg|]. intros [c|] s1 (Hc & _ & Hs1) _; [|done].
  specialize (Hs1 Eg). case_bool_decide; [by apply settles_ret|].
  case_bool_decide; [|apply IH; [lia|by left]].
  apply settles_bind. eapply settles_mono; [apply getc_settles; by left|]. intros [e|] s2 (He & Hs2 & _) _; [|done].
  apply IH; [lia|by left].
Qed.

Lemma parse_string_settles s : settles parse_string s (fun r s' => r <> None -> shorter s' s).
Proof.
  destruct (match_ [QUOTE] s) as [r s1] eqn:Em. pose proof (match_start QUOTE [] s) as Hm.
  unfold settles in Hm. rewrite Em in Hm. unfold parse_string.
  destruct r as [[|]|e| |]; try done.
  2: by unfold settles, sbind; rewrite Em; split; [apply Hm|].
  2: by unfold settles, sbind; rewrite Em.
  destruct Hm as [Hsuf Hm]. destruct (Hm eq_refl) as (sp & l & El & _ & Es1).
  specialize (Es1 eq_refl). subst s1. clear Hm. destruct l as [|c l].
  { unfold settles, sbind at 1. rewrite Em. by exists sp. }
  apply settles_bind. unfold settles at 1. rewrite Em. split; [done|]. intros _. apply settles_bind, settles_get. intros _.
  assert (shorter (stream_of (c :: l)) s) as Hl by (unfold shorter; rewrite El, length_app; cbn; lia).
  apply settles_bind.
  eapply settles_mono; [apply string_loop_settles; [unfold left; cbn; lia|by right]|].
  intros [ch value] s2 Hch Hs2%suffix_length. cbn in Hch. apply settles_bind, settles_get. intros _.
  destruct (failbit s2); [by apply settles_ret|]. destruct ch as [ch|]; [|done]. apply settles_ret. intros _.
  unfold shorter in *. lia.
Qed.


Lemma settles_true {A} (m : M A) s (Q : A -> istream -> Prop) : settles m s Q -> settles m s (fun _ _ => True).
Proof. intros H. by eapply settles_mono. Qed.

(** Values that a parser makes: none is invalid, and the keys of an object ascend. *)
Inductive typed : Value -> Prop :=
  | typed_number d : typed (NUMBER_ d)
  | typed_string s : typed (STRING_ s)
  | typed_bool b : typed (BOOL_ b)
  | typed_null : typed NULL_
  | typed_array l : Forall typed l -> typed (ARRAY_ l)
  | typed_object m : StronglySorted key_lt m -> Forall (fun p => typed p.2) m -> typed (OBJECT_ m).

Definition typed_map (m : list (str * Value)) : Prop :=
  StronglySorted key_lt m /\ Forall (fun p => typed p.2) m.

Lemma map_set_typed k v m : typed v -> typed_map m -> typed_map (map_set k v m).
Proof.
  intros Hv [Hs Ht]. split; [by apply map_set_sorted|]. rewrite Forall_forall in Ht |- *.
  intros p [->|Hp]%map_set_keys; [done|by apply Ht].
Qed.

Section total.
Context {laws : NumberLaws}.

Lemma extract_settles s : settles extract s (fun d s' => failbit s' = false -> d <> None /\ shorter s' s).
Proof.
  unfold settles, extract, sentry, sbind, get, modify. destruct (good s); cbn; [|done].
  pose proof (num_get_suffix (skip_space (ahead s))) as [x Ex].
  pose proof (skip_space_suffix (ahead s)) as [y Ey].
  pose proof (num_get_none (skip_space (ahead s))) as Hn.
  pose proof (num_get_some (skip_space (ahead s))) as Hs.
  destruct (num_get (skip_space (ahead s))) as [d l]. cbn in *. split; [exists (y ++ x); by rewrite Ey, Ex, app_assoc|].
  destruct d as [d|]; [|done]. intros _. split; [done|]. unfold shorter. cbn. specialize (Hs d l eq_refl).
  rewrite Ey, Ex, !length_app. destruct x as [|c x]; [done|]. cbn. lia.
Qed.

Lemma parse_number_settles s : settles parse_number s (fun d s' => d <> None -> shorter s' s).
Proof.
  unfold parse_number. apply settles_bind. eapply settles_mono; [eapply settles_true, ws_settles|]. intros _ s1 _ Hs1%suffix_length.
  apply settles_bind. eapply settles_mono; [apply extract_settles|]. intros d s2 H2 _.
  apply settles_bind, settles_get. intros _. destruct (failbit s2) eqn:Ef.
  - apply settles_bind. split; [done|]. intros _. by apply settles_ret.
  - apply settles_ret. intros _. destruct (H2 Ef) as [_ H]. unfold shorter in *. lia.
Qed.

Lemma parse_bool_settles s : settles parse_bool s (fun b s' => b <> None -> shorter s' s).
Proof.
  unfold parse_bool. apply settles_bind. eapply settles_mono; [apply match_settles|]. intros [|] s1 H1 Hs1%suffix_length.
  - apply settles_ret. auto.
  - apply settles_bind. eapply settles_mono; [apply match_settles|]. intros [|] s2 H2 _; apply settles_ret; [|done].
    intros _. specialize (H2 eq_refl). unfold shorter in *. lia.
Qed.

Lemma peek_settles s : settles peek s (fun _ s' => True).
Proof.
  unfold settles, peek, sentry, sbind, get. destruct (good s); cbn; [|done]. by destruct s as [[|c l] e f].
Qed.

Section containers.
Variables (value : M (option Value)) (n : nat).
Hypothesis value_settles : forall s, (length (ahead s) < n)%nat ->
  settles value s (fun r s' => forall x, r = Some x -> typed x /\ shorter s' s).

Lemma array_loop_settles values fuel s :
  (length (ahead s) < n)%nat -> (length (ahead s) < fuel)%nat -> Forall typed values ->
  settles (array_loop value values fuel) s (fun l _ => Forall typed l).
Proof.
  revert values s. induction fuel as [|fuel IH]; intros values s Hn Hf Ht; [lia|]. cbn.
  apply settles_bind. eapply settles_mono; [by apply value_settles|]. intros [v|] s1 H1 Hs1%suffix_length; [|by apply settles_ret].
  destruct (H1 v eq_refl) as [Hv H1'].
  assert (Forall typed (values ++ [v])) as Hvs by (apply Forall_app; auto).
  apply settles_bind. eapply settles_mono; [apply match_settles|]. intros [|] s2 H2 Hs2%suffix_length; [|by apply settles_ret].
  unfold shorter in *. apply IH; [lia..|done].
Qed.

Lemma array_parse_settles fuel s : (length (ahead s) <= n)%nat -> (length (ahead s) <= fuel)%nat ->
  settles (array_parse value fuel) s (fun l s' => forall x, l = Some x -> Forall typed x /\ shorter s' s).
Proof.
  intros Hn Hf. unfold array_parse. apply settles_bind. eapply settles_mono; [apply match_settles|].
  intros [|] s1 H1 _; [|by apply settles_ret]. specialize (H1 eq_refl). unfold shorter in H1. apply settles_bind.
  eapply settles_mono; [apply array_loop_settles; [lia..|done]|]. intros l s2 Hl Hs2%suffix_length.
  apply settles_bind. eapply settles_mono; [apply match_settles|]. intros m s3 H3 Hs3%suffix_length. apply settles_ret.
  destruct m; [|done]. intros x [= ->]. split; [done|]. unfold shorter. lia.
Qed.

Lemma object_loop_settles object fuel s :
  (length (ahead s) < n)%nat -> (length (ahead s) < fuel)%nat -> typed_map object ->
  settles (object_loop value object fuel) s (fun m _ => forall x, m = Some x -> typed_map x).
Proof.
  revert object s. induction fuel as [|fuel IH]; intros object s Hn Hf Ht; [lia|]. cbn.
  apply settles_bind. eapply settles_mono; [apply parse_string_settles|].
  intros [k|] s1 _ Hs1%suffix_length; [|by apply settles_ret].
  apply settles_bind. eapply settles_mono; [apply match_settles|]. intros [|] s2 H2 Hs2%suffix_length; [|by apply settles_ret].
  specialize (H2 eq_refl). unfold shorter in H2.
  apply settles_bind. eapply settles_mono; [apply value_settles; lia|].
  intros [v|] s3 H3 Hs3%suffix_length; [|by apply settles_ret; intros x [= ->]].
  destruct (H3 v eq_refl) as [Hv H3']. pose proof (map_set_typed k v object Hv Ht) as Hm.
  apply settles_bind. eapply settles_mono; [apply match_settles|].
  intros [|] s4 H4 Hs4%suffix_length; [|by apply settles_ret; intros x [= <-]].
  apply IH; [lia..|done].
Qed.

Lemma object_parse_settles fuel s : (length (ahead s) <= n)%nat -> (length (ahead s) <= fuel)%nat ->
  settles (object_parse value fuel) s (fun m s' => forall x, m = Some x -> typed_map x /\ shorter s' s).
Proof.
  intros Hn Hf. unfold object_parse. apply settles_bind. eapply settles_mono; [apply match_settles|].
  intros [|] s1 H1 _; [|by apply settles_ret]. specialize (H1 eq_refl). unfold shorter in H1. apply settles_bind.
  eapply settles_mono; [apply object_loop_settles; [lia..|by repeat constructor]|].
  intros [m|] s2 Hm Hs2%suffix_length; [|by apply settles_ret].
  apply settles_bind. eapply settles_mono; [apply match_settles|]. intros b s3 H3 Hs3%suffix_length. apply settles_ret.
  destruct b; [|done]. intros x [= ->]. split; [by apply Hm|]. unfold shorter. lia.
Qed.

Lemma parse_value_settles fuel s : (length (ahead s) <= n)%nat -> (length (ahead s) <= fuel)%nat ->
  settles (parse_value value fuel) s (fun r s' => forall x, r = Some x -> typed x /\ shorter s' s).
Proof.
  intros Hn Hf. unfold parse_value.
  apply settles_bind. eapply settles_mono; [apply parse_string_settles|]. intros [k|] s1 H1 Hs1%suffix_length.
  { apply settles_ret. intros x [= <-]. split; [constructor|]. by apply H1. }
  apply settles_bind. eapply settles_mono; [apply parse_number_settles|]. intros [d|] s2 H2 Hs2%suffix_length.
  { apply settles_ret. intros x [= <-]. split; [constructor|]. specialize (H2 ltac:(done)). unfold shorter in *. lia. }
  apply settles_bind. eapply settles_mono; [apply parse_bool_settles|]. intros [b|] s3 H3 Hs3%suffix_length.
  { apply settles_ret. intros x [= <-]. split; [constructor|]. specialize (H3 ltac:(done)). unfold shorter in *. lia. }
  apply settles_bind. eapply settles_mono; [apply match_settles|]. intros [|] s4 H4 Hs4%suffix_length.
  { apply settles_ret. intros x [= <-]. split; [constructor|]. specialize (H4 eq_refl). unfold shorter in *. lia. }
  apply settles_bind. eapply settles_mono; [apply peek_settles|]. intros c s5 _ Hs5%suffix_length.
  apply settles_bind. apply (settles_mono _ _ (fun l s' => forall x, l = Some x -> Forall typed x /\ shorter s' s5)).
  { case_bool_decide; [apply array_parse_settles; lia|by apply settles_ret]. }
  intros [l|] s6 H6 Hs6%suffix_length.
  { apply settles_ret. intros x [= <-]. destruct (H6 l eq_refl). split; [by constructor|]. unfold shorter in *. lia. }
  apply settles_bind. eapply settles_mono; [apply object_parse_settles; lia|]. intros [m|] s7 H7 _; apply settles_ret; [|done].
  intros x [= <-]. destruct (H7 m eq_refl) as [[]]. split; [by constructor|]. unfold shorter in *. lia.
Qed.
End containers.

Lemma parse_settles fuel s : (length (ahead s) < fuel)%nat ->
  settles (parse fuel) s (fun r s' => forall x, r = Some x -> typed x /\ shorter s' s).
Proof.
  revert s. induction fuel as [|fuel IH]; intros s Hf; [lia|]. cbn [parse].
  apply (parse_value_settles _ fuel); [|lia..]. intros s' Hs'. by apply IH.
Qed.
End total.


(** ** What is printed is parsed again *)

Abbreviation spaces sp := (Forall (fun c => isspace c = true) sp).

(** What may follow a value. *)
Definition delimited (rest : str) : bool :=
  match rest with
  | [] => true
  | c :: _ => bool_decide (c = ","%char) || bool_decide (c = "]"%char) || bool_decide (c = "}"%char)
  end.

(** The characters that are not written as a code. *)
Definition clean (c : char) : Prop :=
  (sord c <? 32) = false \/ c = chr 8 \/ c = chr 12 \/ c = chr 10 \/ c = chr 13 \/ c = chr 9.

(** A number that the library writes so that it reads it back. *)
Definition survives (d : double) : Prop :=
  starts_number (num_put d) = true /\
  forall rest, delimited rest = true -> num_get (num_put d ++ rest) = (Some d, rest).

Inductive printable : Value -> Prop :=
  | printable_number d : survives d -> printable (NUMBER_ d)
  | printable_string s : Forall clean s -> printable (STRING_ s)
  | printable_bool b : printable (BOOL_ b)
  | printable_null : printable NULL_
  | printable_array l : l <> [] -> Forall printable l -> printable (ARRAY_ l)
  | printable_object m : m <> [] -> StronglySorted key_lt m ->
      Forall (fun p => Forall clean p.1 /\ printable p.2) m -> printable (OBJECT_ m).

Lemma escaped_shape c : clean c ->
  (escaped c = [c] /\ c <> QUOTE /\ c <> BACKSLASH) \/ (exists e, escaped c = [BACKSLASH; e] /\ unescaped e = [c]).
Proof.
  intros Hc. assert ((sord c <? 32) && negb (bool_decide (c = chr 8)) && negb (bool_decide (c = chr 12)) &&
    negb (bool_decide (c = chr 10)) && negb (bool_decide (c = chr 13)) && negb (bool_decide (c = chr 9)) = false) as H.
  { destruct Hc as [->|[->|[->|[->|[->| ->]]]]]; reflexivity. }
  clear Hc. revert H. destruct c as [[] [] [] [] [] [] [] []]; try (by vm_compute);
    intros _; first [by left; split; [vm_compute|split; vm_compute]|right; eexists; split; vm_compute; reflexivity].
Qed.


Lemma skip_spaces sp c l : spaces sp -> isspace c = false -> skip_space (sp ++ c :: l) = c :: l.
Proof. intros Hsp Hc. induction Hsp as [|x sp Hx _ IH]; cbn; [by rewrite Hc|]. by rewrite Hx. Qed.

Lemma match_loop_hit w x rest : match_loop w (Some x) (stream_of (w ++ rest)) = (Ok true, stream_of rest).
Proof.
  revert x. induction w as [|c w IH]; intros x; [done|]. cbn. unfold sbind, get, getc, sentry, sbind, get. cbn.
  rewrite bool_decide_true by done. apply IH.
Qed.

Lemma match_ws w sp c l : spaces sp -> isspace c = false ->
  match_ w (stream_of (sp ++ c :: l)) = match_loop w (Some NUL) (stream_of (c :: l)).
Proof.
  intros Hsp Hc. unfold match_, sbind at 1. rewrite ws_good, skip_spaces by done. done.
Qed.

Lemma match_hit c w sp rest : spaces sp -> isspace c = false ->
  match_ (c :: w) (stream_of (sp ++ (c :: w) ++ rest)) = (Ok true, stream_of rest).
Proof. intros Hsp Hc. cbn [app]. rewrite match_ws by done. apply (match_loop_hit (c :: w)). Qed.

Lemma match_miss c d w sp l : spaces sp -> isspace d = false -> d <> c ->
  match_ (c :: w) (stream_of (sp ++ d :: l)) = (Ok false, stream_of (d :: l)).
Proof.
  intros Hsp Hd Hne. rewrite match_ws by done. cbn. unfold sbind, get, getc, sentry, sbind, get. cbn.
  by rewrite bool_decide_false.
Qed.

Lemma match_miss0 c d w l : isspace d = false -> d <> c ->
  match_ (c :: w) (stream_of (d :: l)) = (Ok false, stream_of (d :: l)).
Proof. apply (match_miss c d w []). constructor. Qed.

Lemma string_loop_text s ch value rest fuel : Forall clean s -> (length (flat_map escaped s) < fuel)%nat ->
  string_loop ch value fuel (stream_of (flat_map escaped s ++ QUOTE :: rest)) = (Ok (Some QUOTE, value ++ s), stream_of rest).
Proof.
  revert ch value fuel. induction s as [|c s IH]; intros ch value [|fuel] Hs Hf; try (cbn in Hf; lia).
  { cbn. unfold sbind, get, getc, sentry, sbind, get. cbn. by rewrite app_nil_r. }
  apply Forall_cons in Hs as [Hc Hs]. cbn [flat_map] in *. rewrite length_app in Hf.
  destruct (escaped_shape c Hc) as [(E & Hq & Hb)|(e & E & Ee)]; rewrite E in Hf |- *; cbn in Hf.
  - cbn. unfold sbind, get, getc, sentry, sbind, get. cbn. rewrite !bool_decide_false by done.
    specialize (IH (Some c) (value ++ [c]) fuel Hs ltac:(lia)). unfold stream_of in IH. rewrite IH.
    by rewrite <- app_assoc.
  - cbn -[unescaped]. unfold sbind, get, getc, sentry, sbind, get. cbn -[unescaped].
    rewrite bool_decide_false, bool_decide_true by done. cbn -[unescaped].
    specialize (IH (Some e) (value ++ unescaped e) fuel Hs ltac:(lia)). unfold stream_of in IH. rewrite IH.
    by rewrite Ee, <- app_assoc.
Qed.

Lemma parse_string_hit s sp rest : spaces sp -> Forall clean s ->
  parse_string (stream_of (sp ++ stream_string s ++ rest)) = (Ok (Some s), stream_of rest).
Proof.
  intros Hsp Hs. unfold parse_string, stream_string. unfold sbind at 1. rewrite <- !app_assoc.
  rewrite (match_hit QUOTE []) by done. cbn [app]. unfold sbind at 1, get at 1. unfold sbind at 1.
  rewrite string_loop_text by (done || (cbn; rewrite length_app; lia)). reflexivity.
Qed.

Lemma parse_string_miss d sp l : spaces sp -> isspace d = false -> d <> QUOTE ->
  parse_string (stream_of (sp ++ d :: l)) = (Ok None, stream_of (d :: l)).
Proof. intros Hsp Hd Hq. unfold parse_string, sbind. by rewrite match_miss. Qed.

Lemma parse_number_at c l : isspace c = false -> parse_number (stream_of (c :: l)) =
  let '(d, r) := num_get (c :: l) in
  match d with Some _ => (Ok d, mkStream r (at_end r) false) | None => (Ok None, stream_of r) end.
Proof.
  intros Hc. unfold parse_number, sbind. rewrite ws_good. cbn [skip_space]. rewrite Hc. cbn.
  unfold extract, sentry, sbind, get, modify. cbn. rewrite Hc. destruct (num_get (c :: l)) as [[d|] r]; reflexivity.
Qed.

Section round.
Context {laws : NumberLaws}.

Lemma parse_number_miss c l : isspace c = false -> number_start c = false ->
  parse_number (stream_of (c :: l)) = (Ok None, stream_of (c :: l)).
Proof. intros Hc Hn. rewrite parse_number_at by done. by rewrite num_get_none. Qed.

Lemma number_start_ok c : number_start c = true -> isspace c = false /\ c <> QUOTE.
Proof. all_chars c; by repeat split. Qed.

Lemma parse_number_hit d rest : survives d -> delimited rest = true ->
  exists c l, num_put d ++ rest = c :: l /\ isspace c = false /\ c <> QUOTE /\
    parse_number (stream_of (c :: l)) = (Ok (Some d), mkStream rest (at_end rest) false).
Proof.
  intros [Hs Hd] Hr. specialize (Hd rest Hr). destruct (num_put d) as [|c l]; [done|].
  apply number_start_ok in Hs as [Hc Hq]. exists c, (l ++ rest). do 3 (split; [done|]).
  rewrite parse_number_at by done. change (c :: l ++ rest) with ((c :: l) ++ rest). by rewrite Hd.
Qed.

(** The first character of a value decides which parser takes it. *)
Lemma parse_word value fuel c l sp : spaces sp -> isspace c = false -> c <> QUOTE -> number_start c = false ->
  parse_value value fuel (stream_of (sp ++ c :: l)) = (
      let! b := parse_bool in
      match b with
      | Some b => sret (Some (BOOL_ b))
      | None =>
          let! n := parse_null in
          if n : bool then sret (Some NULL_)
          else
            let! c := peek in
            let! array_value := if bool_decide (c = Some "["%char) then array_parse value fuel else sret None in
            match array_value with
            | Some l => sret (Some (ARRAY_ l))
            | None => let! object_value := object_parse value fuel in sret (option_map OBJECT_ object_value)
            end
      end) (stream_of (c :: l)).
Proof.
  intros Hsp Hc Hq Hn. unfold parse_value at 1. unfold sbind at 1. rewrite parse_string_miss by done.
  unfold sbind at 1. by rewrite parse_number_miss.
Qed.

Lemma parse_bracket value fuel c l : isspace c = false -> c <> "t"%char -> c <> "f"%char -> c <> "n"%char ->
  parse_bool (stream_of (c :: l)) = (Ok None, stream_of (c :: l)) /\
  parse_null (stream_of (c :: l)) = (Ok false, stream_of (c :: l)) /\
  (c <> "["%char -> array_parse value fuel (stream_of (c :: l)) = (Ok None, stream_of (c :: l))).
Proof.
  intros Hc Ht Hf Hn. unfold parse_bool, parse_null, array_parse.
  pose proof (fun w d => match_miss0 d c w l Hc) as Hm.
  split; [|split].
  - change (lit "true") with ("t"%char :: lit "rue"). change (lit "false") with ("f"%char :: lit "alse").
    unfold sbind at 1. rewrite Hm by done. unfold sbind. by rewrite Hm.
  - by apply Hm.
  - intros Hb. unfold sbind at 1. by rewrite Hm.
Qed.
End round.


Fixpoint join_text (ts : list str) : str :=
  match ts with
  | [] => []
  | [t] => t
  | t :: ts' => t ++ COMMA ++ join_text ts'
  end.

Lemma join_text_cons t t' ts : join_text (t :: t' :: ts) = t ++ COMMA ++ join_text (t' :: ts).
Proof. reflexivity. Qed.

Lemma join_text_length t ts : t ∈ ts -> (length t <= length (join_text ts))%nat.
Proof.
  revert t. induction ts as [|u ts IH]; intros t Ht; [by apply not_elem_of_nil in Ht|].
  destruct ts as [|u' ts]; [apply list_elem_of_singleton in Ht; by subst|].
  rewrite join_text_cons, !length_app. apply elem_of_cons in Ht as [->|Ht]; [lia|]. specialize (IH t Ht). lia.
Qed.

Lemma join_text_count ts : (length ts <= S (length (join_text ts)))%nat.
Proof.
  induction ts as [|u ts IH]; [cbn; lia|]. destruct ts as [|u' ts]; [cbn; lia|].
  rewrite join_text_cons, !length_app. change (length COMMA) with 2%nat. cbn [length] in *. lia.
Qed.

(** [v] is printed as [t], which is parsed as [v]. *)
Definition reads (v : Value) (t : str) (fuel : nat) : Prop := forall sp rest,
  spaces sp -> delimited rest = true ->
  exists e, parse fuel (stream_of (sp ++ t ++ rest)) = (Ok (Some v), mkStream rest e false) /\ (e = true -> rest = []).

Lemma reads_more v t fuel sp c rest : reads v t fuel -> spaces sp -> delimited (c :: rest) = true ->
  parse fuel (stream_of (sp ++ t ++ c :: rest)) = (Ok (Some v), stream_of (c :: rest)).
Proof.
  intros Hv Hsp Hr. destruct (Hv sp (c :: rest) Hsp Hr) as ([|] & E & He); [by specialize (He eq_refl)|]. done.
Qed.

Lemma reads_comma v t fuel sp rest : reads v t fuel -> spaces sp ->
  parse fuel (stream_of (sp ++ t ++ COMMA ++ rest)) = (Ok (Some v), stream_of (COMMA ++ rest)).
Proof. intros Hv Hsp. by apply reads_more. Qed.

Lemma match_comma rest : match_ [","%char] (stream_of (COMMA ++ rest)) = (Ok true, stream_of ([" "%char] ++ rest)).
Proof. apply (match_hit ","%char [] [] (" "%char :: rest)); [constructor|done]. Qed.

Lemma match_colon rest : match_ [":"%char] (stream_of (lit ": " ++ rest)) = (Ok true, stream_of ([" "%char] ++ rest)).
Proof. apply (match_hit ":"%char [] [] (" "%char :: rest)); [constructor|done]. Qed.

Lemma one_space : spaces [" "%char].
Proof. by repeat constructor. Qed.

Lemma array_loop_text value values l ts sp rest fuel :
  Forall2 (fun v t => reads v t value) l ts -> l <> [] -> (length l <= fuel)%nat -> spaces sp ->
  array_loop (parse value) values fuel (stream_of (sp ++ join_text ts ++ "]"%char :: rest))
  = (Ok (values ++ l), stream_of ("]"%char :: rest)).
Proof.
  intros Hl. revert values sp fuel. induction Hl as [|v t l ts Hv Hl IH]; [done|].
  intros values sp [|fuel] _ Hf Hsp; [cbn in Hf; lia|]. cbn [array_loop]. unfold sbind at 1.
  destruct Hl as [|v' t' l ts Hv' Hl].
  - cbn [join_text]. rewrite (reads_more v t) by done. unfold sbind. by rewrite match_miss0.
  - rewrite join_text_cons, <- !app_assoc. rewrite (reads_comma v t) by done. unfold sbind at 1.
    rewrite match_comma. rewrite (IH (values ++ [v]) [" "%char]) by (done || (cbn in *; lia) || apply one_space).
    by rewrite <- app_assoc.
Qed.

(** An entry of an object, with the text of its value. *)
Definition entry_text (p : (str * Value) * str) : str := stream_string p.1.1 ++ lit ": " ++ p.2.

Lemma parse_key k sp rest : spaces sp -> Forall clean k ->
  parse_string (stream_of (sp ++ (stream_string k ++ lit ": ") ++ rest)) = (Ok (Some k), stream_of (lit ": " ++ rest)).
Proof. intros Hsp Hk. rewrite <- app_assoc. by apply parse_string_hit. Qed.

Lemma object_loop_text value object (m : list ((str * Value) * str)) sp rest fuel :
  Forall (fun p => Forall clean p.1.1 /\ reads p.1.2 p.2 value) m -> m <> [] -> StronglySorted key_lt (object ++ m.*1) ->
  (length m <= fuel)%nat -> spaces sp ->
  object_loop (parse value) object fuel (stream_of (sp ++ join_text (map entry_text m) ++ "}"%char :: rest))
  = (Ok (Some (object ++ m.*1)), stream_of ("}"%char :: rest)).
Proof.
  intros Hm. revert object sp fuel. induction Hm as [|[[k v] t] m [Hk Hv] Hm IH]; [done|].
  intros object sp [|fuel] _ Hs Hf Hsp; [cbn in Hf; lia|]. cbn [object_loop]. unfold sbind at 1.
  assert (map_set k v object = object ++ [(k, v)]) as Eset.
  { apply map_set_last, Forall_forall. intros p Hp.
    apply (StronglySorted_app_1_elem_of _ _ _ p (k, v) Hs); [done|]. by left. }
  assert (StronglySorted key_lt ((object ++ [(k, v)]) ++ m.*1)) as Hs' by (by rewrite <- app_assoc).
  cbn in Hk, Hv. destruct m as [|q m].
  - cbn [map join_text]. unfold entry_text. cbn [fst snd]. rewrite <- !app_assoc, parse_string_hit by done.
    unfold sbind at 1. rewrite match_colon. unfold sbind at 1.
    rewrite (reads_more v t) by (done || apply one_space). unfold sbind. by rewrite match_miss0, Eset.
  - cbn [map]. rewrite join_text_cons. unfold entry_text at 1. cbn [fst snd]. rewrite <- !app_assoc, parse_string_hit by done.
    unfold sbind at 1. rewrite match_colon. unfold sbind at 1.
    rewrite (reads_comma v t _ [" "%char]) by (done || apply one_space). unfold sbind.
    rewrite match_comma.
    change (entry_text q :: map entry_text m) with (map entry_text (q :: m)). rewrite Eset.
    rewrite (IH (object ++ [(k, v)]) [" "%char]) by (done || (cbn in *; lia) || apply one_space).
    by rewrite <- app_assoc.
Qed.


Lemma print_array l ts : Forall2 (fun v t => print v = Ok t) l ts -> l <> [] ->
  print (ARRAY_ l) = Ok (lit "[" ++ join_text ts ++ lit "]").
Proof.
  intros Hl Hne. cbn [print].
  match goal with |- (let? t := ?f l in _) = _ => enough (f l = Ok (join_text ts)) as -> by done end.
  induction Hl as [|v t l ts Hv Hl IH]; [done|]. destruct Hl as [|v' t' l ts Hv' Hl]; [done|].
  rewrite Hv. cbn [bind]. rewrite IH by done. done.
Qed.

Lemma print_object (m : list ((str * Value) * str)) : Forall (fun p => print p.1.2 = Ok p.2) m ->
  print (OBJECT_ m.*1) = Ok (lit "{" ++ join_text (map entry_text m) ++ lit "}").
Proof.
  intros Hm. cbn [print].
  match goal with |- (let? t := ?f m.*1 in _) = _ => enough (f m.*1 = Ok (join_text (map entry_text m))) as -> by done end.
  induction Hm as [|[[k v] t] m Hv Hm IH]; [done|]. cbn in Hv. cbn [fmap list_fmap fst]. rewrite Hv. cbn [bind].
  rewrite IH. cbn [bind]. destruct m as [|[[k' v'] t'] m]; cbn [fmap list_fmap map join_text]; unfold entry_text; cbn [fst snd].
  - by rewrite app_nil_r.
  - by rewrite <- !app_assoc.
Qed.

Section round_trip.
Context {laws : NumberLaws}.

Lemma reads_number d fuel : survives d -> reads (NUMBER_ d) (num_put d) (S fuel).
Proof.
  intros Hd sp rest Hsp Hr. destruct (parse_number_hit d rest Hd Hr) as (c & l & -> & Hc & Hq & E).
  exists (at_end rest). split; [|unfold at_end; by intros ?%bool_decide_eq_true].
  cbn [parse]. unfold parse_value. unfold sbind at 1. rewrite parse_string_miss by done. unfold sbind at 1. by rewrite E.
Qed.

Lemma reads_string s fuel : Forall clean s -> reads (STRING_ s) (stream_string s) (S fuel).
Proof.
  intros Hs sp rest Hsp _. exists false. split; [|done]. cbn [parse]. unfold parse_value, sbind at 1.
  by rewrite parse_string_hit.
Qed.

Lemma match_lit c w rest : isspace c = false -> match_ (c :: w) (stream_of (c :: w ++ rest)) = (Ok true, stream_of rest).
Proof. intros Hc. by apply (match_hit c w [] rest). Qed.

Lemma match_char c rest : isspace c = false -> match_ [c] (stream_of (c :: rest)) = (Ok true, stream_of rest).
Proof. apply (match_lit c []). Qed.

Lemma reads_bool b fuel : reads (BOOL_ b) (if b then lit "true" else lit "false") (S fuel).
Proof.
  intros sp rest Hsp _. exists false. split; [|done]. cbn [parse]. destruct b.
  - change (lit "true" ++ rest) with ("t"%char :: lit "rue" ++ rest). rewrite parse_word by done.
    unfold parse_bool, sbind. change (lit "true") with ("t"%char :: lit "rue"). by rewrite match_lit.
  - change (lit "false" ++ rest) with ("f"%char :: lit "alse" ++ rest). rewrite parse_word by done.
    unfold parse_bool, sbind. change (lit "true") with ("t"%char :: lit "rue"). rewrite match_miss0 by done.
    change (lit "false") with ("f"%char :: lit "alse"). by rewrite match_lit.
Qed.

Lemma reads_null fuel : reads NULL_ (lit "null") (S fuel).
Proof.
  intros sp rest Hsp _. exists false. split; [|done]. cbn [parse].
  change (lit "null" ++ rest) with ("n"%char :: lit "ull" ++ rest). rewrite parse_word by done.
  unfold parse_bool, parse_null, sbind. change (lit "true") with ("t"%char :: lit "rue").
  change (lit "false") with ("f"%char :: lit "alse"). rewrite !match_miss0 by done.
  change (lit "null") with ("n"%char :: lit "ull"). cbn beta iota delta [sret]. by rewrite match_lit.
Qed.

Lemma reads_array l ts fuel : Forall2 (fun v t => reads v t fuel) l ts -> l <> [] -> (length l <= fuel)%nat ->
  reads (ARRAY_ l) (lit "[" ++ join_text ts ++ lit "]") (S fuel).
Proof.
  intros Hl Hne Hf sp rest Hsp Hr. exists false. split; [|done]. cbn [parse]. rewrite <- !app_assoc.
  change (lit "[" ++ join_text ts ++ lit "]" ++ rest) with ("["%char :: join_text ts ++ "]"%char :: rest).
  rewrite parse_word by done.
  destruct (parse_bracket (parse fuel) (S fuel) "["%char (join_text ts ++ "]"%char :: rest)) as (E1 & E2 & _); [done..|].
  unfold sbind at 1. rewrite E1. unfold sbind at 1. rewrite E2. unfold sbind at 1. cbn [peek]. unfold peek, sentry, sbind at 1.
  cbn [get good stream_of eofbit failbit negb andb ahead fst snd]. unfold sbind at 1. rewrite bool_decide_true by done.
  unfold array_parse, sbind at 1. rewrite (match_char "["%char (join_text ts ++ "]"%char :: rest)) by done.
  unfold sbind at 1. pose proof (array_loop_text fuel [] l ts [] rest (S fuel)) as E. cbn [app] in E.
  rewrite E by (done || lia || constructor).
  unfold sbind. by rewrite (match_char "]"%char rest).
Qed.

Lemma reads_object (m : list ((str * Value) * str)) fuel :
  Forall (fun p => Forall clean p.1.1 /\ reads p.1.2 p.2 fuel) m -> m <> [] -> StronglySorted key_lt m.*1 ->
  (length m <= fuel)%nat ->
  reads (OBJECT_ m.*1) (lit "{" ++ join_text (map entry_text m) ++ lit "}") (S fuel).
Proof.
  intros Hm Hne Hs Hf sp rest Hsp Hr. exists false. split; [|done]. cbn [parse]. rewrite <- !app_assoc.
  set (ts := map entry_text m).
  change (lit "{" ++ join_text ts ++ lit "}" ++ rest) with ("{"%char :: join_text ts ++ "}"%char :: rest).
  rewrite parse_word by done.
  destruct (parse_bracket (parse fuel) (S fuel) "{"%char (join_text ts ++ "}"%char :: rest)) as (E1 & E2 & _); [done..|].
  unfold sbind at 1. rewrite E1. unfold sbind at 1. rewrite E2. unfold sbind at 1. cbn [peek]. unfold peek, sentry, sbind at 1.
  cbn [get good stream_of eofbit failbit negb andb ahead fst snd]. unfold sbind at 1. rewrite bool_decide_false by done.
  cbn [sret]. unfold object_parse, sbind at 1, sbind at 1.
  rewrite (match_char "{"%char (join_text ts ++ "}"%char :: rest)) by done.
  unfold sbind at 1. pose proof (object_loop_text fuel [] m [] rest (S fuel)) as E. cbn [app] in E.
  subst ts. rewrite E by (done || lia || constructor).
  unfold sbind. by rewrite (match_char "}"%char rest).
Qed.
End round_trip.


Lemma printable_reads {laws : NumberLaws} v : printable v ->
  exists t, print v = Ok t /\ forall fuel, (length t <= fuel)%nat -> reads v t (S fuel).
Proof.
  induction v as [|d|s|b| |l IH|m IH] using Value_ind; intros Hv; inversion Hv as [? H1|? H1| | |? Hne H1|? Hne Hsort H1]; subst.
  - exists (num_put d). split; [done|]. intros fuel _. by apply reads_number.
  - exists (stream_string s). split; [done|]. intros fuel _. by apply reads_string.
  - exists (if b then lit "true" else lit "false"). split; [done|]. intros fuel _. apply reads_bool.
  - exists (lit "null"). split; [done|]. intros fuel _. apply reads_null.
  - assert (exists ts, Forall2 (fun v t => print v = Ok t /\ forall fuel, (length t <= fuel)%nat -> reads v t (S fuel)) l ts) as [ts Hts].
    { clear Hv Hne. induction H1 as [|v l Hv H1 IH1]; [by exists []|]. apply Forall_cons in IH as [IHv IH].
      destruct (IHv Hv) as (t & Ht). destruct (IH1 IH) as (ts & Hts). exists (t :: ts). by constructor. }
    exists (lit "[" ++ join_text ts ++ lit "]"). split.
    { apply print_array; [|done]. eapply Forall2_impl; [exact Hts|]. by intros ?? []. }
    intros fuel Hf. rewrite !length_app in Hf. cbn in Hf. pose proof (join_text_count ts).
    pose proof (Forall2_length _ _ _ Hts). apply reads_array; [|done|lia].
    destruct fuel as [|fuel]; [lia|].
    apply Forall2_same_length_lookup. split; [done|]. intros i v t Hi Ht.
    apply (Forall2_lookup_lr _ _ _ _ _ _ Hts Hi Ht). apply list_elem_of_lookup_2, join_text_length in Ht. lia.
  - assert (exists ms : list ((str * Value) * str), ms.*1 = m /\
      Forall (fun p => Forall clean p.1.1 /\ print p.1.2 = Ok p.2 /\
        forall fuel, (length p.2 <= fuel)%nat -> reads p.1.2 p.2 (S fuel)) ms) as (ms & <- & Hms).
    { clear Hv Hne Hsort. induction H1 as [|[k v] m [Hk Hv] H1 IH1]; [by exists []|]. apply Forall_cons in IH as [IHv IH].
      destruct (IHv Hv) as (t & Ht). destruct (IH1 IH) as (ms & <- & Hms). exists (((k, v), t) :: ms). split; [done|].
      by constructor. }
    exists (lit "{" ++ join_text (map entry_text ms) ++ lit "}"). split.
    { apply print_object. eapply Forall_impl; [exact Hms|]. by intros ? (_ & ? & _). }
    intros fuel Hf. rewrite !length_app in Hf. cbn in Hf. pose proof (join_text_count (map entry_text ms)) as Hc.
    rewrite length_map in Hc. apply reads_object; [|by destruct ms|done|lia].
    destruct fuel as [|fuel]; [lia|]. rewrite Forall_forall in Hms |- *. intros p Hp. destruct (Hms p Hp) as (Hk & _ & Hr).
    split; [done|]. apply Hr. assert (length (entry_text p) <= length (join_text (map entry_text ms)))%nat as Hlen.
    { apply join_text_length, list_elem_of_fmap_2, Hp. }
    assert (length p.2 <= length (entry_text p))%nat by (unfold entry_text; rewrite !length_app; lia). lia.
Qed.
End values.

(** C16: What [print] writes is read back by [parse]: the same value, from behind white space and before
    anything that delimits it, which is left in the stream. *)
Theorem json_roundtrip {num : Number} {laws : NumberLaws} v : printable v ->
  exists t, print v = Ok t /\ forall sp rest fuel,
    Forall (fun c => isspace c = true) sp -> delimited rest = true -> (length t < fuel)%nat ->
    exists e, parse fuel (stream_of (sp ++ t ++ rest)) = (Ok (Some v), mkStream rest e false).
Proof.
  intros Hv. destruct (printable_reads v Hv) as (t & Ht & Hr). exists t. split; [done|].
  intros sp rest [|fuel] Hsp Hd Hf; [lia|]. destruct (Hr fuel ltac:(lia) sp rest Hsp Hd) as (e & E & _). by exists e.
Qed.

(** C26: type. On any stream [parse] ends. It moves forward only, and a value it returns is typed and has
    taken characters; the only undefined case is a quotation mark that ends the stream. *)
Theorem json_parse_total {num : Number} {laws : NumberLaws} s fuel : (length (ahead s) < fuel)%nat ->
  (exists v s', parse fuel s = (Ok v, s') /\ ahead s' `suffix_of` ahead s /\
     forall x, v = Some x -> typed x /\ (length (ahead s') < length (ahead s))%nat) \/
  (exists s' p, parse fuel s = (UB, s') /\ ahead s = p ++ [QUOTE]).
Proof.
  intros Hf. pose proof (parse_settles fuel s Hf) as H. unfold settles in H.
  destruct (parse fuel s) as [[v|e| |] s']; try done.
  - left. exists v, s'. split; [done|]. exact H.
  - right. destruct H as [p E]. by exists s', p.
Qed.

(** ** Whole numbers for a library *)

Definition digit_char (n : Z) : char := chr (48 + n).
Fixpoint put_digits (n : Z) (fuel : nat) (acc : str) : str :=
  match fuel with
  | O => acc
  | S fuel => if n <? 10 then digit_char n :: acc else put_digits (n / 10) fuel (digit_char (n mod 10) :: acc)
  end.
Fixpoint get_digits (s : str) (acc : Z) : Z * str :=
  match s with
  | c :: s' => if isdigit c then get_digits s' (acc * 10 + (ord c - 48)) else (acc, s)
  | [] => (acc, [])
  end.
#[export] Instance whole : Number := {
  double := Z;
  num_get s :=
    let '(neg, s') := match s with c :: l => if decide (c = "-"%char) then (true, l) else (false, s) | [] => (false, s) end in
    match s' with
    | c :: _ => if isdigit c then let '(n, r) := get_digits s' 0 in (Some (if neg : bool then - n else n), r) else (None, s')
    | [] => (None, s')
    end;
  num_put n := (if n <? 0 then ["-"%char] else []) ++ put_digits (Z.abs n) (S (Z.to_nat (Z.log2 (Z.abs n)))) [];
}.

Lemma get_digits_suffix s acc : (get_digits s acc).2 `suffix_of` s.
Proof.
  revert acc. induction s as [|c s IH]; intros acc; [done|]. cbn. case_match; [|done]. apply suffix_cons_r, IH.
Qed.

#[export] Instance whole_laws : @NumberLaws whole.
Proof.
  split.
  - intros [|c s]; [done|]. cbn. destruct (decide (c = "-"%char)).
    + destruct s as [|d s]; [by apply suffix_cons_r|]. pose proof (get_digits_suffix (d :: s) 0) as Hg.
      destruct (isdigit d); [|by apply suffix_cons_r]. destruct (get_digits (d :: s) 0). by apply suffix_cons_r.
    + pose proof (get_digits_suffix (c :: s) 0) as Hg. destruct (isdigit c); [|done]. by destruct (get_digits (c :: s) 0).
  - assert (forall c s n r, isdigit c = true -> get_digits (c :: s) 0 = (n, r) -> (length r <= length s)%nat) as Hl.
    { intros c s n r Hc E. pose proof (get_digits_suffix s (0 * 10 + (ord c - 48))) as Hg%suffix_length.
      cbn [get_digits] in E. rewrite Hc in E. by rewrite E in Hg. }
    intros [|c s] d l; [done|]. cbn. destruct (decide (c = "-"%char)).
    + destruct s as [|x s]; [done|]. destruct (isdigit x) eqn:Ex; [|done]. destruct (get_digits (x :: s) 0) as [z r] eqn:E.
      apply Hl in E; [|done]. intros Ed El. apply (f_equal snd) in Ed. cbn in Ed. subst r l. cbn in E. lia.
    + destruct (isdigit c) eqn:Ec; [|done]. destruct (get_digits (c :: s) 0) as [z r] eqn:E.
      apply Hl in E; [|done]. intros Ed El. apply (f_equal snd) in Ed. cbn in Ed. subst r l. cbn in E. lia.
  - intros [|c s]; [done|]. cbn. unfold number_start. intros Hc. rewrite decide_False by (intros ->; done).
    destruct (isdigit c); [done|]. done.
Qed.

Definition parse_text (s : str) : res (option (@Value whole)) * istream := parse (S (length s)) (stream_of s).

(** The text with its apostrophes as quotes. *)
Definition quoted (s : string) : str := map (fun c => if decide (c = chr 39) then QUOTE else c) (lit s).

Example json_1 :
  parse_text (quoted "{ 'b' : [1, -20 ,true], 'a':null} x")
  = (Ok (Some (OBJECT_ [(lit "a", NULL_); (lit "b", ARRAY_ [@NUMBER_ whole 1; @NUMBER_ whole (-20); BOOL_ true])])), stream_of (lit " x")).
Proof. vm_compute. reflexivity. Qed.

(** A prefix of null is read as null, also behind the beginning of true; the empty object is written and
    not read, the empty array is not even written; a lone quotation mark is undefined; and a control
    character comes back as its escape. *)
Theorem json_defects :
  (parse_text (lit "nul")).1 = Ok (Some NULL_) /\ parse_text (lit "tnull") = (Ok (Some NULL_), stream_of []) /\
  print (@OBJECT_ whole []) = Ok (lit "{}") /\ (parse_text (lit "{}")).1 = Ok None /\
  print (@ARRAY_ whole []) = UB /\ (parse_text [QUOTE]).1 = UB /\
  print (@STRING_ whole [chr 1]) = Ok (quoted "'\u000001'") /\
  (parse_text (quoted "'\u000001'")).1 = Ok (Some (STRING_ (quoted "\u000001"))).
Proof. repeat split. Qed.

(** *** The theorems at concrete values *)

Definition sample : @Value whole :=
  OBJECT_ [(lit "a", ARRAY_ [@NUMBER_ whole (-20); BOOL_ true; NULL_]); (lit "b", STRING_ [QUOTE; "x"%char; chr 10])].

Lemma survives_sample : @survives whole (-20).
Proof. split; [done|]. intros [|c rest]; [done|]. cbn. all_chars c; done. Qed.

Lemma sample_printable : printable sample.
Proof.
  assert (forall c, c ∈ [QUOTE; "x"%char; chr 10; "a"%char; "b"%char] -> clean c) as Hc.
  { intros c Hc. unfold clean. repeat (apply elem_of_cons in Hc as [->|Hc]; [auto 10|]). by apply not_elem_of_nil in Hc. }
  apply printable_object; [done|by repeat constructor|]. repeat apply Forall_cons_2; [split..|by apply Forall_nil_2].
  - by repeat constructor.
  - apply printable_array; [done|]. repeat apply Forall_cons_2; try by constructor. constructor. apply survives_sample.
  - by repeat constructor.
  - constructor. repeat apply Forall_cons_2; [apply Hc; set_solver..|by apply Forall_nil_2].
Qed.

Lemma json_roundtrip_witness : printable sample /\ print sample = Ok (quoted "{'a': [-20, true, null], 'b': '\'x\n'}") /\
  exists t, print sample = Ok t /\ forall sp rest fuel,
    Forall (fun c => isspace c = true) sp -> delimited rest = true -> (length t < fuel)%nat ->
    exists e, parse fuel (stream_of (sp ++ t ++ rest)) = (Ok (Some sample), mkStream rest e false).
Proof.
  split; [exact sample_printable|]. split; [vm_compute; reflexivity|]. apply (json_roundtrip sample), sample_printable.
Defined.

Lemma json_parse_total_witness : (length (quoted "[1, {") < 6)%nat /\
  ((exists v s', parse 6 (stream_of (quoted "[1, {")) = (Ok v, s') /\ ahead s' `suffix_of` quoted "[1, {" /\
     forall x : @Value whole, v = Some x -> typed x /\ (length (ahead s') < length (quoted "[1, {"))%nat) \/
   (exists s' p, @parse whole 6 (stream_of (quoted "[1, {")) = (UB, s') /\ quoted "[1, {" = p ++ [QUOTE])).
Proof.
  assert (length (quoted "[1, {") < 6)%nat as Hf by (vm_compute; lia). split; [exact Hf|].
  exact (json_parse_total (num := whole) (stream_of (quoted "[1, {")) 6 Hf).
Defined.
