(* ===== verification/Str.v ===== *)
(** * The const methods and the static functions of [String] (src/cpp/src/String.cpp)

    A [const String&] is read here through its characters: [this : str] holds
    [_str[0 .. _string_length)], and the terminator [_str[_string_length] = 0]
    follows.  [StrMem] shows that every reachable [String] object gives such a
    list.  A method that reads behind the terminator (a start position past the
    end, for instance) yields [UB].  A [const char*] is read as in [CString]. *)

From S2P Require Import Prelude CString.

(** The characters with their terminator. *)
Definition text (this : str) : str := this ++ [NUL].

(** ** Construction from a pointer *)

(** [String(const char* s, uint32 len)]: [mem] is what the pointer [s] sees. *)
Definition String_ctor (mem : str) (n : Z) : res str :=
  let n := if n =? 0 then strlen mem else n in
  if n <=? zlen (text mem) then Ok (ztake n (text mem)) else UB.

(** [String(_str + pos, n)] *)
Definition String_at (this : str) (pos n : Z) : res str :=
  if pos <=? zlen this then String_ctor (zdrop pos this) n else UB.

(** [String::null], returned as a [String] *)
Definition null : str := [].

(** ** Searching *)

Definition find_char (this : str) (c : char) (pos : Z) : res Z :=
  if zlen this <? pos then UB
  else match strchr (zdrop pos this) c with
       | Some loc => Ok (s32 (pos + loc))
       | None => Ok (-1)
       end.

Definition find_str (this : str) (str_find : str) (pos : Z) : res Z :=
  if zlen this <? pos then UB
  else match strstr (zdrop pos this) str_find with
       | Some loc => Ok (s32 (pos + loc))
       | None => Ok (-1)
       end.

(** for (int i = pos; i >= 0; --i) *)
Fixpoint rfind_char_loop (this : str) (c : char) (i : nat) : res Z :=
  let? d := of_option (text this !! i) in
  if decide (d = c) then Ok (Z.of_nat i)
  else match i with O => Ok (-1) | S i' => rfind_char_loop this c i' end.

Definition rfind_char (this : str) (c : char) (pos : Z) : res Z :=
  if zlen this <? pos then Ok (-1)
  else
    let pos := if pos =? 0 then zlen this else pos in
    let i := s32 pos in
    if i <? 0 then Ok (-1) else rfind_char_loop this c (Z.to_nat i).

(** The inner loop of [rfind] on a C string at [i]: does [str_find] end before a mismatch?
    [fuel] bounds [fpos]; reading behind the terminator of [str_find] is [UB]. *)
Fixpoint rfind_match (this str_find : str) (i fpos : Z) (fuel : nat) : res bool :=
  match fuel with
  | O => NoFuel
  | S fuel' =>
      let? a := of_option (zget (text this) (i + fpos)) in
      let? b := of_option (zget (text str_find) fpos) in
      if decide (a = b) then
        let? e := of_option (zget (text str_find) (fpos + 1)) in
        if decide (e = NUL) then Ok true else rfind_match this str_find i (fpos + 1) fuel'
      else Ok false
  end.

Fixpoint rfind_str_loop (this str_find : str) (i : nat) : res Z :=
  let? found := rfind_match this str_find (Z.of_nat i) 0 (S (length this)) in
  if found : bool then Ok (Z.of_nat i)
  else match i with O => Ok (-1) | S i' => rfind_str_loop this str_find i' end.

Definition rfind_str (this str_find : str) (pos : Z) : res Z :=
  if zlen this <? pos then Ok (-1)
  else
    let pos := if pos =? 0 then zlen this else pos in
    let i := s32 pos in
    if i <? 0 then Ok (-1) else rfind_str_loop this str_find (Z.to_nat i).

(** while (cpos != NULL) { ++ch_count; cpos = strchr(cpos+1, ch); }; searching the
    terminator itself walks out of the string *)
Fixpoint count_char_loop (s : str) (ch : char) (fuel : nat) : res Z :=
  match fuel with
  | O => NoFuel
  | S fuel' =>
      match strchr s ch with
      | None => Ok 0
      | Some cpos =>
          if zlen s <=? cpos then UB
          else let? n := count_char_loop (zdrop (cpos + 1) s) ch fuel' in Ok (u32 (n + 1))
      end
  end.

Definition count_char (this : str) (ch : char) : res Z :=
  count_char_loop this ch (S (length this)).

Fixpoint count_str_loop (s sub : str) (fuel : nat) : res Z :=
  match fuel with
  | O => NoFuel
  | S fuel' =>
      match strstr s sub with
      | None => Ok 0
      | Some cpos =>
          if zlen s <=? cpos then UB
          else let? n := count_str_loop (zdrop (cpos + 1) s) sub fuel' in Ok (u32 (n + 1))
      end
  end.

Definition count_str (this sub : str) : res Z := count_str_loop this sub (S (length this)).

(** ** Parts of a string *)

Definition str_left (this : str) (n : Z) : res str :=
  if zlen this <? n then Ok null else String_at this 0 n.

Definition str_right (this : str) (n : Z) : res str :=
  let rlen := s32 (zlen this - n) in
  if zlen this <? n then Ok null else String_at this rlen n.

Definition mid (this : str) (pos n : Z) : res str :=
  if u32 (pos + n) <=? zlen this then String_at this pos n else Ok null.

(** [substr(pos, len)] and [substr(pos)] of String.h *)
Definition substr (this : str) (pos n : Z) : res str := mid this pos n.
Definition substr_from (this : str) (pos : Z) : res str := mid this pos (u32 (zlen this - pos)).

(** [between(c1, c2, num)] *)
Fixpoint between_cc_loop (this : str) (c1 c2 : char) (n : nat) (start_pos stop_pos : Z)
    : res (option (Z * Z)) :=
  match n with
  | O => Ok (Some (start_pos, stop_pos))
  | S n' =>
      let? a := find_char this c1 (u32 start_pos) in
      let start_pos := s32 (a + 1) in
      let? b := find_char this c2 (u32 start_pos) in
      let stop_pos := s32 (b + 1) in
      if start_pos =? 0 then Ok None
      else between_cc_loop this c1 c2 n' start_pos stop_pos
  end.

Definition between_cc (this : str) (c1 c2 : char) (num : Z) : res str :=
  let? r := between_cc_loop this c1 c2 (Z.to_nat (s32 num)) 0 0 in
  match r with
  | None => Ok null
  | Some (start_pos, stop_pos) =>
      if start_pos =? 0 then Ok null
      else
        let stop_pos := if stop_pos =? 0 then s32 (zlen this) else stop_pos in
        mid this (u32 start_pos) (u32 (stop_pos - start_pos - 1))
  end.

(** [between(String, char, num)] *)
Fixpoint between_sc_loop (this s1 : str) (c2 : char) (s1_len : Z) (n : nat)
    (start_pos stop_pos : Z) : res (option (Z * Z)) :=
  match n with
  | O => Ok (Some (start_pos, stop_pos))
  | S n' =>
      let? a := find_str this s1 (u32 start_pos) in
      let start_pos := s32 (a + s1_len) in
      let? b := find_char this c2 (u32 start_pos) in
      let stop_pos := s32 (b + 1) in
      if start_pos =? s1_len - 1 then Ok None
      else between_sc_loop this s1 c2 s1_len n' start_pos stop_pos
  end.

Definition between_sc (this s1 : str) (c2 : char) (num : Z) : res str :=
  let s1_len := s32 (zlen s1) in
  let? r := between_sc_loop this s1 c2 s1_len (Z.to_nat (s32 num)) 0 0 in
  match r with
  | None => Ok null
  | Some (start_pos, stop_pos) =>
      if start_pos =? s1_len - 1 then Ok null
      else
        let stop_pos := if stop_pos =? 0 then s32 (zlen this) else stop_pos in
        mid this (u32 start_pos) (u32 (stop_pos - start_pos - 1))
  end.

(** [between(char, String, num)] *)
Fixpoint between_cs_loop (this : str) (c1 : char) (s2 : str) (s2_len : Z) (n : nat)
    (start_pos stop_pos : Z) : res (option (Z * Z)) :=
  match n with
  | O => Ok (Some (start_pos, stop_pos))
  | S n' =>
      let? a := find_char this c1 (u32 start_pos) in
      let start_pos := s32 (a + 1) in
      let? b := find_str this s2 (u32 start_pos) in
      let stop_pos := s32 (b + s2_len) in
      if start_pos =? 0 then Ok None
      else between_cs_loop this c1 s2 s2_len n' start_pos stop_pos
  end.

Definition between_cs (this : str) (c1 : char) (s2 : str) (num : Z) : res str :=
  let s2_len := s32 (zlen s2) in
  let? r := between_cs_loop this c1 s2 s2_len (Z.to_nat (s32 num)) 0 0 in
  match r with
  | None => Ok null
  | Some (start_pos, stop_pos) =>
      if start_pos =? 0 then Ok null
      else
        let stop_pos := if stop_pos =? s2_len - 1 then s32 (zlen this) else stop_pos in
        mid this (u32 start_pos) (u32 (stop_pos - start_pos - s2_len))
  end.

(** [between(String, String, num)] *)
Fixpoint between_ss_loop (this s1 s2 : str) (s1_len s2_len : Z) (n : nat)
    (start_pos stop_pos : Z) : res (option (Z * Z)) :=
  match n with
  | O => Ok (Some (start_pos, stop_pos))
  | S n' =>
      let? a := find_str this s1 (u32 start_pos) in
      let start_pos := s32 (a + s1_len) in
      let? b := find_str this s2 (u32 start_pos) in
      let stop_pos := s32 (b + s2_len) in
      if start_pos =? s1_len - 1 then Ok None
      else between_ss_loop this s1 s2 s1_len s2_len n' start_pos stop_pos
  end.

Definition between_ss (this s1 s2 : str) (num : Z) : res str :=
  let s1_len := s32 (strlen s1) in
  let s2_len := s32 (strlen s2) in
  let? r := between_ss_loop this s1 s2 s1_len s2_len (Z.to_nat (s32 num)) 0 0 in
  match r with
  | None => Ok null
  | Some (start_pos, stop_pos) =>
      if start_pos =? s1_len - 1 then Ok null
      else
        let stop_pos := if stop_pos =? s2_len - 1 then s32 (zlen this) else stop_pos in
        mid this (u32 start_pos) (u32 (stop_pos - start_pos - s2_len))
  end.

(** while (_str[stop_pos+1] == delim) ++stop_pos; *)
Fixpoint skip_delims (this : str) (delim : char) (stop_pos : Z) (fuel : nat) : res Z :=
  match fuel with
  | O => NoFuel
  | S fuel' =>
      let? d := of_option (zget (text this) (stop_pos + 1)) in
      if decide (d = delim) then skip_delims this delim (stop_pos + 1) fuel' else Ok stop_pos
  end.

(** The do-while loop of [section(char)], entered with [stop_pos] and [count]. *)
Fixpoint section_char_loop (this : str) (delim : char) (field_num : Z) (allow_null : bool)
    (stop_pos count : Z) (fuel : nat) : res (Z * Z * Z) :=
  match fuel with
  | O => NoFuel
  | S fuel' =>
      let? stop_pos :=
        if allow_null then Ok stop_pos
        else skip_delims this delim stop_pos (S (S (length this))) in
      let start_pos := stop_pos + 1 in
      let? stop_pos := find_char this delim (u32 start_pos) in
      let count := count + 1 in
      if (count <? s32 field_num) && negb (stop_pos =? -1)
      then section_char_loop this delim field_num allow_null stop_pos count fuel'
      else Ok (start_pos, stop_pos, count)
  end.

Definition section_char (this : str) (delim : char) (field_num : Z) (allow_null : bool)
    : res str :=
  let? (start_pos, stop_pos, count) :=
    section_char_loop this delim field_num allow_null (-1) (-1) (S (S (length this))) in
  if (stop_pos =? -1) && negb (count =? s32 field_num) then Ok null
  else
    let stop_pos := if stop_pos =? -1 then s32 (zlen this) else stop_pos in
    mid this (u32 start_pos) (u32 (stop_pos - start_pos)).

(** The do-while loop of [section(String)]. *)
Fixpoint section_str_loop (this delim : str) (field_num stop_pos count : Z) (fuel : nat)
    : res (Z * Z * Z) :=
  match fuel with
  | O => NoFuel
  | S fuel' =>
      let start_pos := stop_pos + 1 in
      let? stop_pos := find_str this delim (u32 start_pos) in
      let count := count + 1 in
      if (count <? s32 field_num) && negb (stop_pos =? -1)
      then section_str_loop this delim field_num stop_pos count fuel'
      else Ok (start_pos, stop_pos, count)
  end.

Definition section_str (this delim : str) (field_num : Z) : res str :=
  let? (start_pos, stop_pos, count) :=
    section_str_loop this delim field_num (-1) (-1) (S (S (length this))) in
  if (stop_pos =? -1) && negb (count =? s32 field_num) then Ok null
  else
    let stop_pos := if stop_pos =? -1 then s32 (zlen this) else stop_pos in
    let start_pos :=
      if negb (start_pos =? 0) then s32 (start_pos + strlen delim - 1) else start_pos in
    mid this (u32 start_pos) (u32 (stop_pos - start_pos)).

(** ** Searching: theorems *)

(** [strlen] and [String_at] on what is left of a string without NUL. *)
Lemma String_at_0 this pos :
  nul_free this -> 0 <= pos <= zlen this -> String_at this pos 0 = Ok (zdrop pos this).
Proof.
  intros Hf Hp. unfold String_at, String_ctor. replace (pos <=? zlen this) with true by lia.
  assert (nul_free (zdrop pos this)) as Hd by (by apply Forall_drop).
  rewrite Z.eqb_refl, strlen_id by done. unfold text. rewrite zlen_app.
  replace (_ <=? _) with true by (change (zlen [NUL]) with 1; lia).
  f_equal. unfold ztake. rewrite take_app_le by (unfold zlen; lia).
  apply take_ge. unfold zlen. lia.
Qed.

Lemma String_at_pos this pos n :
  0 <= pos -> 0 < n -> pos + n <= zlen this -> String_at this pos n = Ok (zsub pos n this).
Proof.
  intros Hp Hn Hl. unfold String_at, String_ctor, text, zsub.
  pose proof (zlen_drop pos this).
  replace (pos <=? zlen this) with true by lia. replace (n =? 0) with false by lia.
  rewrite zlen_app. replace (_ <=? _) with true by (change (zlen [NUL]) with 1; lia).
  f_equal. unfold ztake. rewrite take_app_le; [done|]. unfold zlen in *. lia.
Qed.

(** [mid] of a nonempty range inside the string is that range; an empty range gives the
    whole rest, since length 0 means "up to the terminator" to the constructor. *)
Lemma mid_spec this pos n :
  nul_free this -> zlen this < 2 ^ 31 -> 0 <= pos -> 0 <= n -> pos + n <= zlen this ->
  mid this pos n = Ok (if n =? 0 then zdrop pos this else zsub pos n this).
Proof.
  intros Hf Hl Hp Hn Hpn. unfold mid. rewrite wrapU_small by lia.
  replace (pos + n <=? zlen this) with true by lia.
  destruct (Z.eqb_spec n 0) as [->|].
  - apply String_at_0; [done|lia].
  - apply String_at_pos; lia.
Qed.

Lemma zdrop_app_zlen {A} (l k : list A) : zdrop (zlen l) (l ++ k) = k.
Proof. unfold zdrop, zlen. rewrite Nat2Z.id. apply drop_app_length. Qed.

Lemma zsub_app {A} (l k m : list A) : zsub (zlen l) (zlen k) (l ++ k ++ m) = k.
Proof. unfold zsub. rewrite zdrop_app_zlen. unfold ztake, zlen. rewrite Nat2Z.id. apply take_app_length. Qed.

(** [find] of a character that follows [b]. *)
Lemma find_char_hit a b c t :
  nul_free b -> c ∉ b -> zlen (a ++ b ++ c :: t) < 2 ^ 31 ->
  find_char (a ++ b ++ c :: t) c (zlen a) = Ok (zlen a + zlen b).
Proof.
  intros Hf Hc Hl. unfold find_char.
  replace (_ <? _) with false by (revert Hl; zlen_lia).
  rewrite zdrop_app_zlen, strchr_app by done. rewrite wrapS_small; [done|lia|].
  change (- 2 ^ (32 - 1)) with (- 2 ^ 31). change (32 - 1) with 31. revert Hl. zlen_lia.
Qed.

Lemma find_char_miss a b c :
  nul_free b -> c <> NUL -> c ∉ b -> find_char (a ++ b) c (zlen a) = Ok (-1).
Proof.
  intros Hf Hn Hc. unfold find_char.
  replace (_ <? _) with false by zlen_lia.
  rewrite zdrop_app_zlen. by replace (strchr b c) with (@None Z) by (symmetry; by apply strchr_None).
Qed.

(** A text without any of the characters [cs]. *)
Definition free_of (cs s : str) : Prop := Forall (fun c => c ∉ cs) s.

Lemma free_of_not_in cs s c : free_of cs s -> c ∈ cs -> c ∉ s.
Proof. intros H Hc Hs. unfold free_of in H. rewrite Forall_forall in H. by apply (H c). Qed.

(** A character that a text is known to be without. *)
Ltac marks := eapply free_of_not_in; [eassumption|compute_done].

Lemma find_char_hit_at s a b c t pos :
  s = a ++ b ++ c :: t -> pos = zlen a -> nul_free s -> zlen s < 2 ^ 31 -> c ∉ b ->
  find_char s c pos = Ok (zlen a + zlen b).
Proof.
  intros -> -> Hf Hl Hc. apply find_char_hit; [|done..].
  by apply nul_free_app in Hf as [_ [? _]%nul_free_app].
Qed.

Lemma find_char_miss_at s a b c pos :
  s = a ++ b -> pos = zlen a -> nul_free s -> c <> NUL -> c ∉ b -> find_char s c pos = Ok (-1).
Proof. intros -> -> Hf Hn Hc. apply find_char_miss; [|done..]. by apply nul_free_app in Hf as [_ ?]. Qed.

(** A search for a character that does not occur in the next [zlen b] ones. *)
Lemma find_char_past s a b c t pos :
  s = a ++ b ++ t -> pos = zlen a -> nul_free s -> zlen s < 2 ^ 31 -> c <> NUL -> c ∉ b ->
  exists i, find_char s c pos = Ok i /\ (i = -1 \/ zlen a + zlen b <= i < 2 ^ 31).
Proof.
  intros -> -> Hf Hl Hn Hc.
  destruct (decide (c ∈ t)) as [(t1 & t2 & -> & Ht)%list_elem_of_split_l|Ht].
  - exists (zlen a + zlen (b ++ t1)). split.
    + apply (find_char_hit_at _ a (b ++ t1) c t2); [by rewrite <- !app_assoc|done..|].
      by rewrite not_elem_of_app.
    + right. revert Hl. zlen_lia.
  - exists (-1). split; [|by left]. apply (find_char_miss_at _ a (b ++ t)); try done.
    by rewrite not_elem_of_app.
Qed.

Lemma substr_at s a b t pos n :
  s = a ++ b ++ t -> pos = zlen a -> n = zlen b -> nul_free s -> zlen s < 2 ^ 31 -> b <> [] ->
  substr s (u32 pos) (u32 n) = Ok b.
Proof.
  intros -> -> -> Hf Hl Hb. assert (zlen (a ++ b ++ t) = zlen a + zlen b + zlen t) as E by zlen_lia.
  pose proof (zlen_nonneg a). pose proof (zlen_nonneg t).
  assert (0 < zlen b) by (destruct b; [done|zlen_lia]).
  unfold substr. rewrite !wrapU_small by lia. rewrite mid_spec by (lia || done).
  replace (zlen b =? 0) with false by lia. by rewrite zsub_app.
Qed.

(** [find] returns the least index from [pos] on that holds the character (the
    terminator counts), and -1 when there is none; [pos] past the end is undefined. *)
Theorem find_char_spec this c pos :
  nul_free this -> zlen this < 2 ^ 31 -> 0 <= pos <= zlen this ->
  (exists i, find_char this c pos = Ok i /\ pos <= i <= zlen this /\ zget (text this) i = Some c /\
     forall j, pos <= j < i -> zget this j <> Some c) \/
  (find_char this c pos = Ok (-1) /\ c ∉ zdrop pos this).
Proof.
  intros Hf Hl Hp. unfold find_char. replace (zlen this <? pos) with false by lia.
  assert (nul_free (zdrop pos this)) as Hd by (by apply Forall_drop).
  assert (forall k j, 0 <= j -> zget (zdrop pos this ++ k) j = zget (this ++ k) (pos + j)) as Hz.
  { intros k j Hj. rewrite !zget_lookup by lia.
    replace (Z.to_nat (pos + j)) with (Z.to_nat pos + Z.to_nat j)%nat by lia.
    rewrite <- (lookup_drop (this ++ k)). unfold zdrop. rewrite drop_app_le; [done|].
    unfold zlen in *. lia. }
  destruct (strchr (zdrop pos this) c) as [i|] eqn:E.
  - left. destruct (strchr_Some _ _ _ Hd E) as (Hi & Hg & Hn). rewrite zlen_drop in Hi.
    exists (pos + i). split_and!; [f_equal; apply wrapS_small; lia|lia|lia| |].
    + unfold text. rewrite <- Hz by lia. done.
    + intros j Hj. specialize (Hn (j - pos) ltac:(lia)).
      specialize (Hz [] (j - pos) ltac:(lia)). rewrite !app_nil_r in Hz. rewrite Hz in Hn.
      by replace (pos + (j - pos)) with j in Hn by lia.
  - right. split; [done|]. by apply strchr_None in E as [_ ?].
Qed.

(** ** Parts: theorems *)

(** [between(c1, c2, 1)] from the front of a string. *)
Lemma between_cc_one this c1 c2 a b :
  find_char this c1 0 = Ok a -> 0 <= a < 2 ^ 31 - 1 ->
  find_char this c2 (a + 1) = Ok b -> -1 <= b < 2 ^ 31 - 1 ->
  between_cc this c1 c2 1 =
    mid this (a + 1) (u32 ((if b =? -1 then s32 (zlen this) else b + 1) - (a + 1) - 1)).
Proof.
  intros Ha Hab Hb Hbb. unfold between_cc. change (Z.to_nat (s32 1)) with 1%nat. simpl.
  change (u32 0) with 0. rewrite Ha. simpl.
  rewrite (wrapS_small 32 (a + 1)), (wrapU_small 32 (a + 1)) by lia. rewrite Hb. simpl.
  replace (a + 1 =? 0) with false by lia. simpl.
  replace (a + 1 =? 0) with false by lia.
  rewrite (wrapS_small 32 (b + 1)), (wrapU_small 32 (a + 1)) by lia.
  replace (b + 1 =? 0) with (b =? -1) by lia. by destruct (b =? -1).
Qed.

(** [between(c1, c2)] gives the text between the first [c1] and the next [c2]; when that is empty
    it gives everything behind [c1]. *)
Theorem between_cc_spec a b t c1 c2 :
  nul_free (a ++ c1 :: b ++ c2 :: t) -> zlen (a ++ c1 :: b ++ c2 :: t) < 2 ^ 31 - 1 ->
  c1 ∉ a -> c2 ∉ b ->
  between_cc (a ++ c1 :: b ++ c2 :: t) c1 c2 1
    = Ok (if decide (b = []) then c2 :: t else b).
Proof.
  intros Hf Hl H1 H2.
  pose proof (zlen_nonneg a). pose proof (zlen_nonneg b). pose proof (zlen_nonneg t).
  assert (a ++ c1 :: b ++ c2 :: t = (a ++ [c1]) ++ b ++ c2 :: t) as E by (by rewrite <- app_assoc).
  assert (zlen (a ++ [c1]) = zlen a + 1) as El by zlen_lia.
  apply nul_free_app in Hf as Hf'. destruct Hf' as [Hfa Hft].
  apply nul_free_cons in Hft as [Hc1 Hft]. apply nul_free_app in Hft as [Hfb Hft].
  assert (zlen (a ++ c1 :: b ++ c2 :: t) = zlen a + zlen b + zlen t + 2) as Ell by zlen_lia.
  erewrite between_cc_one with (a := zlen a) (b := zlen a + 1 + zlen b).
  - replace (_ =? -1) with false by lia.
    rewrite wrapU_small by lia.
    rewrite mid_spec by (lia || done).
    replace (zlen a + 1 + zlen b + 1 - (zlen a + 1) - 1) with (zlen b) by lia.
    rewrite E, <- El. rewrite zdrop_app_zlen, zsub_app.
    destruct b; [done|]. rewrite zlen_cons. pose proof (zlen_nonneg b).
    by replace (zlen b + 1 =? 0) with false by lia.
  - apply (find_char_hit [] a); [done..|]. simpl. lia.
  - lia.
  - rewrite E, <- El. apply find_char_hit; [done..|]. rewrite <- E. lia.
  - lia.
Qed.

(** Without a closing character, the last character of the rest is lost. *)
Theorem between_cc_unclosed a b x c1 c2 :
  nul_free (a ++ c1 :: b ++ [x]) -> zlen (a ++ c1 :: b ++ [x]) < 2 ^ 31 - 1 ->
  c1 ∉ a -> c2 ∉ b ++ [x] -> c2 <> NUL -> b <> [] ->
  between_cc (a ++ c1 :: b ++ [x]) c1 c2 1 = Ok b.
Proof.
  intros Hf Hl H1 H2 Hc2 Hb.
  pose proof (zlen_nonneg a). pose proof (zlen_nonneg b).
  assert (a ++ c1 :: b ++ [x] = (a ++ [c1]) ++ b ++ [x]) as E by (by rewrite <- app_assoc).
  assert (zlen (a ++ [c1]) = zlen a + 1) as El by zlen_lia.
  apply nul_free_app in Hf as Hf'. destruct Hf' as [Hfa Hft].
  apply nul_free_cons in Hft as [Hc1 Hft].
  assert (zlen (a ++ c1 :: b ++ [x]) = zlen a + zlen b + 2) as Ell by zlen_lia.
  assert (0 < zlen b) by (destruct b; [done|zlen_lia]).
  erewrite between_cc_one with (a := zlen a) (b := -1).
  - simpl. rewrite wrapS_small, wrapU_small by lia. rewrite mid_spec by (lia || done).
    replace (zlen (a ++ c1 :: b ++ [x]) - (zlen a + 1) - 1) with (zlen b) by lia.
    replace (zlen b =? 0) with false by lia. rewrite E, <- El. by rewrite zsub_app.
  - apply (find_char_hit [] a); [done..|]. simpl. lia.
  - lia.
  - rewrite E, <- El. by apply find_char_miss.
  - lia.
Qed.

(** The fields of a delimited string, put back together. *)
Fixpoint join (d : char) (fs : list str) : str :=
  match fs with
  | [] => []
  | [f] => f
  | f :: fs' => f ++ d :: join d fs'
  end.

(** What [section_char] makes of the loop's result. *)
Definition section_fin (this : str) (field_num : Z) (r : Z * Z * Z) : res str :=
  let '(start_pos, stop_pos, count) := r in
  if (stop_pos =? -1) && negb (count =? s32 field_num) then Ok null
  else
    let stop_pos := if stop_pos =? -1 then s32 (zlen this) else stop_pos in
    mid this (u32 start_pos) (u32 (stop_pos - start_pos)).

(** The field [f] that the loop found: an empty one comes with all that follows it. *)
Lemma section_fin_field this pre f rest num stop :
  this = pre ++ f ++ rest -> nul_free this -> zlen this < 2 ^ 31 - 1 -> 0 <= num < 2 ^ 31 ->
  stop = (if decide (rest = []) then -1 else zlen pre + zlen f) ->
  section_fin this num (zlen pre, stop, num) = Ok (if decide (f = []) then f ++ rest else f).
Proof.
  intros E Hf Hl Hnum ->. pose proof (f_equal zlen E) as El. rewrite !zlen_app in El.
  pose proof (zlen_nonneg pre). pose proof (zlen_nonneg f). pose proof (zlen_nonneg rest).
  unfold section_fin. rewrite (wrapS_small 32 num), (wrapS_small 32 (zlen this)), Z.eqb_refl, andb_false_r by lia.
  set (stop' := if _ =? -1 then _ else _).
  assert (stop' = zlen pre + zlen f) as ->.
  { subst stop'. case_decide as Er; [subst rest; simpl; change (zlen []) with 0 in El; lia|].
    by replace (zlen pre + zlen f =? -1) with false by lia. }
  rewrite !wrapU_small, mid_spec by (lia || done).
  replace (zlen pre + zlen f - zlen pre) with (zlen f) by lia.
  rewrite E, zdrop_app_zlen, zsub_app. f_equal.
  destruct f as [|c f]; [done|]. rewrite zlen_cons. pose proof (zlen_nonneg f).
  by replace (zlen f + 1 =? 0) with false by lia.
Qed.

(** The loop at the start of field [f], which is the [k]-th before the wanted one. *)
Lemma section_char_loop_spec d fs : forall f pre k num fuel,
  let this := pre ++ join d (f :: fs) in
  nul_free this -> zlen this < 2 ^ 31 - 1 -> Forall (fun f => d ∉ f) (f :: fs) -> d <> NUL ->
  0 <= num < 2 ^ 31 -> Z.of_nat k <= num -> (length fs < fuel)%nat ->
  (let? r := section_char_loop this d num true (zlen pre - 1) (num - Z.of_nat k - 1) fuel in
   section_fin this num r) =
  Ok (match (f :: fs) !! k with
      | None => null
      | Some g => if decide (g = []) then join d (drop k (f :: fs)) else g
      end).
Proof.
  induction fs as [|g fs IH]; intros f pre k num fuel this Hf Hl Hd Hn Hnum Hk Hfuel.
  all: destruct fuel as [|fuel]; [lia|]; cbn [section_char_loop bind].
  all: pose proof (zlen_nonneg pre); pose proof (zlen_nonneg f).
  all: replace (zlen pre - 1 + 1) with (zlen pre) by lia.
  all: replace (num - Z.of_nat k - 1 + 1) with (num - Z.of_nat k) by lia.
  all: apply Forall_cons_iff in Hd as [Hdf Hd].
  all: apply nul_free_app in Hf as Hf'; destruct Hf' as [_ Hff].
  - assert (zlen this = zlen pre + zlen f) as El by (subst this; simpl; zlen_lia).
    rewrite (wrapU_small 32 (zlen pre)) by lia.
    subst this. cbn [join] in *. rewrite find_char_miss by done. cbn [bind].
    change (-1 =? -1) with true. simpl negb. rewrite andb_false_r. cbn [bind].
    destruct k as [|k].
    + change (Z.of_nat 0) with 0. rewrite Z.sub_0_r. cbn [lookup list_lookup drop].
      rewrite (section_fin_field _ pre f []) by (rewrite ?app_nil_r; done || lia).
      by case_decide; rewrite ?app_nil_r.
    + cbn [section_fin]. rewrite (wrapS_small 32 num) by lia. simpl (-1 =? -1). cbn [andb].
      by destruct (Z.eqb_spec (num - Z.of_nat (S k)) num); [lia|].
  - assert (this = pre ++ f ++ d :: join d (g :: fs)) as Et by done.
    assert (zlen this = zlen pre + zlen f + 1 + zlen (join d (g :: fs))) as El
      by (rewrite Et; zlen_lia).
    pose proof (zlen_nonneg (join d (g :: fs))).
    rewrite (wrapU_small 32 (zlen pre)) by lia.
    apply nul_free_app in Hff as [Hff _].
    clearbody this.
    assert (find_char this d (zlen pre) = Ok (zlen pre + zlen f)) as Efind.
    { rewrite Et. apply find_char_hit; [done..|]. rewrite <- Et. lia. }
    rewrite Efind. cbn [bind].
    rewrite (wrapS_small 32 num) by lia.
    replace (zlen pre + zlen f =? -1) with false by lia. cbn [negb]. rewrite andb_true_r.
    destruct k as [|k].
    + change (Z.of_nat 0) with 0. rewrite Z.sub_0_r, Z.ltb_irrefl. cbn [bind lookup list_lookup drop].
      rewrite (section_fin_field _ pre f (d :: join d (g :: fs))) by done. by case_decide.
    + destruct (Z.ltb_spec (num - Z.of_nat (S k)) num); [|lia].
      assert (this = (pre ++ f ++ [d]) ++ join d (g :: fs)) as Et'.
      { rewrite Et. by rewrite <- !app_assoc. }
      specialize (IH g (pre ++ f ++ [d]) k num fuel). cbv zeta in IH. rewrite <- Et' in IH.
      etransitivity; [|apply IH; [done|done|done|done|lia|lia|simpl in Hfuel; lia]].
      replace (zlen (pre ++ f ++ [d]) - 1) with (zlen pre + zlen f) by zlen_lia.
      by replace (num - Z.of_nat k - 1) with (num - Z.of_nat (S k)) by lia.
Qed.

Lemma length_join d fs : (length fs <= S (length (join d fs)))%nat.
Proof.
  destruct fs as [|f fs]; simpl; [lia|]. revert f.
  induction fs as [|g fs IH]; intros f; simpl; [lia|].
  rewrite length_app. simpl. specialize (IH g). simpl in IH. lia.
Qed.

(** The fields of a joined text. *)
Lemma section_char_at d fs k :
  nul_free (join d fs) -> zlen (join d fs) < 2 ^ 31 - 1 -> Forall (fun f => d ∉ f) fs ->
  d <> NUL -> fs <> [] -> Z.of_nat k < 2 ^ 31 ->
  section_char (join d fs) d (Z.of_nat k) true =
  Ok (match fs !! k with
      | None => null
      | Some g => if decide (g = []) then join d (drop k fs) else g
      end).
Proof.
  intros Hf Hl Hd Hn Hne Hk. pose proof (length_join d fs).
  destruct fs as [|f fs]; [done|]. unfold section_char.
  rewrite <- (section_char_loop_spec d fs f [] k (Z.of_nat k) (S (S (length (join d (f :: fs)))))); try done; try lia.
  - simpl app. change (zlen [] - 1) with (-1).
    by replace (Z.of_nat k - Z.of_nat k - 1) with (-1) by lia.
  - simpl length in *. lia.
Qed.

(** [section(delim, k)] of fields joined by [delim] is the k-th field, or nothing when there is no
    such field; for an empty field it is the rest of the string from there on. *)
Theorem section_char_join d fs k :
  nul_free (join d fs) -> zlen (join d fs) < 2 ^ 31 - 1 -> Forall (fun f => d ∉ f) fs ->
  d <> NUL -> fs <> [] -> Z.of_nat k < 2 ^ 31 ->
  section_char (join d fs) d (Z.of_nat k) true =
  Ok (match fs !! k with
      | None => null
      | Some g => if decide (g = []) then join d (drop k fs) else g
      end).
Proof. apply section_char_at. Qed.

(** ** Counting *)

Definition occurrences (c : char) (s : str) : Z := zlen (filter (fun d => d = c) s).

Lemma occurrences_app c s t : occurrences c (s ++ t) = occurrences c s + occurrences c t.
Proof. unfold occurrences. by rewrite filter_app, zlen_app. Qed.
Lemma occurrences_none c s : c ∉ s -> occurrences c s = 0.
Proof.
  intros H. unfold occurrences. induction s as [|d s IH]; [done|].
  rewrite not_elem_of_cons in H. destruct H as [Hd Hs]. rewrite filter_cons_False by congruence. by apply IH.
Qed.
Lemma occurrences_cons c s : occurrences c (c :: s) = occurrences c s + 1.
Proof. unfold occurrences. by rewrite filter_cons_True, zlen_cons. Qed.
Lemma occurrences_le c s : 0 <= occurrences c s <= zlen s.
Proof. unfold occurrences, zlen. pose proof (length_filter (fun d => d = c) s). lia. Qed.

Lemma count_char_spec s c :
  nul_free s -> c <> NUL -> zlen s < 2 ^ 32 -> count_char s c = Ok (occurrences c s).
Proof.
  intros Hf Hc Hl. unfold count_char.
  assert (forall fuel s, nul_free s -> zlen s < 2 ^ 32 -> (length s < fuel)%nat ->
    count_char_loop s c fuel = Ok (occurrences c s)) as H; [|by apply H; [done..|lia]].
  clear s Hf Hl. induction fuel as [|fuel IH]; intros s Hf Hl Hfuel; [lia|]. cbn [count_char_loop].
  destruct (decide (c ∈ s)) as [(s1 & s2 & -> & Hn)%list_elem_of_split_l|Hn].
  - apply nul_free_app in Hf as [Hf1 [_ Hf2]%nul_free_cons]. rewrite strchr_app by done.
    replace (zlen (s1 ++ c :: s2) <=? zlen s1) with false by zlen_lia.
    assert (zdrop (zlen s1 + 1) (s1 ++ c :: s2) = s2) as ->.
    { replace (s1 ++ c :: s2) with ((s1 ++ [c]) ++ s2) by (by rewrite <- app_assoc).
      replace (zlen s1 + 1) with (zlen (s1 ++ [c])) by zlen_lia. apply zdrop_app_zlen. }
    rewrite IH; [|done|zlen_lia|rewrite length_app in Hfuel; simpl in Hfuel; lia]. cbn [bind].
    rewrite occurrences_app, occurrences_cons, (occurrences_none c s1) by done.
    pose proof (occurrences_le c s2). rewrite wrapU_small by (change (2 ^ 32) with 4294967296 in *; zlen_lia). done.
  - assert (strchr s c = None) as -> by by apply strchr_None. by rewrite occurrences_none.
Qed.

Lemma occurrences_join d fs :
  Forall (fun f => d ∉ f) fs -> fs <> [] -> occurrences d (join d fs) = zlen fs - 1.
Proof.
  intros Hd Hne. destruct fs as [|f fs]; [done|]. clear Hne. revert f Hd.
  induction fs as [|g fs IH]; intros f [Hf Hd]%Forall_cons_iff.
  - by rewrite occurrences_none.
  - change (join d (f :: g :: fs)) with (f ++ d :: join d (g :: fs)).
    rewrite occurrences_app, occurrences_cons, occurrences_none, IH by done. zlen_lia.
Qed.

(** ** Witnesses *)

Lemma section_char_join_witness : section_char (lit "a,bc,d") "," 1 true = Ok (lit "bc").
Proof.
  apply (section_char_join "," [lit "a"; lit "bc"; lit "d"] 1);
    [by repeat constructor|reflexivity|repeat constructor; compute_done|done|done|reflexivity].
Defined.

Lemma between_cc_spec_witness : between_cc (lit "f(x)+1") "(" ")" 1 = Ok (lit "x").
Proof.
  apply (between_cc_spec (lit "f") (lit "x") (lit "+1") "(" ")");
    [by repeat constructor|reflexivity|compute_done|compute_done].
Defined.
