(* ===== verification/StrConv.v ===== *)
(** * Comparison, classification and conversions of [String] (src/cpp/src/String.cpp)

    Equality ([Compare] and the operators on it), [beginsWith]/[endsWith], the
    character classes, [Hex]/[UnHex], [Val] and its inverses [Int]/[Long]/...,
    [escape]/[unescape] and [Bits]. *)

From S2P Require Import Prelude CString Str.

(** [result += c] of a [char], on the characters: a NUL is not appended. *)
Definition push (result : str) (c : char) : str :=
  if decide (c = NUL) then result else result ++ [c].

(** ** Comparison *)

(** The first character a C string shows: its terminator when it is over. *)
Definition deref (s : str) : char := default NUL (head s).

(** [Compare(s1, s2, ignore_case)] *)
Fixpoint Compare (s1 s2 : str) (ignore_case : bool) : bool :=
  let fold c := if ignore_case then toupper c else c in
  let c1 := fold (deref s1) in
  let c2 := fold (deref s2) in
  match s1 with
  | [] => bool_decide (c1 = c2)
  | _ :: s1' =>
      if bool_decide (c1 <> NUL) && bool_decide (c1 = c2)
      then Compare s1' (tail s2) ignore_case
      else bool_decide (c1 = c2)
  end.

Definition isEqualTo (this s : str) (ignore_case : bool) : bool := Compare this s ignore_case.

(** operator==, operator!= in their overloads for std::string, String and C strings *)
Definition op_eq (s1 s2 : str) : bool := Compare s1 s2 false.
Definition op_ne (s1 s2 : str) : bool := negb (Compare s1 s2 false).

(** [beginsWith(bstr)] *)
Fixpoint beginsWith_loop (bstr this : str) : bool :=
  match bstr with
  | [] => true
  | c1 :: bstr' =>
      if decide (c1 = NUL) then true
      else if decide (c1 = deref this) then beginsWith_loop bstr' (tail this)
      else false
  end.
Definition beginsWith (this bstr : str) : bool := beginsWith_loop bstr this.

(** [endsWith(estr)]: the do-while loop compares backwards from the last characters. *)
Fixpoint endsWith_loop (this estr : str) (p1 p2 : Z) (counter : nat) : res bool :=
  match counter with
  | O => Ok true
  | S counter' =>
      let? c1 := of_option (zget (text estr) p1) in
      let? c2 := of_option (zget (text this) p2) in
      if decide (c1 = c2) then endsWith_loop this estr (p1 - 1) (p2 - 1) counter'
      else Ok (bool_decide (counter' = O))
  end.

Definition endsWith (this estr : str) : res bool :=
  let p1_len := strlen estr in
  let p2_len := zlen this in
  if (p1_len =? 0) || (p2_len <? p1_len) || (p2_len =? 0) then Ok false
  else endsWith_loop this estr (p1_len - 1) (p2_len - 1) (Z.to_nat p1_len).

(** [isDigits()]: the comparisons are on signed characters. *)
Fixpoint isDigits_loop (s : str) : bool :=
  match s with
  | [] => true
  | c :: s' =>
      if ((48 <=? sord c) && (sord c <=? 57)) || (sord c =? 46) then isDigits_loop s' else false
  end.
Definition isDigits (this : str) : bool :=
  if zlen this =? 0 then false else isDigits_loop this.

(** The hash: [h = ((h << 5) + h) ^ _str[i]] in [uint32], with [_str[i]] a signed char. *)
Definition hash_step (h : Z) (c : char) : Z :=
  Z.lxor (u32 (u32 (Z.shiftl h 5) + h)) (u32 (sord c)).
Definition hash_chars (this : str) : Z := foldl hash_step 0 this.

(** operator<, >, <=, >= compare the hash values. *)
Definition op_lt (s1 s2 : str) : bool := hash_chars s1 <? hash_chars s2.
Definition op_gt (s1 s2 : str) : bool := hash_chars s2 <? hash_chars s1.
Definition op_le (s1 s2 : str) : bool := hash_chars s1 <=? hash_chars s2.
Definition op_ge (s1 s2 : str) : bool := hash_chars s2 <=? hash_chars s1.

(** ** Character classes; a [char] compares as a signed integer *)

Definition IsDigit (c : char) : bool := (sord "0" <=? sord c) && (sord c <=? sord "9").
Definition IsAThruZ (c : char) : bool :=
  ((sord "a" <=? sord c) && (sord c <=? sord "z")) ||
  ((sord "A" <=? sord c) && (sord c <=? sord "Z")).
Definition IsWhiteSpace (c : char) : bool :=
  (sord c =? 13) || (sord c =? 10) || (sord c =? 9).
Definition IsValidHex (c : char) : bool :=
  if (sord "0" <=? sord c) && (sord c <=? sord "9") then true
  else if (sord "a" <=? sord c) && (sord "f" <=? sord c) then true
  else if (sord "A" <=? sord c) && (sord "F" <=? sord c) then true
  else false.

(** ** Hexadecimal *)

Definition HEX : str := lit "0123456789ABCDEF" ++ [NUL].
Definition HEX_at (i : Z) : char := default NUL (zget HEX i).

Definition Hex (c : char) (out : str) : str :=
  push (push out (HEX_at (Z.shiftr (ord c) 4))) (HEX_at (Z.land (ord c) 15)).

(** One nibble of [UnHex]; [None] is its [return 0]. *)
Definition unhex1 (h : char) : option Z :=
  if (sord "a" <=? sord h) && (sord h <=? sord "f") then Some (sord h - sord "a" + 10)
  else if (sord "A" <=? sord h) && (sord h <=? sord "F") then Some (sord h - sord "A" + 10)
  else if (sord "0" <=? sord h) && (sord h <=? sord "9") then Some (sord h - sord "0")
  else None.

Definition UnHex (hex1 hex2 : char) : char :=
  match unhex1 hex1, unhex1 hex2 with
  | Some v1, Some v2 => chr (v1 * 16 + v2)
  | _, _ => chr 0
  end.

(** ** Numbers to strings *)

(** do { *--p = HEX[nn%base]; nn /= base; } while(nn);  [room] is [p - buf]: a write
    before the start of [buf] is undefined. *)
Fixpoint val_digits (room : nat) (nn base : Z) (acc : str) : res (nat * str) :=
  match room with
  | O => UB
  | S room' =>
      let acc := HEX_at (nn mod base) :: acc in
      let nn := nn / base in
      if nn =? 0 then Ok (room', acc) else val_digits room' nn base acc
  end.

(** if(num<0) *--p='-'; return String(p, buf+33-p); *)
Definition val_sign (neg : bool) (r : nat * str) : res str :=
  let '(room, acc) := r in
  if neg then match room with O => UB | S _ => Ok ("-"%char :: acc) end else Ok acc.

(** The buffer is [char buf[34]], and [p = buf+33] holds the terminator. *)
Definition BUF_ROOM : nat := 33.

Definition bad_base (base : Z) : bool := (base <? 2) || (16 <? base).

Definition Val_int32 (num base : Z) : res str :=
  let nn := u32 num in
  if bad_base base then Ok []
  else
    let nn := if num <? 0 then u32 (u32 (Z.lnot num) + 1) else nn in
    let? r := val_digits BUF_ROOM nn base [] in val_sign (num <? 0) r.

(** [String::Format] of the arguments for which the library's [vsnprintf] writes [out].  A text longer
    than the first buffer is written again with the same [va_list], whose arguments are read by then. *)
Definition fits (fmt out : str) : bool := zlen out <=? zlen fmt + 128.
Definition Format (fmt out : str) : res str := if fits fmt out then Ok out else UB.

(** [Logger::_logva] prints a message with a format into the 512 bytes of [tmp]. *)
Definition LOG_BUFFER : Z := 512.
Definition log_fits (out : str) : bool := zlen out <? LOG_BUFFER.
Definition logva (out : str) : res str := if log_fits out then Ok out else UB.

Definition Val_uint32 (num base : Z) : res str :=
  if bad_base base then Ok []
  else let? r := val_digits BUF_ROOM num base [] in val_sign false r.

Definition Val_int64 (num base : Z) : res str :=
  let nn := u64 num in
  if bad_base base then Ok []
  else
    let nn := if num <? 0 then u32 (u32 (Z.lnot num) + 1) else nn in
    let? r := val_digits BUF_ROOM nn base [] in val_sign (num <? 0) r.

Definition Val_uint64 (num base : Z) : res str :=
  if bad_base base then Ok []
  else let? r := val_digits BUF_ROOM num base [] in val_sign false r.

(** ** Strings to numbers *)

Definition Int (s : str) (base : Z) : Z := s32 (strtol s base).
Definition UInt (s : str) (base : Z) : Z := u32 (s32 (strtoul s base)).
Definition Long (s : str) (base : Z) : Z := strtol s base.
Definition ULong (s : str) (base : Z) : Z := strtoul s base.

(** ** Escapes *)

Definition BACKSLASH : char := chr 92.

Definition escape_char (result : str) (c : char) : str :=
  let put (t : str) := result ++ t in
  match ord c with
  | 10 => put [BACKSLASH; "n"%char]
  | 13 => put [BACKSLASH; "r"%char]
  | 8 => put [BACKSLASH; "b"%char]
  | 11 => put [BACKSLASH; "v"%char]
  | 7 => put [BACKSLASH; "a"%char]
  | 12 => put [BACKSLASH; "f"%char]
  | 9 => put [BACKSLASH; "t"%char]
  | 92 => put [BACKSLASH; BACKSLASH]
  | 34 => put [BACKSLASH; chr 34]
  | 39 => put [BACKSLASH; chr 39]
  | c =>
      if (c <? 32) || (127 <? c) then
        push (push (put [BACKSLASH; "x"%char]) (HEX_at (Z.shiftr c 4))) (HEX_at (Z.land c 15))
      else push result (chr c)
  end.

Definition escape (s : str) : str := foldl escape_char [] s.

(** ('a'<=c) ? c-'a'+10 : ('A'<=c) ? c-'A'+10 : c-'0' *)
Definition hexval (c : char) : Z :=
  if 97 <=? ord c then ord c - 97 + 10
  else if 65 <=? ord c then ord c - 65 + 10 else ord c - 48.

Definition isoctal (c : char) : bool := (sord "0" <=? sord c) && (sord c <=? sord "7").

(** The escapes of one letter. *)
Definition unescape_letter (c : char) : char :=
  match ord c with
  | 110 => chr 10
  | 114 => chr 13
  | 98 => chr 8
  | 118 => chr 11
  | 97 => chr 7
  | 102 => chr 12
  | 116 => chr 9
  | _ => c
  end.

(** The loop of [unescape] from position [p]; the list is what is left of [s]. *)
Fixpoint unescape_loop (s : str) (result : str) : str :=
  match s with
  | [] => result
  | c :: s1 =>
      if decide (c = BACKSLASH) then
        match s1 with
        | [] => result
        | c :: s2 =>
            if decide (c = "x"%char) then
              match s2 with
              | d1 :: s3 =>
                  if isxdigit d1 then
                    match s3 with
                    | d2 :: s4 =>
                        if isxdigit d2
                        then unescape_loop s4 (push result (chr (hexval d1 * 16 + hexval d2)))
                        else unescape_loop s3 (push result (chr (hexval d1)))
                    | [] => unescape_loop s3 (push result (chr (hexval d1)))
                    end
                  else unescape_loop s2 (push result "x")
              | [] => unescape_loop s2 (push result "x")
              end
            else if isoctal c then
              let v := sord c - 48 in
              match s2 with
              | d1 :: s3 =>
                  if isoctal d1 then
                    let v := Z.shiftl v 3 + sord d1 - 48 in
                    match s3 with
                    | d2 :: s4 =>
                        if isoctal d2
                        then unescape_loop s4 (push result (chr (Z.shiftl v 3 + sord d2 - 48)))
                        else unescape_loop s3 (push result (chr v))
                    | [] => unescape_loop s3 (push result (chr v))
                    end
                  else unescape_loop s2 (push result (chr v))
              | [] => unescape_loop s2 (push result (chr v))
              end
            else unescape_loop s2 (push result (unescape_letter c))
        end
      else unescape_loop s1 (push result c)
  end.

Definition unescape (s : str) : str := unescape_loop s [].

(** ** Bits *)

(** for (bitcount=7; bitcount>=0; --bitcount) bits += Val((num >> bitcount) & 01); *)
Fixpoint bits_loop (num : Z) (n : nat) (bits : str) : res str :=
  match n with
  | O => Ok bits
  | S bitcount =>
      let? b := Val_int32 (Z.land (Z.shiftr num (Z.of_nat bitcount)) 1) 10 in
      bits_loop num bitcount (bits ++ b)
  end.
Definition Bits_byte (num : Z) : res str := bits_loop num 8 [].

(** for (bitcount=0; bitcount<=last; bitcount+=8) bits += Bits((byte)(num >> bitcount)); *)
Fixpoint bits_bytes (num : Z) (bitcount : Z) (n : nat) (bits : str) : res str :=
  match n with
  | O => Ok bits
  | S n' =>
      let? b := Bits_byte (u8 (Z.shiftr num bitcount)) in
      bits_bytes num (bitcount + 8) n' (bits ++ b)
  end.
Definition Bits_int16 (num : Z) : res str := bits_bytes num 0 2 [].
Definition Bits_int32 (num : Z) : res str := bits_bytes num 0 4 [].
Definition Bits_int64 (num : Z) : res str := bits_bytes num 0 8 [].

Example val_1 : Val_int32 (-255) 16 = Ok (lit "-FF"). Proof. reflexivity. Qed.
Example val_2 : Val_int64 (- 2 ^ 32) 10 = Ok (lit "-0"). Proof. reflexivity. Qed.
Example val_3 : Val_uint64 (2 ^ 33) 2 = UB. Proof. reflexivity. Qed.
Example val_4 : Int (lit " -1234x") 10 = -1234. Proof. reflexivity. Qed.
Example bits_1 : Bits_int16 258 = Ok (lit "0000001000000001"). Proof. reflexivity. Qed.
Example esc_1 : unescape (escape (lit "a\b" ++ [chr 10; chr 200; chr 34])) = lit "a\b" ++ [chr 10; chr 200; chr 34]. Proof. vm_compute. reflexivity. Qed.
Example cmp_1 : Compare (lit "aBc") (lit "AbC") true = true. Proof. reflexivity. Qed.

(** ** Comparison: theorems *)

Lemma Compare_cstr s1 s2 : Compare s1 s2 false = bool_decide (cstr s1 = cstr s2).
Proof.
  revert s2. induction s1 as [|c s1 IH]; intros s2; simpl.
  - destruct s2 as [|d s2]; [done|]. simpl. apply bool_decide_ext. case_decide; naive_solver.
  - unfold deref at 1. simpl. destruct (decide (c = NUL)) as [->|Hc].
    + rewrite (bool_decide_eq_false_2 (NUL <> NUL)) by (by intros ?). simpl.
      destruct s2 as [|d s2]; [done|]. simpl. apply bool_decide_ext. case_decide; naive_solver.
    + rewrite (bool_decide_eq_true_2 (c <> NUL)) by done. simpl.
      destruct s2 as [|d s2]; simpl.
      * unfold deref; simpl. rewrite (bool_decide_eq_false_2 (c = NUL)) by done. done.
      * unfold deref; simpl. case_bool_decide as E.
        -- subst d. rewrite IH, decide_False by done. apply bool_decide_ext.
           split; congruence.
        -- symmetry. apply bool_decide_eq_false_2. case_decide; congruence.
Qed.

Lemma Compare_refl s : Compare s s false = true.
Proof. rewrite Compare_cstr. by apply bool_decide_eq_true_2. Qed.

Lemma op_eq_spec s1 s2 : nul_free s1 -> nul_free s2 -> op_eq s1 s2 = bool_decide (s1 = s2).
Proof. intros. unfold op_eq. by rewrite Compare_cstr, !cstr_id. Qed.

(** ** Escapes: theorems *)

Lemma push_app r c : push r c = r ++ (if decide (c = NUL) then [] else [c]).
Proof. unfold push. case_decide; [by rewrite app_nil_r|done]. Qed.

Lemma push_push r c : push r c = r ++ push [] c.
Proof. by rewrite (push_app r), (push_app []). Qed.

Lemma unescape_loop_app s r : unescape_loop s r = r ++ unescape_loop s [].
Proof.
  revert r. induction s as [s IH] using (induction_ltof1 _ length). unfold ltof in IH.
  intros r.
  assert (forall t c, (length t < length s)%nat ->
    unescape_loop t (push r c) = r ++ unescape_loop t (push [] c)) as Hs.
  { intros t c Ht. rewrite (IH t Ht (push r c)), (IH t Ht (push [] c)), (push_app r), push_app.
    by rewrite app_assoc. }
  destruct s as [|c s1]; simpl in *; [by rewrite app_nil_r|].
  repeat first [case_decide | case_match]; subst; simpl in *; rewrite ?app_nil_r;
    first [done | apply push_push | apply Hs; simpl; lia
      | match goal with a : char, l : str |- _ => apply (Hs (a :: l)); simpl; lia end].
Qed.

Lemma escape_char_app r c : escape_char r c = r ++ escape_char [] c.
Proof.
  unfold escape_char. cbv zeta. generalize (ord c) as k. intros k.
  repeat case_match; rewrite ?push_app; simpl; by rewrite <- ?app_assoc.
Qed.

(** The three shapes of the escape of one character. *)
Definition escape_shape (c : char) : bool :=
  match escape_char [] c with
  | [d] => bool_decide (d = c) && bool_decide (d <> BACKSLASH) && bool_decide (c <> NUL)
  | [b; l] =>
      bool_decide (b = BACKSLASH) && bool_decide (l <> "x"%char) && negb (isoctal l) &&
      bool_decide (unescape_letter l = c) && bool_decide (c <> NUL)
  | [b; x; h1; h2] =>
      bool_decide (b = BACKSLASH) && bool_decide (x = "x"%char) && isxdigit h1 && isxdigit h2 &&
      bool_decide (chr (hexval h1 * 16 + hexval h2) = c)
  | _ => false
  end.

Lemma escape_shape_ok c : escape_shape c = true.
Proof. all_chars c; reflexivity. Qed.

(** What [unescape] does on the escape of one character followed by anything. *)
Lemma unescape_escape_char c t :
  unescape_loop (escape_char [] c ++ t) [] = push [] c ++ unescape_loop t [].
Proof.
  rewrite <- unescape_loop_app.
  pose proof (escape_shape_ok c) as H. unfold escape_shape in H.
  destruct (escape_char [] c) as [|d [|l [|h1 [|h2 [|]]]]]; try done;
    rewrite ?andb_true_iff, ?bool_decide_eq_true, ?negb_true_iff in H; destruct_and! H; subst; simpl.
  - by rewrite decide_False by done.
  - rewrite decide_False by done. by match goal with H : isoctal _ = false |- _ => rewrite H end.
  - by repeat match goal with H : isxdigit _ = true |- _ => rewrite H; clear H end.
Qed.

Lemma escape_cons c s : escape (c :: s) = escape_char [] c ++ escape s.
Proof.
  unfold escape. simpl. generalize (escape_char [] c) as r. clear c.
  induction s as [|c s IH]; intros r; simpl; [by rewrite app_nil_r|].
  rewrite IH, escape_char_app, (IH (escape_char [] c)). by rewrite app_assoc.
Qed.

(** [unescape] undoes [escape], except that NUL characters are lost. *)
Theorem unescape_escape s : unescape (escape s) = filter (fun c => c <> NUL) s.
Proof.
  unfold unescape. induction s as [|c s IH]; [done|].
  rewrite escape_cons, unescape_escape_char, IH, filter_cons, push_app.
  repeat case_decide; simpl; congruence.
Qed.

(** ** Hexadecimal: theorems *)

Lemma Hex_app c out : Hex c out = out ++ [HEX_at (Z.shiftr (ord c) 4); HEX_at (Z.land (ord c) 15)].
Proof.
  unfold Hex. rewrite !push_app, <- app_assoc. f_equal.
  all_chars c; reflexivity.
Qed.

Lemma UnHex_Hex_chars c :
  UnHex (HEX_at (Z.shiftr (ord c) 4)) (HEX_at (Z.land (ord c) 15)) = c.
Proof. all_chars c; reflexivity. Qed.

(** [Hex] appends two hexadecimal digits from which [UnHex] makes the character again, in upper or
    in lower case. *)
Theorem Hex_UnHex c out :
  exists h1 h2, Hex c out = out ++ [h1; h2] /\ IsDigit h1 || IsAThruZ h1 = true /\
    UnHex h1 h2 = c /\ UnHex (tolower h1) (tolower h2) = c.
Proof.
  eexists _, _. split; [apply Hex_app|]. split_and!; [|apply UnHex_Hex_chars|];
    all_chars c; reflexivity.
Qed.

(** [IsValidHex] compares with [>=] where the upper bounds need [<=]. *)
Theorem IsValidHex_spec c :
  IsValidHex c = IsDigit c || ((ord "F" <=? ord c) && (ord c <=? 127)).
Proof. all_chars c; reflexivity. Qed.

(** ** Numbers: theorems *)

(** A fact about every integer of a small range, by evaluation. *)
Lemma range_check (P : Z -> bool) n :
  forallb P (seqZ 0 n) = true -> forall d, 0 <= d < n -> P d = true.
Proof. intros H d Hd. eapply forallb_forall; [done|]. apply list_elem_of_In, elem_of_seqZ. lia. Qed.

Definition hex_digit_ok (d : Z) : bool :=
  bool_decide (digit_value (HEX_at d) = Some d) && negb (isspace (HEX_at d)) &&
  bool_decide (HEX_at d <> NUL) && bool_decide (HEX_at d <> "-"%char) &&
  bool_decide (HEX_at d <> "+"%char) && bool_decide (HEX_at d <> "x"%char) &&
  bool_decide (HEX_at d <> "X"%char).

Lemma HEX_at_ok d : 0 <= d < 16 -> hex_digit_ok d = true.
Proof. apply range_check. reflexivity. Qed.

(** The characters [val_digits] writes: digits of a base up to 16. *)
Definition hex_char (c : char) : Prop := exists d, 0 <= d < 16 /\ c = HEX_at d.

Lemma hex_char_ok c :
  hex_char c -> isspace c = false /\ c <> NUL /\ c <> "-"%char /\ c <> "+"%char /\
    c <> "x"%char /\ c <> "X"%char.
Proof.
  intros (d & Hd & ->). pose proof (HEX_at_ok d Hd) as H. unfold hex_digit_ok in H.
  rewrite !andb_true_iff, !bool_decide_eq_true, negb_true_iff in H. naive_solver.
Qed.

Lemma digit_value_HEX d : 0 <= d < 16 -> digit_value (HEX_at d) = Some d.
Proof.
  intros Hd. pose proof (HEX_at_ok d Hd) as H. unfold hex_digit_ok in H.
  rewrite !andb_true_iff, !bool_decide_eq_true in H. naive_solver.
Qed.

Lemma val_digits_spec base :
  2 <= base <= 16 -> forall k room nn acc, 0 <= nn < base ^ Z.of_nat (S k) -> (k < room)%nat ->
  exists ds room', val_digits room nn base acc = Ok (room', ds ++ acc) /\
    (room <= room' + S k)%nat /\ Forall hex_char ds /\ ds <> [] /\
    forall a rest, read_digits base (ds ++ rest) a
                   = read_digits base rest (a * base ^ zlen ds + nn).
Proof.
  intros Hb k. induction k as [|k IH]; intros room nn acc Hn Hr.
  all: destruct room as [|room]; [lia|]; simpl.
  all: pose proof (Z.mod_pos_bound nn base ltac:(lia)) as Hm.
  all: assert (forall rest a, read_digits base (HEX_at (nn mod base) :: rest) a
         = read_digits base rest (a * base + nn mod base)) as Hd.
  1,3: (intros; simpl; rewrite digit_value_HEX by lia;
        by replace (nn mod base <? base) with true by lia).
  all: pose proof (Z.div_mod nn base ltac:(lia)) as Hdm.
  - rewrite Z.pow_1_r in Hn. rewrite (Z.div_small nn base) in * by lia. simpl.
    eexists [_], _. split; [done|]. split_and!; [lia|by constructor; [exists (nn mod base); split; [lia|done]|]|done|].
    intros. simpl app. rewrite Hd. f_equal. change (zlen [HEX_at (nn mod base)]) with 1. lia.
  - destruct (Z.eqb_spec (nn / base) 0) as [E|E].
    + eexists [_], _. split; [done|]. split_and!; [lia|by constructor; [exists (nn mod base); split; [lia|done]|]|done|].
      intros. simpl app. rewrite Hd. f_equal. change (zlen [HEX_at (nn mod base)]) with 1. lia.
    + destruct (IH room (nn / base) (HEX_at (nn mod base) :: acc)) as (ds & room' & E1 & E2 & E3 & E4 & E5);
        [|lia|].
      { rewrite Nat2Z.inj_succ, Z.pow_succ_r in Hn by lia. split; [by apply Z.div_pos; lia|].
        apply Z.div_lt_upper_bound; lia. }
      exists (ds ++ [HEX_at (nn mod base)]), room'. rewrite E1, <- app_assoc. split; [done|].
      split_and!; [lia| |by destruct ds|].
      * apply Forall_app. split; [done|]. constructor; [|done]. exists (nn mod base). split; [lia|done].
      * intros a rest. rewrite <- app_assoc, E5. simpl app. rewrite Hd. f_equal.
        rewrite zlen_app. change (zlen [HEX_at (nn mod base)]) with 1.
        rewrite Z.pow_add_r by (pose proof (zlen_nonneg ds); lia). lia.
Qed.

Lemma val_digits_length base room : forall nn acc room' s,
  val_digits room nn base acc = Ok (room', s) -> (length s + room' = length acc + room)%nat.
Proof.
  induction room as [|room IH]; intros nn acc room' s E; [done|]. cbn [val_digits] in E.
  destruct (_ =? 0); [injection E as <- <-; cbn; lia|]. apply IH in E. cbn in E. lia.
Qed.

Lemma Val_uint32_length n base s : Val_uint32 n base = Ok s -> zlen s <= 33.
Proof.
  unfold Val_uint32. destruct (bad_base base); [by intros [= <-]|].
  destruct (val_digits BUF_ROOM n base []) as [[room s']| | |] eqn:E; [|done..]. cbn. intros [= <-].
  apply val_digits_length in E. unfold zlen. cbn in E. unfold BUF_ROOM in E. lia.
Qed.

Lemma hex_nul_free ds : Forall hex_char ds -> nul_free ds.
Proof. intros H. eapply Forall_impl; [exact H|]. intros c Hc. by apply hex_char_ok in Hc as (_ & ? & _). Qed.

Lemma skip_0x_hex base ds : Forall hex_char ds -> skip_0x base ds = ds.
Proof.
  intros H. destruct ds as [|a [|b [|c ds]]]; try done. simpl.
  apply Forall_cons_iff in H as [_ [Hb _]%Forall_cons_iff].
  apply hex_char_ok in Hb as (_ & _ & _ & _ & Hx & HX).
  rewrite (bool_decide_eq_false_2 (b = "x"%char)), (bool_decide_eq_false_2 (b = "X"%char)) by done.
  by rewrite andb_false_r.
Qed.

(** [strtol] on the characters [val_digits] writes, with or without a sign. *)
Lemma strto_hex base ds (neg : bool) :
  Forall hex_char ds -> ds <> [] ->
  strto ((if neg then ["-"%char] else []) ++ ds) base = (neg, read_digits base ds 0).
Proof.
  intros H Hne. unfold strto.
  assert (read_sign (skip_space ((if neg then ["-"%char] else []) ++ ds)) = (neg, ds)) as E.
  { destruct neg; [done|]. destruct ds as [|c ds]; [done|]. simpl.
    apply Forall_cons_iff in H as [Hc _]. apply hex_char_ok in Hc as (-> & _ & ? & ? & _). simpl.
    by rewrite !decide_False by done. }
  rewrite cstr_id, E, skip_0x_hex; [done..|].
  apply nul_free_app. split; [|by apply hex_nul_free].
  destruct neg; [|constructor]. by repeat constructor.
Qed.

Definition val_text (neg : bool) (v base : Z) (s : str) : Prop :=
  exists ds, s = (if neg then ["-"%char] else []) ++ ds /\ Forall hex_char ds /\ ds <> [] /\
    read_digits base ds 0 = v.

(** The digits of [nn] fit the buffer when [nn < base ^ 32], with room for a sign. *)
Lemma val_text_ok (neg : bool) nn base :
  2 <= base <= 16 -> 0 <= nn < 2 ^ 32 ->
  exists s, (let? r := val_digits BUF_ROOM nn base [] in val_sign neg r) = Ok s /\
    val_text neg nn base s.
Proof.
  intros Hb Hn.
  destruct (val_digits_spec base Hb 31 BUF_ROOM nn []) as (ds & room' & E & Hr & H1 & H2 & H3);
    [|unfold BUF_ROOM; lia|].
  { split; [lia|]. eapply Z.lt_le_trans; [apply Hn|].
    change (Z.of_nat 32) with 32. apply Z.pow_le_mono_l. lia. }
  rewrite app_nil_r in E. rewrite E. simpl.
  specialize (H3 0 []). rewrite app_nil_r in H3.
  exists ((if neg then ["-"%char] else []) ++ ds).
  split; [|by exists ds].
  destruct neg; [|done]. destruct room'; [unfold BUF_ROOM in Hr; lia|done].
Qed.

Lemma strto_val_text neg v base s : val_text neg v base s -> strto s base = (neg, v).
Proof. intros (ds & -> & H1 & H2 & <-). by apply strto_hex. Qed.

Lemma good_base base : 2 <= base <= 16 -> bad_base base = false.
Proof. unfold bad_base. lia. Qed.

Lemma lnot_neg num : - 2 ^ 31 <= num < 0 -> u32 (u32 (Z.lnot num) + 1) = - num.
Proof.
  intros. unfold wrapU, Z.lnot. rewrite Zplus_mod_idemp_l.
  replace (Z.pred (- num) + 1) with (- num) by lia. apply Z.mod_small. lia.
Qed.

Lemma Val_int32_chars num base :
  - 2 ^ 31 <= num < 2 ^ 31 -> 2 <= base <= 16 ->
  exists s, Val_int32 num base = Ok s /\ val_text (num <? 0) (Z.abs num) base s.
Proof.
  intros Hn Hb. unfold Val_int32. rewrite good_base by done.
  set (nn := if num <? 0 then _ else _).
  assert (nn = Z.abs num) as ->.
  { subst nn. destruct (Z.ltb_spec num 0); [rewrite lnot_neg by lia; lia|].
    rewrite wrapU_small by lia. lia. }
  apply val_text_ok; lia.
Qed.

Lemma Val_int32_text num base :
  - 2 ^ 31 <= num < 2 ^ 31 -> 2 <= base <= 16 ->
  exists s, Val_int32 num base = Ok s /\ strto s base = (num <? 0, Z.abs num).
Proof.
  intros Hn Hb. destruct (Val_int32_chars num base Hn Hb) as (s & E & Ht). exists s. split; [done|by apply strto_val_text].
Qed.

Lemma Val_int32_ok num base :
  - 2 ^ 31 <= num < 2 ^ 31 -> 2 <= base <= 16 ->
  exists s, Val_int32 num base = Ok s /\ Int s base = num /\ Long s base = num.
Proof.
  intros Hn Hb. destruct (Val_int32_text num base Hn Hb) as (s & E & Ht). exists s. split; [done|].
  unfold Int, Long, strtol. rewrite Ht.
  replace (if num <? 0 then - Z.abs num else Z.abs num) with num by (destruct (Z.ltb_spec num 0); lia).
  replace (Z.max (- 2 ^ 63) (Z.min (2 ^ 63 - 1) num)) with num by lia.
  split; [apply wrapS_small; lia|done].
Qed.

(** [Val] writes every [int32] in every base from 2 to 16 without leaving its buffer, and [Int] and
    [Long] read the number back, the least one included. *)
Theorem Val_Int_roundtrip num base :
  - 2 ^ 31 <= num < 2 ^ 31 -> 2 <= base <= 16 ->
  exists s, Val_int32 num base = Ok s /\ Int s base = num /\ Long s base = num.
Proof. apply Val_int32_ok. Qed.

(** [Val] of a negative [int64] keeps only the low 32 bits of its absolute value. *)
Theorem Val_int64_negative num base :
  - 2 ^ 63 <= num < 0 -> 2 <= base <= 16 ->
  exists s, Val_int64 num base = Ok s /\ Long s base = - u32 (- num).
Proof.
  intros Hn Hb. unfold Val_int64. rewrite good_base by done.
  replace (num <? 0) with true by lia.
  assert (u32 (u32 (Z.lnot num) + 1) = u32 (- num)) as ->.
  { unfold wrapU, Z.lnot. rewrite Zplus_mod_idemp_l. f_equal. lia. }
  pose proof (wrapU_range 32 (- num) ltac:(lia)).
  destruct (val_text_ok true (u32 (- num)) base) as (s & E & Ht); [lia|lia|].
  exists s. split; [done|]. apply strto_val_text in Ht.
  unfold Long, strtol. rewrite Ht. lia.
Qed.

(** ** Bits and suffixes: theorems *)

(** [Bits] of a byte has eight binary digits, which [Long] reads back. *)
Theorem Bits_byte_value num :
  0 <= num < 256 -> exists s, Bits_byte num = Ok s /\ zlen s = 8 /\ Long s 2 = num.
Proof.
  intros H.
  assert ((match Bits_byte num with
           | Ok s => (zlen s =? 8) && (Long s 2 =? num) | _ => false end) = true) as E.
  { revert num H. apply range_check. vm_compute. reflexivity. }
  destruct (Bits_byte num) as [s| | |]; try done.
  exists s. split; [done|]. lia.
Qed.

Lemma endsWith_loop_spec this estr off n :
  0 <= off -> off + zlen estr <= zlen this -> Z.of_nat n <= zlen estr ->
  exists b, endsWith_loop this estr (Z.of_nat n - 1) (off + Z.of_nat n - 1) n = Ok b /\
    (b = true <-> forall j, 1 <= j < Z.of_nat n -> zget estr j = zget this (off + j)).
Proof.
  intros Ho Hl. induction n as [|n IH]; intros Hn; simpl endsWith_loop.
  - exists true. split; [done|]. split; [lia|done].
  - unfold text. rewrite !zget_app_l by lia.
    destruct (zget_is_Some estr (Z.of_nat (S n) - 1)) as [c1 E1]; [lia|].
    destruct (zget_is_Some this (off + Z.of_nat (S n) - 1)) as [c2 E2]; [lia|].
    rewrite E1, E2. simpl.
    replace (Z.of_nat (S n) - 1) with (Z.of_nat n) in * by lia.
    replace (off + Z.of_nat (S n) - 1) with (off + Z.of_nat n) in * by lia.
    destruct (decide (c1 = c2)) as [->|Hne].
    + destruct IH as (b & Eb & Hb); [lia|]. exists b. split; [done|]. rewrite Hb.
      split; intros H j Hj; [|apply H; lia].
      destruct (decide (j = Z.of_nat n)) as [->|]; [congruence|]. apply H. lia.
    + exists (bool_decide (n = O)). split; [done|]. rewrite bool_decide_eq_true.
      split; [intros ->; lia|]. intros H. destruct n; [done|].
      specialize (H (Z.of_nat (S n)) ltac:(lia)). congruence.
Qed.

(** [endsWith] compares all but the first character of the suffix. *)
Theorem endsWith_spec this estr :
  nul_free estr -> estr <> [] -> zlen estr <= zlen this ->
  endsWith this estr = Ok (bool_decide (tail estr `suffix_of` this)).
Proof.
  intros Hf Hne Hle. unfold endsWith. rewrite strlen_id by done.
  destruct estr as [|c e]; [done|]. simpl tail. rewrite zlen_cons in Hle |- *.
  pose proof (zlen_nonneg e).
  replace (_ || _) with false by lia.
  destruct (endsWith_loop_spec this (c :: e) (zlen this - zlen (c :: e)) (S (length e))) as (b & Eb & Hb);
    rewrite ?zlen_cons; try (unfold zlen in *; lia).
  replace (Z.to_nat (zlen e + 1)) with (S (length e)) by (unfold zlen; lia).
  replace (zlen e + 1 - 1) with (Z.of_nat (S (length e)) - 1) by (unfold zlen; lia).
  replace (zlen this - 1) with (zlen this - zlen (c :: e) + Z.of_nat (S (length e)) - 1)
    by (rewrite zlen_cons; unfold zlen; lia).
  rewrite Eb. f_equal. apply eq_bool_prop_intro. rewrite !Is_true_true, bool_decide_eq_true, Hb.
  rewrite zlen_cons. split.
  - intros Hj. exists (ztake (zlen this - zlen e) this).
    rewrite <- (ztake_zdrop (zlen this - zlen e) this) at 1. f_equal.
    apply list_eq. intros i. unfold zdrop. rewrite lookup_drop.
    destruct (decide (Z.of_nat i < zlen e)) as [Hi|Hi].
    + specialize (Hj (Z.of_nat i + 1) ltac:(unfold zlen in *; lia)).
      rewrite !zget_lookup in Hj by lia.
      replace (Z.to_nat (Z.of_nat i + 1)) with (S i) in Hj by lia. simpl in Hj. rewrite Hj.
      f_equal. lia.
    + rewrite !lookup_ge_None_2; [done|unfold zlen in *; lia..].
  - intros [k ->] j Hj. rewrite zget_app_r by (rewrite zlen_app; unfold zlen in *; lia).
    rewrite zlen_app.
    replace (zlen k + zlen e - (zlen e + 1) + j - zlen k) with (j - 1) by lia.
    rewrite !zget_lookup by lia. by replace (Z.to_nat j) with (S (Z.to_nat (j - 1))) by lia.
Qed.

(** ** Witnesses *)

Lemma Val_Int_roundtrip_witness :
  exists s, Val_int32 (-2147483648) 7 = Ok s /\ Int s 7 = -2147483648 /\ Long s 7 = -2147483648.
Proof. apply Val_Int_roundtrip; lia. Defined.
