(* ===== verification/StrMem.v ===== *)
(** * The [String] object: its buffer and the methods that change it
    (src/cpp/src/String.cpp)

    The buffer is a list of cells; a cell that [malloc] or [realloc] added and nobody wrote is
    [None], and reading it is undefined.  The shared constant [EMPTY] (four zero bytes) is
    [_str = None]; writing to it is undefined.  [malloc] is taken to succeed.

    Arguments of type [const String&] are given by their characters, which [repr] justifies, and
    pointers by what they see, as in [CString]; a pointer into the object's own buffer is outside
    the model.  [repr s l] says that [s] holds the characters [l]; the last part shows that a run
    of methods from [String()] keeps it, with the list operation each method stands for. *)

From S2P Require Import Prelude CString Str StrConv.

Abbreviation cell := (option ascii).

(** ** The object *)

Record String := mkString {
  _str : option (list cell);
  _array_size : Z;
  _string_length : Z;
  _min_size : Z;
  _hash_value : Z
}.

Definition set_str (s : String) (b : option (list cell)) : String :=
  mkString b (_array_size s) (_string_length s) (_min_size s) (_hash_value s).
Definition set_array_size (s : String) (n : Z) : String :=
  mkString (_str s) n (_string_length s) (_min_size s) (_hash_value s).
Definition set_string_length (s : String) (n : Z) : String :=
  mkString (_str s) (_array_size s) n (_min_size s) (_hash_value s).
Definition set_min_size (s : String) (n : Z) : String :=
  mkString (_str s) (_array_size s) (_string_length s) n (_hash_value s).
Definition set_hash_value (s : String) (h : Z) : String :=
  mkString (_str s) (_array_size s) (_string_length s) (_min_size s) h.

(** ** Memory *)

(** The [n] cells from [_str + i]. *)
Definition read (s : String) (i n : Z) : res (list cell) :=
  if n =? 0 then Ok []
  else match _str s with
       | None => if (0 <=? i) && (0 <=? n) && (i + n <=? 4) then Ok (replicate (Z.to_nat n) (Some NUL)) else UB
       | Some b => if (0 <=? i) && (0 <=? n) && (i + n <=? zlen b) then Ok (zsub i n b) else UB
       end.

(** [_str[i]] as an rvalue *)
Definition load (s : String) (i : Z) : res char :=
  let? cs := read s i 1 in
  match cs with [Some c] => Ok c | _ => UB end.

(** The list [b] with [cs] written from index [i] on. *)
Definition splice {A} (b : list A) (i : Z) (cs : list A) : list A :=
  ztake i b ++ cs ++ zdrop (i + zlen cs) b.

Definition write (s : String) (i : Z) (cs : list cell) : res String :=
  match cs with
  | [] => Ok s
  | _ =>
      match _str s with
      | None => UB
      | Some b =>
          if (0 <=? i) && (i + zlen cs <=? zlen b) then Ok (set_str s (Some (splice b i cs))) else UB
      end
  end.

(** [_str[i] = c] *)
Definition store (s : String) (i : Z) (c : char) : res String := write s i [Some c].

(** [memmove(&_str[dst], &_str[src], n)] *)
Definition memmove (s : String) (dst src n : Z) : res String :=
  let? cs := read s src n in write s dst cs.

(** [memcpy(&_str[dst], p, n)] where [p] sees [mem] *)
Definition memcpy (s : String) (dst : Z) (mem : str) (n : Z) : res String :=
  if (0 <=? n) && (n <=? zlen (text mem)) then write s dst (Some <$> ztake n (text mem)) else UB.

(** [memset(_str, c, n)] *)
Definition memset (s : String) (c : char) (n : Z) : res String :=
  write s 0 (replicate (Z.to_nat n) (Some c)).

Definition ROUNDVAL : Z := 16.

(** [malloc(n)], and [realloc(b, n)] *)
Definition alloc (n : Z) (b : option (list cell)) : list cell :=
  let old := default [] b in
  ztake n old ++ replicate (Z.to_nat (n - zlen old)) None.

Definition resize (s : String) (size : Z) : res String :=
  let s := set_string_length (set_hash_value s 0) size in
  if (0 <? _string_length s) || (0 <? _min_size s) then
    let size := if size <? _min_size s then _min_size s else size in
    let size := ROUNDUP (u32 (size + 1)) ROUNDVAL in
    if size =? _array_size s then store s (_string_length s) NUL
    else
      let s := set_str s (Some (alloc size (_str s))) in
      let? s := store s (_string_length s) NUL in
      Ok (set_array_size s size)
  else
    match _str s with
    | Some _ => Ok (set_array_size (set_str s None) 0)
    | None => Ok (set_array_size s size)
    end.

(** [copy(s, len)] *)
Definition copy (s : String) (mem : str) (n : Z) : res String :=
  let? s := resize s n in
  if 0 <? n then let? s := memcpy s 0 mem n in store s n NUL else Ok s.

(** [memset] of [fill(c, len)] *)
Definition fill (s : String) (c : char) (n : Z) : res String :=
  let? s := if 0 <? n then resize s n else Ok s in
  match _str s with Some _ => memset s c (_string_length s) | None => Ok s end.

(** ** Constructors *)

Definition String_new : String := mkString None 0 0 0 0.
Definition String_reserve (n : Z) : res String := resize (mkString None 0 0 n 0) 0.
Definition String_ptr (p : option str) (n : Z) : res String :=
  match p with
  | None => Ok String_new
  | Some mem => let n := if n =? 0 then u32 (strlen mem) else n in copy String_new mem n
  end.
Definition String_ptr2 (p1 p2 : option str) : res String :=
  let len_of (p : option str) := match p with Some mem => s32 (strlen mem) | None => 0 end in
  let len1 := len_of p1 in
  let len2 := len_of p2 in
  let n := s32 (len1 + len2) in
  if negb (n =? 0) then
    let? s := resize String_new (u32 n) in
    let? s := memcpy s 0 (default [] p1) len1 in
    memcpy s len1 (default [] p2) len2
  else Ok String_new.
Definition String_std (t : str) : res String := copy String_new t (u32 (zlen t)).
Definition String_fill (c : char) (n : Z) : res String := fill String_new c n.
Definition String_copy (t : str) : res String := copy String_new t (zlen t).

(** ** Size *)

Definition truncate (s : String) (pos : Z) : res String := resize s pos.
Definition reserve (s : String) (n : Z) : res String := resize (set_min_size s n) (_string_length s).
Definition clear (s : String) : res String := resize s 0.
Definition String_delete (s : String) : res String := clear (set_min_size s 0).

(** ** Hash, cached in a mutable field *)

Fixpoint hash_loop (s : String) (i : Z) (n : nat) (h : Z) : res Z :=
  match n with
  | O => Ok h
  | S n' => let? c := load s i in hash_loop s (i + 1) n' (hash_step h c)
  end.

Definition hash (s : String) : res (Z * String) :=
  if negb (_hash_value s =? 0) then Ok (_hash_value s, s)
  else
    let? h := hash_loop s 0 (Z.to_nat (_string_length s)) 0 in
    Ok (h, set_hash_value s h).

(** ** Trimming and case *)

Definition is_trim (c : char) : bool := (ord c =? 32) || (ord c =? 13) || (ord c =? 10).

Fixpoint trimBegin_loop (s : String) (i : Z) (n : nat) : res Z :=
  match n with
  | O => Ok i
  | S n' => let? c := load s i in if is_trim c then trimBegin_loop s (i + 1) n' else Ok i
  end.

Definition trimBegin (s : String) : res String :=
  match _str s with
  | None => Ok s
  | Some _ =>
      let e := _string_length s in
      let? i := trimBegin_loop s 0 (Z.to_nat e) in
      let? s := memmove s 0 i (e - i) in
      resize s (e - i)
  end.

Fixpoint trimEnd_loop (s : String) (e : nat) : res Z :=
  match e with
  | O => Ok 0
  | S e' => let? c := load s (Z.of_nat e') in
            if is_trim c then trimEnd_loop s e' else Ok (Z.of_nat e)
  end.

Definition trimEnd (s : String) : res String :=
  match _str s with
  | None => Ok s
  | Some _ => let? e := trimEnd_loop s (Z.to_nat (_string_length s)) in resize s e
  end.

Definition trim (s : String) : res String := let? s := trimBegin s in trimEnd s.

Fixpoint map_loop (f : char -> char) (s : String) (i : Z) (n : nat) : res String :=
  match n with
  | O => Ok s
  | S n' =>
      let? c := load s i in
      let? s := store s i (f c) in
      map_loop f s (i + 1) n'
  end.

Definition toUpper (s : String) : res String :=
  map_loop toupper s 0 (Z.to_nat (_string_length s)).
Definition toLower (s : String) : res String :=
  map_loop tolower s 0 (Z.to_nat (_string_length s)).

(** ** Removing *)

Definition remove_at (s : String) (pos n : Z) : res String :=
  let my_size := _string_length s in
  let end_pos := u32 (pos + n) in
  let new_size := u32 (my_size - n) in
  if n =? 0 then Ok s
  else if my_size <=? end_pos then truncate s pos
  else
    let? s := memmove s pos end_pos (my_size - end_pos) in
    resize s new_size.

(** The characters a search through [_str] sees; every cell up to the terminator is initialised. *)
Definition chars (s : String) : res str :=
  let? cs := read s 0 (_string_length s) in
  let? t := load s (_string_length s) in
  if decide (t = NUL) then of_option (mapM id cs) else UB.

(** [npos = find(x, pos); while (npos >= 0) { step(npos); if (!all) break; npos = find(x, npos); }]
    The four [remove] and [replace] loops of the source have this shape. *)
Fixpoint search_loop (find : str -> Z -> res Z) (step : String -> Z -> res String)
    (s : String) (npos : Z) (all : bool) (fuel : nat) : res String :=
  match fuel with
  | O => NoFuel
  | S fuel' =>
      let? t := chars s in
      let? npos := find t (u32 npos) in
      if 0 <=? npos then
        let? s := step s npos in
        if negb all then Ok s else search_loop find step s npos all fuel'
      else Ok s
  end.

Definition removeChar (s : String) (c : char) (pos : Z) (all : bool) (fuel : nat) : res String :=
  search_loop (fun t => find_char t c) (fun s npos => remove_at s npos 1) s pos all fuel.

Definition remove_cstr (s : String) (p : str) (pos : Z) (all : bool) (fuel : nat) : res String :=
  search_loop (fun t => find_str t p) (fun s npos => remove_at s npos (u32 (strlen p)))
    s pos all fuel.

Definition remove_String (s : String) (p : str) (pos : Z) (all : bool) (fuel : nat) : res String :=
  search_loop (fun t => find_str t p) (fun s npos => remove_at s npos (zlen p)) s pos all fuel.

(** ** Replacing *)

Definition replaceFrom (s : String) (pos n : Z) (p : str) : res String :=
  let length := _string_length s in
  let nsize := u32 (strlen p) in
  let src_pos := u32 (pos + n) in
  let dst_pos := u32 (pos + nsize) in
  let src_size := u32 (length - u32 (pos + n)) in
  let new_size := u32 (length + u32 (nsize - n)) in
  let old_size := length in
  if negb (length =? 0) then
    let? s :=
      if 0 <? nsize then
        let? s := if old_size <? new_size then resize s new_size else Ok s in
        let? s := memmove s dst_pos src_pos src_size in
        if new_size <? old_size then resize s new_size else Ok s
      else Ok s in
    let? s := memcpy s pos p nsize in
    store s new_size NUL
  else Ok s.

Definition replace_cc (s : String) (c1 c2 : char) (pos : Z) (all : bool) (fuel : nat) : res String :=
  search_loop (fun t => find_char t c1) (fun s npos => store s npos c2) s pos all fuel.

Definition replace_cs (s : String) (c1 : char) (p : str) (pos : Z) (all : bool) (fuel : nat)
    : res String :=
  search_loop (fun t => find_char t c1) (fun s npos => replaceFrom s npos 1 p) s pos all fuel.

Definition replace_ss (s : String) (p1 p2 : str) (pos : Z) (all : bool) (fuel : nat) : res String :=
  search_loop (fun t => find_str t p1) (fun s npos => replaceFrom s npos (u32 (strlen p1)) p2)
    s pos all fuel.

(** ** Appending and inserting *)

(** The body of [append], [operator+=(const char* )] and [operator+=(const std::string&)], with
    the length each computes. *)
Definition append_n (s : String) (p : str) (s_len : Z) : res String :=
  let str_len := s32 (_string_length s) in
  let? s := resize s (u32 (s_len + str_len)) in
  let? s := memcpy s str_len p s_len in
  store s (_string_length s) NUL.

Definition append (s : String) (t : str) : res String := append_n s t (s32 (zlen t)).
Definition plus_cstr (s : String) (p : str) : res String := append_n s p (s32 (strlen p)).
Definition plus_std (s : String) (t : str) : res String := append_n s t (s32 (zlen t)).
Definition plus_String (s : String) (t : str) : res String :=
  let s_len := s32 (zlen t) in
  if s_len =? 0 then Ok s else append_n s t s_len.

Definition plus_char (s : String) (c : char) : res String :=
  if decide (c = NUL) then Ok s
  else
    let? s := resize s (u32 (1 + _string_length s)) in
    store s (u32 (_string_length s - 1)) c.

Definition insert_char (s : String) (pos : Z) (c : char) : res String :=
  let n := _string_length s in
  let? s := resize s (u32 (n + 1)) in
  if pos <=? 0 then
    let? s := memmove s 1 0 (u32 (n + 1)) in store s 0 c
  else if n <=? pos then store s n c
  else
    let? s := memmove s (pos + 1) pos (u32 (n - pos + 1)) in store s pos c.

Definition insert_cstr (s : String) (pos : Z) (p : str) : res String :=
  let str_size := u32 (strlen p) in
  let n := _string_length s in
  let? s := resize s (u32 (n + str_size)) in
  if pos <=? 0 then
    let? s := memmove s str_size 0 n in memcpy s 0 p str_size
  else if n <=? pos then memcpy s n p str_size
  else
    let? s := memmove s (u32 (pos + str_size)) pos (u32 (n - pos)) in memcpy s pos p str_size.

Definition insert_String (s : String) (pos : Z) (t : str) : res String := insert_cstr s pos t.
Definition prepend_char (s : String) (c : char) : res String := insert_char s 0 c.
Definition prepend_cstr (s : String) (p : str) : res String := insert_cstr s 0 p.

(** ** Assignment *)

Definition assign_cstr (s : String) (p : str) : res String := copy s p (u32 (s32 (strlen p))).
Definition assign_std (s : String) (t : str) : res String := copy s t (u32 (s32 (zlen t))).
Definition assign_String (s : String) (t : str) : res String := copy s t (zlen t).
Definition assign_char (s : String) (c : char) : res String :=
  let? s := resize s 1 in store s 0 c.

(** ** What a [String] object represents *)

(** [s] holds the characters [l]: a terminator follows them in a buffer whose size is a multiple
    of 16 and has room for the reserved length. *)
Definition repr (s : String) (l : str) : Prop :=
  _string_length s = zlen l /\ zlen l < 2 ^ 31 /\ 0 <= _min_size s < 2 ^ 31 /\
  match _str s with
  | None => l = [] /\ _array_size s = 0 /\ _min_size s = 0
  | Some b =>
      zlen b = _array_size s /\ (16 | _array_size s) /\ _min_size s < _array_size s /\
      exists junk, b = (Some <$> l) ++ Some NUL :: junk
  end.

(** The cached hash value is that of the characters. *)
Definition hash_ok (s : String) (l : str) : Prop :=
  _hash_value s = 0 \/ _hash_value s = hash_chars l.

(** What [resize] needs of the object, which [repr] and intermediate states both give. *)
Definition sized (s : String) : Prop :=
  0 <= _min_size s < 2 ^ 31 /\
  match _str s with
  | None => _array_size s = 0
  | Some b => zlen b = _array_size s
  end.

Lemma repr_sized s l : repr s l -> sized s.
Proof. unfold repr, sized. destruct (_str s); naive_solver. Qed.

Lemma repr_length s l : repr s l -> _string_length s = zlen l.
Proof. by intros (? & _). Qed.

Lemma repr_bound s l : repr s l -> zlen l < 2 ^ 31.
Proof. by intros (_ & ? & _). Qed.

Lemma repr_buf s l : repr s l -> exists rest, default [] (_str s) = (Some <$> l) ++ rest.
Proof.
  intros (_ & _ & _ & H). destruct (_str s) as [b|]; simpl.
  - destruct H as (_ & _ & _ & junk & ->). by eexists.
  - destruct H as (-> & _). by eexists.
Qed.

Lemma repr_some s l : repr s l -> l <> [] -> exists junk, _str s = Some ((Some <$> l) ++ Some NUL :: junk).
Proof.
  intros (_ & _ & _ & H) Hne. destruct (_str s) as [b|]; simpl.
  - destruct H as (_ & _ & _ & junk & ->). by eexists.
  - by destruct H as (-> & _).
Qed.

Lemma repr_new : repr String_new [].
Proof. unfold repr. simpl. split_and!; done || lia. Qed.

(** ** Lemmas on the memory operations *)

Lemma splice_app {A} (p old q cs : list A) :
  zlen old = zlen cs -> splice (p ++ old ++ q) (zlen p) cs = p ++ cs ++ q.
Proof.
  intros H. unfold splice, ztake. unfold zlen at 1. rewrite Nat2Z.id, take_app_length.
  rewrite <- H, <- zlen_app, (app_assoc p old q), zdrop_app_zlen. done.
Qed.

Lemma write_app s p old q i cs :
  _str s = Some (p ++ old ++ q) -> i = zlen p -> zlen old = zlen cs ->
  write s i cs = Ok (set_str s (Some (p ++ cs ++ q))).
Proof.
  intros Hs -> Hl. unfold write. destruct cs as [|c cs].
  - destruct old; [|exfalso; revert Hl; zlen_lia]. destruct s; simpl in *. by subst.
  - rewrite Hs. rewrite !zlen_app, Hl. pose proof (zlen_nonneg p). pose proof (zlen_nonneg q).
    replace (_ && _) with true by lia. by rewrite splice_app.
Qed.

Lemma store_app s p old q i c :
  _str s = Some (p ++ old :: q) -> i = zlen p ->
  store s i c = Ok (set_str s (Some (p ++ Some c :: q))).
Proof. intros Hs Hi. by apply (write_app s p [old] q). Qed.

Lemma read_app s p m q i n :
  _str s = Some (p ++ m ++ q) -> i = zlen p -> n = zlen m -> read s i n = Ok m.
Proof.
  intros Hs -> ->. unfold read. pose proof (zlen_nonneg p). pose proof (zlen_nonneg q).
  pose proof (zlen_nonneg m).
  destruct (Z.eqb_spec (zlen m) 0) as [E|_].
  - destruct m; [done|]. exfalso. revert E. zlen_lia.
  - rewrite Hs, !zlen_app. replace (_ && _) with true by lia. by rewrite zsub_app.
Qed.

Lemma load_app s p c q i : _str s = Some (p ++ Some c :: q) -> i = zlen p -> load s i = Ok c.
Proof. intros Hs Hi. unfold load. by rewrite (read_app s p [Some c] q). Qed.

(** Moving [m] over [old]: the buffer is read as [p1 ++ m ++ q1] and written as [p2 ++ old ++ q2]. *)
Lemma memmove_app s p1 m q1 p2 old q2 dst src n :
  _str s = Some (p1 ++ m ++ q1) -> p1 ++ m ++ q1 = p2 ++ old ++ q2 ->
  src = zlen p1 -> dst = zlen p2 -> n = zlen m -> zlen old = zlen m ->
  memmove s dst src n = Ok (set_str s (Some (p2 ++ m ++ q2))).
Proof.
  intros Hs E Hsrc Hdst Hn Hl. unfold memmove. rewrite (read_app s p1 m q1) by done. simpl.
  apply (write_app s p2 old); [by rewrite Hs, E|done|done].
Qed.

Lemma text_take mem n : 0 <= n <= zlen mem -> ztake n (text mem) = ztake n mem.
Proof. intros. unfold ztake, text. apply take_app_le. unfold zlen in *. lia. Qed.

Lemma memcpy_app s p old q i mem n :
  _str s = Some (p ++ old ++ q) -> i = zlen p -> zlen old = n -> 0 <= n <= zlen mem ->
  memcpy s i mem n = Ok (set_str s (Some (p ++ (Some <$> ztake n mem) ++ q))).
Proof.
  intros Hs Hi Hl Hn. unfold memcpy, text. rewrite zlen_app. change (zlen [NUL]) with 1.
  replace (_ && _) with true by lia. fold (text mem). rewrite text_take by done.
  apply write_app with (old := old); [done|done|]. rewrite zlen_fmap, zlen_take. lia.
Qed.

Lemma alloc_app n b p rest :
  default [] b = p ++ rest -> zlen p <= n ->
  exists q, alloc n b = p ++ q /\ zlen (alloc n b) = n.
Proof.
  intros Hb Hn. unfold alloc. rewrite Hb. eexists. split.
  - unfold ztake. rewrite take_app_ge by (unfold zlen in *; lia). by rewrite <- app_assoc.
  - pose proof (zlen_nonneg p). rewrite zlen_app, zlen_take, zlen_replicate. lia.
Qed.

(** [resize]: the cells up to the new length survive, the terminator follows. *)
Lemma resize_spec s size p rest :
  sized s -> default [] (_str s) = p ++ rest -> zlen p <= size < 2 ^ 31 ->
  0 < size \/ 0 < _min_size s ->
  exists mid junk cap,
    resize s size = Ok (mkString (Some (p ++ mid ++ Some NUL :: junk)) cap size (_min_size s) 0) /\
    zlen mid = size - zlen p /\ zlen (p ++ mid ++ Some NUL :: junk) = cap /\
    (16 | cap) /\ _min_size s < cap.
Proof.
  intros [Hm Hs] Hb Hp Hpos. pose proof (zlen_nonneg p).
  set (m := Z.max size (_min_size s)).
  pose proof (ROUNDUP_bounds (m + 1) 4) as HR. change (2 ^ 4) with ROUNDVAL in HR.
  destruct HR as [HR HD]; [lia|lia|unfold ROUNDVAL; lia|].
  set (cap := ROUNDUP (m + 1) ROUNDVAL) in *.
  destruct (alloc_app cap (_str s) p rest Hb) as (q & Eq & El); [lia|].
  assert (exists mid c junk, q = mid ++ c :: junk /\ zlen mid = size - zlen p) as (mid & c & junk & -> & Hmid).
  { rewrite Eq, zlen_app in El. exists (ztake (size - zlen p) q).
    destruct (zdrop (size - zlen p) q) as [|c junk] eqn:E.
    - exfalso. pose proof (zlen_drop (size - zlen p) q) as Ed. rewrite E, zlen_nil in Ed. lia.
    - exists c, junk. rewrite <- E, ztake_zdrop, zlen_take. split; [done|lia]. }
  exists mid, junk, cap.
  assert (E : forall s', _str s' = Some (alloc cap (_str s)) ->
    store s' size NUL = Ok (set_str s' (Some (p ++ mid ++ Some NUL :: junk)))).
  { intros s' Hs'. unfold store. rewrite Eq in Hs'.
    replace size with (zlen (p ++ mid)) by (rewrite zlen_app; lia).
    rewrite (write_app s' (p ++ mid) [c] junk); rewrite <- ?app_assoc; done. }
  split_and!; [|done| |done|lia].
  2:{ rewrite <- El, Eq, !zlen_app, !zlen_cons. done. }
  unfold resize. simpl. replace (_ || _) with true by lia.
  replace (if size <? _min_size s then _min_size s else size) with m
    by (subst m; destruct (Z.ltb_spec size (_min_size s)); lia).
  rewrite wrapU_small by lia. fold cap.
  destruct (Z.eqb_spec cap (_array_size s)) as [Ec|Ec].
  - rewrite E; [by rewrite Ec|]. simpl.
    destruct (_str s) as [b|]; [|lia]. f_equal. unfold alloc. simpl.
    rewrite Hs, <- Ec, ztake_ge by lia. rewrite Z.sub_diag. by rewrite app_nil_r.
  - by rewrite E.
Qed.

Lemma resize_zero s : _min_size s = 0 -> sized s -> resize s 0 = Ok String_new.
Proof.
  intros Hm [_ Hs]. unfold resize. simpl. rewrite Hm. simpl.
  destruct s as [[b|] a n m h]; simpl in *; subst; reflexivity.
Qed.

Lemma repr_intro l junk cap m h n :
  n = zlen l -> zlen l < 2 ^ 31 -> 0 <= m -> m < 2 ^ 31 ->
  zlen ((Some <$> l) ++ Some NUL :: junk) = cap -> (16 | cap) -> m < cap ->
  repr (mkString (Some ((Some <$> l) ++ Some NUL :: junk)) cap n m h) l.
Proof.
  intros. unfold repr. cbn [_str _array_size _string_length _min_size].
  do 2 (split; [done|]). split; [lia|]. do 3 (split; [done|]). by exists junk.
Qed.

(** ** The methods on represented strings *)

Definition returns (m : res String) (Q : String -> Prop) : Prop := exists s', m = Ok s' /\ Q s'.

(** The outcome of a method that rewrites the characters and drops the cached hash. *)
Definition fresh (l : str) (s : String) : Prop := repr s l /\ _hash_value s = 0.

Lemma returns_Ok s (Q : String -> Prop) : Q s -> returns (Ok s) Q.
Proof. intros. by exists s. Qed.

Ltac cells := cbn [set_str _str _array_size _string_length _min_size _hash_value]; rewrite ?fmap_app, <- ?app_assoc, ?app_nil_r; first [done | zlen_lia].

Lemma resize_repr s l n :
  repr s l -> 0 <= n <= zlen l -> returns (resize s n) (fresh (ztake n l)).
Proof.
  intros Hr Hn. pose proof (repr_sized _ _ Hr) as Hsz. pose proof (repr_bound _ _ Hr).
  destruct (repr_buf _ _ Hr) as [rest Hb].
  assert (0 <= _min_size s < 2 ^ 31) as Hm by apply Hr.
  destruct (decide (n = 0 /\ _min_size s = 0)) as [[-> Hz]|Hnz].
  - rewrite resize_zero by done. apply returns_Ok. rewrite ztake_le by lia.
    split; [apply repr_new|done].
  - destruct (resize_spec s n (Some <$> ztake n l) ((Some <$> zdrop n l) ++ rest))
      as (mid & junk & cap & E & Hmid & Hcap & Hdiv & Hlt); [done| | |lia|].
    { by rewrite Hb, app_assoc, <- fmap_app, ztake_zdrop. }
    { rewrite zlen_fmap, zlen_take. lia. }
    rewrite zlen_fmap, zlen_take in Hmid.
    assert (mid = []) as -> by (destruct mid; [done|exfalso; revert Hmid; zlen_lia]).
    rewrite E. apply returns_Ok. simpl. split; [|done].
    apply repr_intro; try done; rewrite ?zlen_take; lia.
Qed.

(** [resize] before writing [n - zlen l] more characters. *)
Lemma resize_room s l n :
  repr s l -> zlen l <= n < 2 ^ 31 -> 0 < n \/ 0 < _min_size s ->
  exists mid junk cap,
    resize s n = Ok (mkString (Some ((Some <$> l) ++ mid ++ Some NUL :: junk)) cap n (_min_size s) 0) /\
    zlen mid = n - zlen l /\ (16 | cap) /\ _min_size s < cap /\ 0 <= _min_size s < 2 ^ 31 /\
    zlen junk = cap - n - 1.
Proof.
  intros Hr Hn Hp. pose proof (repr_sized _ _ Hr) as Hsz.
  destruct (repr_buf _ _ Hr) as [rest Hb].
  destruct (resize_spec s n _ rest Hsz Hb) as (mid & junk & cap & E & Hmid & Hcap & ?); [cells|done|].
  exists mid, junk, cap. rewrite zlen_fmap in Hmid.
  rewrite !zlen_app, zlen_cons, zlen_fmap in Hcap.
  split; [done|]. split; [done|]. split; [naive_solver|]. split; [naive_solver|].
  split; [apply Hsz|lia].
Qed.

(** The end of a method: the new characters [l] in the resized buffer. *)
Lemma fresh_intro l junk cap m n b :
  b = (Some <$> l) ++ Some NUL :: junk -> n = zlen l -> zlen l < 2 ^ 31 -> 0 <= m < 2 ^ 31 ->
  (16 | cap) -> m < cap -> zlen junk = cap - n - 1 ->
  fresh l (mkString (Some b) cap n m 0).
Proof.
  intros -> -> ? [??] ?? Hj. split; [|done]. apply repr_intro; try done. zlen_lia.
Qed.

Ltac finish_fresh :=
  apply returns_Ok; cbn [set_str _str _array_size _string_length _min_size _hash_value];
  eapply fresh_intro; try done; first [cells | rewrite ?zlen_take; lia].

Lemma append_n_repr s l t :
  repr s l -> zlen l + zlen t < 2 ^ 31 -> 0 < zlen l + zlen t \/ 0 < _min_size s ->
  returns (append_n s t (zlen t)) (fresh (l ++ t)).
Proof.
  intros Hr Hl Hp. pose proof (zlen_nonneg l). pose proof (zlen_nonneg t). unfold append_n.
  rewrite (repr_length _ _ Hr), (wrapS_small 32), (wrapU_small 32) by lia.
  destruct (resize_room s l (zlen t + zlen l) Hr) as (mid & junk & cap & E & Hmid & ? & ? & ? & ?); [lia|lia|].
  rewrite E. cbn [bind]. erewrite (memcpy_app _ (Some <$> l) mid (Some NUL :: junk)); [|done|cells|lia|lia].
  rewrite ztake_ge by lia. cbn [bind set_str _string_length].
  erewrite (store_app _ (Some <$> (l ++ t)) (Some NUL) junk); [|cells|cells].
  finish_fresh.
Qed.

Lemma plus_char_repr s l c :
  repr s l -> c <> NUL -> zlen l < 2 ^ 31 - 1 -> returns (plus_char s c) (fresh (l ++ [c])).
Proof.
  intros Hr Hc Hl. pose proof (zlen_nonneg l). unfold plus_char. rewrite decide_False by done.
  rewrite (repr_length _ _ Hr), (wrapU_small 32) by lia.
  destruct (resize_room s l (1 + zlen l) Hr) as (mid & junk & cap & E & Hmid & ? & ? & ? & ?); [lia|lia|].
  rewrite E. cbn [bind _string_length]. rewrite wrapU_small by lia.
  destruct mid as [|x [|y mid]]; [exfalso; revert Hmid; zlen_lia| |exfalso; revert Hmid; zlen_lia].
  erewrite (store_app _ (Some <$> l) x (Some NUL :: junk)); [|done|cells].
  finish_fresh.
Qed.

Lemma copy_repr s l t n :
  repr s l -> 0 <= n <= zlen t -> zlen t < 2 ^ 31 -> returns (copy s t n) (fresh (ztake n t)).
Proof.
  intros Hr Hn Ht. unfold copy. destruct (Z.ltb_spec 0 n) as [Hp|Hp].
  - pose proof (repr_sized _ _ Hr) as Hsz.
    destruct (resize_spec s n [] (default [] (_str s)) Hsz)
      as (mid & junk & cap & E & Hmid & Hcap & Hd & Hlt); [done|cells|lia|].
    rewrite E. cbn [bind app]. rewrite zlen_nil in Hmid. cbn [app] in Hcap.
    rewrite zlen_app, zlen_cons in Hcap.
    erewrite (memcpy_app _ [] mid (Some NUL :: junk)); [|done|done|lia|lia]. cbn [bind app set_str].
    erewrite (store_app _ (Some <$> ztake n t) (Some NUL) junk); [|done|rewrite zlen_fmap, zlen_take; lia].
    assert (0 <= _min_size s < 2 ^ 31) by apply Hsz.
    finish_fresh.
  - replace n with 0 by lia. destruct (resize_repr s l 0 Hr) as (s' & E & H); [zlen_lia|].
    rewrite E. rewrite ztake_le in * by lia. by exists s'.
Qed.

Lemma split_len {A} (l : list A) n : 0 <= n <= zlen l -> exists p q, l = p ++ q /\ zlen p = n.
Proof.
  intros. exists (ztake n l), (zdrop n l). rewrite ztake_zdrop, zlen_take. split; [done|lia].
Qed.

(** A part [l] and the [n] cells [mid] after it, seen as [n] cells to fill and room for [l]. *)
Lemma shift_room (l : str) (mid : list (option char)) n :
  zlen mid = n -> exists p q, (Some <$> l) ++ mid = p ++ q /\ zlen p = n /\ zlen q = zlen l.
Proof.
  intros <-. destruct (split_len ((Some <$> l) ++ mid) (zlen mid)) as (p & q & E & Hp); [zlen_lia|].
  exists p, q. split_and!; [done..|].
  assert (zlen ((Some <$> l) ++ mid) = zlen (p ++ q)) as El by (by rewrite E). revert El. zlen_lia.
Qed.

Lemma insert_cstr_repr s l pos t :
  repr s l -> 0 <= pos < 2 ^ 31 -> nul_free t -> zlen l + zlen t < 2 ^ 31 ->
  returns (insert_cstr s pos t) (fresh (ztake pos l ++ t ++ zdrop pos l)).
Proof.
  intros Hr Hpos Hf Hl. pose proof (zlen_nonneg l). pose proof (zlen_nonneg t). unfold insert_cstr.
  rewrite strlen_id by done. rewrite (wrapU_small 32 (zlen t)), (repr_length _ _ Hr) by lia.
  rewrite (wrapU_small 32 (zlen l + zlen t)) by lia.
  destruct (decide (zlen l + zlen t = 0 /\ _min_size s = 0)) as [[Hz Hm]|Hp].
  { destruct l; [|exfalso; revert Hz; zlen_lia]. destruct t; [|exfalso; revert Hz; zlen_lia].
    change (zlen [] + zlen []) with 0. rewrite resize_zero by (done || by eapply repr_sized).
    cbn [bind]. change (zlen []) with 0. unfold ztake, zdrop. rewrite take_nil, drop_nil.
    assert (returns (Ok String_new) (fresh [])) by (apply returns_Ok; split; [apply repr_new|done]).
    destruct (pos <=? 0); [done|]. destruct (Z.leb_spec 0 pos); [done|lia]. }
  assert (0 <= _min_size s) by apply Hr.
  destruct (resize_room s l (zlen l + zlen t) Hr) as (mid & junk & cap & E & Hmid & Hc1 & Hc2 & Hc3 & Hc4); [lia|lia|].
  rewrite E. cbn [bind]. clear E.
  destruct (Z.leb_spec pos 0) as [Hp0|Hp0]; [|destruct (Z.leb_spec (zlen l) pos) as [Hp1|Hp1]].
  - rewrite ztake_le, zdrop_le by lia.
    destruct (shift_room l mid (zlen t)) as (p & q & Epq & Hlp & Hlq); [lia|].
    rewrite (memmove_app _ [] (Some <$> l) (mid ++ Some NUL :: junk) p q (Some NUL :: junk));
      [|done| |done|lia|cells|cells].
    2:{ simpl. by rewrite !app_assoc, Epq. }
    cbn [bind set_str]. erewrite (memcpy_app _ [] p); [|done|done|done|lia].
    rewrite ztake_ge by lia. finish_fresh.
  - rewrite ztake_ge, zdrop_ge by lia.
    erewrite (memcpy_app _ (Some <$> l) mid); [|done|cells|lia|lia].
    rewrite ztake_ge by lia. finish_fresh.
  - rewrite !(wrapU_small 32) by lia.
    set (a := ztake pos l). set (b := zdrop pos l).
    assert (l = a ++ b) as El by (symmetry; apply ztake_zdrop).
    assert (zlen a = pos) as Ha by (subst a; rewrite zlen_take; lia).
    clearbody a b. subst l. rewrite zlen_app in *.
    destruct (shift_room b mid (zlen t)) as (p & q & Epq & Hlp & Hlq); [lia|].
    rewrite (memmove_app _ (Some <$> a) (Some <$> b) (mid ++ Some NUL :: junk)
               ((Some <$> a) ++ p) q (Some NUL :: junk)); [|cells| |cells|cells|cells|cells].
    2:{ rewrite <- !app_assoc. f_equal. by rewrite !app_assoc, Epq. }
    cbn [bind set_str]. erewrite (memcpy_app _ (Some <$> a) p ((Some <$> b) ++ Some NUL :: junk)); [|cells|cells|done|lia].
    rewrite ztake_ge by lia. finish_fresh.
Qed.

(** [resize] to the length of a prefix of the buffer makes that prefix the content. *)
Lemma resize_fresh s l n rest :
  sized s -> default [] (_str s) = (Some <$> l) ++ rest -> zlen l < 2 ^ 31 -> n = zlen l ->
  returns (resize s n) (fresh l).
Proof.
  intros Hsz Hb Hl ->. pose proof (zlen_nonneg l). assert (0 <= _min_size s < 2 ^ 31) by apply Hsz.
  destruct (decide (zlen l = 0 /\ _min_size s = 0)) as [[Hz Hm]|Hnz].
  - destruct l; [|exfalso; revert Hz; zlen_lia]. change (zlen []) with 0.
    rewrite resize_zero by done. apply returns_Ok. split; [apply repr_new|done].
  - destruct (resize_spec s (zlen l) (Some <$> l) rest) as (mid & junk & cap & E & Hmid & Hcap & Hd & Hlt);
      [done|done|cells|lia|].
    rewrite zlen_fmap in Hmid.
    assert (mid = []) as -> by (destruct mid; [done|exfalso; revert Hmid; zlen_lia]).
    rewrite !zlen_app, zlen_cons, zlen_fmap in Hcap. change (zlen []) with 0 in Hcap.
    rewrite E. finish_fresh.
Qed.

Lemma remove_at_repr s a m b :
  repr s (a ++ m ++ b) -> m <> [] -> returns (remove_at s (zlen a) (zlen m)) (fresh (a ++ b)).
Proof.
  intros Hr Hm. pose proof (repr_bound _ _ Hr) as Hl. rewrite !zlen_app in Hl.
  pose proof (zlen_nonneg a). pose proof (zlen_nonneg b).
  assert (0 < zlen m) by (destruct m; [done|zlen_lia]).
  unfold remove_at. rewrite (repr_length _ _ Hr), !zlen_app, !wrapU_small by lia.
  replace (zlen m =? 0) with false by lia.
  destruct (Z.leb_spec (zlen a + (zlen m + zlen b)) (zlen a + zlen m)) as [Hb|Hb].
  - assert (b = []) as -> by (destruct b; [done|exfalso; revert Hb; zlen_lia]).
    unfold truncate. destruct (resize_repr s _ (zlen a) Hr) as (s' & E & H'); [zlen_lia|].
    rewrite E. exists s'. split; [done|]. unfold ztake, zlen in H'.
    by rewrite Nat2Z.id, take_app_length, app_nil_r in *.
  - destruct (repr_some _ _ Hr) as [junk Hs]; [by destruct a, m|].
    destruct (split_len ((Some <$> m) ++ (Some <$> b)) (zlen b)) as (p & q & Epq & Hlp); [zlen_lia|].
    rewrite (memmove_app s (Some <$> (a ++ m)) (Some <$> b) (Some NUL :: junk)
      (Some <$> a) p (q ++ Some NUL :: junk)); [|rewrite Hs; cells| |cells|cells|cells|cells].
    2:{ rewrite !fmap_app, <- !app_assoc. f_equal. by rewrite !app_assoc, Epq. }
    pose proof (repr_sized _ _ Hr) as [Hmin Hsz]. rewrite Hs in Hsz. cbn [bind].
    apply (resize_fresh _ _ _ (q ++ Some NUL :: junk)); [|cells|zlen_lia|zlen_lia].
    split; [done|]. cbn [set_str _str _array_size]. rewrite <- Hsz.
    assert (zlen ((Some <$> m) ++ (Some <$> b)) = zlen (p ++ q)) as El by (by rewrite Epq).
    revert El. rewrite !fmap_app. zlen_lia.
Qed.

Lemma insert_char_repr s l pos c :
  repr s l -> l <> [] -> 0 <= pos -> zlen l < 2 ^ 31 - 1 ->
  returns (insert_char s pos c) (fresh (ztake pos l ++ c :: zdrop pos l)).
Proof.
  intros Hr Hne Hpos Hl. pose proof (zlen_nonneg l).
  assert (0 < zlen l) by (destruct l; [done|zlen_lia]).
  destruct (repr_some _ _ Hr Hne) as [rest Hs]. pose proof (repr_sized _ _ Hr) as Hsz.
  unfold insert_char. rewrite (repr_length _ _ Hr), (wrapU_small 32 (zlen l + 1)) by lia.
  destruct (resize_spec s (zlen l + 1) ((Some <$> l) ++ [Some NUL]) rest Hsz)
    as (mid & junk & cap & E & Hmid & Hcap & Hd & Hlt); [rewrite Hs; cells|zlen_lia|lia|].
  assert (mid = []) as -> by (destruct mid; [done|exfalso; revert Hmid; zlen_lia]).
  rewrite E. cbn [bind app]. clear E. assert (0 <= _min_size s < 2 ^ 31) by apply Hsz.
  rewrite !zlen_app, zlen_cons, zlen_fmap in Hcap. change (zlen [Some NUL]) with 1 in Hcap.
  change (zlen (@nil cell)) with 0 in Hcap.
  destruct (Z.leb_spec pos 0) as [Hp0|Hp0]; [|destruct (Z.leb_spec (zlen l) pos) as [Hp1|Hp1]].
  - rewrite ztake_le, zdrop_le by lia. destruct l as [|d l]; [done|].
    rewrite (memmove_app _ [] ((Some <$> (d :: l)) ++ [Some NUL]) (Some NUL :: junk)
               [Some d] ((Some <$> l) ++ [Some NUL; Some NUL]) junk);
      [|done|cells|done|done|cells|cells].
    cbn [bind set_str app]. erewrite (store_app _ [] (Some d)); [|done|done].
    finish_fresh.
  - rewrite ztake_ge, zdrop_ge by lia.
    erewrite (store_app _ (Some <$> l) (Some NUL) (Some NUL :: junk)); [|cells|cells].
    finish_fresh.
  - rewrite wrapU_small by lia.
    set (a := ztake pos l). set (b := zdrop pos l).
    assert (l = a ++ b) as El by (symmetry; apply ztake_zdrop).
    assert (zlen a = pos) as Ha by (subst a; rewrite zlen_take; lia).
    clearbody a b. subst l. rewrite zlen_app in *.
    destruct b as [|d b]; [exfalso; revert Hp1; zlen_lia|].
    rewrite (memmove_app _ (Some <$> a) ((Some <$> (d :: b)) ++ [Some NUL]) (Some NUL :: junk)
               ((Some <$> a) ++ [Some d]) ((Some <$> b) ++ [Some NUL; Some NUL]) junk);
      [|cells|cells|cells|cells|cells|cells].
    cbn [bind set_str].
    erewrite (store_app _ (Some <$> a) (Some d)); [|cells|cells].
    finish_fresh.
Qed.

(** The characters without those [trimBegin] removes, and without those [trimEnd] removes. *)
Fixpoint trim_front (l : str) : str :=
  match l with
  | c :: l' => if is_trim c then trim_front l' else l
  | [] => []
  end.
Definition trim_back (l : str) : str := rev (trim_front (rev l)).

Lemma trimBegin_loop_spec s a l rest :
  _str s = Some ((Some <$> a) ++ (Some <$> l) ++ rest) ->
  exists p, trimBegin_loop s (zlen a) (length l) = Ok (zlen (a ++ p)) /\ l = p ++ trim_front l.
Proof.
  revert a. induction l as [|c l IH]; intros a Hs; simpl.
  - exists []. by rewrite app_nil_r.
  - rewrite (load_app s (Some <$> a) c ((Some <$> l) ++ rest)) by cells. simpl.
    destruct (is_trim c); [|exists []; by rewrite app_nil_r].
    destruct (IH (a ++ [c])) as (p & E & El); [rewrite Hs; cells|].
    exists (c :: p). rewrite zlen_app in E. change (zlen [c]) with 1 in E. rewrite E, <- app_assoc. simpl. by rewrite <- El.
Qed.

Lemma trimBegin_repr s l :
  repr s l -> returns (trimBegin s) (fun s' => repr s' (trim_front l) /\ (s' = s \/ _hash_value s' = 0)).
Proof.
  intros Hr. pose proof (repr_bound _ _ Hr) as Hl. pose proof (repr_sized _ _ Hr) as [Hmin Hsz].
  unfold trimBegin. rewrite (repr_length _ _ Hr).
  destruct (_str s) as [b|] eqn:Hs.
  - assert (exists junk, b = (Some <$> l) ++ Some NUL :: junk) as [junk ->].
    { destruct Hr as (_ & _ & _ & Hr). rewrite Hs in Hr. naive_solver. }
    replace (Z.to_nat (zlen l)) with (length l) by (unfold zlen; lia).
    destruct (trimBegin_loop_spec s [] l (Some NUL :: junk) Hs) as (p & E & El).
    change (zlen []) with 0 in E. rewrite E. cbn [bind app].
    assert (zlen l = zlen p + zlen (trim_front l)) as Hlen by (rewrite El at 1; by rewrite zlen_app).
    set (r := trim_front l) in *. clearbody r. subst l. pose proof (zlen_nonneg p).
    destruct (split_len ((Some <$> p) ++ (Some <$> r)) (zlen r)) as (x & y & Exy & Hx); [zlen_lia|].
    rewrite (memmove_app s (Some <$> p) (Some <$> r) (Some NUL :: junk) [] x (y ++ Some NUL :: junk));
      [|rewrite Hs; cells|by rewrite app_assoc, Exy, <- app_assoc|cells|done|cells|cells].
    cbn [bind app]. rewrite Hlen.
    replace (zlen p + zlen r - zlen p) with (zlen r) by lia.
    destruct (resize_fresh (set_str s (Some ((Some <$> r) ++ y ++ Some NUL :: junk))) r (zlen r)
      (y ++ Some NUL :: junk)) as (s' & E' & H1 & H2); [|done|lia|done|].
    { split; [done|]. cbn [set_str _str _array_size]. rewrite <- Hsz.
      assert (zlen ((Some <$> p) ++ (Some <$> r)) = zlen (x ++ y)) as Eq by (by rewrite Exy).
      revert Eq. rewrite !fmap_app. zlen_lia. }
    exists s'. split; [done|]. split; [done|by right].
  - exists s. split; [done|]. split; [|by left].
    assert (l = []) as -> by (destruct Hr as (_ & _ & _ & Hr); rewrite Hs in Hr; naive_solver).
    done.
Qed.

Lemma trim_back_snoc l c : trim_back (l ++ [c]) = if is_trim c then trim_back l else l ++ [c].
Proof.
  unfold trim_back. rewrite rev_app_distr. simpl. destruct (is_trim c); [done|].
  simpl. by rewrite rev_involutive.
Qed.

Lemma trimEnd_loop_spec s l rest :
  _str s = Some ((Some <$> l) ++ rest) ->
  trimEnd_loop s (length l) = Ok (zlen (trim_back l)) /\ exists q, l = trim_back l ++ q.
Proof.
  revert rest. induction l as [|c l IH] using rev_ind; intros rest Hs; [by split; [|exists []]|].
  rewrite length_app, Nat.add_comm. simpl.
  rewrite (load_app s (Some <$> l) c rest) by first [rewrite Hs; cells | by rewrite zlen_fmap]. simpl.
  rewrite trim_back_snoc. destruct (is_trim c) eqn:Ec.
  - destruct (IH (Some c :: rest)) as [E [q Eq]]; [rewrite Hs; cells|].
    split; [done|]. exists (q ++ [c]). rewrite app_assoc. by rewrite <- Eq.
  - split; [|by exists []; rewrite app_nil_r]. f_equal. unfold zlen. rewrite length_app. simpl. lia.
Qed.

Lemma trimEnd_repr s l :
  repr s l -> returns (trimEnd s) (fun s' => repr s' (trim_back l) /\ (s' = s \/ _hash_value s' = 0)).
Proof.
  intros Hr. unfold trimEnd. rewrite (repr_length _ _ Hr).
  destruct (_str s) as [b|] eqn:Hs.
  - assert (exists junk, b = (Some <$> l) ++ Some NUL :: junk) as [junk ->].
    { destruct Hr as (_ & _ & _ & Hr). rewrite Hs in Hr. naive_solver. }
    replace (Z.to_nat (zlen l)) with (length l) by (unfold zlen; lia).
    destruct (trimEnd_loop_spec s l _ Hs) as [E [q Eq]]. rewrite E. cbn [bind].
    destruct (resize_repr s l (zlen (trim_back l)) Hr) as (s' & E' & H1 & H2).
    { assert (zlen l = zlen (trim_back l) + zlen q) by (rewrite Eq at 1; apply zlen_app). zlen_lia. }
    exists s'. split; [done|]. split; [|by right].
    replace (ztake (zlen (trim_back l)) l) with (trim_back l) in H1; [done|].
    rewrite Eq at 3. unfold ztake, zlen. by rewrite Nat2Z.id, take_app_length.
  - exists s. split; [done|]. split; [|by left].
    assert (l = []) as -> by (destruct Hr as (_ & _ & _ & Hr); rewrite Hs in Hr; naive_solver).
    done.
Qed.

Lemma map_loop_spec f s a l rest :
  _str s = Some ((Some <$> a) ++ (Some <$> l) ++ rest) ->
  map_loop f s (zlen a) (length l) = Ok (set_str s (Some ((Some <$> a) ++ (Some <$> (f <$> l)) ++ rest))).
Proof.
  revert s a. induction l as [|c l IH]; intros s a Hs; simpl.
  - destruct s; simpl in *. by subst.
  - rewrite (load_app s (Some <$> a) c ((Some <$> l) ++ rest)) by cells. simpl.
    rewrite (store_app s (Some <$> a) (Some c) ((Some <$> l) ++ rest)) by cells. simpl.
    specialize (IH (set_str s (Some ((Some <$> a) ++ Some (f c) :: (Some <$> l) ++ rest))) (a ++ [f c])).
    rewrite zlen_app in IH. change (zlen [f c]) with 1 in IH. rewrite IH by cells.
    f_equal. unfold set_str. simpl. f_equal. cells.
Qed.

Lemma map_loop_repr f s l :
  repr s l ->
  returns (map_loop f s 0 (Z.to_nat (_string_length s)))
    (fun s' => repr s' (f <$> l) /\ _hash_value s' = _hash_value s).
Proof.
  intros Hr. rewrite (repr_length _ _ Hr).
  replace (Z.to_nat (zlen l)) with (length l) by (unfold zlen; lia).
  destruct (decide (l = [])) as [->|Hne]; [by exists s|].
  destruct (repr_some _ _ Hr Hne) as [junk Hs].
  pose proof (map_loop_spec f s [] l _ Hs) as E. change (zlen []) with 0 in E. rewrite E.
  eexists. split; [done|]. split; [|done].
  destruct Hr as (H1 & H2 & H3 & H4). rewrite Hs in H4. unfold repr.
  cbn [set_str _str _array_size _string_length _min_size app].
  rewrite zlen_fmap. destruct H4 as (H4 & H5 & H6 & _).
  do 3 (split; [done|]). split; [rewrite <- H4; cells|]. do 2 (split; [done|]). by exists junk.
Qed.

Lemma fill_repr s l c n :
  repr s l -> 0 < n < 2 ^ 31 -> returns (fill s c n) (fresh (replicate (Z.to_nat n) c)).
Proof.
  intros Hr Hn. unfold fill. replace (0 <? n) with true by lia.
  pose proof (repr_sized _ _ Hr) as Hsz. assert (0 <= _min_size s < 2 ^ 31) by apply Hsz.
  destruct (resize_spec s n [] (default [] (_str s)) Hsz)
    as (mid & junk & cap & E & Hmid & Hcap & Hd & Hlt); [done|cells|lia|].
  cbn [app] in *. rewrite zlen_app, zlen_cons in Hcap. change (zlen []) with 0 in *.
  rewrite E. cbn [bind _str _string_length]. unfold memset.
  erewrite (write_app _ [] mid (Some NUL :: junk)); [|done|done|rewrite zlen_replicate; lia].
  cbn [app]. rewrite <- (fmap_replicate Some (Z.to_nat n) c). apply returns_Ok.
  apply (fresh_intro _ junk); cbn [set_str _str _array_size _string_length _min_size];
    rewrite ?zlen_replicate; try done; lia.
Qed.

Lemma hash_loop_spec s a l rest h :
  _str s = Some ((Some <$> a) ++ (Some <$> l) ++ rest) ->
  hash_loop s (zlen a) (length l) h = Ok (foldl hash_step h l).
Proof.
  revert a h. induction l as [|c l IH]; intros a h Hs; simpl; [done|].
  rewrite (load_app s (Some <$> a) c ((Some <$> l) ++ rest)) by cells. simpl.
  specialize (IH (a ++ [c]) (hash_step h c)). rewrite zlen_app in IH. apply IH. rewrite Hs. cells.
Qed.

(** [hash()]: the cached value, or the hash of the characters, which is then cached. *)
Lemma hash_repr s l :
  repr s l ->
  hash s = Ok (if _hash_value s =? 0 then hash_chars l else _hash_value s,
               if _hash_value s =? 0 then set_hash_value s (hash_chars l) else s).
Proof.
  intros Hr. unfold hash. destruct (_hash_value s =? 0); [|done]. cbn [negb].
  rewrite (repr_length _ _ Hr).
  replace (Z.to_nat (zlen l)) with (length l) by (unfold zlen; lia).
  destruct (decide (l = [])) as [->|Hne]; [done|].
  destruct (repr_some _ _ Hr Hne) as [junk Hs].
  pose proof (hash_loop_spec s [] l _ 0 Hs) as E. change (zlen []) with 0 in E. by rewrite E.
Qed.

Lemma repr_set_hash s l h : repr s l -> repr (set_hash_value s h) l.
Proof. done. Qed.

Lemma u32_add_sub x y z : u32 (x + u32 (y - z)) = u32 (x + y - z).
Proof. unfold wrapU. rewrite Zplus_mod_idemp_r. f_equal. lia. Qed.

(** The end of [replaceFrom]: the hole [x] of the right size is filled. *)
Lemma replaceFrom_tail s a x t b y junk n :
  _str s = Some ((Some <$> a) ++ x ++ (Some <$> b) ++ y :: junk) -> zlen x = zlen t ->
  n = zlen (a ++ t ++ b) ->
  (let? s := memcpy s (zlen a) t (zlen t) in store s n NUL) =
  Ok (set_str s (Some ((Some <$> (a ++ t ++ b)) ++ Some NUL :: junk))).
Proof.
  intros Hs Hx Hn. rewrite (memcpy_app s (Some <$> a) x ((Some <$> b) ++ y :: junk)); [|done|cells|done|zlen_lia].
  cbn [bind]. rewrite ztake_ge by lia.
  rewrite (store_app _ (Some <$> (a ++ t ++ b)) y junk) by cells. done.
Qed.

(** [replaceFrom] on the part [m] of [a ++ m ++ b], which [t] replaces. *)
Section replaceFrom.
Context (s : String) (a m b t : str).
Hypothesis Hr : repr s (a ++ m ++ b).
Hypothesis Hf : nul_free t.
Hypothesis Ht : t <> [].
Hypothesis Hne : a ++ m ++ b <> [].
Hypothesis Hl : zlen (a ++ t ++ b) < 2 ^ 31.

(** What is left to do once the sizes are computed. *)
Lemma replaceFrom_unfold :
  replaceFrom s (zlen a) (zlen m) t =
  (let? s := if zlen (a ++ m ++ b) <? zlen (a ++ t ++ b) then resize s (zlen (a ++ t ++ b)) else Ok s in
   let? s := memmove s (zlen a + zlen t) (zlen a + zlen m) (zlen b) in
   let? s := if zlen (a ++ t ++ b) <? zlen (a ++ m ++ b) then resize s (zlen (a ++ t ++ b)) else Ok s in
   let? s := memcpy s (zlen a) t (zlen t) in
   store s (zlen (a ++ t ++ b)) NUL).
Proof.
  pose proof (repr_bound _ _ Hr) as Hl'. rewrite !zlen_app in Hl, Hl'.
  pose proof (zlen_nonneg a). pose proof (zlen_nonneg b). pose proof (zlen_nonneg m).
  assert (0 < zlen t) by (destruct t; [done|zlen_lia]).
  assert (0 < zlen a + (zlen m + zlen b)).
  { rewrite <- !zlen_app. destruct (a ++ m ++ b); [done|zlen_lia]. }
  unfold replaceFrom. rewrite strlen_id by done. rewrite (repr_length _ _ Hr), u32_add_sub.
  rewrite !zlen_app, !(wrapU_small 32) by (rewrite ?(wrapU_small 32); lia).
  replace (_ =? 0) with false by lia. replace (0 <? zlen t) with true by lia. cbn [negb].
  replace (zlen a + (zlen m + zlen b) + zlen t - zlen m) with (zlen a + (zlen t + zlen b)) by lia.
  replace (zlen a + (zlen m + zlen b) - (zlen a + zlen m)) with (zlen b) by lia.
  etransitivity; [apply bind_assoc|]. case_match; cbn [bind]; [|apply bind_assoc].
  destruct (resize _ _); cbn [bind]; [apply bind_assoc|done..].
Qed.

Lemma replaceFrom_shrinks :
  zlen t < zlen m ->
  returns (replaceFrom s (zlen a) (zlen m) t) (fresh (a ++ t ++ b)).
Proof.
  intros Hlt. rewrite replaceFrom_unfold. pose proof (repr_sized _ _ Hr) as Hsz.
  assert (0 <= _min_size s < 2 ^ 31) by apply Hsz. pose proof (repr_bound _ _ Hr) as Hl'.
  replace (_ <? zlen (a ++ t ++ b)) with false by zlen_lia.
  replace (zlen (a ++ t ++ b) <? _) with true by zlen_lia. cbn [bind].
  destruct (repr_some _ _ Hr Hne) as [junk Hs].
  destruct (split_len ((Some <$> m) ++ (Some <$> b)) (zlen t)) as (x & yw & Exy & Hx); [zlen_lia|].
  destruct (split_len yw (zlen b)) as (y & w & -> & Hy).
  { assert (zlen ((Some <$> m) ++ (Some <$> b)) = zlen (x ++ yw)) as El by (by rewrite Exy).
    revert El. zlen_lia. }
  rewrite (memmove_app s (Some <$> (a ++ m)) (Some <$> b) (Some NUL :: junk)
    ((Some <$> a) ++ x) y (w ++ Some NUL :: junk)); [|rewrite Hs; cells| |cells|cells|cells|cells].
  2:{ rewrite !fmap_app, <- !app_assoc. f_equal. rewrite !(app_assoc (Some <$> m)), Exy.
      by rewrite <- !app_assoc. }
  cbn [bind]. rewrite <- !app_assoc.
  destruct (resize_spec (set_str s (Some ((Some <$> a) ++ x ++ (Some <$> b) ++ w ++ Some NUL :: junk)))
    (zlen (a ++ t ++ b)) ((Some <$> a) ++ x ++ (Some <$> b)) (w ++ Some NUL :: junk))
    as (mid & junk' & cap & E & Hmid & Hcap & Hd & Hm).
  { split; [done|]. destruct Hsz as [_ Hsz]. rewrite Hs in Hsz. cbn [set_str _str _array_size].
    rewrite <- Hsz.
    assert (zlen ((Some <$> m) ++ (Some <$> b)) = zlen (x ++ y ++ w)) as El by (by rewrite Exy).
    revert El. rewrite !fmap_app. zlen_lia. }
  { cells. }
  { zlen_lia. }
  { left. assert (0 < zlen t) by (destruct t; [done|zlen_lia]). zlen_lia. }
  cbn [set_str _min_size] in *. rewrite E. cbn [bind].
  assert (mid = []) as -> by (destruct mid; [done|exfalso; revert Hmid; zlen_lia]).
  rewrite (replaceFrom_tail _ a x t b (Some NUL) junk'); [|cells|done|done].
  apply returns_Ok. split; [|done].
  apply repr_intro; cbn [set_str _str _array_size _string_length _min_size _hash_value];
    try done; try lia. revert Hcap. zlen_lia.
Qed.

Lemma replaceFrom_keeps :
  zlen t = zlen m ->
  returns (replaceFrom s (zlen a) (zlen m) t)
    (fun s' => repr s' (a ++ t ++ b) /\ _hash_value s' = _hash_value s).
Proof.
  intros Heq. rewrite replaceFrom_unfold.
  replace (_ <? zlen (a ++ t ++ b)) with false by zlen_lia.
  replace (zlen (a ++ t ++ b) <? _) with false by zlen_lia. cbn [bind].
  destruct (repr_some _ _ Hr Hne) as [junk Hs].
  rewrite (memmove_app s (Some <$> (a ++ m)) (Some <$> b) (Some NUL :: junk)
    (Some <$> (a ++ m)) (Some <$> b) (Some NUL :: junk)); [|rewrite Hs; cells|done|cells|cells|cells|cells].
  cbn [bind].
  rewrite (replaceFrom_tail _ a (Some <$> m) t b (Some NUL) junk); [|cells|cells|done].
  apply returns_Ok. split; [|done]. destruct Hr as (R1 & R2 & R3 & R4).
  rewrite Hs in R4. destruct R4 as (R4 & R5 & R6 & _). unfold repr.
  cbn [set_str _str _array_size _string_length _min_size].
  split; [rewrite R1; cells|]. split; [lia|]. split; [done|].
  split; [rewrite <- R4; revert Heq; rewrite !fmap_app; zlen_lia|]. do 2 (split; [done|]). by exists junk.
Qed.

Lemma replaceFrom_grows :
  zlen m < zlen t ->
  returns (replaceFrom s (zlen a) (zlen m) t) (fresh (a ++ t ++ b)).
Proof.
  intros Hgt. rewrite replaceFrom_unfold. pose proof (repr_bound _ _ Hr) as Hl'.
  replace (_ <? zlen (a ++ t ++ b)) with true by zlen_lia.
  replace (zlen (a ++ t ++ b) <? _) with false by zlen_lia.
  destruct (resize_room s (a ++ m ++ b) (zlen (a ++ t ++ b)) Hr)
    as (mid & junk & cap & E & Hmid & Hd & Hm & Hm' & Hj); [zlen_lia|pose proof (zlen_nonneg m); zlen_lia|].
  rewrite E. cbn [bind]. rewrite !zlen_app in Hmid.
  destruct (split_len ((Some <$> m) ++ (Some <$> b) ++ mid) (zlen t)) as (x & y & Exy & Hx); [zlen_lia|].
  assert (zlen y = zlen b) as Hy.
  { assert (zlen ((Some <$> m) ++ (Some <$> b) ++ mid) = zlen (x ++ y)) as El by (by rewrite Exy).
    revert El. zlen_lia. }
  rewrite (memmove_app _ (Some <$> (a ++ m)) (Some <$> b) (mid ++ Some NUL :: junk)
    ((Some <$> a) ++ x) y (Some NUL :: junk)); [|cells| |cells|cells|cells|cells].
  2:{ rewrite !fmap_app, <- !app_assoc. f_equal. rewrite (app_assoc x), <- Exy.
      by rewrite <- !app_assoc. }
  cbn [bind].
  rewrite (replaceFrom_tail _ a x t b (Some NUL) junk); [|cells|done|done].
  apply returns_Ok. split; [|done].
  apply repr_intro; cbn [set_str _str _array_size _string_length _min_size _hash_value];
    try done; try lia. revert Hj. zlen_lia.
Qed.

Lemma replaceFrom_repr :
  returns (replaceFrom s (zlen a) (zlen m) t)
    (fun s' => repr s' (a ++ t ++ b) /\ (_hash_value s' = 0 \/ zlen t = zlen m /\ _hash_value s' = _hash_value s)).
Proof.
  destruct (Z.lt_total (zlen t) (zlen m)) as [Hlt|[Heq|Hgt]].
  - destruct (replaceFrom_shrinks Hlt) as (s' & -> & ? & ?). apply returns_Ok. auto.
  - destruct (replaceFrom_keeps Heq) as (s' & -> & ? & ?). apply returns_Ok. auto.
  - destruct (replaceFrom_grows Hgt) as (s' & -> & ? & ?). apply returns_Ok. auto.
Qed.
End replaceFrom.

(** ** The search loops *)

Lemma mapM_id_Some (l : str) : mapM id (Some <$> l : list cell) = Some l.
Proof. apply mapM_fmap_Forall_Some. by apply Forall_true. Qed.

Lemma chars_repr s l : repr s l -> chars s = Ok l.
Proof.
  intros Hr. unfold chars. rewrite (repr_length _ _ Hr).
  assert (read s 0 (zlen l) = Ok (Some <$> l) /\ load s (zlen l) = Ok NUL) as [-> ->].
  { destruct (decide (l = [])) as [->|Hne].
    - split; [done|]. destruct Hr as (_ & _ & _ & H). destruct (_str s) eqn:Hs.
      + destruct H as (_ & _ & _ & junk & ->). by apply (load_app s [] NUL junk).
      + unfold load, read. by rewrite Hs.
    - destruct (repr_some _ _ Hr Hne) as [junk Hs]. split.
      + by apply (read_app s [] _ (Some NUL :: junk)); [|done|cells].
      + apply (load_app s (Some <$> l) NUL junk); [done|cells]. }
  simpl. rewrite mapM_id_Some. done.
Qed.

(** Each [c] of [b] replaced by [r]. *)
Definition subst (c : char) (r b : str) : str := b ≫= fun d => if decide (d = c) then r else [d].

Lemma subst_absent c r b : c ∉ b -> subst c r b = b.
Proof.
  induction b as [|d b IH]; [done|]. rewrite not_elem_of_cons. intros [H1 H2]. unfold subst. simpl.
  rewrite decide_False by done. simpl. f_equal. by apply IH.
Qed.

Lemma subst_hit c r b1 b2 : c ∉ b1 -> subst c r (b1 ++ c :: b2) = b1 ++ r ++ subst c r b2.
Proof.
  intros H. unfold subst. rewrite bind_app. fold (subst c r b1). rewrite subst_absent by done. simpl.
  by rewrite decide_True.
Qed.

(** A loop whose step replaces the character found by [r] replaces every later one, and ends.
    [I] is what is known of the object; it implies [repr]. *)
Section search_loop.
Context (I : String -> str -> Prop) (HI : forall s l, I s l -> repr s l).
Context (c : char) (r : str) (Hcr : c ∉ r) (Hc : c <> NUL) (Hfr : nul_free r).
Context (step : String -> Z -> res String).
Context (Hstep : forall s a b, I s (a ++ c :: b) -> zlen (a ++ r ++ b) < 2 ^ 31 ->
   returns (step s (zlen a)) (fun s' => I s' (a ++ r ++ b))).

Lemma search_loop_char fuel : forall s p q b,
  I s (p ++ q ++ b) -> nul_free (p ++ q ++ b) -> c ∉ q ->
  zlen (p ++ q) + zlen b + zlen b * zlen r < 2 ^ 31 - 1 -> (length b < fuel)%nat ->
  returns (search_loop (fun t => find_char t c) step s (zlen p) true fuel)
    (fun s' => I s' (p ++ q ++ subst c r b)).
Proof.
  induction fuel as [|fuel IH]; intros s p q b Hr Hf Hq Hl Hfuel; [lia|].
  pose proof (zlen_nonneg p). pose proof (zlen_nonneg q). pose proof (zlen_nonneg b). pose proof (zlen_nonneg r).
  rewrite zlen_app in Hl. assert (zlen p + zlen q + zlen b < 2 ^ 31 - 1) by nia.
  cbn [search_loop]. rewrite (chars_repr _ _ (HI _ _ Hr)). cbn [bind]. rewrite wrapU_small by lia.
  apply nul_free_app in Hf as [Hfp Hfq]. pose proof Hfq as [Hfq' Hfb]%nul_free_app.
  destruct (decide (c ∈ b)) as [Hin|Hout].
  2:{ rewrite find_char_miss; [|by apply nul_free_app|done|by rewrite elem_of_app; naive_solver].
      cbn [bind]. exists s. split; [done|]. by rewrite subst_absent. }
  apply list_elem_of_split_l in Hin as (b1 & b2 & -> & Hb1).
  apply nul_free_app in Hfb as [Hfb1 Hfb2]. apply nul_free_cons in Hfb2 as [_ Hfb2].
  rewrite (app_assoc q), find_char_hit; [|by apply nul_free_app|rewrite elem_of_app; naive_solver|].
  2:{ rewrite <- app_assoc, !zlen_app. rewrite !zlen_app in *. lia. }
  cbn [bind]. replace (0 <=? _) with true by zlen_lia. cbn [negb].
  rewrite zlen_app, zlen_cons in *. pose proof (zlen_nonneg b1). pose proof (zlen_nonneg b2).
  destruct (Hstep s (p ++ q ++ b1) b2) as (s' & E & Hr').
  { by rewrite <- !app_assoc in *. }
  { rewrite !zlen_app. nia. }
  replace (zlen p + (zlen q + zlen b1)) with (zlen (p ++ q ++ b1)) by (rewrite !zlen_app; lia).
  rewrite E. cbn [bind].
  destruct (IH s' (p ++ q ++ b1) r b2) as (s2 & E2 & Hr2); try done.
  { repeat (apply nul_free_app; split; try done). }
  { rewrite !zlen_app. nia. }
  { rewrite length_app in Hfuel. simpl in Hfuel. lia. }
  exists s2. split; [done|]. rewrite subst_hit by done. by rewrite <- !app_assoc in Hr2.
Qed.

(** The loop over the whole string. *)
Lemma search_all s l :
  I s l -> nul_free l -> zlen l + zlen l * zlen r < 2 ^ 31 - 1 ->
  returns (search_loop (fun t => find_char t c) step s 0 true (S (Z.to_nat (_string_length s))))
    (fun s' => I s' (subst c r l)).
Proof.
  intros Hr Hf Hl. refine (search_loop_char _ s [] [] l Hr Hf _ Hl _); [apply not_elem_of_nil|].
  rewrite (repr_length _ _ (HI _ _ Hr)). unfold zlen. lia.
Qed.
End search_loop.

(** ** Abstract specification and refinement

    An operation on a string, what it does on the characters ([spec]), and the conditions under
    which the code does that ([allowed]); where a condition is not met the code has undefined
    behaviour, as the theorems after the refinement show for some of them. *)

Inductive op :=
  | OAppend (t : str)
  | OPlusChar (c : char)
  | OInsert (pos : Z) (t : str)
  | OInsertChar (pos : Z) (c : char)
  | ORemove (pos n : Z)
  | ORemoveChar (c : char)
  | OReplaceFrom (pos n : Z) (t : str)
  | OReplaceChar (c1 c2 : char)
  | OReplace (c1 : char) (t : str)
  | OTruncate (n : Z)
  | OTrim
  | OUpper
  | OLower
  | OFill (c : char) (n : Z)
  | OAssign (t : str).

Definition run_op (o : op) (s : String) : res String :=
  let fuel := S (Z.to_nat (_string_length s)) in
  match o with
  | OAppend t => append s t
  | OPlusChar c => plus_char s c
  | OInsert pos t => insert_cstr s pos t
  | OInsertChar pos c => insert_char s pos c
  | ORemove pos n => remove_at s pos n
  | ORemoveChar c => removeChar s c 0 true fuel
  | OReplaceFrom pos n t => replaceFrom s pos n t
  | OReplaceChar c1 c2 => replace_cc s c1 c2 0 true fuel
  | OReplace c1 t => replace_cs s c1 t 0 true fuel
  | OTruncate n => truncate s n
  | OTrim => trim s
  | OUpper => toUpper s
  | OLower => toLower s
  | OFill c n => fill s c n
  | OAssign t => assign_String s t
  end.

Definition spec (o : op) (l : str) : str :=
  match o with
  | OAppend t => l ++ t
  | OPlusChar c => l ++ [c]
  | OInsert pos t => ztake pos l ++ t ++ zdrop pos l
  | OInsertChar pos c => ztake pos l ++ c :: zdrop pos l
  | ORemove pos n => ztake pos l ++ zdrop (pos + n) l
  | ORemoveChar c => filter (fun d => d <> c) l
  | OReplaceFrom pos n t => ztake pos l ++ t ++ zdrop (pos + n) l
  | OReplaceChar c1 c2 => (fun d => if decide (d = c1) then c2 else d) <$> l
  | OReplace c1 t => subst c1 t l
  | OTruncate n => ztake n l
  | OTrim => trim_back (trim_front l)
  | OUpper => toupper <$> l
  | OLower => tolower <$> l
  | OFill c n => replicate (Z.to_nat n) c
  | OAssign t => t
  end.

Definition allowed (o : op) (l : str) : Prop :=
  match o with
  | OAppend t => 0 < zlen l + zlen t < 2 ^ 31
  | OPlusChar c => c <> NUL /\ zlen l < 2 ^ 31 - 1
  | OInsert pos t => 0 <= pos < 2 ^ 31 /\ nul_free t /\ zlen l + zlen t < 2 ^ 31
  | OInsertChar pos c => l <> [] /\ 0 <= pos /\ zlen l < 2 ^ 31 - 1
  | ORemove pos n => 0 <= pos <= zlen l /\ 0 < n < 2 ^ 31
  | ORemoveChar c => nul_free l /\ c <> NUL /\ zlen l < 2 ^ 31 - 1
  | OReplaceFrom pos n t =>
      0 <= pos /\ 0 <= n /\ pos + n <= zlen l /\ l <> [] /\ t <> [] /\ nul_free t /\
      zlen l + zlen t - n < 2 ^ 31
  | OReplaceChar c1 c2 =>
      nul_free l /\ c1 <> NUL /\ c2 <> NUL /\ c1 <> c2 /\ zlen l + zlen l < 2 ^ 31 - 1
  | OReplace c1 t =>
      nul_free l /\ c1 <> NUL /\ nul_free t /\ t <> [] /\ (c1 ∉ t) /\
      zlen l + zlen l * zlen t < 2 ^ 31 - 1
  | OTruncate n => 0 <= n <= zlen l
  | OTrim | OUpper | OLower => True
  | OFill c n => 0 < n < 2 ^ 31
  | OAssign t => zlen t < 2 ^ 31
  end.

#[export] Instance allowed_dec o l : Decision (allowed o l).
Proof. destruct o; simpl; repeat first [apply and_dec | apply _]. Defined.

(** Does the operation leave the cached hash right?  Changing characters without changing the
    length does not reset it. *)
Definition keeps_hash (o : op) : bool :=
  match o with
  | OReplaceFrom _ n t => negb (zlen t =? n)
  | OReplace _ t => negb (zlen t =? 1)
  | OReplaceChar _ _ | OUpper | OLower => false
  | _ => true
  end.

Fixpoint run_ops (os : list op) (s : String) : res String :=
  match os with
  | [] => Ok s
  | o :: os' => let? s := run_op o s in run_ops os' s
  end.

Fixpoint all_allowed (os : list op) (l : str) : Prop :=
  match os with
  | [] => True
  | o :: os' => allowed o l /\ all_allowed os' (spec o l)
  end.

#[export] Instance all_allowed_dec os l : Decision (all_allowed os l).
Proof. revert l. induction os; intros l; simpl; apply _. Defined.

Lemma returns_mono (Q Q' : String -> Prop) m :
  returns m Q -> (forall s, Q s -> Q' s) -> returns m Q'.
Proof. intros (s & E & H) HQ. exists s. auto. Qed.

Lemma returns_bind m f (Q Q' : String -> Prop) :
  returns m Q -> (forall s, Q s -> returns (f s) Q') -> returns (bind m f) Q'.
Proof. intros (s & -> & H) HQ. exact (HQ s H). Qed.

(** [repr], with the cached hash right when [P] holds. *)
Definition inv (P : Prop) (s : String) (l : str) : Prop := repr s l /\ (P -> hash_ok s l).

Lemma inv_repr P s l : inv P s l -> repr s l.
Proof. by intros [? _]. Qed.

Lemma fresh_inv P m l : returns m (fresh l) -> returns m (fun s => inv P s l).
Proof. intros H. eapply returns_mono; [exact H|]. intros s [? ?]. split; [done|]. by left. Qed.

(** An object represents one string. *)
Lemma repr_inj s l1 l2 : repr s l1 -> repr s l2 -> l1 = l2.
Proof. intros H1%chars_repr H2%chars_repr. congruence. Qed.

Lemma trim_inv P s l : inv P s l -> returns (trim s) (fun s' => inv P s' (trim_back (trim_front l))).
Proof.
  intros [Hr Hh]. eapply returns_bind; [by apply trimBegin_repr|].
  intros s1 [H1 Hh1]. eapply returns_mono; [by apply trimEnd_repr|].
  intros s2 [H2 Hh2]. split; [done|]. intros HP.
  destruct Hh2 as [->|Hh2]; [|by left]. destruct Hh1 as [->|Hh1]; [|by left].
  assert (trim_back (trim_front l) = l) as ->; [|by apply Hh].
  exact (repr_inj _ _ _ H2 Hr).
Qed.

Lemma removeChar_step P s c a b :
  inv P s (a ++ c :: b) -> returns (remove_at s (zlen a) 1) (fun s' => inv P s' (a ++ b)).
Proof. intros [Hr _]. apply fresh_inv. by apply (remove_at_repr s a [c] b). Qed.

Lemma replaceFrom_inv (P : Prop) s a m b t :
  inv P s (a ++ m ++ b) -> (P -> zlen t <> zlen m) -> nul_free t -> t <> [] -> a ++ m ++ b <> [] ->
  zlen (a ++ t ++ b) < 2 ^ 31 ->
  returns (replaceFrom s (zlen a) (zlen m) t) (fun s' => inv P s' (a ++ t ++ b)).
Proof.
  intros [Hr _] Hh Hf Hne Hne' Hl.
  eapply returns_mono; [by apply (replaceFrom_repr s a m b t)|].
  intros s' [H1 H2]. split; [done|]. intros HP. left. naive_solver.
Qed.

Lemma replace_cc_step s c1 c2 a b :
  repr s (a ++ c1 :: b) -> returns (store s (zlen a) c2) (fun s' => repr s' (a ++ c2 :: b)).
Proof.
  intros Hr. destruct (repr_some _ _ Hr) as [junk Hs]; [by destruct a|].
  rewrite (store_app s (Some <$> a) (Some c1) ((Some <$> b) ++ Some NUL :: junk)); [|rewrite Hs; cells|cells].
  apply returns_Ok. destruct Hr as (H1 & H2 & H3 & H4). rewrite Hs in H4.
  destruct H4 as (H4 & H5 & H6 & _). unfold repr.
  cbn [set_str _str _array_size _string_length _min_size].
  split; [rewrite H1; zlen_lia|]. split; [revert H2; zlen_lia|]. split; [done|].
  split; [rewrite <- H4; zlen_lia|]. do 2 (split; [done|]).
  exists junk. by rewrite fmap_app, <- app_assoc.
Qed.

Lemma subst_filter c l : subst c [] l = filter (fun d => d <> c) l.
Proof.
  induction l as [|d l IH]; [done|]. rewrite filter_cons.
  change (subst c [] (d :: l)) with ((if decide (d = c) then [] else [d]) ++ subst c [] l).
  destruct (decide (d = c)) as [->|].
  - by rewrite decide_False by (intros H; by apply H).
  - rewrite decide_True by done. simpl. by f_equal.
Qed.

Lemma subst_fmap c c2 l : subst c [c2] l = (fun d => if decide (d = c) then c2 else d) <$> l.
Proof.
  induction l as [|d l IH]; [done|].
  change (subst c [c2] (d :: l)) with ((if decide (d = c) then [c2] else [d]) ++ subst c [c2] l).
  rewrite IH. simpl. by destruct (decide (d = c)).
Qed.

Lemma split3 {A} (l : list A) i n :
  0 <= i -> 0 <= n -> i + n <= zlen l ->
  exists m, l = ztake i l ++ m ++ zdrop (i + n) l /\ zlen m = n /\ zlen (ztake i l) = i.
Proof.
  intros Hi Hn Hl. exists (zsub i n l). split_and!.
  - unfold zsub, ztake, zdrop. replace (Z.to_nat (i + n)) with (Z.to_nat i + Z.to_nat n)%nat by lia.
    by rewrite <- drop_drop, !take_drop.
  - unfold zsub. rewrite zlen_take, zlen_drop. lia.
  - rewrite zlen_take. lia.
Qed.

(** One operation does what the specification says, and keeps the invariant. *)
Lemma run_op_inv (P : Prop) o s l :
  inv P s l -> allowed o l -> (P -> keeps_hash o = true) ->
  returns (run_op o s) (fun s' => inv P s' (spec o l)).
Proof.
  intros Hi Ha Hk. pose proof Hi as [Hr Hh]. pose proof (repr_bound _ _ Hr). pose proof (zlen_nonneg l).
  destruct o as [t|c|pos t|pos c|pos n|c|pos n t|c1 c2|c1 t|n| | | |c n|t]; simpl in Ha |- *.
  - apply fresh_inv. unfold append. rewrite wrapS_small by zlen_lia. apply append_n_repr; [done|lia|lia].
  - destruct Ha as [??]. apply fresh_inv. by apply plus_char_repr.
  - destruct Ha as (?&?&?). apply fresh_inv. by apply insert_cstr_repr.
  - destruct Ha as (?&?&?). apply fresh_inv. by apply insert_char_repr.
  - apply fresh_inv. destruct (Z.leb_spec (zlen l) (pos + n)) as [He|He].
    + unfold remove_at. rewrite (repr_length _ _ Hr), wrapU_small by lia.
      replace (n =? 0) with false by lia. replace (zlen l <=? pos + n) with true by lia.
      rewrite zdrop_ge, app_nil_r by lia. apply resize_repr; [done|lia].
    + destruct (split3 l pos n) as (m & El & Hm & Hp); [lia..|].
      rewrite <- Hm, <- Hp at 1. apply remove_at_repr; [by rewrite <- El|].
      destruct m; [|done]. revert Hm. zlen_lia.
  - rewrite <- subst_filter. destruct Ha as (Hf & Hc & Hl).
    apply (search_all (inv P)); try done; [apply inv_repr|apply not_elem_of_nil|constructor| |zlen_lia].
    intros s1 a b H1 _. by apply (removeChar_step P s1 c a b).
  - destruct (split3 l pos n) as (m & El & Hm & Hp); [lia..|].
    rewrite <- Hm, <- Hp at 1. destruct Ha as (? & ? & ? & Hne & ? & ? & ?).
    apply replaceFrom_inv; [by rewrite <- El| |done|done|by rewrite <- El|].
    + intros HP%Hk. simpl in HP. lia.
    + rewrite !zlen_app, zlen_drop. lia.
  - rewrite <- subst_fmap. destruct Ha as (Hf & Hc1 & Hc2 & Hne & Hl).
    destruct (search_all repr (fun _ _ H => H) c1 [c2]) with (step := fun s npos => store s npos c2) (s := s) (l := l)
      as (s' & E & H'); try done.
    + rewrite list_elem_of_singleton. congruence.
    + by repeat constructor.
    + intros s1 a b H1 _. by apply replace_cc_step with (c1 := c1).
    + change (zlen [c2]) with 1. lia.
    + exists s'. split; [done|]. split; [done|]. by intros HP%Hk.
  - destruct Ha as (Hf & Hc & Hft & Hne & Hct & Hl).
    apply (search_all (inv P)); try done; [apply inv_repr|].
    intros s1 a b H1 H2. apply (replaceFrom_inv P s1 a [c1] b t); try done; [|by destruct a].
    intros HP%Hk. simpl in HP. change (zlen [c1]) with 1. lia.
  - apply fresh_inv. by apply resize_repr.
  - by apply trim_inv.
  - eapply returns_mono; [by apply map_loop_repr|]. intros s' [? _]. split; [done|]. by intros HP%Hk.
  - eapply returns_mono; [by apply map_loop_repr|]. intros s' [? _]. split; [done|]. by intros HP%Hk.
  - apply fresh_inv. by apply (fill_repr s l).
  - apply fresh_inv. pose proof (copy_repr s l t (zlen t) Hr) as Hc.
    rewrite ztake_ge in Hc by lia. apply Hc; zlen_lia.
Qed.

Lemma run_ops_inv (P : Prop) os s l :
  inv P s l -> all_allowed os l -> (P -> forallb keeps_hash os = true) ->
  returns (run_ops os s) (fun s' => inv P s' (foldl (flip spec) l os)).
Proof.
  revert s l. induction os as [|o os IH]; intros s l Hi Ha Hk; simpl; [by exists s|].
  destruct Ha as [Ha1 Ha2]. simpl in Hk.
  eapply returns_bind; [apply (run_op_inv P o s l Hi Ha1)|].
  - intros HP%Hk. by apply andb_true_iff in HP as [? _].
  - intros s' Hi'. apply IH; [done|done|]. intros HP%Hk. by apply andb_true_iff in HP as [_ ?].
Qed.

(** C1: refinement.  Any sequence of allowed operations on a new [String] runs without undefined
    behaviour and ends with an object that holds what the list operations give: its characters,
    its terminator, its length, a buffer of a multiple of 16 bytes that is large enough. *)
Theorem String_refines os :
  all_allowed os [] ->
  exists s, run_ops os String_new = Ok s /\ repr s (foldl (flip spec) [] os) /\
    chars s = Ok (foldl (flip spec) [] os).
Proof.
  intros Ha. destruct (run_ops_inv False os String_new []) as (s & E & Hi%inv_repr);
    [split; [apply repr_new|done]|done|done|].
  exists s. split; [done|]. split; [done|]. by apply chars_repr.
Qed.

(** The hash value of the object is that of its characters, cached or not, when every
    operation of the run keeps it. *)
Theorem String_hash_refines os1 os2 s1 h1 s1' :
  all_allowed (os1 ++ os2) [] -> forallb keeps_hash (os1 ++ os2) = true ->
  run_ops os1 String_new = Ok s1 -> hash s1 = Ok (h1, s1') ->
  h1 = hash_chars (foldl (flip spec) [] os1) /\
  exists s2 s2', run_ops os2 s1' = Ok s2 /\
    hash s2 = Ok (hash_chars (foldl (flip spec) [] (os1 ++ os2)), s2').
Proof.
  intros Ha Hk E1 Eh. rewrite forallb_app, andb_true_iff in Hk. destruct Hk as [Hk1 Hk2].
  assert (all_allowed os1 [] /\ all_allowed os2 (foldl (flip spec) [] os1)) as [Ha1 Ha2].
  { revert Ha. generalize (@nil ascii) as l. clear. induction os1 as [|o os1 IH]; intros l; simpl; [done|].
    intros [? ?%IH]. naive_solver. }
  destruct (run_ops_inv True os1 String_new []) as (s & E & Hr & Hh);
    [split; [apply repr_new|by left]|done|done|].
  rewrite E1 in E. injection E as ->. specialize (Hh I).
  assert (forall s l, repr s l -> hash_ok s l ->
    exists s', hash s = Ok (hash_chars l, s') /\ repr s' l /\ hash_ok s' l) as Hspec.
  { clear. intros s l Hr [Hh|Hh]; rewrite (hash_repr _ _ Hr); destruct (Z.eqb_spec (_hash_value s) 0) as [E|E].
    - eexists. split; [done|]. split; [done|by right].
    - done.
    - eexists. split; [done|]. split; [done|by right].
    - rewrite Hh. exists s. split; [done|]. split; [done|by right]. }
  destruct (Hspec _ _ Hr Hh) as (s' & Eh' & Hr' & Hh'). rewrite Eh in Eh'. injection Eh' as -> ->.
  split; [done|].
  destruct (run_ops_inv True os2 s' _ (conj Hr' (fun _ => Hh')) Ha2 (fun _ => Hk2)) as (s2 & E2 & Hr2 & Hh2).
  destruct (Hspec _ _ Hr2 (Hh2 I)) as (s2' & E3 & _).
  exists s2, s2'. split; [done|]. by rewrite foldl_app.
Qed.

(** [toUpper] leaves the cached hash of the old characters. *)
Theorem toUpper_stale_hash s l :
  repr s l -> _hash_value s = hash_chars l -> hash_chars l <> 0 ->
  exists s', toUpper s = Ok s' /\ chars s' = Ok (toupper <$> l) /\ hash s' = Ok (hash_chars l, s').
Proof.
  intros Hr Hh Hne. destruct (map_loop_repr toupper s l Hr) as (s' & E & Hr' & Hh').
  exists s'. split; [done|]. split; [by apply chars_repr|].
  rewrite (hash_repr _ _ Hr'), Hh', Hh. by destruct (Z.eqb_spec (hash_chars l) 0).
Qed.

(** One step of it overwrites the last character with NUL and moves nothing. *)
Lemma replaceFrom_empty s a c b x :
  repr s (a ++ c :: b ++ [x]) ->
  returns (replaceFrom s (zlen a) 1 []) (fun s' => repr s' (a ++ c :: b ++ [NUL])).
Proof.
  intros Hr. pose proof (repr_bound _ _ Hr) as Hl. unfold replaceFrom.
  rewrite (repr_length _ _ Hr), u32_add_sub. change (u32 (strlen [])) with 0.
  assert (zlen (a ++ c :: b ++ [x]) = zlen (a ++ c :: b) + 1) as El by zlen_lia.
  pose proof (zlen_nonneg (a ++ c :: b)). rewrite El, wrapU_small by lia.
  replace (zlen (a ++ c :: b) + 1 =? 0) with false by lia. cbn [negb bind Z.ltb Z.compare].
  unfold memcpy. change ((0 <=? 0) && (0 <=? zlen (text []))) with true. cbn [bind].
  replace (zlen (a ++ c :: b) + 1 + 0 - 1) with (zlen (a ++ c :: b)) by lia.
  destruct (replace_cc_step s x NUL (a ++ c :: b) []) as (s' & E & H').
  { by rewrite <- app_assoc. }
  exists s'. rewrite <- app_assoc in H'. done.
Qed.

(** Replacing a character by the empty string never ends, unless that is the last character:
    the characters are not moved and the same occurrence is found again. *)
Theorem replace_by_empty_diverges s a c b fuel :
  repr s (a ++ c :: b) -> nul_free (a ++ [c]) -> c ∉ a -> b <> [] ->
  replace_cs s c [] 0 true fuel = NoFuel.
Proof.
  intros Hr Hf Hc Hb. apply nul_free_app in Hf as [Hf Hc0]. apply Forall_inv in Hc0.
  unfold replace_cs.
  assert (0 = 0 \/ 0 = zlen a) as Hpos by (by left). revert Hpos. generalize 0 at 1 3 4 as npos. 
  induction fuel as [|fuel IH] in s, b, Hr, Hb |- *; intros npos Hpos; [done|].
  cbn [search_loop]. rewrite (chars_repr _ _ Hr). cbn [bind].
  pose proof (repr_bound _ _ Hr) as Hl. pose proof (zlen_nonneg a). pose proof (zlen_nonneg b).
  assert (zlen (a ++ c :: b) = zlen a + 1 + zlen b) as El by zlen_lia.
  assert (find_char (a ++ c :: b) c (u32 npos) = Ok (zlen a)) as ->.
  { destruct Hpos as [->| ->].
    - apply (find_char_hit [] a); [done|done|]. simpl. lia.
    - rewrite wrapU_small by lia. pose proof (find_char_hit a [] c b) as Hh.
      rewrite Z.add_0_r in Hh. apply Hh; [constructor|apply not_elem_of_nil|done]. }
  cbn [bind]. replace (0 <=? zlen a) with true by lia. cbn [negb].
  destruct b as [|x b _] using rev_ind; [done|].
  destruct (replaceFrom_empty s a c b x Hr) as (s' & -> & Hr'). cbn [bind].
  apply (IH s' (b ++ [NUL])); [done|by destruct b|by right].
Qed.

(** Appending nothing to an empty [String] writes to the shared constant [EMPTY], and a
    character inserted at the front of one loses the terminator. *)
Theorem empty_String_hazards c :
  append String_new [] = UB /\ plus_cstr String_new [] = UB /\
  plus_String String_new [] = Ok String_new /\
  exists s, insert_char String_new 0 c = Ok s /\ _string_length s = 1 /\ load s 1 = UB.
Proof.
  do 3 (split; [reflexivity|]). eexists. split; [vm_compute; reflexivity|]. by split.
Qed.

(** ** Witnesses *)

(** A run that grows, moves, replaces and trims. *)
Definition sample_ops : list op :=
  [OAppend (lit "hello world"); OInsert 5 (lit " big"); OReplace "o" (lit "00"); OUpper; ORemove 0 2;
   OPlusChar " "; OTrim; OReplaceFrom 0 1 (lit "xyz"); ORemoveChar "L"; OTruncate 9].

Lemma String_refines_witness :
  exists s, run_ops sample_ops String_new = Ok s /\ repr s (foldl (flip spec) [] sample_ops) /\
    chars s = Ok (lit "xyz00 BIG").
Proof. apply (String_refines sample_ops). compute_done. Defined.

Lemma String_hash_refines_witness :
  exists s1 h1 s1', run_ops [OAppend (lit "key")] String_new = Ok s1 /\ hash s1 = Ok (h1, s1') /\
    (h1 = hash_chars (lit "key") /\
     exists s2 s2', run_ops [OAppend (lit "2"); OTruncate 3] s1' = Ok s2 /\
       hash s2 = Ok (hash_chars (lit "key"), s2')).
Proof.
  eexists _, _, _. split; [vm_compute; reflexivity|]. split; [vm_compute; reflexivity|].
  eapply (String_hash_refines [OAppend (lit "key")] [OAppend (lit "2"); OTruncate 3]);
    [compute_done|reflexivity|vm_compute; reflexivity|vm_compute; reflexivity].
Defined.

Lemma replace_by_empty_diverges_witness :
  exists s, String_ptr (Some (lit "a-b")) 0 = Ok s /\ replace_cs s "-" [] 0 true 1000 = NoFuel.
Proof.
  eexists. split; [vm_compute; reflexivity|].
  apply (replace_by_empty_diverges _ (lit "a") "-" (lit "b"));
    [|by repeat constructor|compute_done|done].
  apply (repr_intro (lit "a-b") (replicate 12 None)); first [reflexivity|lia|by exists 1].
Defined.
