(* ===== verification/Vector.v ===== *)
(** * [Util::Vector] (src/cpp/include/srl/util/Vector.h)

    The array-backed list, in its two versions: for values and, by partial specialisation, for
    pointers.  They share the text of most methods and differ in [resize]: the methods are defined
    here over the interface [Resizer], and the two versions are its instances.  The interface also
    has the law the methods need of [resize]: it keeps the elements when the capacity changes the
    way [keeps] allows.

    A cell nobody assigned is [None]; [fresh_cell] is what [new Value[n]] leaves in a cell (a
    default-constructed object for a class, nothing for a scalar).  Allocation is taken to succeed. *)

From S2P Require Import Prelude.

(** ** The object *)

Record Vector (A : Type) := mkVector {
  _size : Z;
  _init_size : Z;
  _array_size : Z;
  _array : option (list (option A));
  _end_pos : Z  (** [_end_iter._pos] *)
}.
Arguments mkVector {A} _ _ _ _ _.
Arguments _size {A} _.
Arguments _init_size {A} _.
Arguments _array_size {A} _.
Arguments _array {A} _.
Arguments _end_pos {A} _.

Section fields.
Context {A : Type}.
Implicit Types v : Vector A.

Definition set_size v n := mkVector n (_init_size v) (_array_size v) (_array v) (_end_pos v).
Definition set_array_size v n := mkVector (_size v) (_init_size v) n (_array v) (_end_pos v).
Definition set_array v (b : option (list (option A))) := mkVector (_size v) (_init_size v) (_array_size v) b (_end_pos v).
Definition set_end_pos v p := mkVector (_size v) (_init_size v) (_array_size v) (_array v) p.

(** The array; using it while it is NULL is undefined. *)
Definition cells v : res (list (option A)) := of_option (_array v).

(** [_array[i]] as an rvalue, and [_array[i] = x] *)
Definition load v (i : Z) : res A :=
  let? b := cells v in let? c := of_option (zget b i) in of_option c.
Definition store v (i : Z) (x : option A) : res (Vector A) :=
  let? b := cells v in let? b := of_option (zset b i x) in Ok (set_array v (Some b)).

(** [::memmove(&_array[dst], &_array[src], n * sizeof(Value))] *)
Definition memmove v (dst src n : Z) : res (Vector A) :=
  let? b := cells v in
  if (0 <=? dst) && (0 <=? src) && (0 <=? n) && (dst + n <=? zlen b) && (src + n <=? zlen b)
  then Ok (set_array v (Some (ztake dst b ++ zsub src n b ++ zdrop (dst + n) b)))
  else UB.
End fields.

(** ** [resize] *)

(** The value version: a new array, into which a growing vector copies its elements. *)
Definition resize_value {A} (fresh_cell : option A) (v : Vector A) (size_needed : Z)
    : res (Vector A) :=
  if 0 <? size_needed then
    let size_needed := if size_needed <? _init_size v then _init_size v else size_needed in
    let new_size := ROUNDUP (u32 (size_needed + 1)) 32 in
    if new_size =? _array_size v then Ok v
    else
      let new_array := replicate (Z.to_nat new_size) fresh_cell in
      let? v :=
        match _array v with
        | None => Ok (set_array v (Some new_array))
        | Some b =>
            if (_array_size v <? new_size) && (0 <? _size v) then
              if (_size v <=? zlen b) && (_size v <=? new_size)
              then Ok (set_array v (Some (ztake (_size v) b ++ zdrop (_size v) new_array)))
              else UB
            else Ok (set_array v (Some new_array))
        end in
      Ok (set_array_size v new_size)
  else
    match _array v with
    | Some _ => Ok (set_array (set_array_size (set_end_pos (set_size v 0) 0) 0) None)
    | None => Ok v
    end.

(** The pointer version: [realloc], and a NULL behind the elements.  Pointers are addresses. *)
Definition NULL : Z := 0.

Definition resize_ptr (v : Vector Z) (size_needed : Z) : res (Vector Z) :=
  if 0 <? size_needed then
    let size_needed := if size_needed <? _init_size v then _init_size v else size_needed in
    let new_size := ROUNDUP (u32 (size_needed + 1)) 16 in
    if new_size =? _array_size v then Ok v
    else
      let v := set_array_size v new_size in
      let old := default [] (_array v) in
      let new_array := ztake new_size old ++ replicate (Z.to_nat (new_size - zlen old)) None in
      let v := set_array v (Some new_array) in
      store v (_size v) (Some NULL)
  else
    match _array v with
    | Some _ => Ok (set_array (set_array_size (set_end_pos (set_size v 0) 0) 0) None)
    | None => Ok v
    end.

(** The capacity [resize] computes for [n] elements. *)
Definition capacity (unit init n : Z) : Z := ROUNDUP (Z.max n init + 1) unit.

(** [v] holds the elements [l] in an array with room for one more. *)
Definition vrepr {A} (v : Vector A) (l : list A) : Prop :=
  _size v = zlen l /\ _end_pos v = zlen l /\ 0 <= _init_size v < 2 ^ 31 /\ zlen l < 2 ^ 31 /\
  exists junk, _array v = Some ((Some <$> l) ++ junk) /\
    zlen ((Some <$> l) ++ junk) = _array_size v /\ zlen l < _array_size v.

(** The interface: a [resize], the granularity of its capacities, and its law. *)
Class Resizer (A : Type) := {
  resize : Vector A -> Z -> res (Vector A);
  granularity : Z;
  granularity_pow : exists k, 0 < k <= 8 /\ granularity = 2 ^ k;
  (** May the capacity change from [c] to [c']? *)
  keeps : Z -> Z -> bool;
  keeps_grow : forall c c', c <= c' -> keeps c c' = true;
  resize_new : forall init, 0 < init < 2 ^ 31 -> exists junk c,
    resize (mkVector 0 init 0 None 0) init = Ok (mkVector 0 init c (Some junk) 0) /\
    zlen junk = c /\ c = capacity granularity init init;
  resize_law : forall (v : Vector A) (l : list A) (n : Z) (junk : list (option A)),
    _size v = zlen l -> 0 <= _init_size v < 2 ^ 31 -> 0 < n < 2 ^ 31 -> zlen l <= n ->
    _array v = Some ((Some <$> l) ++ junk) -> zlen ((Some <$> l) ++ junk) = _array_size v ->
    keeps (_array_size v) (capacity granularity (_init_size v) n) = true ->
    exists junk', let c := capacity granularity (_init_size v) n in
      resize v n = Ok (set_array_size (set_array v (Some ((Some <$> l) ++ junk'))) c) /\
      zlen ((Some <$> l) ++ junk') = c
}.

(** ** The methods both versions share *)

Section methods.
Context {A : Type} `{Resizer A} (eqb : A -> A -> bool).
Implicit Types v : Vector A.

Definition Vector_new (initial_size : Z) : res (Vector A) :=
  resize (mkVector 0 initial_size 0 None 0) initial_size.

Definition Vector_delete v : res (Vector A) := resize v 0.

Definition add v (value : A) : res (Vector A) :=
  let? v := resize v (u32 (_size v + 1)) in
  let? v := store v (_size v) (Some value) in
  Ok (set_end_pos (set_size v (u32 (_size v + 1))) (u32 (_end_pos v + 1))).

Definition addAt v (index : Z) (value : A) : res (Vector A) :=
  if _size v <=? index then Throw IndexOutOfBoundsException
  else
    let? v := resize v (u32 (_size v + 1)) in
    let? v :=
      if negb (index =? u32 (_size v - 1))
      then memmove v (index + 1) index (_size v - index) else Ok v in
    let? v := store v index (Some value) in
    Ok (set_end_pos (set_size v (u32 (_size v + 1))) (u32 (_end_pos v + 1))).

Definition removeAt v (index : Z) : res (Vector A) :=
  if _size v <=? index then Throw IndexOutOfBoundsException
  else
    let? v :=
      if negb (index =? u32 (_size v - 1))
      then memmove v index (index + 1) (_size v - (index + 1)) else Ok v in
    let v := set_end_pos (set_size v (u32 (_size v - 1))) (u32 (_end_pos v - 1)) in
    if _init_size v <? _size v then resize v (_size v) else Ok v.

(** The old value is returned by reference: the caller sees the new one ([set] of the value
    version), or by value ([set] of the pointer version). *)
Definition set v (index : Z) (value : A) : res (Vector A) :=
  if _size v <=? index then Throw IndexOutOfBoundsException
  else store v index (Some value).

Definition get v (index : Z) : res A :=
  if _size v <=? index then Throw IndexOutOfBoundsException else load v index.

(** for (uint32 i=start_index; i < _size; ++i), by the number of indices left *)
Fixpoint positionOf_loop v (value : A) (i : Z) (n : nat) : res Z :=
  match n with
  | O => Ok (-1)
  | S n' =>
      let? x := load v i in
      if eqb x value then Ok (s32 i) else positionOf_loop v value (i + 1) n'
  end.
Definition positionOf v (value : A) (start_index : Z) : res Z :=
  positionOf_loop v value start_index (Z.to_nat (_size v - start_index)).

Definition containsValue v (value : A) : res bool :=
  let? p := positionOf v value 0 in Ok (0 <=? p).

Definition remove v (value : A) : res (Vector A) :=
  let? p := positionOf v value 0 in removeAt v (u32 p).

Fixpoint eq_loop v (other : Vector A) (i : Z) (n : nat) : res bool :=
  match n with
  | O => Ok true
  | S n' =>
      let? x := load v i in
      let? y := load other i in
      if negb (eqb x y) then Ok false else eq_loop v other (i + 1) n'
  end.
Definition op_eq v (other : Vector A) : res bool :=
  if negb (_size v =? _size other) then Ok false
  else eq_loop v other 0 (Z.to_nat (_size v)).

(** Iterators are positions; [value()] indexes the vector, [erase] removes and returns the
    iterator unchanged. *)
Definition begin_pos : Z := 0.
Definition end_pos v : Z := _end_pos v.
Definition iter_value v (pos : Z) : res A := get v pos.
Definition erase v (pos : Z) : res (Vector A * Z) :=
  let? v := removeAt v pos in Ok (v, pos).

(** [for (iter = begin(); iter != end(); ++iter) f(iter.value())], as clients write it *)
Fixpoint iterate v (pos : Z) (fuel : nat) : res (list A) :=
  match fuel with
  | O => NoFuel
  | S fuel' =>
      if pos =? end_pos v then Ok []
      else
        let? x := iter_value v pos in
        let? r := iterate v (u32 (pos + 1)) fuel' in Ok (x :: r)
  end.
End methods.

(** ** What the versions do not share *)

Module Value.
Section value.
Context {A : Type} `{Resizer A} (leb : A -> A -> bool).
Implicit Types v : Vector A.

(** [clear()]: the elements are given up after the resize. *)
Definition clear v : res (Vector A) :=
  let? v := resize v (_init_size v) in
  Ok (set_end_pos (set_size v 0) 0).

Definition swap v (a b : Z) : res (Vector A) :=
  let? t := load v a in
  let? y := load v b in
  let? v := store v a (Some y) in
  store v b (Some t).

(** for (uint32 i = left; i < right; ++i), by the number of indices left *)
Fixpoint partition_loop v (pivotValue : A) (right i index : Z) (n : nat)
    : res (Vector A * Z) :=
  match n with
  | O => Ok (v, index)
  | S n' =>
      let? x := load v i in
      if leb x pivotValue then
        let? v := if negb (index =? i) then swap v index i else Ok v in
        if right <=? index then Ok (v, index)
        else partition_loop v pivotValue right (i + 1) (u32 (index + 1)) n'
      else partition_loop v pivotValue right (i + 1) index n'
  end.

Definition partition v (left right pivot : Z) : res (Vector A * Z) :=
  let? pivotValue := load v pivot in
  let? v := swap v pivot right in
  let? r := partition_loop v pivotValue right left left (Z.to_nat (right - left)) in
  let '(v, index) := r in
  let? v := swap v right index in
  Ok (v, index).

Fixpoint quicksort v (left right : Z) (fuel : nat) : res (Vector A) :=
  match fuel with
  | O => NoFuel
  | S fuel' =>
      if left <? u32 (right - 1) then
        let? r := partition v left right left in
        let '(v, pivot) := r in
        if (left <? pivot) && (pivot <? right) then
          let? v := quicksort v left (u32 (pivot - 1)) fuel' in
          quicksort v (u32 (pivot + 1)) right fuel'
        else Ok v
      else Ok v
  end.

Definition sort v : res (Vector A) :=
  quicksort v 0 (u32 (_size v - 1)) (S (Z.to_nat (_size v))).
End value.
End Value.

Module Pointer.
Section pointer.
Context `{Resizer Z}.

(** [pop(index)]: the last element for -1 *)
Definition pop (v : Vector Z) (index : Z) : res (Z * Vector Z) :=
  let pos := if index =? -1 then u32 (_size v - 1) else u32 index in
  let? val := get v pos in
  let? v := removeAt v pos in
  Ok (val, v).

(** [clear(do_delete)]; the deletion of the elements is outside the model *)
Definition clear (v : Vector Z) : res (Vector Z) :=
  let? v := resize (set_size v 0) (_init_size v) in
  Ok (set_end_pos v 0).
End pointer.
End Pointer.

(** ** The two instances *)

Lemma capacity_bounds unit k init n :
  unit = 2 ^ k -> 0 < k <= 8 -> 0 <= init < 2 ^ 31 -> 0 <= n < 2 ^ 31 ->
  Z.max n init + 1 <= capacity unit init n < Z.max n init + 1 + unit /\ (unit | capacity unit init n).
Proof.
  intros -> Hk Hi Hn. apply ROUNDUP_bounds; [lia|lia|].
  assert (2 ^ k <= 2 ^ 8) by (apply Z.pow_le_mono_r; lia). lia.
Qed.

(** Multiples of the granularity are ordered by the numbers they round. *)
Lemma capacity_mono unit k init n n' :
  unit = 2 ^ k -> 0 < k <= 8 -> 0 <= init < 2 ^ 31 -> 0 <= n <= n' -> n' < 2 ^ 31 ->
  capacity unit init n <= capacity unit init n'.
Proof.
  intros E Hk Hi Hn Hn'.
  destruct (capacity_bounds unit k init n) as [[L1 U1] [a Ea]]; [done..|lia|].
  destruct (capacity_bounds unit k init n') as [[L2 U2] [b Eb]]; [done..|lia|].
  assert (0 < unit) by (subst; apply Z.pow_pos_nonneg; lia).
  rewrite Ea, Eb in *. assert (a <= b); nia.
Qed.

Lemma ztake_app_zlen {A} (l k : list A) n : n = zlen l -> ztake n (l ++ k) = l.
Proof. intros ->. unfold ztake, zlen. by rewrite Nat2Z.id, take_app_length. Qed.

Lemma zdrop_app_zlen' {A} (l k : list A) n : n = zlen l -> zdrop n (l ++ k) = k.
Proof. intros ->. unfold zdrop, zlen. by rewrite Nat2Z.id, drop_app_length. Qed.

Lemma set_same {A} (v : Vector A) b c :
  _array v = Some b -> _array_size v = c -> v = set_array_size (set_array v (Some b)) c.
Proof. destruct v; simpl. by intros -> ->. Qed.


Lemma max_if a b : (if a <? b then b else a) = Z.max a b.
Proof. destruct (Z.ltb_spec a b); lia. Qed.

#[export] Program Instance value_resizer {A} (fresh_cell : option A) : Resizer A := {|
  resize := resize_value fresh_cell;
  granularity := 32;
  keeps c c' := c <=? c'
|}.
Next Obligation. intros. by exists 5. Qed.
Next Obligation. intros. simpl in *. by apply Z.leb_le. Qed.
Next Obligation.
  intros A fresh init Hi. simpl.
  destruct (capacity_bounds 32 5 init init) as [Hc _]; [done|lia|lia|lia|].
  set (c := capacity 32 init init) in *.
  exists (replicate (Z.to_nat c) fresh), c. rewrite zlen_replicate. split; [|split; [lia|done]].
  unfold resize_value. simpl. rewrite max_if, wrapU_small by lia. replace (0 <? init) with true by lia.
  change (ROUNDUP (Z.max init init + 1) 32) with c. by replace (c =? 0) with false by lia.
Qed.
Next Obligation.
  intros A fresh v l n junk Hs Hi Hn Hl Hb Hz Hk. simpl in *. apply Z.leb_le in Hk.
  destruct (capacity_bounds 32 5 (_init_size v) n) as [Hc _]; [done|lia|done|lia|].
  set (c := capacity 32 (_init_size v) n) in *. pose proof (zlen_nonneg l).
  unfold resize_value. replace (0 <? n) with true by lia. rewrite max_if, wrapU_small by lia.
  change (ROUNDUP (Z.max n (_init_size v) + 1) 32) with c.
  destruct (Z.eqb_spec c (_array_size v)) as [E|E].
  { exists junk. split; [by rewrite <- set_same|lia]. }
  rewrite Hb. replace (_array_size v <? c) with true by lia. rewrite Hs. cbn [andb].
  destruct (Z.ltb_spec 0 (zlen l)) as [Hp|Hp].
  - pose proof (zlen_nonneg junk).
    replace (zlen l <=? zlen _) with true by (rewrite zlen_app, zlen_fmap; lia).
    replace (zlen l <=? c) with true by lia. cbn [andb bind].
    rewrite ztake_app_zlen by (by rewrite zlen_fmap). eexists. split; [done|].
    rewrite zlen_app, zlen_fmap, zlen_drop, zlen_replicate. lia.
  - destruct l as [|x l]; [|exfalso; revert Hp; zlen_lia]. cbn [bind].
    exists (replicate (Z.to_nat c) fresh). split; [done|]. simpl. rewrite zlen_replicate. lia.
Qed.

#[export] Program Instance pointer_resizer : Resizer Z := {|
  resize := resize_ptr;
  granularity := 16;
  keeps _ _ := true
|}.
Next Obligation. by exists 4. Qed.
Next Obligation. done. Qed.
Next Obligation.
  intros init Hi. destruct (capacity_bounds 16 4 init init) as [Hc _]; [done|lia|lia|lia|].
  set (c := capacity 16 init init) in *.
  exists (Some NULL :: replicate (Z.to_nat (c - 1)) None), c. rewrite zlen_cons, zlen_replicate.
  split; [|split; [lia|done]].
  unfold resize_ptr. simpl. rewrite max_if, wrapU_small by lia. replace (0 <? init) with true by lia.
  change (ROUNDUP (Z.max init init + 1) 16) with c. replace (c =? 0) with false by lia.
  unfold ztake. rewrite take_nil. change (zlen []) with 0. rewrite Z.sub_0_r.
  replace (Z.to_nat c) with (S (Z.to_nat (c - 1))) by lia. done.
Qed.
Next Obligation.
  intros v l n junk Hs Hi Hn Hl Hb Hz _.
  destruct (capacity_bounds 16 4 (_init_size v) n) as [Hc _]; [done|lia|done|lia|].
  set (c := capacity 16 (_init_size v) n) in *. pose proof (zlen_nonneg l).
  unfold resize_ptr. replace (0 <? n) with true by lia. rewrite max_if, wrapU_small by lia.
  change (ROUNDUP (Z.max n (_init_size v) + 1) 16) with c.
  destruct (Z.eqb_spec c (_array_size v)) as [E|E].
  { exists junk. split; [by rewrite <- set_same|lia]. }
  cbv zeta. change (_array (set_array_size v c)) with (_array v). rewrite Hb. simpl default.
  set (new := ztake c _ ++ _).
  assert (zlen new = c) as Hnew.
  { subst new. rewrite zlen_app, zlen_take, zlen_replicate. pose proof (zlen_nonneg ((Some <$> l) ++ junk)). lia. }
  assert (exists x junk', new = (Some <$> l) ++ x :: junk') as (x & junk' & Ej).
  { destruct (zdrop (zlen l) new) as [|x junk'] eqn:Ed.
    - pose proof (zlen_drop (zlen l) new) as El. rewrite Ed, zlen_nil in El. lia.
    - exists x, junk'. rewrite <- Ed. rewrite <- (ztake_zdrop (zlen l) new) at 1. f_equal.
      subst new. unfold ztake in *. rewrite take_app_le, take_take.
      + rewrite Nat.min_l by lia. by apply ztake_app_zlen; rewrite zlen_fmap.
      + rewrite length_take. pose proof (zlen_app (Some <$> l) junk) as El. rewrite zlen_fmap in El.
        pose proof (zlen_nonneg junk). unfold zlen in *. lia. }
  clearbody new. subst new. exists (Some NULL :: junk').
  unfold store, cells. cbn [set_array _array of_option bind _size set_array_size].
  rewrite Hs, zset_Some by (rewrite zlen_app, zlen_cons, zlen_fmap; pose proof (zlen_nonneg junk'); lia).
  cbn [of_option bind]. split.
  - unfold set_array, set_array_size. simpl. do 3 f_equal.
    rewrite insert_app_r_alt by (rewrite length_fmap; unfold zlen; lia).
    rewrite length_fmap. unfold zlen. by rewrite Nat2Z.id, Nat.sub_diag.
  - rewrite zlen_app, !zlen_cons in *. done.
Qed.

Ltac vfields :=
  cbn [set_array set_size set_end_pos set_array_size _size _init_size _array_size _array _end_pos].

(** ** The methods on represented vectors, against the interface *)

Section laws.
Context {A : Type} `{R : Resizer A} (eqb : A -> A -> bool) (eqb_spec : forall x y, eqb x y = true <-> x = y).
Implicit Types (v : Vector A) (l : list A).

(** The resize a method does to have room for [n] elements is one the version survives. *)
Definition room v (n : Z) : Prop :=
  keeps (_array_size v) (capacity granularity (_init_size v) n) = true.

Lemma vload_app v a x q i : _array v = Some (a ++ Some x :: q) -> i = zlen a -> load v i = Ok x.
Proof.
  intros Hv ->. unfold load, cells. rewrite Hv. simpl. rewrite zget_app_r by lia.
  by rewrite Z.sub_diag.
Qed.

Lemma vstore_app v a y q i c :
  _array v = Some (a ++ y :: q) -> i = zlen a -> store v i c = Ok (set_array v (Some (a ++ c :: q))).
Proof.
  intros Hv ->. unfold store, cells. rewrite Hv. simpl. rewrite zset_Some by zlen_lia. simpl.
  do 3 f_equal. rewrite insert_app_r_alt by (unfold zlen; lia).
  unfold zlen. by rewrite Nat2Z.id, Nat.sub_diag.
Qed.

Lemma load_repr v l i : vrepr v l -> 0 <= i < zlen l -> exists x, load v i = Ok x /\ zget l i = Some x.
Proof.
  intros (_ & _ & _ & _ & junk & Hb & _) Hi. destruct (zget_is_Some l i Hi) as [x Hx].
  exists x. split; [|done]. rewrite zget_lookup in Hx by lia.
  rewrite <- (take_drop_middle l (Z.to_nat i) x Hx) in Hb.
  rewrite fmap_app, <- app_assoc in Hb. simpl in Hb.
  eapply vload_app; [exact Hb|]. rewrite zlen_fmap. unfold zlen in *. rewrite length_take. lia.
Qed.

(** [resize] before growing to [n] elements. *)
Lemma vresize_repr v l n :
  vrepr v l -> zlen l <= n < 2 ^ 31 -> 0 < n -> room v n ->
  exists junk c, resize v n = Ok (mkVector (zlen l) (_init_size v) c (Some ((Some <$> l) ++ junk)) (zlen l)) /\
    zlen l + zlen junk = c /\ n < c /\ c = capacity granularity (_init_size v) n.
Proof.
  intros (Hs & He & Hi & Hl & junk & Hb & Hz & Hc) Hn Hp Hr.
  destruct (resize_law v l n junk) as (junk' & E & Hz'); [done..|lia|lia|done|done|done|].
  destruct granularity_pow as (k & Hk & Hg).
  destruct (capacity_bounds granularity k (_init_size v) n) as [Hb' _]; [done..|lia|].
  rewrite zlen_app, zlen_fmap in Hz'.
  eexists junk', _. split; [|split; [exact Hz'|split; [lia|done]]].
  rewrite E. destruct v; simpl in *. by subst.
Qed.

Lemma vrepr_intro v l junk :
  _size v = zlen l -> _end_pos v = zlen l -> 0 <= _init_size v < 2 ^ 31 -> zlen l < 2 ^ 31 ->
  _array v = Some ((Some <$> l) ++ junk) -> _array_size v = zlen l + zlen junk ->
  0 < zlen junk -> vrepr v l.
Proof.
  intros Hs He Hi Hl Hb Hz Hj. do 4 (split; [done|]). exists junk.
  split; [done|]. rewrite zlen_app, zlen_fmap. lia.
Qed.

Lemma add_repr v l x :
  vrepr v l -> zlen l + 1 < 2 ^ 31 -> room v (zlen l + 1) ->
  exists v', add v x = Ok v' /\ vrepr v' (l ++ [x]) /\ _init_size v' = _init_size v /\
    _array_size v' = capacity granularity (_init_size v) (zlen l + 1).
Proof.
  intros Hv Hl Hr. pose proof (zlen_nonneg l). unfold add.
  assert (0 <= _init_size v < 2 ^ 31) as Hi by apply Hv.
  replace (_size v) with (zlen l) by (symmetry; apply Hv). rewrite wrapU_small by lia.
  destruct (vresize_repr v l (zlen l + 1) Hv) as (junk & c & -> & Hj & Hc & Ec); [lia|lia|done|].
  destruct junk as [|y junk]; [exfalso; revert Hj; zlen_lia|].
  cbn [bind _size]. rewrite (vstore_app _ (Some <$> l) y junk) by (done || by rewrite zlen_fmap).
  cbn [bind]. eexists. split; [done|].
  split; [|split; [done|by rewrite <- Ec]].
  cbn [set_array _size _end_pos]. rewrite wrapU_small by lia.
  rewrite zlen_cons in Hj. assert (zlen (l ++ [x]) = zlen l + 1) as El by zlen_lia.
  apply (vrepr_intro _ _ junk); vfields; rewrite ?El; try lia.
  by rewrite fmap_app, <- app_assoc.
Qed.

(** [addAt] inserts before an element other than the last. *)
Lemma addAt_repr v a y b x :
  vrepr v (a ++ y :: b) -> b <> [] -> zlen (a ++ y :: b) + 1 < 2 ^ 31 -> room v (zlen (a ++ y :: b) + 1) ->
  exists v', addAt v (zlen a) x = Ok v' /\ vrepr v' (a ++ x :: y :: b) /\ _init_size v' = _init_size v /\
    _array_size v' = capacity granularity (_init_size v) (zlen (a ++ y :: b) + 1).
Proof.
  intros Hv Hb Hl Hr. pose proof (zlen_nonneg a). pose proof (zlen_nonneg b).
  assert (0 < zlen b) by (destruct b; [done|zlen_lia]).
  assert (zlen (a ++ y :: b) = zlen a + zlen b + 1) as El by zlen_lia.
  unfold addAt. replace (_size v) with (zlen (a ++ y :: b)) by (symmetry; apply Hv).
  assert (0 <= _init_size v < 2 ^ 31) as Hi by apply Hv.
  replace (_ <=? zlen a) with false by lia. rewrite (wrapU_small 32 (_ + 1)) by lia.
  destruct (vresize_repr v _ (zlen (a ++ y :: b) + 1) Hv) as (junk & c & -> & Hj & Hc & Ec); [lia|lia|done|].
  destruct junk as [|z junk]; [exfalso; revert Hj; zlen_lia|]. rewrite zlen_cons in Hj.
  cbn [bind _size]. rewrite (wrapU_small 32 (_ - 1)) by lia.
  replace (negb _) with true by lia.
  unfold memmove, cells. cbn [_array of_option bind].
  set (arr := (Some <$> (a ++ y :: b)) ++ z :: junk).
  assert (zlen arr = c) as Harr by (subst arr; rewrite zlen_app, zlen_cons, zlen_fmap; lia).
  pose proof (zlen_nonneg junk). replace (_ && _) with true by lia. cbn [bind].
  assert (arr = (Some <$> a) ++ (Some <$> (y :: b)) ++ z :: junk) as Ea.
  { subst arr. by rewrite fmap_app, <- app_assoc. }
  assert (ztake (zlen a + 1) arr = (Some <$> a) ++ [Some y]) as ->.
  { rewrite Ea. change (Some <$> (y :: b)) with (Some y :: (Some <$> b)). simpl.
    rewrite cons_middle, app_assoc. apply ztake_app_zlen. rewrite zlen_app, zlen_fmap. done. }
  assert (zsub (zlen a) (zlen (a ++ y :: b) - zlen a) arr = Some <$> (y :: b)) as ->.
  { rewrite Ea. unfold zsub. rewrite zdrop_app_zlen' by (by rewrite zlen_fmap).
    apply ztake_app_zlen. rewrite zlen_fmap, zlen_cons. lia. }
  assert (zdrop (zlen a + 1 + (zlen (a ++ y :: b) - zlen a)) arr = junk) as ->.
  { rewrite Ea. change (z :: junk) with ([z] ++ junk). rewrite !app_assoc.
    apply zdrop_app_zlen'. rewrite !zlen_app, !zlen_fmap, zlen_cons. change (zlen [z]) with 1. lia. }
  rewrite (vstore_app _ (Some <$> a) (Some y) ((Some <$> (y :: b)) ++ junk));
    [|simpl; by rewrite <- app_assoc|by rewrite zlen_fmap].
  cbn [bind]. eexists. split; [done|]. split; [|split; [done|by rewrite <- Ec]].
  cbn [set_array _size _end_pos]. rewrite wrapU_small by lia.
  assert (zlen (a ++ x :: y :: b) = zlen (a ++ y :: b) + 1) as El' by zlen_lia.
  apply (vrepr_intro _ _ junk); vfields; rewrite ?El'; try lia.
  by rewrite fmap_app, <- app_assoc.
Qed.

(** The condition under which [removeAt] does not resize or survives it. *)
Definition remove_room v (n : Z) : Prop := _init_size v < n -> room v n.

Lemma removeAt_repr v a y b :
  vrepr v (a ++ y :: b) -> remove_room v (zlen (a ++ b)) ->
  exists v', removeAt v (zlen a) = Ok v' /\ vrepr v' (a ++ b) /\ _init_size v' = _init_size v /\
    _array_size v' = (if _init_size v <? zlen (a ++ b)
                      then capacity granularity (_init_size v) (zlen (a ++ b)) else _array_size v).
Proof.
  intros Hv Hr. pose proof (zlen_nonneg a). pose proof (zlen_nonneg b).
  pose proof Hv as (Hs & He & Hi & Hl & junk & Hb & Hz & Hc).
  assert (zlen (a ++ y :: b) = zlen a + zlen b + 1) as El by zlen_lia.
  assert (zlen (a ++ b) = zlen a + zlen b) as El' by zlen_lia.
  unfold removeAt. rewrite Hs. replace (_ <=? zlen a) with false by lia.
  rewrite (wrapU_small 32 (_ - 1)) by lia.
  set (m := if negb _ then _ else _).
  assert (zlen ((Some <$> (a ++ y :: b)) ++ junk) = zlen (a ++ y :: b) + zlen junk) as Ez
    by (rewrite zlen_app; by rewrite zlen_fmap).
  assert (exists q, m = Ok (set_array v (Some ((Some <$> (a ++ b)) ++ q))) /\ zlen q = zlen junk + 1)
    as (q & -> & Hq).
  { subst m. destruct (Z.eqb_spec (zlen a) (zlen (a ++ y :: b) - 1)) as [E|E]; cbn [negb].
    - assert (b = []) as -> by (destruct b; [done|exfalso; revert E El; zlen_lia]).
      exists (Some y :: junk). split; [|zlen_lia]. rewrite fmap_app, <- app_assoc in Hb.
      rewrite app_nil_r. destruct v; simpl in *. by rewrite Hb.
    - unfold memmove, cells. rewrite Hb. cbn [of_option bind].
      pose proof (zlen_nonneg junk). rewrite Ez. replace (_ && _) with true by lia. eexists. split.
      + do 3 f_equal. rewrite !fmap_app, <- !app_assoc. f_equal.
        { apply ztake_app_zlen. by rewrite zlen_fmap. }
        f_equal. change (Some <$> (y :: b)) with ([Some y] ++ (Some <$> b)).
        rewrite <- app_assoc, app_assoc. unfold zsub. rewrite zdrop_app_zlen'.
        * apply ztake_app_zlen. rewrite zlen_fmap. lia.
        * rewrite zlen_app, zlen_fmap. done.
      + rewrite !zlen_drop, ?zlen_app, ?zlen_cons, ?zlen_fmap, ?zlen_cons. lia. }
  cbn [bind set_array _size _end_pos]. rewrite Ez in Hz.
  rewrite Hs, He, !wrapU_small by lia.
  set (v1 := set_end_pos _ _).
  assert (_init_size v1 = _init_size v) as Hi1 by done.
  assert (vrepr v1 (a ++ b)) as Hv1.
  { subst v1. apply (vrepr_intro _ _ q); vfields; rewrite ?Hs, ?He, ?Hz; try done; lia. }
  destruct (Z.ltb_spec (_init_size v) (zlen (a ++ b))) as [Hlt|Hge].
  - replace (_init_size v1 <? _size v1) with true by (subst v1; vfields; lia).
    replace (_size v1) with (zlen (a ++ b)) by (subst v1; vfields; lia).
    destruct (vresize_repr v1 (a ++ b) (zlen (a ++ b)) Hv1) as (junk2 & c & E2 & Hj2 & Hc2 & Ec2);
      [lia|lia|by apply Hr|].
    rewrite E2, Hi1 in *. eexists. split; [done|]. split; [|split; [done|by rewrite Ec2]].
    apply (vrepr_intro _ _ junk2); vfields; try lia. done.
  - replace (_init_size v1 <? _size v1) with false by (subst v1; vfields; lia).
    exists v1. split; [done|]. split; [done|]. done.
Qed.

Lemma set_repr v a y b x :
  vrepr v (a ++ y :: b) ->
  exists v', set v (zlen a) x = Ok v' /\ vrepr v' (a ++ x :: b) /\ _init_size v' = _init_size v /\
    _array_size v' = _array_size v.
Proof.
  intros (Hs & He & Hi & Hl & junk & Hb & Hz & Hc).
  assert (zlen (a ++ y :: b) = zlen (a ++ x :: b)) as El by zlen_lia.
  unfold set. rewrite Hs. replace (_ <=? zlen a) with false by zlen_lia.
  rewrite fmap_app, <- app_assoc in Hb. rewrite (vstore_app v (Some <$> a) (Some y) ((Some <$> b) ++ junk));
    [|done|by rewrite zlen_fmap].
  eexists. split; [done|]. split; [|done]. pose proof (zlen_app (Some <$> (a ++ y :: b)) junk) as Ez.
  rewrite zlen_fmap in Ez. apply (vrepr_intro _ _ junk); vfields; try lia.
  by rewrite fmap_app, <- app_assoc.
Qed.

(** [get] gives the element inside the size and throws outside. *)
Lemma get_repr v l i :
  vrepr v l -> 0 <= i ->
  get v i = match zget l i with Some x => Ok x | None => Throw IndexOutOfBoundsException end.
Proof.
  intros Hv Hi. unfold get. replace (_size v) with (zlen l) by (symmetry; apply Hv).
  destruct (Z.leb_spec (zlen l) i).
  - replace (zget l i) with (@None A); [done|]. symmetry. apply zget_None. lia.
  - destruct (load_repr v l i Hv) as (x & -> & ->); [lia|done].
Qed.

Lemma positionOf_loop_spec v l x n : forall i,
  vrepr v l -> 0 <= i -> i + Z.of_nat n = zlen l ->
  (exists j, positionOf_loop eqb v x i n = Ok j /\ i <= j < zlen l /\ zget l j = Some x /\
     forall k, i <= k < j -> zget l k <> Some x) \/
  (positionOf_loop eqb v x i n = Ok (-1) /\ forall k, i <= k < zlen l -> zget l k <> Some x).
Proof.
  induction n as [|n IH]; intros i Hv Hi Hn; simpl.
  - right. split; [done|]. lia.
  - assert (zlen l < 2 ^ 31) by apply Hv.
    destruct (load_repr v l i Hv) as (y & -> & Hy); [lia|]. simpl.
    destruct (eqb y x) eqn:E.
    + apply eqb_spec in E as ->. left. exists i. split; [by rewrite wrapS_small by lia|].
      split; [lia|]. split; [done|]. lia.
    + assert (y <> x) as Hne by (intros Hyx%eqb_spec; congruence).
      destruct (IH (i + 1) Hv) as [(j & Ej & Hj & Hg & Hn')|[Ej Hn']]; [lia|lia| |].
      * left. exists j. split; [done|]. split; [lia|]. split; [done|].
        intros k Hk. destruct (decide (k = i)) as [->|]; [congruence|]. apply Hn'. lia.
      * right. split; [done|]. intros k Hk. destruct (decide (k = i)) as [->|]; [congruence|].
        apply Hn'. lia.
Qed.

(** [positionOf] gives the least index of the value, or -1. *)
Theorem positionOf_spec v l x :
  vrepr v l ->
  (exists j, positionOf eqb v x 0 = Ok j /\ 0 <= j < zlen l /\ zget l j = Some x /\
     forall k, 0 <= k < j -> zget l k <> Some x) \/
  (positionOf eqb v x 0 = Ok (-1) /\ (x ∉ l) /\ remove eqb v x = Throw IndexOutOfBoundsException).
Proof.
  intros Hv. assert (_size v = zlen l) as Hs by apply Hv. assert (zlen l < 2 ^ 31) by apply Hv.
  pose proof (zlen_nonneg l). unfold remove, positionOf. rewrite Hs, Z.sub_0_r.
  destruct (positionOf_loop_spec v l x (Z.to_nat (zlen l)) 0 Hv) as [Hj|[E Hn]]; [lia|lia|by left|].
  right. split; [done|]. split.
  - intros [k Hk]%list_elem_of_lookup. apply (Hn (Z.of_nat k)).
    + apply lookup_lt_Some in Hk. unfold zlen. lia.
    + rewrite zget_lookup by lia. by rewrite Nat2Z.id.
  - rewrite E. cbn [bind]. unfold removeAt. rewrite Hs.
    change (u32 (-1)) with 4294967295. by replace (zlen l <=? 4294967295) with true by lia.
Qed.

(** Iterating from [begin()] to [end()] visits the elements in order, once each. *)
Theorem iterate_spec v l :
  vrepr v l -> iterate v begin_pos (S (length l)) = Ok l.
Proof.
  intros Hv. assert (zlen l < 2 ^ 31) by apply Hv. assert (_end_pos v = zlen l) as He by apply Hv.
  assert (forall a b, l = a ++ b -> iterate v (zlen a) (S (length b)) = Ok b) as HG; [|by apply (HG [])].
  intros a b. revert a. induction b as [|x b IH]; intros a El.
  - simpl. unfold end_pos. rewrite He, El, app_nil_r. by rewrite Z.eqb_refl.
  - cbn [iterate]. unfold end_pos, iter_value. rewrite He.
    assert (zlen l = zlen a + 1 + zlen b) as Elen by (rewrite El; zlen_lia).
    pose proof (zlen_nonneg a). pose proof (zlen_nonneg b).
    replace (zlen a =? zlen l) with false by lia. rewrite (get_repr v l) by (done || lia).
    rewrite El at 1. rewrite zget_app_r, Z.sub_diag by lia. simpl zget. cbn [bind].
    rewrite wrapU_small by lia. specialize (IH (a ++ [x])). rewrite zlen_app in IH.
    change (zlen [x]) with 1 in IH. cbn [length] in IH |- *. rewrite IH; [done|].
    by rewrite <- app_assoc.
Qed.
End laws.

(** ** Refinement: a vector is a list *)

Inductive vop (A : Type) :=
  | VAdd (x : A)
  | VAddAt (i : Z) (x : A)
  | VRemoveAt (i : Z)
  | VSet (i : Z) (x : A).
Arguments VAdd {A} _.
Arguments VAddAt {A} _ _.
Arguments VRemoveAt {A} _.
Arguments VSet {A} _ _.

Section refinement.
Context {A : Type} `{R : Resizer A}.

Definition vrun (o : vop A) (v : Vector A) : res (Vector A) :=
  match o with
  | VAdd x => add v x
  | VAddAt i x => addAt v i x
  | VRemoveAt i => removeAt v i
  | VSet i x => set v i x
  end.

Definition vspec (o : vop A) (l : list A) : list A :=
  match o with
  | VAdd x => l ++ [x]
  | VAddAt i x => ztake i l ++ x :: zdrop i l
  | VRemoveAt i => ztake i l ++ zdrop (i + 1) l
  | VSet i x => ztake i l ++ x :: zdrop (i + 1) l
  end.

(** The capacity after the operation. *)
Definition vcap (o : vop A) (init cap n : Z) : Z :=
  match o with
  | VAdd _ | VAddAt _ _ => capacity granularity init (n + 1)
  | VRemoveAt _ => if init <? n - 1 then capacity granularity init (n - 1) else cap
  | VSet _ _ => cap
  end.

(** Indices in range ([addAt] not before the last element), and a capacity change, if there is
    one, that the version survives. *)
Definition vallowed (o : vop A) (init cap n : Z) : bool :=
  match o with
  | VAdd _ => (n + 1 <? 2 ^ 31) && keeps cap (capacity granularity init (n + 1))
  | VAddAt i _ =>
      (0 <=? i) && (i <? n - 1) && (n + 1 <? 2 ^ 31) && keeps cap (capacity granularity init (n + 1))
  | VRemoveAt i =>
      (0 <=? i) && (i <? n) && ((n - 1 <=? init) || keeps cap (capacity granularity init (n - 1)))
  | VSet i _ => (0 <=? i) && (i <? n)
  end.

Fixpoint vruns (os : list (vop A)) (v : Vector A) : res (Vector A) :=
  match os with
  | [] => Ok v
  | o :: os' => let? v := vrun o v in vruns os' v
  end.

Fixpoint vallowed_all (os : list (vop A)) (init cap : Z) (l : list A) : bool :=
  match os with
  | [] => true
  | o :: os' =>
      vallowed o init cap (zlen l) && vallowed_all os' init (vcap o init cap (zlen l)) (vspec o l)
  end.

Lemma split_at (l : list A) i :
  0 <= i < zlen l -> exists y, l = ztake i l ++ y :: zdrop (i + 1) l /\ zlen (ztake i l) = i /\
    zdrop i l = y :: zdrop (i + 1) l.
Proof.
  intros Hi. destruct (zget_is_Some l i Hi) as [y Hy]. rewrite zget_lookup in Hy by lia. exists y.
  assert (zdrop (i + 1) l = drop (S (Z.to_nat i)) l) as ->.
  { unfold zdrop. f_equal. lia. }
  split; [symmetry; by apply take_drop_middle|]. split; [rewrite zlen_take; lia|]. by apply drop_S.
Qed.

Lemma vrun_repr o v l :
  vrepr v l -> vallowed o (_init_size v) (_array_size v) (zlen l) = true ->
  exists v', vrun o v = Ok v' /\ vrepr v' (vspec o l) /\ _init_size v' = _init_size v /\
    _array_size v' = vcap o (_init_size v) (_array_size v) (zlen l).
Proof.
  intros Hv Ha. destruct o as [x|i x|i|i x]; simpl in Ha |- *;
    rewrite ?andb_true_iff, ?orb_true_iff in Ha.
  - apply add_repr; [done|lia|apply Ha].
  - destruct (split_at l i) as (y & El & Hi & Hd); [lia|]. rewrite Hd. rewrite El in Hv.
    destruct (addAt_repr v (ztake i l) y (zdrop (i + 1) l) x) as (v' & E & Hr & H1 & H2);
      [done| | | |].
    + intros Hn. pose proof (zlen_drop (i + 1) l) as Hz. rewrite Hn in Hz.
      change (zlen []) with 0 in Hz. lia.
    + rewrite <- El. lia.
    + rewrite <- El. apply Ha.
    + exists v'. rewrite <- El in H2. by rewrite Hi in E.
  - destruct (split_at l i) as (y & El & Hi & _); [lia|]. rewrite El in Hv.
    assert (zlen (ztake i l ++ zdrop (i + 1) l) = zlen l - 1) as Ez.
    { rewrite zlen_app, zlen_take, zlen_drop. lia. }
    destruct (removeAt_repr v (ztake i l) y (zdrop (i + 1) l)) as (v' & E & Hr & H1 & H2); [done| |].
    + unfold remove_room, room. rewrite Ez. intros Hlt. destruct Ha as [_ [Hle|Hk]]; [lia|done].
    + exists v'. rewrite Ez in H2. by rewrite Hi in E.
  - destruct (split_at l i) as (y & El & Hi & _); [lia|]. rewrite El in Hv.
    destruct (set_repr v (ztake i l) y (zdrop (i + 1) l) x Hv) as (v' & E & Hr & H1 & H2).
    exists v'. by rewrite Hi in E.
Qed.


(** An index that is not below the size throws, and nothing else happens. *)
Theorem Vector_index_errors v i x :
  _size v <= i ->
  addAt v i x = Throw IndexOutOfBoundsException /\ removeAt v i = Throw IndexOutOfBoundsException /\
  set v i x = Throw IndexOutOfBoundsException /\ get v i = Throw IndexOutOfBoundsException.
Proof.
  intros Hi. unfold addAt, removeAt, set, get. by replace (_size v <=? i) with true by lia.
Qed.

(** [addAt] before the last element does not insert: it overwrites that element, and the size
    grows over a cell that holds no element. *)
Theorem addAt_last_overwrites v l y x :
  vrepr v (l ++ [y]) -> zlen (l ++ [y]) + 1 < 2 ^ 31 -> room v (zlen (l ++ [y]) + 1) ->
  exists v' c junk, addAt v (zlen l) x = Ok v' /\ _size v' = zlen l + 2 /\
    _array v' = Some ((Some <$> (l ++ [x])) ++ c :: junk) /\
    (c <> Some y -> get v' (zlen l + 1) <> Ok y).
Proof.
  intros Hv Hl Hr. pose proof (zlen_nonneg l).
  assert (zlen (l ++ [y]) = zlen l + 1) as El by zlen_lia. rewrite El in *.
  unfold addAt. replace (_size v) with (zlen l + 1) by (rewrite <- El; symmetry; apply Hv).
  replace (_ <=? zlen l) with false by lia. rewrite (wrapU_small 32 (_ + 1 + 1)) by lia.
  destruct (vresize_repr v _ (zlen l + 1 + 1) Hv) as (junk & c & -> & Hj & Hc & _); [lia|lia|done|].
  cbn [bind _size]. rewrite El, (wrapU_small 32 (_ - 1)) by lia.
  replace (zlen l =? zlen l + 1 - 1) with true by lia. cbn [negb bind].
  destruct junk as [|z junk]; [exfalso; revert Hj; zlen_lia|].
  rewrite (vstore_app _ (Some <$> l) (Some y) (z :: junk));
    [|simpl; by rewrite fmap_app, <- app_assoc|by rewrite zlen_fmap].
  cbn [bind]. eexists _, z, junk. split; [done|]. vfields. rewrite wrapU_small by lia.
  split; [lia|]. split; [by rewrite fmap_app, <- app_assoc|].
  intros Hz. unfold get. vfields. replace (_ <=? zlen l + 1) with false by lia.
  unfold load, cells. vfields. cbn [of_option bind].
  rewrite zget_app_r by (rewrite zlen_fmap; lia). rewrite zlen_fmap.
  replace (zlen l + 1 - zlen l) with 1 by lia. simpl. destruct z; simpl; congruence.
Qed.
End refinement.

(** The value version loses its elements when the capacity shrinks: [removeAt] then leaves
    [_size] cells of the new array, none of which was assigned. *)
Theorem value_shrink_loses {A} (fresh : option A) (v : Vector A) (l : list A) (i : Z) :
  vrepr v l -> 0 <= i < zlen l -> _init_size v < zlen l - 1 ->
  capacity 32 (_init_size v) (zlen l - 1) < _array_size v ->
  exists v', @removeAt A (value_resizer fresh) v i = Ok v' /\ _size v' = zlen l - 1 /\
    _array v' = Some (replicate (Z.to_nat (_array_size v')) fresh).
Proof.
  intros Hv Hi Hlt Hsh. pose proof Hv as (Hs & He & Hin & Hl & junk & Hb & Hz & Hc).
  set (c := capacity 32 (_init_size v) (zlen l - 1)) in *.
  unfold removeAt. rewrite Hs. replace (zlen l <=? i) with false by lia.
  rewrite (wrapU_small 32 (zlen l - 1)) by lia.
  set (m := if negb _ then _ else _).
  assert (exists b, m = Ok (set_array v (Some b))) as [b ->].
  { subst m. destruct (negb _).
    - unfold memmove, cells. rewrite Hb. cbn [of_option bind].
      replace (_ && _) with true by lia. eauto.
    - eexists. f_equal. destruct v; simpl in *. by rewrite Hb. }
  cbn [bind]. vfields. rewrite Hs, wrapU_small by lia.
  replace (_init_size v <? zlen l - 1) with true by lia.
  cbn [resize value_resizer]. unfold resize_value. vfields.
  destruct (capacity_bounds 32 5 (_init_size v) (zlen l - 1)) as [Hcb _]; [done|lia|done|lia|].
  replace (0 <? zlen l - 1) with true by lia. rewrite max_if, (wrapU_small 32 (_ + 1)) by lia.
  change (ROUNDUP (Z.max (zlen l - 1) (_init_size v) + 1) 32) with c.
  fold c in Hcb. replace (c =? _array_size v) with false by lia.
  replace (_array_size v <? c) with false by lia. cbn [andb bind].
  eexists. split; [done|]. by vfields.
Qed.

(** ** Sorting *)

Section sorting.
Context {A : Type} (leb : A -> A -> bool).
Implicit Types (v : Vector A) (l : list A).

(** Two lists that agree outside the indices [left] to [right]. *)
Definition same_outside l l' (left right : Z) : Prop :=
  forall i, 0 <= i -> i < left \/ right < i -> zget l' i = zget l i.

(** Every element at an index from [a] below [b] compares with [p] as [r] says. *)
Definition segment l (p : A) (r : bool) (a b : Z) : Prop :=
  forall j, a <= j < b -> exists x, zget l j = Some x /\ leb x p = r.

Lemma store_repr v l i x :
  vrepr v l -> 0 <= i < zlen l ->
  exists v', store v i (Some x) = Ok v' /\ vrepr v' (<[Z.to_nat i := x]> l).
Proof.
  intros Hv Hi. destruct (split_at l i Hi) as (y & El & Hz & _).
  destruct Hv as (Hs & He & Hin & Hl & junk & Hb & Hc & Hlt).
  assert (<[Z.to_nat i := x]> l = ztake i l ++ x :: zdrop (i + 1) l) as ->.
  { rewrite El at 1. rewrite insert_app_r_alt by (unfold zlen in Hz; lia).
    replace (_ - _)%nat with 0%nat by (unfold zlen in Hz; lia). done. }
  assert (zlen (ztake i l ++ x :: zdrop (i + 1) l) = zlen l) as En.
  { rewrite El at 3. rewrite !zlen_app, !zlen_cons. done. }
  set (l1 := ztake i l) in *. set (l2 := zdrop (i + 1) l) in *.
  rewrite (vstore_app v (Some <$> l1) (Some y) ((Some <$> l2) ++ junk)).
  - eexists. split; [done|]. pose proof (zlen_app (Some <$> l) junk) as Ez. rewrite zlen_fmap in Ez.
    apply (vrepr_intro _ _ junk); vfields; rewrite ?En; try done; try lia.
    by rewrite fmap_app, <- app_assoc.
  - rewrite Hb. rewrite El at 1. by rewrite fmap_app, <- app_assoc.
  - by rewrite zlen_fmap.
Qed.

Lemma swap_repr v l a b x y :
  vrepr v l -> zget l a = Some x -> zget l b = Some y ->
  exists v', Value.swap v a b = Ok v' /\ vrepr v' (<[Z.to_nat b := x]> (<[Z.to_nat a := y]> l)).
Proof.
  intros Hv Ha Hb. unfold Value.swap.
  pose proof (zget_Some _ _ _ Ha) as Ha'. pose proof (zget_Some _ _ _ Hb) as Hb'.
  destruct (load_repr v l a Hv Ha') as (x' & -> & Hx'). replace x' with x by congruence.
  destruct (load_repr v l b Hv Hb') as (y' & -> & Hy'). replace y' with y by congruence.
  cbn [bind]. destruct (store_repr v l a y Hv Ha') as (v1 & -> & Hv1). cbn [bind].
  apply store_repr; [done|]. by rewrite zlen_insert.
Qed.

Lemma swap_perm l a b x y :
  zget l a = Some x -> zget l b = Some y -> <[Z.to_nat b := x]> (<[Z.to_nat a := y]> l) ≡ₚ l.
Proof.
  intros Ha Hb. pose proof (zget_Some _ _ _ Ha). pose proof (zget_Some _ _ _ Hb).
  rewrite zget_lookup in * by lia. by apply Permutation_insert_swap.
Qed.

Lemma swap_zget l a b x y j :
  zget l a = Some x -> zget l b = Some y -> 0 <= j ->
  zget (<[Z.to_nat b := x]> (<[Z.to_nat a := y]> l)) j =
    if b =? j then Some x else if a =? j then Some y else zget l j.
Proof.
  intros Ha%zget_Some Hb%zget_Some Hj.
  rewrite zget_insert by (rewrite ?zlen_insert; lia). by rewrite zget_insert by lia.
Qed.

Lemma partition_loop_spec n : forall v l p left right i index,
  vrepr v l -> Z.of_nat n = right - i -> 0 <= left <= index -> index <= i <= right -> right < zlen l ->
  zget l right = Some p -> segment l p true left index -> segment l p false index i ->
  exists v' l' idx, Value.partition_loop leb v p right i index n = Ok (v', idx) /\
    vrepr v' l' /\ l' ≡ₚ l /\ same_outside l l' left right /\ zget l' right = Some p /\
    left <= idx <= right /\ segment l' p true left idx /\ segment l' p false idx right.
Proof.
  induction n as [|n IH]; intros v l p left right i index Hv Hn Hl Hi Hr Hp Ht Hf.
  { exists v, l, index. replace i with right in * by lia.
    repeat (split; [done || lia|]). done. }
  assert (zlen l < 2 ^ 31) as Hlen by apply Hv.
  destruct (load_repr v l i Hv) as (x & E & Hx); [lia|]. cbn [Value.partition_loop]. rewrite E.
  cbn [bind]. destruct (leb x p) eqn:Ex.
  2:{ apply IH; try done; try lia. intros j Hj.
      destruct (decide (j = i)) as [->|]; [by exists x|]. apply Hf. lia. }
  destruct (zget_is_Some l index) as [y Hy]; [lia|].
  assert (exists v1 l1, (if negb (index =? i) then Value.swap v index i else Ok v) = Ok v1 /\
    vrepr v1 l1 /\ l1 ≡ₚ l /\ zlen l1 = zlen l /\
    forall j, 0 <= j -> zget l1 j = if i =? j then Some y else if index =? j then Some x else zget l j)
    as (v1 & l1 & -> & Hv1 & Hperm & Hlen1 & Hz).
  { destruct (Z.eqb_spec index i) as [->|Hne]; cbn [negb].
    - exists v, l. repeat (split; [done|]). intros j Hj. replace y with x by congruence.
      by destruct (Z.eqb_spec i j) as [->|].
    - destruct (swap_repr v l index i y x Hv Hy Hx) as (v1 & -> & Hv1).
      eexists v1, _. split; [done|]. split; [done|].
      split; [by apply swap_perm|]. split; [by rewrite !zlen_insert|].
      intros j Hj. by apply swap_zget. }
  cbn [bind]. replace (right <=? index) with false by lia. rewrite wrapU_small by lia.
  destruct (IH v1 l1 p left right (i + 1) (index + 1)) as (v' & l' & idx & E' & H1 & H2 & H3 & H4 & H5 & H6 & H7);
    try done; try lia.
  - rewrite Hz by lia. replace (i =? right) with false by lia. by replace (index =? right) with false by lia.
  - intros j Hj. rewrite Hz by lia. destruct (Z.eqb_spec i j) as [->|].
    + assert (index = j) as -> by lia. exists y. replace y with x by congruence. done.
    + destruct (Z.eqb_spec index j) as [->|]; [by exists x|]. apply Ht. lia.
  - intros j Hj. rewrite Hz by lia. destruct (Z.eqb_spec i j) as [->|].
    + destruct (decide (index = j)) as [->|]; [lia|].
      destruct (Hf index) as (y' & Ey & Hy'); [lia|]. exists y. replace y with y' by congruence. done.
    + replace (index =? j) with false by lia. apply Hf. lia.
  - exists v', l', idx. split; [done|]. split; [done|]. split; [by rewrite H2|].
    split; [|done]. intros j Hj Ho. rewrite H3 by done. rewrite Hz by lia.
    replace (i =? j) with false by lia. by replace (index =? j) with false by lia.
Qed.

(** [partition] puts the pivot where the elements before it are at most it and the elements
    after it are not, and only permutes the range. *)
Lemma partition_repr v l left right :
  vrepr v l -> 0 <= left <= right -> right < zlen l ->
  exists v' l' idx p, Value.partition leb v left right left = Ok (v', idx) /\
    vrepr v' l' /\ l' ≡ₚ l /\ same_outside l l' left right /\ left <= idx <= right /\
    zget l left = Some p /\ zget l' idx = Some p /\
    segment l' p true left idx /\ segment l' p false (idx + 1) (right + 1).
Proof.
  intros Hv Hl Hr. unfold Value.partition.
  destruct (load_repr v l left Hv) as (p & -> & Hp); [lia|]. cbn [bind].
  destruct (zget_is_Some l right) as [z Hz]; [lia|].
  destruct (swap_repr v l left right p z Hv Hp Hz) as (v1 & -> & Hv1). cbn [bind].
  set (l1 := <[_ := _]> _) in *.
  assert (forall j, 0 <= j -> zget l1 j = if right =? j then Some p else if left =? j then Some z else zget l j)
    as Hz1 by (intros; by apply swap_zget).
  assert (l1 ≡ₚ l) as Hp1 by (by apply swap_perm).
  assert (zlen l1 = zlen l) as Hl1 by (subst l1; by rewrite !zlen_insert).
  destruct (partition_loop_spec (Z.to_nat (right - left)) v1 l1 p left right left left)
    as (v2 & l2 & idx & -> & Hv2 & Hp2 & Ho2 & Hr2 & Hi & Ht & Hf); try done; try lia.
  { rewrite Hz1 by lia. by rewrite Z.eqb_refl. }
  { intros j. lia. } { intros j. lia. }
  cbn [bind]. assert (zlen l2 = zlen l) as Hl2 by (unfold zlen; by rewrite Hp2, Hp1).
  destruct (zget_is_Some l2 idx) as [w Hw]; [lia|].
  destruct (swap_repr v2 l2 right idx p w Hv2 Hr2 Hw) as (v3 & -> & Hv3). cbn [bind].
  eexists v3, _, idx, p. split; [done|]. split; [done|].
  split; [rewrite swap_perm by done; by rewrite Hp2|].
  split; [|split; [lia|split; [done|split; [|split]]]].
  - intros j Hj Ho. rewrite (swap_zget l2 right idx p w) by done.
    replace (idx =? j) with false by lia. replace (right =? j) with false by lia.
    rewrite Ho2 by done. rewrite Hz1 by lia. replace (right =? j) with false by lia.
    by replace (left =? j) with false by lia.
  - rewrite (swap_zget l2 right idx p w) by (done || lia). by rewrite Z.eqb_refl.
  - intros j Hj. rewrite (swap_zget l2 right idx p w) by (done || lia).
    replace (idx =? j) with false by lia. replace (right =? j) with false by lia. by apply Ht.
  - intros j Hj. rewrite (swap_zget l2 right idx p w) by (done || lia).
    replace (idx =? j) with false by lia. destruct (Z.eqb_spec right j) as [<-|].
    + destruct (Hf idx) as (w' & Ew & Hw'); [lia|]. exists w. replace w with w' by congruence. done.
    + apply Hf. lia.
Qed.

Lemma quicksort_spec fuel : forall v l left right,
  vrepr v l -> 0 <= left <= right -> right < zlen l -> right - left < Z.of_nat fuel ->
  exists v' l', Value.quicksort leb v left right fuel = Ok v' /\ vrepr v' l' /\ l' ≡ₚ l.
Proof.
  induction fuel as [|fuel IH]; intros v l left right Hv Hl Hr Hf; [lia|].
  assert (zlen l < 2 ^ 31) as Hlen by apply Hv. cbn [Value.quicksort].
  destruct (left <? u32 (right - 1)); [|by exists v, l].
  destruct (partition_repr v l left right Hv Hl Hr) as (v1 & l1 & idx & p & -> & Hv1 & Hp1 & _ & Hi & _).
  cbn [bind]. destruct (Z.ltb_spec left idx) as [H1|]; [|by exists v1, l1].
  destruct (Z.ltb_spec idx right) as [H2|]; [|by exists v1, l1]. cbn [andb].
  assert (zlen l1 = zlen l) as Hl1 by (unfold zlen; by rewrite Hp1).
  rewrite !wrapU_small by lia.
  destruct (IH v1 l1 left (idx - 1) Hv1) as (v2 & l2 & -> & Hv2 & Hp2); [lia..|]. cbn [bind].
  assert (zlen l2 = zlen l1) as Hl2 by (unfold zlen; by rewrite Hp2).
  destruct (IH v2 l2 (idx + 1) right Hv2) as (v3 & l3 & -> & Hv3 & Hp3); [lia..|].
  exists v3, l3. split; [done|]. split; [done|]. by rewrite Hp3, Hp2.
Qed.

(** [sort] of a nonempty vector ends and permutes the elements. *)
Theorem sort_permutation v l :
  vrepr v l -> l <> [] ->
  exists v' l', Value.sort leb v = Ok v' /\ vrepr v' l' /\ l' ≡ₚ l.
Proof.
  intros Hv Hne. assert (zlen l < 2 ^ 31) by apply Hv.
  assert (0 < zlen l) by (destruct l; [done|zlen_lia]).
  unfold Value.sort. replace (_size v) with (zlen l) by (symmetry; apply Hv).
  rewrite wrapU_small by lia. apply quicksort_spec; [done|lia..].
Qed.

(** [sort] leaves any vector of two elements as it is, in whatever order they are. *)
Theorem sort_two_unsorted v x y : vrepr v [x; y] -> Value.sort leb v = Ok v.
Proof.
  intros (Hs & _). unfold Value.sort. rewrite Hs. reflexivity.
Qed.
End sorting.

(** [partition] puts the pivot where the elements before it are at most it and the elements
    after it are not, and only permutes the range. *)
Theorem partition_spec {A} (leb : A -> A -> bool) (v : Vector A) l left right :
  vrepr v l -> 0 <= left <= right -> right < zlen l ->
  exists v' l' idx p, Value.partition leb v left right left = Ok (v', idx) /\
    vrepr v' l' /\ l' ≡ₚ l /\ same_outside l l' left right /\ left <= idx <= right /\
    zget l left = Some p /\ zget l' idx = Some p /\
    segment leb l' p true left idx /\ segment leb l' p false (idx + 1) (right + 1).
Proof. apply partition_repr. Qed.

(** ** Witnesses *)

(** A vector that holds [l] in an array with [n] more cells. *)
Definition vector {A} (l : list A) (n : nat) : Vector A :=
  mkVector (zlen l) 0 (zlen l + Z.of_nat n) (Some ((Some <$> l) ++ replicate n None)) (zlen l).

Lemma vrepr_vector {A} (l : list A) n :
  zlen l < 2 ^ 31 -> (0 < n)%nat -> vrepr (vector l n) l.
Proof.
  intros Hl Hn. apply (vrepr_intro _ _ (replicate n None)); try done; rewrite ?zlen_replicate; simpl; lia.
Qed.

Ltac holds_elements := apply vrepr_vector; [reflexivity|lia].


Lemma sort_permutation_witness :
  exists v' l', Value.sort Z.leb (vector [3; 1; 2; 3; 0] 3) = Ok v' /\ vrepr v' l' /\ l' ≡ₚ [3; 1; 2; 3; 0].
Proof. apply sort_permutation; [holds_elements|done]. Defined.

Lemma partition_spec_witness :
  exists v' l' idx p, Value.partition Z.leb (vector [2; 9; 1; 3] 4) 0 3 0 = Ok (v', idx) /\
    vrepr v' l' /\ l' ≡ₚ [2; 9; 1; 3] /\ same_outside [2; 9; 1; 3] l' 0 3 /\ 0 <= idx <= 3 /\
    zget [2; 9; 1; 3] 0 = Some p /\ zget l' idx = Some p /\
    segment Z.leb l' p true 0 idx /\ segment Z.leb l' p false (idx + 1) (3 + 1).
Proof. apply partition_spec; [holds_elements|lia|done]. Defined.

Lemma iterate_spec_witness : iterate (vector [4; 5; 6] 5) begin_pos 4 = Ok [4; 5; 6].
Proof. apply (iterate_spec (vector [4; 5; 6] 5) [4; 5; 6]). holds_elements. Defined.

Lemma positionOf_spec_witness :
  (exists j, positionOf Z.eqb (vector [4; 5; 6] 5) 5 0 = Ok j /\ 0 <= j < 3 /\ zget [4; 5; 6] j = Some 5 /\
     forall k, 0 <= k < j -> zget [4; 5; 6] k <> Some 5) \/
  (positionOf Z.eqb (vector [4; 5; 6] 5) 5 0 = Ok (-1) /\ (5 ∉ [4; 5; 6]) /\
   remove Z.eqb (vector [4; 5; 6] 5) 5 = Throw IndexOutOfBoundsException).
Proof. apply (positionOf_spec Z.eqb Z.eqb_eq (vector [4; 5; 6] 5) [4; 5; 6] 5). holds_elements. Defined.

Lemma addAt_last_overwrites_witness :
  exists v' c junk, addAt (vector [1; 2] 14) 1 9 = Ok v' /\ _size v' = 3 /\
    _array v' = Some ((Some <$> [1; 9]) ++ c :: junk) /\ (c <> Some 2 -> get v' 2 <> Ok 2).
Proof. apply (addAt_last_overwrites (vector [1; 2] 14) [1] 2 9); [holds_elements|done|done]. Defined.

Lemma value_shrink_loses_witness :
  exists v', @removeAt Z (value_resizer (Some 0)) (vector (replicate 32 7) 32) 5 = Ok v' /\ _size v' = 31 /\
    _array v' = Some (replicate (Z.to_nat (_array_size v')) (Some 0)).
Proof.
  apply (value_shrink_loses (Some 0) (vector (replicate 32 7) 32) (replicate 32 7) 5);
    [holds_elements|done|reflexivity|reflexivity].
Defined.
