(* ===== verification/Dictionary.v ===== *)
(** * Dictionary (include/srl/util/Dictionary.h)

    A map from keys to values: a doubly linked list that keeps the order of insertion, and a red-black
    tree on the hash values of the keys.  Both structures are threaded through the same entries, which
    point at each other, so the model keeps the entries in a heap ([gmap loc Entry]) and every method is
    a command of the state and error monad [M] over the dictionary and its heap: a NULL or dangling
    dereference is [UB].  This file has the commands, in the order of the header; [DictTree] proves
    what they do to the tree, [DictSpec] that a dictionary is an association list. *)

From S2P Require Import Prelude.

(** The address of an entry; NULL is [None]. *)
Abbreviation loc := positive.
Abbreviation ptr := (option positive).

Inductive COLOR := RED | BLACK.

#[export] Instance COLOR_eq_dec : EqDecision COLOR.
Proof. solve_decision. Defined.

(** ** The entries *)

Record Entry (Key Value : Type) := mkEntry {
  _prev : ptr; _next : ptr;
  _parent : ptr; _lesser : ptr; _greater : ptr;
  _color : COLOR;
  _key : Key; _value : Value; _hash : Z }.
Arguments mkEntry {Key Value} _ _ _ _ _ _ _ _ _.
Arguments _prev {Key Value} _.
Arguments _next {Key Value} _.
Arguments _parent {Key Value} _.
Arguments _lesser {Key Value} _.
Arguments _greater {Key Value} _.
Arguments _color {Key Value} _.
Arguments _key {Key Value} _.
Arguments _value {Key Value} _.
Arguments _hash {Key Value} _.

(** The dictionary and the entries it allocated; its [_iter_end] is the constant [NULL]. *)
Record Dictionary (Key Value : Type) := mkDictionary {
  _size : Z; _root : ptr; _first : ptr; _last : ptr;
  entries : gmap loc (Entry Key Value) }.
Arguments mkDictionary {Key Value} _ _ _ _ _.
Arguments _size {Key Value} _.
Arguments _root {Key Value} _.
Arguments _first {Key Value} _.
Arguments _last {Key Value} _.
Arguments entries {Key Value} _.

(** The template's parameter [Hasher], and what the default constructor of [Value] makes. *)
Class Hasher (Key : Type) := Hash : Key -> Z.
Class DefaultValue (Value : Type) := default_value : Value.

(** ** Commands *)

Section commands.
Context {Key Value : Type}.

Definition M (A : Type) : Type := Dictionary Key Value -> res (A * Dictionary Key Value).

Definition ret {A} (a : A) : M A := fun d => Ok (a, d).
Definition andThen {A B} (m : M A) (f : A -> M B) : M B := fun d => let? (a, d) := m d in f a d.
Definition throw {A} (e : exn) : M A := fun _ => Throw e.
Definition no_fuel {A} : M A := fun _ => NoFuel.

(** Reading a member of the dictionary, and the member [f] of the entry at [p]. *)
Definition this {A} (f : Dictionary Key Value -> A) : M A := fun d => Ok (f d, d).
Definition fetch {A} (p : ptr) (f : Entry Key Value -> A) : M A := fun d =>
  match p with
  | None => UB
  | Some l => match entries d !! l with None => UB | Some e => Ok (f e, d) end
  end.

(** Assigning a member of the dictionary, and to members of the entry at [p]. *)
Definition set_this (f : Dictionary Key Value -> Dictionary Key Value) : M unit := fun d => Ok (tt, f d).
Definition with_entries (d : Dictionary Key Value) (h : gmap loc (Entry Key Value)) : Dictionary Key Value :=
  mkDictionary (_size d) (_root d) (_first d) (_last d) h.
Definition assign (p : ptr) (g : Entry Key Value -> Entry Key Value) : M unit := fun d =>
  match p with
  | None => UB
  | Some l =>
      match entries d !! l with
      | None => UB
      | Some e => Ok (tt, with_entries d (<[l := g e]> (entries d)))
      end
  end.
Definition set_root (p : ptr) : M unit :=
  set_this (fun d => mkDictionary (_size d) p (_first d) (_last d) (entries d)).
Definition set_first (p : ptr) : M unit :=
  set_this (fun d => mkDictionary (_size d) (_root d) p (_last d) (entries d)).
Definition set_last (p : ptr) : M unit :=
  set_this (fun d => mkDictionary (_size d) (_root d) (_first d) p (entries d)).
Definition set_size (n : Z) : M unit :=
  set_this (fun d => mkDictionary n (_root d) (_first d) (_last d) (entries d)).

Implicit Types e : Entry Key Value.
Definition put_prev (p : ptr) e : Entry Key Value :=
  mkEntry p (_next e) (_parent e) (_lesser e) (_greater e) (_color e) (_key e) (_value e) (_hash e).
Definition put_next (p : ptr) e : Entry Key Value :=
  mkEntry (_prev e) p (_parent e) (_lesser e) (_greater e) (_color e) (_key e) (_value e) (_hash e).
Definition put_parent (p : ptr) e : Entry Key Value :=
  mkEntry (_prev e) (_next e) p (_lesser e) (_greater e) (_color e) (_key e) (_value e) (_hash e).
Definition put_lesser (p : ptr) e : Entry Key Value :=
  mkEntry (_prev e) (_next e) (_parent e) p (_greater e) (_color e) (_key e) (_value e) (_hash e).
Definition put_greater (p : ptr) e : Entry Key Value :=
  mkEntry (_prev e) (_next e) (_parent e) (_lesser e) p (_color e) (_key e) (_value e) (_hash e).
Definition put_color (c : COLOR) e : Entry Key Value :=
  mkEntry (_prev e) (_next e) (_parent e) (_lesser e) (_greater e) c (_key e) (_value e) (_hash e).
Definition put_value (v : Value) e : Entry Key Value :=
  mkEntry (_prev e) (_next e) (_parent e) (_lesser e) (_greater e) (_color e) (_key e) v (_hash e).

(** [new] at an address that is not in use, and [delete]. *)
Definition new (e : Entry Key Value) : M ptr := fun d =>
  let l := fresh (dom (entries d)) in Ok (Some l, with_entries d (<[l := e]> (entries d))).
Definition free (p : ptr) : M unit := fun d =>
  match p with
  | None => Ok (tt, d)
  | Some l =>
      match entries d !! l with
      | None => UB
      | Some _ => Ok (tt, with_entries d (delete l (entries d)))
      end
  end.
End commands.
Arguments M : clear implicits.

Notation "'let*' x ':=' m 'in' k" := (andThen m (fun x => k))
  (at level 10, x pattern, m at level 100, k at level 200) : srl_scope.
Notation "m ';;*' k" := (andThen m (fun _ => k))
  (at level 199, right associativity) : srl_scope.
Abbreviation is_null p := (bool_decide (p = None)).
Abbreviation same p q := (bool_decide (p = q)).

(** ** The methods of an entry *)

Section entry.
Context {Key Value : Type} `{Hasher Key} `{DefaultValue Value}.
Implicit Types (entry p : ptr).
Abbreviation M := (M Key Value).

(** [Entry(key)] and [Entry(key, hash)]. *)
Definition Entry_new (key : Key) : Entry Key Value :=
  mkEntry None None None None None RED key default_value (Hash key).
Definition Entry_new_hash (key : Key) (hash : Z) : Entry Key Value :=
  mkEntry None None None None None RED key default_value hash.

(** [_setColor]: the subtree in alternating colours. *)
Fixpoint _setColor entry (color : COLOR) (fuel : nat) : M unit :=
  match fuel with
  | O => no_fuel
  | S fuel =>
      assign entry (put_color color) ;;*
      let child_color := if decide (color = RED) then BLACK else RED in
      let* l := fetch entry _lesser in
      (if is_null l then ret tt else _setColor l child_color fuel) ;;*
      let* g := fetch entry _greater in
      if is_null g then ret tt else _setColor g child_color fuel
  end.

Definition _setLesser (this entry : ptr) : M unit :=
  assign this (put_lesser entry) ;;*
  if is_null entry then ret tt else assign entry (put_parent this).

Definition _setGreater (this entry : ptr) : M unit :=
  assign this (put_greater entry) ;;*
  if is_null entry then ret tt else assign entry (put_parent this).

Definition _replaceChild (this olde newe : ptr) : M unit :=
  let* l := fetch this _lesser in
  if same l olde then _setLesser this newe else _setGreater this newe.

(** [_checkBalance]: 0 to do nothing, -1 to rotate left, 1 to rotate right. *)
Definition _checkBalance (this : ptr) : M Z :=
  let* g := fetch this _greater in
  let* l := fetch this _lesser in
  if negb (is_null g) && negb (is_null l) then ret 0
  else
    let* heavy := if is_null g then ret false
                  else let* gg := fetch g _greater in ret (negb (is_null gg)) in
    if heavy then ret (-1)
    else
      let* heavy := if is_null l then ret false
                    else let* ll := fetch l _lesser in ret (negb (is_null ll)) in
      if heavy then ret 1 else ret 0.

Definition grandparent (this : ptr) : M ptr :=
  let* p := fetch this _parent in
  if is_null p then ret None else fetch p _parent.

Definition sibling (this : ptr) : M ptr :=
  let* p := fetch this _parent in
  if is_null p then ret None
  else
    let* l := fetch p _lesser in
    if same this l then fetch p _greater else fetch p _lesser.

(** The loops [while (s->_lesser != NULL) s = s->_lesser] and the mirror image. *)
Fixpoint go_down (child : Entry Key Value -> ptr) (s : ptr) (fuel : nat) : M ptr :=
  match fuel with
  | O => no_fuel
  | S fuel => let* c := fetch s child in if is_null c then ret s else go_down child c fuel
  end.

Definition successor (this : ptr) (fuel : nat) : M ptr :=
  let* g := fetch this _greater in
  if is_null g then
    let* l := fetch this _lesser in
    if is_null l then ret None else go_down _greater l fuel
  else go_down _lesser g fuel.

Definition childCount (this : ptr) : M Z :=
  let* l := fetch this _lesser in
  let* g := fetch this _greater in
  ret ((if is_null l then 0 else 1) + (if is_null g then 0 else 1)).

Definition uncle (this : ptr) : M ptr :=
  let* gp := grandparent this in
  if is_null gp then ret None
  else
    let* p := fetch this _parent in
    let* l := fetch gp _lesser in
    if same p l then fetch gp _greater else fetch gp _lesser.
End entry.

(** ** The linked list and the tree *)

Section internals.
Context {Key Value : Type} `{Hasher Key} `{DefaultValue Value}.
Implicit Types (entry parent p x y w : ptr).
Abbreviation M := (M Key Value).

Fixpoint _find_loop (key_hash : Z) (node : ptr) (fuel : nat) : M ptr :=
  match fuel with
  | O => no_fuel
  | S fuel =>
      if is_null node then ret None
      else
        let* hash := fetch node _hash in
        if key_hash =? hash then ret node
        else if hash <? key_hash
             then let* g := fetch node _greater in _find_loop key_hash g fuel
             else let* l := fetch node _lesser in _find_loop key_hash l fuel
  end.

(** The number of entries bounds the walks through the tree and the list. *)
Definition fuel_of : M nat := this (fun d => S (size (entries d))).

(** [int key_hash = Hasher::Hash(key)], while [Entry::_hash] is an [int], too. *)
Definition _find (key : Key) : M ptr :=
  let* fuel := fuel_of in
  let* root := this _root in
  _find_loop (Hash key) root fuel.

Definition _link entry : M unit :=
  let* last := this _last in
  (if is_null last
   then set_first entry ;;* set_last entry
   else assign last (put_next entry) ;;* assign entry (put_prev last) ;;* set_last entry) ;;*
  let* n := this _size in
  set_size (u32 (n + 1)).

Definition _unlink entry : M unit :=
  let* prev := fetch entry _prev in
  let* next := fetch entry _next in
  (if is_null prev then ret tt else assign prev (put_next next)) ;;*
  (let* next := fetch entry _next in
   if is_null next then ret tt
   else let* prev := fetch entry _prev in assign next (put_prev prev)) ;;*
  let* next := fetch entry _next in
  (let* first := this _first in if same first entry then set_first next else ret tt) ;;*
  (let* last := this _last in
   if same last entry then let* prev := fetch entry _prev in set_last prev else ret tt) ;;*
  let* n := this _size in
  set_size (u32 (n - 1)).

Definition _rotateRight entry : M ptr :=
  let* p := fetch entry _parent in
  let* replacement := fetch entry _lesser in
  if is_null replacement then ret None
  else
    let* root := this _root in
    (if same entry root
     then set_root replacement ;;* assign replacement (put_parent None)
     else
       let* pl := fetch p _lesser in
       if same pl entry then _setLesser p replacement else _setGreater p replacement) ;;*
    let* g := fetch replacement _greater in
    _setLesser entry g ;;*
    _setGreater replacement entry ;;*
    ret replacement.

Definition _rotateLeft entry : M ptr :=
  let* p := fetch entry _parent in
  let* replacement := fetch entry _greater in
  if is_null replacement then ret None
  else
    let* root := this _root in
    (if same entry root
     then set_root replacement ;;* assign replacement (put_parent None)
     else
       let* pg := fetch p _greater in
       if same pg entry then _setGreater p replacement else _setLesser p replacement) ;;*
    let* l := fetch replacement _lesser in
    _setGreater entry l ;;*
    _setLesser replacement entry ;;*
    ret replacement.

(** [y != NULL && y->_color == RED]: a missing entry counts as black. *)
Definition is_red p : M bool :=
  if is_null p then ret false else let* c := fetch p _color in ret (bool_decide (c = RED)).

(** The end of both branches of [_validateInsert]: recolour, then rotate the grandparent. *)
Definition recolor_rotate (rotate : ptr -> M ptr) entry : M unit :=
  (let* p := fetch entry _parent in
   if is_null p then ret tt else assign p (put_color BLACK)) ;;*
  let* gp := grandparent entry in
  if is_null gp then ret tt
  else
    assign gp (put_color RED) ;;*
    let* gp := grandparent entry in
    rotate gp ;;* ret tt.

Definition recolor_up entry y : M ptr :=
  (let* p := fetch entry _parent in assign p (put_color BLACK)) ;;*
  assign y (put_color BLACK) ;;*
  (let* gp := grandparent entry in assign gp (put_color RED)) ;;*
  grandparent entry.

Fixpoint validate_loop entry (fuel : nat) : M unit :=
  match fuel with
  | O => no_fuel
  | S fuel =>
      let* root := this _root in
      let* go := if same entry root then ret false
                 else let* p := fetch entry _parent in
                      let* c := fetch p _color in ret (bool_decide (c = RED)) in
      if negb go then ret tt
      else
        let* gp := grandparent entry in
        if is_null gp then ret tt
        else
          let* p := fetch entry _parent in
          let* gl := fetch gp _lesser in
          if same p gl then
            let* y := fetch gp _greater in
            let* red := is_red y in
            if red then let* entry := recolor_up entry y in validate_loop entry fuel
            else
              let* pg := fetch p _greater in
              let* entry := if same entry pg then _rotateLeft p ;;* ret p else ret entry in
              recolor_rotate _rotateRight entry ;;* validate_loop entry fuel
          else
            let* y := fetch gp _lesser in
            let* red := is_red y in
            if red then let* entry := recolor_up entry y in validate_loop entry fuel
            else
              let* pl := fetch p _lesser in
              let* entry := if same entry pl then _rotateRight p ;;* ret p else ret entry in
              recolor_rotate _rotateLeft entry ;;* validate_loop entry fuel
  end.

Definition _validateInsert entry : M unit :=
  let* fuel := fuel_of in
  validate_loop entry fuel ;;*
  let* root := this _root in
  assign root (put_color BLACK).

(** The search of [_insert] for the place of the entry, which it is given. *)
Fixpoint insert_loop entry parent (fuel : nat) : M unit :=
  match fuel with
  | O => no_fuel
  | S fuel =>
      if is_null parent then ret tt
      else
        let* hash := fetch entry _hash in
        let* parent_hash := fetch parent _hash in
        if parent_hash <=? hash then
          let* g := fetch parent _greater in
          if is_null g then _setGreater parent entry else insert_loop entry g fuel
        else
          let* l := fetch parent _lesser in
          if is_null l then _setLesser parent entry else insert_loop entry l fuel
  end.

(** [_insert(entry, parent = NULL)]. *)
Definition _insert entry parent : M unit :=
  let* root := this _root in
  if is_null root then set_root entry
  else
    let parent := if is_null parent then root else parent in
    let* fuel := fuel_of in
    insert_loop entry parent fuel ;;*
    _validateInsert entry.

Definition is_black p : M bool := let* r := is_red p in ret (negb r).

(** The two sides of the loop of [_removeFixTree] are mirror images.  [near] is the child the entry is,
    [far] the other one, and a rotation is named by the child that it lifts. *)
Section fix_side.
Context (near far : Entry Key Value -> ptr) (lift_near lift_far : ptr -> M ptr).

(** The sibling; a red one is first made black by a rotation. *)
Definition black_sibling entry : M ptr :=
  let* p := fetch entry _parent in
  let* w := fetch p far in
  let* red := is_red w in
  if red then
    assign w (put_color BLACK) ;;*
    (let* p := fetch entry _parent in assign p (put_color RED)) ;;*
    (let* p := fetch entry _parent in lift_far p) ;;*
    let* p := fetch entry _parent in fetch p far
  else ret w.

Definition both_black w : M bool :=
  if is_null w then ret false
  else
    let* l := fetch w _lesser in
    let* b := is_black l in
    if b then let* g := fetch w _greater in is_black g else ret false.

(** The sibling whose far child is red, if there is a sibling at all. *)
Definition red_nephew entry w : M ptr :=
  let* far_black := if is_null w then ret false else let* f := fetch w far in is_black f in
  if far_black then
    (let* n := fetch w near in
     if is_null n then ret tt else assign n (put_color BLACK)) ;;*
    assign w (put_color RED) ;;*
    lift_near w ;;*
    let* p := fetch entry _parent in fetch p far
  else ret w.

(** The entry to go on with, and whether the loop goes on. *)
Definition fix_side entry : M (ptr * bool) :=
  let* w := black_sibling entry in
  let* both := both_black w in
  if both then
    assign w (put_color RED) ;;*
    let* p := fetch entry _parent in ret (p, true)
  else
    let* w := red_nephew entry w in
    if is_null w then ret (entry, false)
    else
      (let* p := fetch entry _parent in
       let* c := fetch p _color in assign w (put_color c)) ;;*
      let* wp := fetch w _parent in
      if is_null wp then ret (entry, true)
      else
        (let* p := fetch entry _parent in assign p (put_color BLACK)) ;;*
        (let* f := fetch w far in
         if is_null f then ret tt else assign f (put_color BLACK)) ;;*
        (let* p := fetch entry _parent in lift_far p) ;;*
        let* root := this _root in ret (root, true).
End fix_side.

Fixpoint fix_loop entry (fuel : nat) : M ptr :=
  match fuel with
  | O => no_fuel
  | S fuel =>
      let* root := this _root in
      let* go := if same entry root then ret false
                 else let* c := fetch entry _color in ret (bool_decide (c = BLACK)) in
      if negb go then ret entry
      else
        let* p := fetch entry _parent in
        let* pl := fetch p _lesser in
        let* (entry, go) :=
          if same entry pl then fix_side _lesser _greater _rotateRight _rotateLeft entry
          else fix_side _greater _lesser _rotateLeft _rotateRight entry in
        if go then fix_loop entry fuel else ret entry
  end.

Definition _removeFixTree entry : M unit :=
  let* fuel := fuel_of in
  let* entry := fix_loop entry fuel in
  assign entry (put_color BLACK).

(** [x] takes the place of [y] in the tree. *)
Definition splice y x : M unit :=
  (if is_null x then ret tt
   else let* yp := fetch y _parent in assign x (put_parent yp)) ;;*
  let* yp := fetch y _parent in
  if is_null yp then set_root x
  else
    let* l := fetch yp _lesser in
    if same y l then assign yp (put_lesser x) else assign yp (put_greater x).

(** [y] takes the place of [entry], with its children and its colour. *)
Definition transplant y entry : M unit :=
  (let* l := fetch entry _lesser in assign y (put_lesser l)) ;;*
  (let* l := fetch y _lesser in if is_null l then ret tt else assign l (put_parent y)) ;;*
  (let* g := fetch entry _greater in assign y (put_greater g)) ;;*
  (let* g := fetch y _greater in if is_null g then ret tt else assign g (put_parent y)) ;;*
  (let* p := fetch entry _parent in assign y (put_parent p)) ;;*
  (let* c := fetch entry _color in assign y (put_color c)) ;;*
  (let* p := fetch y _parent in if is_null p then ret tt else _replaceChild p entry y) ;;*
  let* root := this _root in
  if same entry root then set_root y else ret tt.

(** [_remove] once it knows the entry [y] to take out of the tree, with its child [x]. *)
Definition take_out entry y x : M unit :=
  splice y x ;;*
  let* c := fetch y _color in
  let fixflag := bool_decide (c = BLACK) && negb (is_null x) in
  (if same y entry then ret tt else transplant y entry) ;;*
  if fixflag then _removeFixTree x else ret tt.

Definition _remove entry : M unit :=
  let* l := fetch entry _lesser in
  let* g := fetch entry _greater in
  let* fuel := fuel_of in
  let* y := if is_null l || is_null g then ret entry else successor entry fuel in
  let* yl := fetch y _lesser in
  let* x := if is_null yl then fetch y _greater else ret yl in
  take_out entry y x.
End internals.

(** ** The public methods *)

Section public.
Context {Key Value : Type} `{Hasher Key} `{DefaultValue Value}.
Abbreviation M := (M Key Value).

Definition Dictionary_new : Dictionary Key Value := mkDictionary 0 None None None ∅.

Definition hasKey (key : Key) : M bool := let* entry := _find key in ret (negb (is_null entry)).

Definition add (key : Key) (value : Value) : M unit :=
  let* found := hasKey key in
  if found then throw InvalidArgumentException
  else
    let* entry := new (Entry_new key) in
    assign entry (put_value value) ;;*
    _link entry ;;*
    _insert entry None.

Definition remove_entry (entry : ptr) : M unit :=
  _unlink entry ;;* _remove entry ;;* free entry.

Definition remove (key : Key) : M unit :=
  let* entry := _find key in
  if is_null entry then throw NullPointerException else remove_entry entry.

Definition get (key : Key) : M Value :=
  let* entry := _find key in
  if is_null entry then throw NullPointerException else fetch entry _value.

(** [operator[]]: the entry whose value the result refers to.  Reading and assigning through the
    reference are [fetch _ _value] and [assign _ (put_value _)]. *)
Definition index (key : Key) : M ptr :=
  let* entry := _find key in
  if is_null entry then
    let* entry := new (Entry_new key) in
    _link entry ;;* _insert entry None ;;* ret entry
  else ret entry.

(** [d[key] = value], and [d[key]] read. *)
Definition put (key : Key) (value : Value) : M unit :=
  let* r := index key in assign r (put_value value).
Definition at_key (key : Key) : M Value :=
  let* r := index key in fetch r _value.

Fixpoint contains_loop (eqb : Value -> Value -> bool) (entry : ptr) (value : Value) (fuel : nat) : M bool :=
  match fuel with
  | O => no_fuel
  | S fuel =>
      if is_null entry then ret false
      else
        let* v := fetch entry _value in
        if eqb v value then ret true
        else let* next := fetch entry _next in contains_loop eqb next value fuel
  end.

Definition containsValue (eqb : Value -> Value -> bool) (value : Value) : M bool :=
  let* fuel := fuel_of in
  let* entry := this _first in
  contains_loop eqb entry value fuel.

Definition size : M Z := this _size.
Definition isEmpty : M bool := let* n := size in ret (n =? 0).

Fixpoint clear_loop (entry : ptr) (fuel : nat) : M unit :=
  match fuel with
  | O => no_fuel
  | S fuel =>
      if is_null entry then ret tt
      else
        let* next := fetch entry _next in
        free entry ;;*
        clear_loop next fuel
  end.

Definition clear : M unit :=
  let* fuel := fuel_of in
  let* entry := this _first in
  clear_loop entry fuel ;;*
  set_size 0 ;;* set_root None ;;* set_first None ;;* set_last None.

(** An [Iterator] is its [_entry]; [end()] is the constant [_iter_end]. *)
Definition begin_iter : M ptr := this _first.
Definition end_iter : M ptr := ret None.
Definition find (key : Key) : M ptr :=
  let* entry := _find key in if is_null entry then end_iter else ret entry.
Definition iter_next (iter : ptr) : M ptr := fetch iter _next.
Definition iter_prev (iter : ptr) : M ptr := fetch iter _prev.
(** [iter++] gives back the iterator it moved: the pair of the result and the iterator. *)
Definition iter_post_next (iter : ptr) : M (ptr * ptr) := let* i := iter_next iter in ret (i, i).
Definition iter_post_prev (iter : ptr) : M (ptr * ptr) := let* i := iter_prev iter in ret (i, i).
Definition iter_eq (i j : ptr) : bool := same i j.
Definition iter_key (iter : ptr) : M Key := fetch iter _key.
Definition iter_value (iter : ptr) : M Value := fetch iter _value.

(** [remove(Iterator&)]: the iterator after it. *)
Definition remove_iter (iter : ptr) : M ptr :=
  let* key := iter_key iter in
  let* entry := _find key in
  if is_null entry then throw NullPointerException
  else
    let* iter := iter_next iter in
    remove_entry entry ;;* ret iter.

(** The loop [for (iter = begin(); iter != end(); ++iter)] over keys and values. *)
Fixpoint items_loop (iter : ptr) (fuel : nat) : M (list (Key * Value)) :=
  match fuel with
  | O => no_fuel
  | S fuel =>
      let* stop := end_iter in
      if iter_eq iter stop then ret []
      else
        let* k := iter_key iter in
        let* v := iter_value iter in
        let* iter := iter_next iter in
        let* rest := items_loop iter fuel in
        ret ((k, v) :: rest)
  end.

Definition items : M (list (Key * Value)) :=
  let* fuel := fuel_of in
  let* iter := begin_iter in
  items_loop iter fuel.
End public.

(** A dictionary from numbers to numbers, with the hash of [String::Hash(const int32&)]. *)
#[export] Instance Hasher_Z : Hasher Z := fun i => s32 i.
#[export] Instance DefaultValue_Z : DefaultValue Z := 0.

Definition run {Key Value A} (m : M Key Value A) (d : Dictionary Key Value) : res A :=
  let? (a, _) := m d in Ok a.

Example dict_1 :
  run (put 5 50 ;;* put 3 30 ;;* put 8 80 ;;* put 1 10 ;;* remove 3 ;;* put 8 81 ;;*
       let* l := items in let* v := at_key 8 in let* b := hasKey 3 in ret (l, v, b)) Dictionary_new =
  Ok ([(5, 50); (8, 81); (1, 10)], 81, false).
Proof. vm_compute. reflexivity. Qed.
