(* ===== verification/DictTree.v ===== *)
(** * The tree of a Dictionary

    What the commands of [Dictionary] do to the red-black tree.  [holds] relates the links of the
    entries (parent, children, colour, hash) and the root to a [tree]; a place in it is a zipper
    ([fill]).  Whatever the colours, rotations, insertion, removal and both repair loops keep the
    links a tree with the same entries in the same order. *)

From Stdlib Require Import Sorted.
From S2P Require Import Prelude Dictionary.

(** ** Trees and their places *)

Inductive tree := Leaf | Node (l : loc) (c : COLOR) (k : Z) (a b : tree).
Inductive side := L | R.
#[export] Instance side_eq_dec : EqDecision side.
Proof. solve_decision. Defined.
Definition opposite (s : side) : side := match s with L => R | R => L end.

(** A node by the child on side [s] and the other one. *)
Definition node (s : side) (l : loc) (c : COLOR) (k : Z) (near far : tree) : tree :=
  match s with L => Node l c k near far | R => Node l c k far near end.

Definition ptr_of (t : tree) : ptr := match t with Leaf => None | Node l _ _ _ _ => Some l end.

(** The entries from the least hash to the greatest, when the tree is ordered. *)
Fixpoint inorder (t : tree) : list (loc * Z) :=
  match t with Leaf => [] | Node l _ k a b => inorder a ++ (l, k) :: inorder b end.
Definition locs (t : tree) : list loc := (inorder t).*1.

(** A place: the hole is the child on side [fside] of the entry [floc], whose other child is [fsib]. *)
Record frame := Frame { fside : side; floc : loc; fcolor : COLOR; fhash : Z; fsib : tree }.
Definition plug (f : frame) (t : tree) : tree :=
  node (fside f) (floc f) (fcolor f) (fhash f) t (fsib f).
Definition fill (ctx : list frame) (t : tree) : tree := foldl (fun t f => plug f t) t ctx.
Definition par_of (ctx : list frame) : ptr := match ctx with [] => None | f :: _ => Some (floc f) end.
Fixpoint clocs (ctx : list frame) : list loc :=
  match ctx with [] => [] | f :: ctx => floc f :: locs (fsib f) ++ clocs ctx end.


(** ** The links of the entries *)

Record Link := mkLink { lparent : ptr; llesser : ptr; lgreater : ptr; lcolor : COLOR; lhash : Z }.

Definition link {K V} (e : Entry K V) : Link :=
  mkLink (_parent e) (_lesser e) (_greater e) (_color e) (_hash e).
Definition links {K V} (d : Dictionary K V) : gmap loc Link := link <$> entries d.

(** What the commands on the tree leave alone in an entry, and in a dictionary. *)
Definition rest_of {K V} (e : Entry K V) := (_prev e, _next e, _key e, _value e).
Definition same_rest {K V} (d d' : Dictionary K V) : Prop :=
  _size d' = _size d /\ _first d' = _first d /\ _last d' = _last d /\
  rest_of <$> entries d' = rest_of <$> entries d.

#[export] Instance same_rest_preorder {K V} : PreOrder (@same_rest K V).
Proof. split; [by intros d|]. intros d1 d2 d3 (? & ? & ? & ?) (? & ? & ? & ?). repeat split; congruence. Qed.

Definition link_at (par : ptr) (s : side) (c : COLOR) (k : Z) (near far : ptr) : Link :=
  match s with L => mkLink par near far c k | R => mkLink par far near c k end.

Fixpoint tree_at (m : gmap loc Link) (par : ptr) (t : tree) : Prop :=
  match t with
  | Leaf => True
  | Node l c k a b =>
      m !! l = Some (mkLink par (ptr_of a) (ptr_of b) c k) /\
      tree_at m (Some l) a /\ tree_at m (Some l) b
  end.

(** The surroundings of a hole filled with [p]; [r] is the root. *)
Fixpoint ctx_at (m : gmap loc Link) (r p : ptr) (ctx : list frame) : Prop :=
  match ctx with
  | [] => r = p
  | f :: ctx =>
      m !! floc f = Some (link_at (par_of ctx) (fside f) (fcolor f) (fhash f) p (ptr_of (fsib f))) /\
      tree_at m (Some (floc f)) (fsib f) /\ ctx_at m r (Some (floc f)) ctx
  end.

Definition holds (m : gmap loc Link) (r : ptr) (t : tree) : Prop :=
  tree_at m None t /\ r = ptr_of t /\ NoDup (locs t).

Lemma tree_at_node m par s l c k a b :
  tree_at m par (node s l c k a b) <->
  m !! l = Some (link_at par s c k (ptr_of a) (ptr_of b)) /\ tree_at m (Some l) a /\ tree_at m (Some l) b.
Proof. destruct s; simpl; tauto. Qed.

Lemma ptr_of_node s l c k a b : ptr_of (node s l c k a b) = Some l.
Proof. by destruct s. Qed.

Lemma locs_node s l c k a b : locs (node s l c k a b) ≡ₚ l :: locs a ++ locs b.
Proof. unfold locs. destruct s; simpl; rewrite fmap_app; simpl; solve_Permutation. Qed.

Lemma locs_Node l c k a b : locs (Node l c k a b) ≡ₚ l :: locs a ++ locs b.
Proof. apply (locs_node L). Qed.

Lemma locs_fill ctx t : locs (fill ctx t) ≡ₚ locs t ++ clocs ctx.
Proof.
  revert t. induction ctx as [|f ctx IH]; intros t; simpl; [by rewrite app_nil_r|].
  rewrite IH. unfold plug. rewrite locs_node. solve_Permutation.
Qed.

Lemma fill_at m r ctx t :
  tree_at m None (fill ctx t) /\ r = ptr_of (fill ctx t) <->
  tree_at m (par_of ctx) t /\ ctx_at m r (ptr_of t) ctx.
Proof.
  revert t. induction ctx as [|f ctx IH]; intros t; simpl; [done|].
  rewrite IH. unfold plug. rewrite tree_at_node, ptr_of_node. tauto.
Qed.

(** A tree, seen from one of its places. *)
Definition at_place (m : gmap loc Link) (r : ptr) (ctx : list frame) (t : tree) : Prop :=
  tree_at m (par_of ctx) t /\ ctx_at m r (ptr_of t) ctx /\ NoDup (locs t ++ clocs ctx).

(** The links determine the tree. *)
Lemma tree_at_inj m par par' t t' : tree_at m par t -> tree_at m par' t' -> ptr_of t = ptr_of t' -> t = t'.
Proof.
  revert par par' t'. induction t as [|l c k a IHa b IHb]; intros par par' [|l' c' k' a' b']; try done; cbn.
  intros (Hl & Ha & Hb) (Hl' & Ha' & Hb') [= <-]. rewrite Hl in Hl'. injection Hl' as _ Ea Eb -> ->.
  by rewrite (IHa _ _ _ Ha Ha' Ea), (IHb _ _ _ Hb Hb' Eb).
Qed.
Lemma holds_inj m r t t' : holds m r t -> holds m r t' -> t = t'.
Proof. intros (Ht & -> & _) (Ht' & E & _). by eapply tree_at_inj. Qed.

Lemma holds_fill m r ctx t : holds m r (fill ctx t) <-> at_place m r ctx t.
Proof. unfold holds, at_place. rewrite locs_fill. pose proof (fill_at m r ctx t). tauto. Qed.

Lemma tree_at_insert m l k par t : (l ∉ locs t) -> tree_at (<[l:=k]> m) par t <-> tree_at m par t.
Proof.
  revert par. induction t as [|l' c k' a IHa b IHb]; intros par; simpl; [done|].
  rewrite locs_Node, not_elem_of_cons, not_elem_of_app. intros (? & ? & ?).
  rewrite IHa, IHb, lookup_insert_ne by done. done.
Qed.

Lemma tree_at_ext m m' par t : (forall l, l ∈ locs t -> m' !! l = m !! l) -> tree_at m par t -> tree_at m' par t.
Proof.
  revert par. induction t as [|l c k a IHa b IHb]; intros par Hm; simpl; [done|].
  setoid_rewrite locs_Node in Hm. intros (? & ? & ?). split_and!.
  - rewrite Hm; [done|left].
  - apply IHa; [|done]. intros x ?. apply Hm. right. apply elem_of_app. by left.
  - apply IHb; [|done]. intros x ?. apply Hm. right. apply elem_of_app. by right.
Qed.

Lemma ctx_at_insert m l k r p ctx : (l ∉ clocs ctx) -> ctx_at (<[l:=k]> m) r p ctx <-> ctx_at m r p ctx.
Proof.
  revert p. induction ctx as [|f ctx IH]; intros p; simpl; [done|].
  rewrite not_elem_of_cons, not_elem_of_app. intros (? & ? & ?).
  rewrite IH, tree_at_insert, lookup_insert_ne by done. done.
Qed.

(** Below the top the root is one of the entries around the hole. *)
Lemma ctx_root m r p f ctx : ctx_at m r p (f :: ctx) -> exists l, r = Some l /\ l ∈ clocs (f :: ctx).
Proof.
  revert p f. induction ctx as [|f' ctx IH]; intros p f (_ & _ & H).
  - exists (floc f). split; [done|left].
  - destruct (IH _ _ H) as (l & -> & Hl). exists l. split; [done|].
    simpl in *. rewrite elem_of_cons, elem_of_app. auto.
Qed.

(** ** Running commands on the links *)

Section wp.
Context {K V : Type}.
Implicit Types d : Dictionary K V.

(** From any dictionary with the links [m] and the root [r] the command succeeds, changes nothing
    but links and root, and ends as [Q] says. *)
Definition wp {A} (c : M K V A) (m : gmap loc Link) (r : ptr)
    (Q : A -> gmap loc Link -> ptr -> Prop) : Prop :=
  forall d, links d = m -> _root d = r ->
  exists a d', c d = Ok (a, d') /\ same_rest d d' /\ Q a (links d') (_root d').

Lemma wp_mono {A} (c : M K V A) m r (Q Q' : A -> gmap loc Link -> ptr -> Prop) :
  wp c m r Q -> (forall a m' r', Q a m' r' -> Q' a m' r') -> wp c m r Q'.
Proof. intros H HQ d Hm Hr. destruct (H d Hm Hr) as (a & d' & ? & ? & ?). eauto 10. Qed.

Lemma wp_ret {A} (a : A) m r (Q : A -> gmap loc Link -> ptr -> Prop) : Q a m r -> wp (ret a) m r Q.
Proof. intros H d <- <-. by exists a, d. Qed.

Lemma wp_bind {A B} (c : M K V A) (f : A -> M K V B) m r Q :
  wp c m r (fun a m' r' => wp (f a) m' r' Q) -> wp (let* a := c in f a) m r Q.
Proof.
  intros H d Hm Hr. destruct (H d Hm Hr) as (a & d1 & E & F1 & H1).
  destruct (H1 d1 eq_refl eq_refl) as (b & d2 & E2 & F2 & H2).
  exists b, d2. unfold andThen. rewrite E. simpl. split_and!; [done| |done]. by etransitivity.
Qed.

Lemma wp_this_root m r (Q : ptr -> gmap loc Link -> ptr -> Prop) : Q r m r -> wp (this _root) m r Q.
Proof. intros H d <- <-. eexists _, d. by unfold this. Qed.

Lemma wp_set_root p m r (Q : unit -> gmap loc Link -> ptr -> Prop) : Q tt m p -> wp (set_root p) m r Q.
Proof. intros H d <- <-. eexists _, _. by split_and!. Qed.

Lemma wp_fuel_of m r (Q : nat -> gmap loc Link -> ptr -> Prop) :
  Q (S (base.size m)) m r -> wp fuel_of m r Q.
Proof.
  intros H d <- <-. eexists _, d. split_and!; [done..|].
  unfold links in *. by rewrite map_size_fmap in H.
Qed.

Lemma wp_fetch {A} (f : Entry K V -> A) (F : Link -> A) l k m r (Q : A -> gmap loc Link -> ptr -> Prop) :
  (forall e, f e = F (link e)) -> m !! l = Some k -> Q (F k) m r -> wp (fetch (Some l) f) m r Q.
Proof.
  intros Hf Hl H d <- <-. unfold links in Hl. rewrite lookup_fmap in Hl.
  destruct (entries d !! l) as [e|] eqn:E; simplify_eq/=.
  exists (f e), d. unfold fetch. rewrite E. split_and!; [done..|by rewrite Hf].
Qed.

Lemma wp_assign g (G : Link -> Link) l k m r (Q : unit -> gmap loc Link -> ptr -> Prop) :
  (forall e : Entry K V, link (g e) = G (link e)) -> (forall e, rest_of (g e) = rest_of e) ->
  m !! l = Some k -> Q tt (<[l := G k]> m) r -> wp (assign (Some l) g) m r Q.
Proof.
  intros Hg Hr Hl H d <- <-. unfold links in Hl. rewrite lookup_fmap in Hl.
  destruct (entries d !! l) as [e|] eqn:E; simplify_eq/=.
  eexists tt, _. unfold assign. rewrite E. split_and!; [done| |].
  - repeat split. simpl. rewrite fmap_insert, Hr. apply insert_id. by rewrite lookup_fmap, E.
  - unfold links, with_entries. simpl. by rewrite fmap_insert, Hg.
Qed.

Definition wp_parent := wp_fetch _parent lparent.
Definition wp_lesser := wp_fetch _lesser llesser.
Definition wp_greater := wp_fetch _greater lgreater.
Definition wp_color := wp_fetch _color lcolor.
Definition wp_hash := wp_fetch _hash lhash.
Definition wp_put_parent p :=
  wp_assign (put_parent p) (fun k => mkLink p (llesser k) (lgreater k) (lcolor k) (lhash k)).
Definition wp_put_lesser p :=
  wp_assign (put_lesser p) (fun k => mkLink (lparent k) p (lgreater k) (lcolor k) (lhash k)).
Definition wp_put_greater p :=
  wp_assign (put_greater p) (fun k => mkLink (lparent k) (llesser k) p (lcolor k) (lhash k)).
Definition wp_put_color c :=
  wp_assign (put_color c) (fun k => mkLink (lparent k) (llesser k) (lgreater k) c (lhash k)).
End wp.

(** ** Automation *)

(** That two lists have no element in common, as facts about their parts. *)
Definition disj (A B : list loc) : Prop := forall l, l ∈ A -> (l ∉ B).

Lemma NoDup_disj A B : NoDup (A ++ B) <-> NoDup A /\ disj A B /\ NoDup B.
Proof. apply NoDup_app. Qed.
Lemma disj_nil_l B : disj [] B <-> True.
Proof. unfold disj. set_solver. Qed.
Lemma disj_nil_r A : disj A [] <-> True.
Proof. unfold disj. set_solver. Qed.
Lemma disj_cons_l x A B : disj (x :: A) B <-> (x ∉ B) /\ disj A B.
Proof. unfold disj. set_solver. Qed.
Lemma disj_cons_r x A B : disj A (x :: B) <-> (x ∉ A) /\ disj A B.
Proof. unfold disj. set_solver. Qed.
Lemma disj_app_l A1 A2 B : disj (A1 ++ A2) B <-> disj A1 B /\ disj A2 B.
Proof. unfold disj. set_solver. Qed.
Lemma disj_app_r A B1 B2 : disj A (B1 ++ B2) <-> disj A B1 /\ disj A B2.
Proof. unfold disj. set_solver. Qed.
#[export] Instance disj_proper : Proper ((≡ₚ) ==> (≡ₚ) ==> iff) disj.
Proof. intros A A' HA B B' HB. unfold disj. setoid_rewrite HA. by setoid_rewrite HB. Qed.

Lemma locs_Leaf : locs Leaf = [].
Proof. done. Qed.
Lemma not_in_Node z l c k a b : (z ∉ locs (Node l c k a b)) <-> z <> l /\ (z ∉ locs a) /\ (z ∉ locs b).
Proof. rewrite locs_Node. set_solver. Qed.
Lemma NoDup_Node l c k a b :
  NoDup (locs (Node l c k a b)) <->
  (l ∉ locs a) /\ (l ∉ locs b) /\ disj (locs a) (locs b) /\ NoDup (locs a) /\ NoDup (locs b).
Proof. rewrite locs_Node, NoDup_cons, NoDup_disj. set_solver. Qed.
Lemma disj_Node_l l c k a b B :
  disj (locs (Node l c k a b)) B <-> (l ∉ B) /\ disj (locs a) B /\ disj (locs b) B.
Proof. by rewrite locs_Node, disj_cons_l, disj_app_l. Qed.
Lemma disj_Node_r l c k a b A :
  disj A (locs (Node l c k a b)) <-> (l ∉ A) /\ disj A (locs a) /\ disj A (locs b).
Proof. by rewrite locs_Node, disj_cons_r, disj_app_r. Qed.
Lemma NoDup_frames f ctx :
  NoDup (clocs (f :: ctx)) <->
  (floc f ∉ locs (fsib f)) /\ (floc f ∉ clocs ctx) /\ disj (locs (fsib f)) (clocs ctx) /\
  NoDup (locs (fsib f)) /\ NoDup (clocs ctx).
Proof. cbn [clocs]. rewrite NoDup_cons, NoDup_disj. set_solver. Qed.
Lemma disj_frames f ctx A :
  disj A (clocs (f :: ctx)) <-> (floc f ∉ A) /\ disj A (locs (fsib f)) /\ disj A (clocs ctx).
Proof. cbn [clocs]. by rewrite disj_cons_r, disj_app_r. Qed.
Lemma not_in_frames z f ctx :
  (z ∉ clocs (f :: ctx)) <-> z <> floc f /\ (z ∉ locs (fsib f)) /\ (z ∉ clocs ctx).
Proof. cbn [clocs]. set_solver. Qed.

#[global] Arguments locs : simpl never.
#[global] Arguments clocs : simpl never.

(** Split what says that the parts of a tree are disjoint into its facts. *)
Ltac disjoint1 :=
  match goal with
  | H : NoDup (_ ++ _) |- _ => apply NoDup_disj in H as (? & ? & ?)
  | H : NoDup (locs (Node _ _ _ _ _)) |- _ => apply NoDup_Node in H as (? & ? & ? & ? & ?)
  | H : NoDup (clocs (_ :: _)) |- _ => apply NoDup_frames in H as (? & ? & ? & ? & ?)
  | H : disj (locs (Node _ _ _ _ _)) _ |- _ => apply disj_Node_l in H as (? & ? & ?)
  | H : disj _ (locs (Node _ _ _ _ _)) |- _ => apply disj_Node_r in H as (? & ? & ?)
  | H : disj _ (clocs (_ :: _)) |- _ => apply disj_frames in H as (? & ? & ?)
  | H : _ ∉ locs (Node _ _ _ _ _) |- _ => apply not_in_Node in H as (? & ? & ?)
  | H : _ ∉ clocs (_ :: _) |- _ => apply not_in_frames in H as (? & ? & ?)
  end.
Ltac disjoint := repeat disjoint1; cbn [floc fsib fside fcolor fhash] in *.

(** Look up an entry in links that were assigned to. *)
Ltac links :=
  lazymatch goal with
  | |- <[?i := _]> _ !! ?i = _ => apply lookup_insert_eq
  | |- <[_ := _]> _ !! _ = _ =>
      rewrite lookup_insert_ne by (assumption || (apply not_eq_sym; assumption)); links
  | _ => eassumption
  end.

(** Decide a comparison of pointers or colours when the context says how it ends. *)
Ltac step_if P :=
  first [ rewrite (bool_decide_eq_true_2 P) by reflexivity
        | rewrite (bool_decide_eq_false_2 P) by (first [assumption | intros [=]; subst; contradiction])
        | case_bool_decide ].

(** Run one command. *)
Ltac step1 :=
  lazymatch goal with
  | |- wp (andThen _ _) _ _ _ => apply wp_bind
  | |- wp (ret _) _ _ _ => apply wp_ret
  | |- wp (this _root) _ _ _ => apply wp_this_root
  | |- wp (set_root _) _ _ _ => apply wp_set_root
  | |- wp (fetch (Some _) _parent) _ _ _ => eapply wp_parent; [done|links|]
  | |- wp (fetch (Some _) _lesser) _ _ _ => eapply wp_lesser; [done|links|]
  | |- wp (fetch (Some _) _greater) _ _ _ => eapply wp_greater; [done|links|]
  | |- wp (fetch (Some _) _color) _ _ _ => eapply wp_color; [done|links|]
  | |- wp (fetch (Some _) _hash) _ _ _ => eapply wp_hash; [done|links|]
  | |- wp (assign (Some _) (put_parent _)) _ _ _ => eapply wp_put_parent; [done|done|links|]
  | |- wp (assign (Some _) (put_lesser _)) _ _ _ => eapply wp_put_lesser; [done|done|links|]
  | |- wp (assign (Some _) (put_greater _)) _ _ _ => eapply wp_put_greater; [done|done|links|]
  | |- wp (assign (Some _) (put_color _)) _ _ _ => eapply wp_put_color; [done|done|links|]
  | |- wp (if bool_decide ?P then _ else _) _ _ _ => step_if P
  | |- wp (if negb (bool_decide ?P) then _ else _) _ _ _ => step_if P
  end; cbn [lparent llesser lgreater lcolor lhash negb andb orb].
Ltac steps := repeat step1.

Lemma ptr_of_in t l : ptr_of t = Some l -> l ∈ locs t.
Proof. destruct t; [done|]. simpl. intros [= ->]. rewrite locs_Node. left. Qed.

(** An entry is outside a tree. *)
Ltac outside :=
  rewrite ?not_in_Node; repeat split; assumption || (apply not_eq_sym; assumption).
Ltac absurd_ptr :=
  match goal with
  | H : ptr_of _ = Some _ |- _ => by apply ptr_of_in in H
  | H : Some _ = ptr_of _ |- _ => by symmetry in H; apply ptr_of_in in H
  end.

(** Whatever the assignments did not touch is as before. *)
Ltac untouched :=
  first [ done | links
        | rewrite ?tree_at_insert by outside; done
        | rewrite ?ctx_at_insert by outside; done ].

Lemma inorder_rotate s x cx kx y cy ky a b c :
  inorder (node s y cy ky a (node s x cx kx b c)) = inorder (node s x cx kx (node s y cy ky a b) c).
Proof. destruct s; simpl; by rewrite <- !app_assoc. Qed.

Lemma inorder_plug f t t' : inorder t = inorder t' -> inorder (plug f t) = inorder (plug f t').
Proof. intros E. destruct f as [[] ? ? ? ?]; simpl; by rewrite E. Qed.
Lemma inorder_fill ctx t t' : inorder t = inorder t' -> inorder (fill ctx t) = inorder (fill ctx t').
Proof. revert t t'. induction ctx as [|f ctx IH]; intros t t' E; [done|]. by apply IH, inorder_plug. Qed.

(** To show that a command leaves a tree with the same entries, look at one place of it. *)
Lemma wp_holds {K V A} (c : M K V A) m r ctx t t' (P : A -> Prop) :
  holds m r (fill ctx t) -> inorder t' = inorder t ->
  (tree_at m (par_of ctx) t -> ctx_at m r (ptr_of t) ctx -> NoDup (locs t ++ clocs ctx) ->
   wp c m r (fun a m' r' => P a /\ tree_at m' (par_of ctx) t' /\ ctx_at m' r' (ptr_of t') ctx)) ->
  wp c m r (fun a m' r' => P a /\ holds m' r' (fill ctx t')).
Proof.
  intros H E Hc. apply holds_fill in H as (Ht & Hctx & Hd). eapply wp_mono; [by apply Hc|].
  intros a m' r' (? & ? & ?). split; [done|]. apply holds_fill. split_and!; [done..|].
  unfold locs. rewrite E. exact Hd.
Qed.

Definition rotate_up {K V} (s : side) : ptr -> M K V ptr := match s with L => _rotateRight | R => _rotateLeft end.

Lemma rotate_ok {K V} s ctx x cx kx y cy ky a b c m r :
  holds m r (fill ctx (node s x cx kx (node s y cy ky a b) c)) ->
  wp (K := K) (V := V) (rotate_up s (Some x)) m r (fun p m' r' =>
    p = Some y /\ holds m' r' (fill ctx (node s y cy ky a (node s x cx kx b c)))).
Proof.
  intros H. apply (wp_holds _ _ _ _ _ _ _ H (inorder_rotate _ _ _ _ _ _ _ _ _ _)).
  intros Ht Hc Hd. clear H.
  assert (match ctx with [] => r = Some x | _ => exists l, r = Some l /\ x <> l end) as Hroot.
  { destruct ctx as [|f ctx]; [by rewrite ptr_of_node in Hc|].
    destruct (ctx_root _ _ _ _ _ Hc) as (l & -> & Hl). exists l. split; [done|].
    rewrite locs_node, <-app_comm_cons, NoDup_cons in Hd. intros ->. apply Hd. set_solver. }
  rewrite !tree_at_node, !ptr_of_node in *. destruct Ht as (Hx & (Hy & Ha & Hb) & Hcc).
  destruct s, ctx as [|[[] pl pc pk sib] ctx], b as [|lb cb kb b1 b2]; simpl in *;
  destruct Hb as (Hb1 & Hb2 & Hb3) || clear Hb.
  all: disjoint; first [destruct Hroot as (l & -> & Hl) | subst r].
  all: unfold _rotateRight, _rotateLeft, _setLesser, _setGreater; simpl in *; destruct_and? Hc.
  all: steps; try absurd_ptr.
  all: split; [done|]; split_and!; untouched.
Qed.

(** The links of an entry at a place. *)
Lemma holds_link m r ctx s x c k a b :
  holds m r (fill ctx (node s x c k a b)) ->
  m !! x = Some (link_at (par_of ctx) s c k (ptr_of a) (ptr_of b)).
Proof. rewrite holds_fill. intros (H & _ & _). by apply tree_at_node in H as (? & _ & _). Qed.

Lemma holds_frame m r f ctx t :
  holds m r (fill (f :: ctx) t) ->
  m !! floc f = Some (link_at (par_of ctx) (fside f) (fcolor f) (fhash f) (ptr_of t) (ptr_of (fsib f))).
Proof. rewrite holds_fill. by intros (_ & [? _] & _). Qed.

(** ** Insertion *)

Definition color_of (t : tree) : COLOR := match t with Leaf => BLACK | Node _ c _ _ _ => c end.
Definition paint (c : COLOR) (t : tree) : tree :=
  match t with Leaf => Leaf | Node l _ k a b => Node l c k a b end.

(** What [_validateInsert] does above the entry at the root of [t], before it blackens the root: a red
    uncle is recoloured and the repair goes on at the grandparent, else one or two rotations end it. *)
Fixpoint insert_fix (ctx : list frame) (t : tree) : tree :=
  match ctx with
  | [] => t
  | Frame s1 p c1 k1 z :: rest =>
      match c1, rest with
      | RED, Frame s2 g c2 k2 y :: ctx' =>
          if decide (color_of y = RED) then
            insert_fix ctx' (node s2 g RED k2 (node s1 p BLACK k1 t z) (paint BLACK y))
          else if decide (s1 = s2) then
            fill ctx' (node s2 p BLACK k1 t (node s2 g RED k2 z y))
          else
            match t with
            | Leaf => fill ctx t
            | Node e _ ke a b =>
                let '(ta, tb) := match s2 with L => (a, b) | R => (b, a) end in
                fill ctx' (node s2 e BLACK ke (node s2 p RED k1 z ta) (node s2 g RED k2 tb y))
            end
      | _, _ => fill ctx t
      end
  end.

Lemma is_red_ok {K V} m r par t (Q : bool -> gmap loc Link -> ptr -> Prop) :
  tree_at m par t -> Q (bool_decide (color_of t = RED)) m r ->
  wp (K := K) (V := V) (is_red (ptr_of t)) m r Q.
Proof.
  intros Ht HQ. unfold is_red. destruct t as [|l c k a b]; simpl in *.
  - by apply wp_ret.
  - destruct Ht as (Hl & _). by steps.
Qed.

Lemma recolor_up_ok {K V} s1 s2 p e c1 k1 g c2 k2 ctx t z y m r :
  holds m r (fill (Frame s1 p c1 k1 z :: Frame s2 g c2 k2 y :: ctx) t) ->
  ptr_of t = Some e -> color_of y = RED ->
  wp (K := K) (V := V) (recolor_up (Some e) (ptr_of y)) m r (fun q m' r' =>
    q = Some g /\ holds m' r' (fill ctx (node s2 g RED k2 (node s1 p BLACK k1 t z) (paint BLACK y)))).
Proof.
  intros H He Hy. destruct y as [|ly cy ky y1 y2]; [done|]. destruct t as [|e' ce ke a b]; [done|].
  simplify_eq/=. change (fill (?f :: ?f' :: ctx) ?t) with (fill ctx (plug f' (plug f t))) in H.
  apply (wp_holds _ _ _ _ _ _ _ H); [by destruct s1, s2|]. intros Ht Hc Hd.
  unfold recolor_up, grandparent. destruct s1, s2; cbn in Ht, Hc, Hd |- *; destruct_and? Ht; disjoint; steps.
  all: split; [done|]; split_and!; try untouched.
Qed.

Lemma paint_ok m r ctx s x c c' k a b :
  holds m r (fill ctx (node s x c k a b)) ->
  holds (<[x := link_at (par_of ctx) s c' k (ptr_of a) (ptr_of b)]> m) r (fill ctx (node s x c' k a b)).
Proof.
  rewrite !holds_fill. intros (Ht & Hc & Hd). rewrite tree_at_node, ptr_of_node in *.
  destruct Ht as (? & ? & ?). unfold at_place. rewrite tree_at_node, ptr_of_node.
  destruct s; simpl in *; disjoint; split_and!; try untouched.
  all: rewrite NoDup_disj, NoDup_Node, disj_Node_l; split_and!; done.
Qed.

Lemma not_root m r f ctx t e : holds m r (fill (f :: ctx) t) -> ptr_of t = Some e -> r <> Some e.
Proof.
  rewrite holds_fill. intros (_ & Hc & Hd) He. destruct (ctx_root _ _ _ _ _ Hc) as (l & -> & Hl).
  apply ptr_of_in in He. apply NoDup_disj in Hd as (_ & Hd & _). intros [= ->]. by apply (Hd e).
Qed.

Lemma recolor_rotate_ok {K V} s ctx g c2 k2 p c1 k1 t z y e m r :
  holds m r (fill ctx (node s g c2 k2 (node s p c1 k1 t z) y)) -> ptr_of t = Some e ->
  wp (K := K) (V := V) (recolor_rotate (rotate_up s) (Some e)) m r (fun _ m' r' =>
    holds m' r' (fill ctx (node s p BLACK k1 t (node s g RED k2 z y)))).
Proof.
  intros H He. destruct t as [|e' ce ke ta tb]; [done|]. simplify_eq/=.
  pose proof (holds_link _ _ _ _ _ _ _ _ _ H) as Hg.
  change (fill ctx (node s g c2 k2 (node s p c1 k1 (Node e ce ke ta tb) z) y))
    with (fill (Frame s g c2 k2 y :: ctx) (node s p c1 k1 (Node e ce ke ta tb) z)) in H.
  pose proof (holds_link _ _ _ _ _ _ _ _ _ H) as Hp.
  change (fill (Frame s g c2 k2 y :: ctx) (node s p c1 k1 (Node e ce ke ta tb) z))
    with (fill (Frame s p c1 k1 z :: Frame s g c2 k2 y :: ctx) (node L e ce ke ta tb)) in H.
  pose proof (holds_link _ _ _ _ _ _ _ _ _ H) as He.
  assert (e <> p /\ e <> g /\ p <> g) as (? & ? & ?).
  { apply holds_fill in H as (_ & _ & Hd). simpl in Hd. disjoint. simpl in *. tauto. }
  apply (paint_ok _ _ (Frame s g c2 k2 y :: ctx) s p c1 BLACK k1 (Node e ce ke ta tb) z) in H.
  apply (paint_ok _ _ ctx s g c2 RED k2) in H.
  unfold recolor_rotate, grandparent. destruct s; cbn in Hg, Hp, He; steps.
  all: eapply wp_mono; [exact (rotate_ok _ _ _ _ _ _ _ _ _ _ _ _ _ H)|]; intros ??? [_ ?]; by steps.
Qed.

Lemma validate_ok {K V} fuel ctx t e m r :
  holds m r (fill ctx t) -> ptr_of t = Some e -> (length ctx < fuel)%nat ->
  wp (K := K) (V := V) (validate_loop (Some e) fuel) m r (fun _ m' r' => holds m' r' (insert_fix ctx t)).
Proof.
  revert ctx t e m r. induction fuel as [|fuel IH]; intros ctx t e m r H He Hf; [lia|].
  cbn [validate_loop]. destruct ctx as [|[s1 p c1 k1 z] rest].
  { pose proof H as (_ & -> & _). simpl in *. rewrite He in *. by steps. }
  pose proof (not_root _ _ _ _ _ _ H He) as Hr. apply not_eq_sym in Hr.
  pose proof (holds_frame _ _ _ _ _ H) as Hp. cbn [floc fside fcolor fhash fsib] in Hp.
  destruct t as [|e' ce ke ta tb]; [done|]. injection He as ->.
  pose proof (holds_link _ _ (Frame s1 p c1 k1 z :: rest) L _ _ _ _ _ H) as He. cbn in He.
  destruct c1; [|by destruct s1; cbn in *; steps].
  destruct rest as [|[s2 g c2 k2 y] ctx].
  { unfold grandparent. destruct s1; cbn in *; by steps. }
  assert (Some e <> ptr_of z /\ Some p <> ptr_of y) as (? & ?).
  { apply holds_fill in H as (_ & _ & Hd).  disjoint. simpl in *. split; intros E; symmetry in E; apply ptr_of_in in E; tauto. }
  assert (m !! g = Some (link_at (par_of ctx) s2 c2 k2 (Some p) (ptr_of y)) /\ tree_at m (Some g) y) as [Hg Hy].
  { apply holds_fill in H as (_ & Hc & _). cbn in Hc. tauto. }
  assert (forall s p kp t q e m' r', holds m' r' (fill ctx (node s p BLACK kp t q)) -> ptr_of t = Some e ->
    wp (K := K) (V := V) (validate_loop (Some e) fuel) m' r' (fun _ m' r' =>
      holds m' r' (fill ctx (node s p BLACK kp t q)))) as Hstop.
  { intros s p' kp t q e' m' r' H' He'.
    apply (IH (Frame s p' BLACK kp q :: ctx) _ _ _ _ H' He'). simpl in *. lia. }
  unfold grandparent. destruct s1, s2; cbn in Hp, Hg; steps.
  all: eapply is_red_ok; [exact Hy|]; case_bool_decide as Hred; steps.
  all: cbn [insert_fix]; first [rewrite decide_True by done | rewrite decide_False by done].
  all: try (eapply wp_mono; [by eapply recolor_up_ok|]; intros q m' r' [-> H'];
    eapply wp_mono; [apply (IH _ _ _ _ _ H'); [done|simpl in *; lia]|]; by intros ???).
  - eapply wp_mono; [exact (recolor_rotate_ok L ctx g c2 k2 p RED k1 _ z y e m r H eq_refl)|].
    intros ? m' r' H'. by eapply Hstop. 
  - eapply wp_mono; [apply (rotate_ok L (Frame R g c2 k2 y :: ctx) p RED k1 e ce ke ta tb z); exact H|].
    intros q m' r' [-> H']. steps.
    eapply wp_mono; [by eapply (recolor_rotate_ok R ctx g c2 k2 e ce ke (Node p RED k1 tb z) ta y)|].
    intros ? m'' r'' H''. by eapply Hstop.
  - eapply wp_mono; [apply (rotate_ok R (Frame L g c2 k2 y :: ctx) p RED k1 e ce ke tb ta z); exact H|].
    intros q m' r' [-> H']. steps.
    eapply wp_mono; [by eapply (recolor_rotate_ok L ctx g c2 k2 e ce ke (Node p RED k1 z ta) tb y)|].
    intros ? m'' r'' H''. by eapply Hstop.
  - eapply wp_mono; [exact (recolor_rotate_ok R ctx g c2 k2 p RED k1 _ z y e m r H eq_refl)|].
    intros ? m' r' H'. by eapply Hstop. 
Qed.

Lemma inorder_insert_fix ctx t : inorder (insert_fix ctx t) = inorder (fill ctx t).
Proof.
  remember (length ctx) as n eqn:Hn. revert ctx t Hn.
  induction n as [n IH] using lt_wf_ind; intros ctx t ->.
  destruct ctx as [|[s1 p [] k1 z] [|[s2 g c2 k2 y] ctx]]; try done.
  cbn [insert_fix]. case_decide as Hy; [|case_decide as Hs; [|destruct t as [|e ce ke a b]; [done|]]].
  - rewrite (IH (length ctx)) by (simpl; lia || done). apply (inorder_fill ctx).
    destruct s1, s2, y; simpl; by rewrite <- ?app_assoc.
  - subst s2. apply (inorder_fill ctx). destruct s1; simpl; by rewrite <- ?app_assoc.
  - destruct s1, s2; try done; apply (inorder_fill ctx); simpl; rewrite <- ?app_assoc; simpl; by rewrite <- ?app_assoc.
Qed.

Lemma tree_at_dom m par t : tree_at m par t -> forall l, l ∈ locs t -> l ∈ dom m.
Proof.
  revert par. induction t as [|l c k a IHa b IHb]; intros par; simpl; [by intros _ ? ?%elem_of_nil|].
  intros (Hl & Ha & Hb) z. rewrite locs_Node, elem_of_cons, elem_of_app.
  intros [->|[?|?]]; [by apply elem_of_dom|by eapply IHa|by eapply IHb].
Qed.

(** The entries of the tree are among those of the dictionary: its size bounds every walk. *)
Lemma holds_size m r t : holds m r t -> (length (locs t) <= base.size m)%nat.
Proof.
  intros (Ht & _ & Hd). rewrite <- size_dom. rewrite <- (size_list_to_set (C := gset loc) _ Hd).
  apply subseteq_size. intros l Hl. eapply tree_at_dom; [done|]. by apply elem_of_list_to_set in Hl.
Qed.

Lemma length_fill ctx t : (length (locs (fill ctx t)) = length (locs t) + length (clocs ctx))%nat.
Proof. by rewrite locs_fill, length_app. Qed.
Lemma length_clocs ctx : (length ctx <= length (clocs ctx))%nat.
Proof.
  induction ctx as [|f ctx IH]; [done|].
  change (clocs (f :: ctx)) with (floc f :: locs (fsib f) ++ clocs ctx).
  simpl. rewrite length_app. lia.
Qed.

Lemma paint_root_ok {K V} m r t c :
  holds m r t -> t <> Leaf ->
  wp (K := K) (V := V) (assign r (put_color c)) m r (fun _ m' r' => holds m' r' (paint c t)).
Proof.
  intros H Ht. destruct t as [|l c' k a b]; [done|]. pose proof H as (_ & -> & _).
  pose proof (holds_link _ _ [] L _ _ _ _ _ H) as Hl. pose proof (paint_ok _ _ [] L _ _ c _ _ _ H).
  cbn in *. by steps.
Qed.

Lemma validateInsert_ok {K V} ctx t e m r :
  holds m r (fill ctx t) -> ptr_of t = Some e ->
  wp (K := K) (V := V) (_validateInsert (Some e)) m r
    (fun _ m' r' => holds m' r' (paint BLACK (insert_fix ctx t))).
Proof.
  intros H He. unfold _validateInsert. apply wp_bind, wp_fuel_of, wp_bind.
  pose proof (holds_size _ _ _ H) as Hs. rewrite length_fill in Hs. pose proof (length_clocs ctx).
  eapply wp_mono; [apply (validate_ok _ _ _ _ _ _ H He); lia|]. intros ? m' r' H'. steps.
  apply paint_root_ok; [done|]. intros E. pose proof (inorder_insert_fix ctx t) as Ei. rewrite E in Ei.
  assert (e ∈ locs (fill ctx t)) as Hi.
  { rewrite locs_fill, elem_of_app. left. by apply ptr_of_in. }
  unfold locs in Hi. rewrite <- Ei in Hi. by apply elem_of_nil in Hi.
Qed.

(** The place [_insert] finds for a hash: right of the equal ones. *)
Fixpoint place (k : Z) (t : tree) (ctx : list frame) : list frame :=
  match t with
  | Leaf => ctx
  | Node l c k' a b =>
      if k' <=? k then place k b (Frame R l c k' a :: ctx) else place k a (Frame L l c k' b :: ctx)
  end.

Definition tree_insert (e : loc) (k : Z) (t : tree) : tree :=
  match t with
  | Leaf => Node e RED k Leaf Leaf
  | _ => paint BLACK (insert_fix (place k t []) (Node e RED k Leaf Leaf))
  end.

Fixpoint height (t : tree) : nat :=
  match t with Leaf => 0 | Node _ _ _ a b => S (Nat.max (height a) (height b)) end.

Lemma height_locs t : (height t <= length (locs t))%nat.
Proof.
  induction t as [|l c k a IHa b IHb]; [done|]. rewrite locs_Node, length_cons, length_app. simpl. lia.
Qed.

(** The new entry becomes the child on side [s] of an entry that has none there. *)
Lemma attach_ok {K V} s ctx l c k' b e k m r :
  holds m r (fill ctx (node s l c k' Leaf b)) -> m !! e = Some (mkLink None None None RED k) ->
  e ∉ locs (fill ctx (node s l c k' Leaf b)) ->
  wp (K := K) (V := V) (match s with L => _setLesser | R => _setGreater end (Some l) (Some e)) m r
    (fun _ m' r' => holds m' r' (fill (Frame s l c k' b :: ctx) (Node e RED k Leaf Leaf))).
Proof.
  intros H He Hout. rewrite locs_fill, locs_node in Hout.
  eapply wp_mono with (Q := fun _ m' r' => at_place m' r' (Frame s l c k' b :: ctx) (Node e RED k Leaf Leaf)).
  2:{ intros ???. by apply holds_fill. }
  apply holds_fill in H as (Ht & Hc & Hd). rewrite locs_node in Hd.
  rewrite tree_at_node, ptr_of_node in *. destruct Ht as (Hl & _ & Hb).
  change (locs Leaf) with (@nil loc) in *. simpl in Hd, Hout. rewrite NoDup_cons in Hd. destruct Hd as [? Hd].
  assert (NoDup (locs (Node e RED k Leaf Leaf) ++ clocs (Frame s l c k' b :: ctx))) as Hd2.
  { simpl in *. change (clocs (Frame s l c k' b :: ctx)) with (l :: locs b ++ clocs ctx).
    change (locs (Node e RED k Leaf Leaf)) with [e]. simpl. rewrite !NoDup_cons. set_solver. }
  pose proof (conj Hd2 I) as Keep. disjoint. destruct Keep as [Hd3 _].
  unfold _setLesser, _setGreater, at_place.
  rewrite not_elem_of_cons, not_elem_of_app in Hout. destruct_and? Hout.
  destruct s; simpl in *; steps; split_and!; try exact Hd3; untouched.
Qed.

Lemma insert_loop_ok {K V} e k fuel ctx t p m r :
  holds m r (fill ctx t) -> ptr_of t = Some p -> (height t <= fuel)%nat ->
  m !! e = Some (mkLink None None None RED k) -> e ∉ locs (fill ctx t) ->
  wp (K := K) (V := V) (insert_loop (Some e) (Some p) fuel) m r (fun _ m' r' =>
    holds m' r' (fill (place k t ctx) (Node e RED k Leaf Leaf))).
Proof.
  revert ctx t p. induction fuel as [|fuel IH]; intros ctx t p H Hp Hf He Hout; [by destruct t; simpl in *; try lia|].
  destruct t as [|l c k' a b]; [done|]. injection Hp as ->.
  pose proof (holds_link _ _ ctx L _ _ _ _ _ H) as Hl. cbn in Hl.
  cbn [insert_loop place height] in *. steps. destruct (k' <=? k) eqn:Ek.
  - destruct b as [|lb cb kb b1 b2]; cbn [ptr_of] in Hl; steps.
    + by apply (attach_ok R ctx p c k' a).
    + apply (IH (Frame R p c k' a :: ctx)); [done|done|lia|done|done].
  - destruct a as [|la ca ka a1 a2]; cbn [ptr_of] in Hl; steps.
    + by apply (attach_ok L ctx p c k' b).
    + apply (IH (Frame L p c k' b :: ctx)); [done|done|lia|done|done].
Qed.

Lemma insert_ok {K V} t e k m r :
  holds m r t -> m !! e = Some (mkLink None None None RED k) -> e ∉ locs t ->
  wp (K := K) (V := V) (_insert (Some e) None) m r (fun _ m' r' => holds m' r' (tree_insert e k t)).
Proof.
  intros H He Hout. unfold _insert. pose proof H as (_ & Hr & _).
  destruct t as [|l c k' a b]; simpl in Hr; subst r; steps.
  - split_and!; [simpl; by rewrite He|done|]. change (NoDup [e]). apply NoDup_singleton.
  - apply wp_fuel_of. pose proof (holds_size _ _ _ H). pose proof (height_locs (Node l c k' a b)).
    apply wp_bind. eapply wp_mono; [apply (insert_loop_ok e k _ [] (Node l c k' a b) l); [done|done|lia|done|done]|].
    intros ? m' r' H'. by apply validateInsert_ok.
Qed.

(** ** Removal *)

Definition child {K V} (s : side) : Entry K V -> ptr := match s with L => _lesser | R => _greater end.

(** [x] takes the place of [y], which keeps its links. *)
Lemma splice_ok {K V} s ctx y c k t m r :
  holds m r (fill ctx (node s y c k t Leaf)) ->
  wp (K := K) (V := V) (splice (Some y) (ptr_of t)) m r (fun _ m' r' =>
    holds m' r' (fill ctx t) /\ m' !! y = m !! y).
Proof.
  intros H. eapply wp_mono with (Q := fun _ m' r' => at_place m' r' ctx t /\ m' !! y = m !! y).
  2:{ intros ??? [? ?]. split; [by apply holds_fill|done]. }
  apply holds_fill in H as (Ht & Hc & Hd).
  assert (NoDup (locs t ++ clocs ctx)) as Hd2.
  { rewrite locs_node, locs_Leaf, app_nil_r in Hd. by apply NoDup_cons in Hd as [_ ?]. }
  rewrite tree_at_node, ptr_of_node in *. destruct Ht as (Hy & Ht & _). unfold splice, at_place.
  destruct s, ctx as [|[[] p cp kp sib] ctx], t as [|x cx kx a b]; cbn [node] in *.
  all: pose proof (conj Hd2 I) as Keep; clear Hd2; disjoint; destruct Keep as [Hd2 _].
  all: simpl in *; destruct_and? Hc; destruct_and? Ht; try subst r; steps; try absurd_ptr.
  all: split; [split_and!; try exact Hd2; untouched|].
  all: rewrite ?lookup_insert_ne by (assumption || (apply not_eq_sym; assumption)); done.
Qed.

(** [y] from outside the tree takes the place of [e], with its children and colour. *)
Lemma transplant_ok {K V} ctx e c k a b y yp yl yg yc ky m r :
  holds m r (fill ctx (Node e c k a b)) -> y ∉ locs (fill ctx (Node e c k a b)) ->
  m !! y = Some (mkLink yp yl yg yc ky) ->
  wp (K := K) (V := V) (transplant (Some y) (Some e)) m r (fun _ m' r' =>
    holds m' r' (fill ctx (Node y c ky a b))).
Proof.
  intros H Hout Hy. rewrite locs_fill, not_elem_of_app in Hout. destruct Hout as [Hout1 Hout2].
  eapply wp_mono with (Q := fun _ m' r' => at_place m' r' ctx (Node y c ky a b)).
  2:{ intros ???. by apply holds_fill. }
  apply holds_fill in H as (Ht & Hc & Hd).
  assert (NoDup (locs (Node y c ky a b) ++ clocs ctx)) as Hd2.
  { rewrite locs_Node in *. simpl in *. rewrite NoDup_cons in *. set_solver. }
  assert (match ctx with [] => r = Some e | _ => exists l, r = Some l /\ e <> l end) as Hroot.
  { destruct ctx as [|f ctx]; [done|].
    destruct (ctx_root _ _ _ _ _ Hc) as (l & -> & Hl). exists l. split; [done|].
    rewrite locs_Node, <-app_comm_cons, NoDup_cons in Hd. intros ->. apply Hd. set_solver. }
  unfold transplant, at_place, _replaceChild, _setLesser, _setGreater.
  destruct ctx as [|[[] p cp kp sib] ctx], a as [|la ca ka a1 a2], b as [|lb cb kb b1 b2].
  all: pose proof (conj Hd2 I) as Keep; clear Hd2; disjoint; destruct Keep as [Hd2 _].
  all: simpl in Ht, Hc, Hroot |- *; destruct_and? Hc; destruct_and? Ht.
  all: first [destruct Hroot as (l & -> & Hl) | subst r]; steps; try absurd_ptr.
  all: split_and!; try exact Hd2; untouched.
Qed.

Lemma fill_app ctx1 ctx2 t : fill (ctx1 ++ ctx2) t = fill ctx2 (fill ctx1 t).
Proof. apply foldl_app. Qed.

(** The walk to the least entry of a subtree. *)
Lemma go_down_ok {K V} fuel ctx t p m r :
  holds m r (fill ctx t) -> ptr_of t = Some p -> (height t <= fuel)%nat ->
  exists ctx' y c k b, t = fill ctx' (Node y c k Leaf b) /\
    inorder t = (y, k) :: inorder (fill ctx' b) /\
    wp (K := K) (V := V) (go_down _lesser (Some p) fuel) m r
      (fun q m' r' => q = Some y /\ m' = m /\ r' = r).
Proof.
  revert ctx t p. induction fuel as [|fuel IH]; intros ctx t p H Hp Hf; [by destruct t; simpl in *; try lia|].
  destruct t as [|l c k a b]; [done|]. injection Hp as ->. cbn [height] in Hf.
  pose proof (holds_link _ _ ctx L _ _ _ _ _ H) as Hl. cbn in Hl. cbn [go_down].
  destruct a as [|la ca ka a1 a2].
  - exists [], p, c, k, b. split_and!; [done..|]. cbn in Hl. by steps.
  - destruct (IH (Frame L p c k b :: ctx) _ la H eq_refl) as (ctx' & y & cy & ky & by' & E & Ei & Hw); [lia|].
    exists (ctx' ++ [Frame L p c k b]), y, cy, ky, by'. rewrite !fill_app, <- E. split_and!; [done| |].
    + change (inorder (Node p c k (Node la ca ka a1 a2) b)) with (inorder (Node la ca ka a1 a2) ++ (p, k) :: inorder b).
      by rewrite Ei.
    + cbn in Hl. by steps.
Qed.

(** The subtree of the sibling, and whether an entry is [is_black]. *)
Lemma is_black_ok {K V} m r par t (Q : bool -> gmap loc Link -> ptr -> Prop) :
  tree_at m par t -> Q (bool_decide (color_of t = BLACK)) m r ->
  wp (K := K) (V := V) (is_black (ptr_of t)) m r Q.
Proof.
  intros Ht HQ. unfold is_black. apply wp_bind. eapply is_red_ok; [done|]. apply wp_ret.
  by destruct (color_of t).
Qed.

Lemma both_black_ok {K V} m r par s l c k a b (Q : bool -> gmap loc Link -> ptr -> Prop) :
  tree_at m par (node s l c k a b) ->
  Q (bool_decide (color_of a = BLACK) && bool_decide (color_of b = BLACK)) m r ->
  wp (K := K) (V := V) (both_black (Some l)) m r Q.
Proof.
  rewrite tree_at_node. intros (Hl & Ha & Hb) HQ. unfold both_black.
  destruct s; cbn in Hl; steps; eapply is_black_ok; try done;
    destruct (color_of a) eqn:Ea, (color_of b) eqn:Eb; cbn in *; steps;
    try (eapply is_black_ok; [done|]); rewrite ?Ea, ?Eb; done.
Qed.

(** [fetch] at the entry, its parent and its sibling. *)
Lemma near_links {m r ctx s p c k w t e} :
  holds m r (fill (Frame s p c k w :: ctx) t) -> ptr_of t = Some e ->
  (exists l, m !! e = Some l /\ lparent l = Some p) /\
  m !! p = Some (link_at (par_of ctx) s c k (Some e) (ptr_of w)) /\
  tree_at m (Some p) w.
Proof.
  intros H He. apply holds_fill in H as (Ht & Hc & _). destruct t as [|e' ce ke a b]; [done|].
  simpl in *. simplify_eq. destruct_and? Ht. destruct_and? Hc. eauto.
Qed.

Lemma wp_child {K V} s l k m r (Q : ptr -> gmap loc Link -> ptr -> Prop) :
  m !! l = Some k -> Q (match s with L => llesser k | R => lgreater k end) m r ->
  wp (fetch (Some l) (child (K := K) (V := V) s)) m r Q.
Proof. intros. destruct s; [by eapply wp_lesser|by eapply wp_greater]. Qed.

Lemma swap_place s p c k w t ctx :
  fill (Frame s p c k w :: ctx) t = fill (Frame (opposite s) p c k t :: ctx) w.
Proof. by destruct s. Qed.
Lemma plug_place s p c k w t ctx : fill (Frame s p c k w :: ctx) t = fill ctx (node s p c k t w).
Proof. done. Qed.
Lemma node_opposite s l c k a b : node (opposite s) l c k a b = node s l c k b a.
Proof. by destruct s. Qed.

(** Assigning a colour, at a place of the tree. *)
Lemma paint_place {K V} m r ctx s x c c' k a b (Q : unit -> gmap loc Link -> ptr -> Prop) :
  holds m r (fill ctx (node s x c k a b)) ->
  (forall m', holds m' r (fill ctx (node s x c' k a b)) -> Q tt m' r) ->
  wp (K := K) (V := V) (assign (Some x) (put_color c')) m r Q.
Proof.
  intros H HQ. pose proof (holds_link _ _ _ _ _ _ _ _ _ H) as Hx.
  apply (paint_ok _ _ _ _ _ _ c') in H. eapply wp_put_color; [done|done|exact Hx|].
  destruct s; by apply HQ.
Qed.

(** [fetch entry _parent] *)
Lemma fetch_parent {K V} m r ctx s p c k w t e (Q : ptr -> gmap loc Link -> ptr -> Prop) :
  holds m r (fill (Frame s p c k w :: ctx) t) -> ptr_of t = Some e -> Q (Some p) m r ->
  wp (K := K) (V := V) (fetch (Some e) _parent) m r Q.
Proof.
  intros H He HQ. destruct (near_links H He) as ((l & Hl & Ep) & _).
  eapply wp_parent; [done|exact Hl|]. by rewrite Ep.
Qed.

Lemma fetch_far {K V} m r ctx s p c k w t (Q : ptr -> gmap loc Link -> ptr -> Prop) :
  holds m r (fill (Frame s p c k w :: ctx) t) -> Q (ptr_of w) m r ->
  wp (K := K) (V := V) (fetch (Some p) (child (opposite s))) m r Q.
Proof.
  intros H HQ. eapply wp_child; [exact (holds_frame _ _ _ _ _ H)|]. by destruct s.
Qed.

Lemma black_sibling_ok {K V} s ctx p c k w t e m r :
  holds m r (fill (Frame s p c k w :: ctx) t) -> ptr_of t = Some e ->
  wp (K := K) (V := V) (black_sibling (child (opposite s)) (rotate_up (opposite s)) (Some e)) m r
    (fun q m' r' => exists c' w' ctx', q = ptr_of w' /\ holds m' r' (fill (Frame s p c' k w' :: ctx') t) /\
      inorder (fill (Frame s p c' k w' :: ctx') t) = inorder (fill (Frame s p c k w :: ctx) t) /\
      (c' = RED \/ ctx' = ctx)).
Proof.
  intros H He. destruct (near_links H He) as (_ & _ & Hw). unfold black_sibling.
  apply wp_bind. eapply fetch_parent; [done..|]. apply wp_bind. eapply fetch_far; [done|].
  apply wp_bind. eapply is_red_ok; [done|]. case_bool_decide as Hred; [|apply wp_ret; by eauto 10].
  destruct w as [|l cl kl wl wr]; [done|]. simpl in Hred. subst cl.
  assert (exists wf wn, Node l RED kl wl wr = node (opposite s) l RED kl wf wn) as (wf & wn & E)
    by (destruct s; eauto).
  cbn [ptr_of]. rewrite E in H |- *. rewrite swap_place in H.
  apply wp_bind. eapply paint_place; [done|]. clear m H Hw. intros m H. rewrite <- swap_place in H.
  apply wp_bind. apply wp_bind. eapply fetch_parent; [done..|].
  rewrite plug_place in H. eapply paint_place; [done|]. clear m H. intros m H.
  rewrite <- plug_place in H.
  apply wp_bind. apply wp_bind. eapply fetch_parent; [done..|].
  rewrite plug_place, <- node_opposite in H.
  eapply wp_mono; [by apply rotate_ok|]. intros q m' r' [_ H'].
  rewrite !node_opposite in H'.
  change (holds m' r' (fill (Frame s p RED k wn :: Frame s l BLACK kl wf :: ctx) t)) in H'.
  apply wp_bind. eapply fetch_parent; [done..|]. eapply fetch_far; [done|].
  exists RED, wn, (Frame s l BLACK kl wf :: ctx). split_and!; [done|done| |by left].
  rewrite !plug_place. apply inorder_fill. destruct s; simpl; by rewrite <- !app_assoc.
Qed.

Lemma tree_node s t : t <> Leaf -> exists l c k a b, t = node s l c k a b.
Proof. destruct t as [|l c k a b]; [done|]. intros _. destruct s; eauto 10. Qed.

Lemma fetch_child {K V} s' m r ctx s x c k a b (Q : ptr -> gmap loc Link -> ptr -> Prop) :
  holds m r (fill ctx (node s x c k a b)) -> Q (ptr_of (if decide (s' = s) then a else b)) m r ->
  wp (K := K) (V := V) (fetch (Some x) (child s')) m r Q.
Proof.
  intros H HQ. eapply wp_child; [exact (holds_link _ _ _ _ _ _ _ _ _ H)|].
  destruct s, s'; exact HQ.
Qed.

Lemma subtrees_at {m r ctx s x c k a b} :
  holds m r (fill ctx (node s x c k a b)) -> tree_at m (Some x) a /\ tree_at m (Some x) b.
Proof. intros H. apply holds_fill in H as (Ht & _). by apply tree_at_node in Ht as (_ & ?). Qed.

(** When some child of the sibling is red, at most one rotation makes that the far one. *)
Lemma red_nephew_ok {K V} s ctx p c k l cl kl wn wf t e m r :
  holds m r (fill (Frame s p c k (node s l cl kl wn wf) :: ctx) t) -> ptr_of t = Some e ->
  color_of wn = RED \/ color_of wf = RED ->
  wp (K := K) (V := V) (red_nephew (child s) (child (opposite s)) (rotate_up s) (Some e) (Some l)) m r
    (fun q m' r' => exists l' cl' kl' wn' wf',
      let w' := node s l' cl' kl' wn' wf' in
      q = Some l' /\ holds m' r' (fill (Frame s p c k w' :: ctx) t) /\
      inorder w' = inorder (node s l cl kl wn wf)).
Proof.
  intros H He Hred. rewrite swap_place in H. unfold red_nephew.
  pose proof (subtrees_at H) as [Hwn Hwf].
  apply wp_bind. steps. eapply fetch_child; [done|]. rewrite decide_False by (by destruct s).
  eapply is_black_ok; [done|]. case_bool_decide as Hb.
  2:{ apply wp_ret. rewrite <- swap_place in H. by eauto 10. }
  destruct (tree_node s wn) as (n & cn & kn & na & nb & ->); [intros ->; destruct Hred; simpl in *; congruence|].
  apply wp_bind, wp_bind. eapply fetch_child; [done|]. rewrite decide_True by done. rewrite ptr_of_node.
  step1. rewrite <- plug_place in H. eapply paint_place; [done|]. clear m H Hwn Hwf. intros m H.
  rewrite plug_place in H. apply wp_bind. eapply paint_place; [done|]. clear m H. intros m H.
  apply wp_bind. eapply wp_mono; [by apply rotate_ok|]. intros q m' r' [_ H']. rewrite <- swap_place in H'.
  apply wp_bind. eapply fetch_parent; [done..|]. eapply fetch_far; [done|]. rewrite ptr_of_node.
  do 5 eexists. split_and!; [done|done|]. by rewrite inorder_rotate; destruct s.
Qed.

Lemma inorder_paint c t : inorder (paint c t) = inorder t.
Proof. by destruct t. Qed.
Lemma fill_not_Leaf ctx t : t <> Leaf -> fill ctx t <> Leaf.
Proof.
  revert t. induction ctx as [|f ctx IH]; intros t Ht; [done|]. apply IH. by destruct f as [[] ? ? ? ?].
Qed.

(** [if (p != NULL) p->_color = BLACK] at the child [b]. *)
Lemma paint_child_ok {K V} s ctx l c k a b m r :
  holds m r (fill ctx (node s l c k a b)) ->
  wp (K := K) (V := V) (if is_null (ptr_of b) then ret tt else assign (ptr_of b) (put_color BLACK)) m r
    (fun _ m' r' => holds m' r' (fill ctx (node s l c k a (paint BLACK b)))).
Proof.
  intros H. destruct b as [|f cf kf fa fb]; cbn [ptr_of]; steps; [done|].
  rewrite <- node_opposite, <- plug_place in H.
  apply (paint_place _ _ _ L _ _ _ _ _ _ _ H). clear m H. intros m H.
  by rewrite plug_place, node_opposite in H.
Qed.

(** One round of the loop of [_removeFixTree]: the entries keep their order, and the loop comes closer
    to its end: at the root, at a red entry, or one level up. *)
Lemma fix_side_ok {K V} s ctx p c k w t e m r :
  holds m r (fill (Frame s p c k w :: ctx) t) -> ptr_of t = Some e ->
  wp (K := K) (V := V)
    (fix_side (child s) (child (opposite s)) (rotate_up s) (rotate_up (opposite s)) (Some e)) m r
    (fun a m' r' => exists ctx' t', a.1 = ptr_of t' /\ t' <> Leaf /\ holds m' r' (fill ctx' t') /\
      inorder (fill ctx' t') = inorder (fill (Frame s p c k w :: ctx) t) /\
      (a.2 = true -> ctx' = [] \/ color_of t' = RED \/ ctx' = ctx)).
Proof.
  intros H He. unfold fix_side. apply wp_bind. eapply wp_mono; [by apply black_sibling_ok|].
  clear m r H. intros q m r (c' & w' & ctx' & -> & H & Ei & Hc).
  assert (w' = Leaf \/ w' <> Leaf) as [->|Hw] by (destruct w'; [by left|by right]).
  { unfold both_black, red_nephew. cbn [ptr_of]. steps.
    exists (Frame s p c' k Leaf :: ctx'), t. split_and!; [done|by intros ->|done|done|done]. }
  destruct (tree_node s w' Hw) as (l & cl & kl & wn & wf & ->). rewrite ptr_of_node.
  apply wp_bind. eapply both_black_ok.
  { apply holds_fill in H as (_ & Hx & _). simpl in Hx. apply Hx. }
  destruct (bool_decide (color_of wn = BLACK) && bool_decide (color_of wf = BLACK)) eqn:Eb.
  - rewrite swap_place in H. apply wp_bind. eapply paint_place; [done|]. clear m H. intros m H.
    rewrite <- swap_place in H. apply wp_bind. eapply fetch_parent; [done..|]. steps.
    exists ctx', (node s p c' k t (node s l RED kl wn wf)). split_and!.
    + by rewrite ptr_of_node.
    + by destruct s.
    + done.
    + rewrite <- Ei. rewrite plug_place. apply inorder_fill. by destruct s.
    + intros _. destruct Hc as [-> | ->]; [right; left; by destruct s|auto].
  - assert (color_of wn = RED \/ color_of wf = RED) as Hred.
    { destruct (color_of wn); [by left|]. destruct (color_of wf); [by right|done]. }
    apply wp_bind. eapply wp_mono; [apply (red_nephew_ok _ _ _ _ _ _ _ _ _ _ _ _ _ _ H He Hred)|].
    clear m r H. intros q m r (l' & cl' & kl' & wn' & wf' & -> & H & Ei').
    steps. eapply fetch_parent; [done..|]. apply wp_bind.
    eapply wp_color; [done|exact (holds_frame _ _ _ _ _ H)|]. cbn [fside fcolor floc fhash fsib].
    replace (lcolor (link_at _ _ _ _ _ _)) with c' by (by destruct s).
    rewrite swap_place in H. eapply paint_place; [done|]. clear m H. intros m H.
    apply wp_bind. eapply fetch_parent; [done|by rewrite ptr_of_node|]. steps.
    rewrite <- swap_place in H. eapply fetch_parent; [done..|].
    rewrite plug_place in H. eapply paint_place; [done|]. clear m H. intros m H. rewrite <- plug_place in H.
    rewrite swap_place in H. apply wp_bind, wp_bind. eapply fetch_child; [done|].
    rewrite decide_False by (by destruct s).
    eapply wp_mono; [by apply paint_child_ok|]. clear m r H. intros ? m r H. rewrite <- swap_place in H.
    steps. eapply fetch_parent; [done..|]. rewrite plug_place, <- node_opposite, <- (node_opposite s l') in H.
    eapply wp_mono; [by apply rotate_ok|]. clear m r H. intros q m r [_ H]. steps.
    exists [], (fill ctx' (node (opposite s) l' c' kl' (paint BLACK wf') (node (opposite s) p BLACK k wn' t))).
    pose proof H as (_ & Hr & _).
    split_and!; [exact Hr| |exact H| |by left].
    + apply fill_not_Leaf. by destruct s.
    + rewrite <- Ei, plug_place. apply (inorder_fill ctx').
      destruct s; simpl in *; rewrite inorder_paint, <- Ei', <- ?app_assoc; simpl; by rewrite <- ?app_assoc.
Qed.

Lemma fix_loop_ok {K V} fuel ctx t e m r :
  holds m r (fill ctx t) -> ptr_of t = Some e -> (0 < fuel)%nat -> color_of t = RED \/ (length ctx < fuel)%nat ->
  wp (K := K) (V := V) (fix_loop (Some e) fuel) m r (fun q m' r' => exists ctx' t',
    q = ptr_of t' /\ t' <> Leaf /\ holds m' r' (fill ctx' t') /\
    inorder (fill ctx' t') = inorder (fill ctx t)).
Proof.
  revert ctx t e m r. induction fuel as [|fuel IH]; intros ctx t e m r H He Hpos Hf; [lia|].
  cbn [fix_loop]. step1. step1.
  destruct ctx as [|[s p c k w] ctx].
  { pose proof H as (_ & Hr & _). simpl in Hr. rewrite He in Hr. subst r. steps.
    exists [], t. split_and!; [done|by intros ->|done|done]. }
  rewrite (bool_decide_eq_false_2 (Some e = r)) by (apply not_eq_sym; by eapply not_root).
  destruct t as [|e' ce ke ta tb]; [done|]. injection He as ->.
  pose proof (holds_link _ _ (Frame s p c k w :: ctx) L _ _ _ _ _ H) as He. cbn in He.
  destruct ce; steps; [by exists (Frame s p c k w :: ctx), (Node e RED ke ta tb)|].
  destruct Hf as [Hf|Hf]; [done|].
  pose proof (near_links H eq_refl) as (_ & Hp & Hw).
  assert (Some e <> ptr_of w) as Hew.
  { apply holds_fill in H as (_ & _ & Hd). disjoint. intros E. symmetry in E. by apply ptr_of_in in E. }
  pose proof (fix_side_ok (K := K) (V := V) s ctx p c k w _ e m r H eq_refl) as Hside.
  destruct s; cbn in Hp; steps.
  all: eapply wp_mono; [exact Hside|]; intros [q go] m' r' (ctx' & t' & Eq & Hne & H' & Ei & Hgo); cbn in Eq, Hgo; subst q.
  all: destruct go; [|steps; by exists ctx', t'].
  all: destruct (ptr_of t') as [e'|] eqn:Ee; [|by destruct t'].
  all: simpl in Hf; eapply wp_mono; [apply (IH ctx' t'); [done|done|lia|]|].
  all: try (destruct (Hgo eq_refl) as [-> | [? | ->]]; simpl; auto with lia).
  all: intros q m'' r'' (ctx2 & t2 & ? & ? & ? & Ei2); exists ctx2, t2; by rewrite Ei2.
Qed.

Lemma removeFixTree_ok {K V} ctx t e m r :
  holds m r (fill ctx t) -> ptr_of t = Some e ->
  wp (K := K) (V := V) (_removeFixTree (Some e)) m r (fun _ m' r' => exists t',
    holds m' r' t' /\ inorder t' = inorder (fill ctx t)).
Proof.
  intros H He. unfold _removeFixTree. apply wp_bind, wp_fuel_of, wp_bind.
  pose proof (holds_size _ _ _ H) as Hs. rewrite length_fill in Hs. pose proof (length_clocs ctx).
  eapply wp_mono; [apply (fix_loop_ok _ _ _ _ _ _ H He); [lia|right; lia]|].
  intros q m' r' (ctx' & t' & -> & Hne & H' & Ei). destruct t' as [|l c k a b]; [done|].
  apply (paint_place _ _ ctx' L l c BLACK k a b); [done|]. intros m'' H''.
  eexists. split; [exact H''|]. rewrite <- Ei. by apply inorder_fill.
Qed.

(** What surrounds a place, in order. *)
Lemma inorder_around ctx : exists l1 l2, forall t, inorder (fill ctx t) = l1 ++ inorder t ++ l2.
Proof.
  induction ctx as [|[s p c k w] ctx (l1 & l2 & IH)].
  { exists [], []. intros t. by rewrite app_nil_r. }
  destruct s.
  - exists l1, ((p, k) :: inorder w ++ l2). intros t. rewrite plug_place, IH. simpl. by rewrite <- app_assoc.
  - exists (l1 ++ inorder w ++ [(p, k)]), l2. intros t. rewrite plug_place, IH. simpl. by rewrite <- !app_assoc.
Qed.

(** [_removeFixTree] when an entry was taken from below black. *)
Lemma fix_if_ok {K V} (flag : bool) ctx x m r :
  holds m r (fill ctx x) ->
  wp (K := K) (V := V) (if flag && negb (is_null (ptr_of x)) then _removeFixTree (ptr_of x) else ret tt) m r
    (fun _ m' r' => exists t', holds m' r' t' /\ inorder t' = inorder (fill ctx x)).
Proof.
  intros H. destruct flag; cbn [andb]; [|steps; by eauto].
  destruct x as [|l c k a b]; cbn [ptr_of]; steps; [by eauto|].
  by apply (removeFixTree_ok ctx (Node l c k a b)).
Qed.

Lemma remove_one_ok {K V} s ctx e c k x m r :
  holds m r (fill ctx (node s e c k x Leaf)) ->
  wp (K := K) (V := V)
    (take_out (Some e) (Some e) (ptr_of x)) m r
    (fun _ m' r' => exists t', holds m' r' t' /\ inorder t' = inorder (fill ctx x)).
Proof.
  intros H. pose proof (holds_link _ _ _ _ _ _ _ _ _ H) as He.
  unfold take_out. apply wp_bind. eapply wp_mono; [by eapply splice_ok|]. intros ? m' r' [H' E]. rewrite <- E in He.
  steps. apply fix_if_ok, H'.
Qed.

Lemma remove_two_ok {K V} ctx' ctx e c k a y cy ky x m r :
  holds m r (fill (ctx' ++ Frame R e c k a :: ctx) (Node y cy ky Leaf x)) ->
  wp (K := K) (V := V) (take_out (Some e) (Some y) (ptr_of x)) m r (fun _ m' r' => exists t',
    holds m' r' t' /\ inorder t' = inorder (fill ctx (Node y c ky a (fill ctx' x)))).
Proof.
  intros H. pose proof (holds_link _ _ _ L _ _ _ _ _ H) as Hy. cbn in Hy.
  assert (y ∉ locs (fill (ctx' ++ Frame R e c k a :: ctx) x)) as Hout.
  { pose proof H as (_ & _ & Hd). rewrite locs_fill, locs_Node in Hd. simpl in Hd.
    rewrite locs_fill. by apply NoDup_cons in Hd as [? _]. }
  assert (y <> e) as Hye.
  { intros ->. apply Hout. rewrite fill_app, locs_fill, elem_of_app. right.
    change (clocs (Frame R e c k a :: ctx)) with (e :: locs a ++ clocs ctx). left. }
  unfold take_out. apply wp_bind. eapply wp_mono; [by eapply (splice_ok R)|].
  intros ? m' r' [H' E]. rewrite <- E in Hy. steps.
  rewrite fill_app in H', Hout.
  eapply wp_mono; [exact (transplant_ok ctx e c k a (fill ctx' x) _ _ _ _ _ _ _ _ H' Hout Hy)|]. intros ? m'' r'' H''.
  change (fill ctx (Node y c ky a (fill ctx' x))) with (fill (Frame R y c ky a :: ctx) (fill ctx' x)) in *.
  rewrite <- fill_app in *. by apply fix_if_ok.
Qed.

Lemma remove_ok {K V} ctx e c k a b m r :
  holds m r (fill ctx (Node e c k a b)) ->
  wp (K := K) (V := V) (_remove (Some e)) m r (fun _ m' r' => exists t' l1 l2,
    holds m' r' t' /\ inorder (fill ctx (Node e c k a b)) = l1 ++ (e, k) :: l2 /\ inorder t' = l1 ++ l2).
Proof.
  intros H. pose proof (holds_link _ _ _ L _ _ _ _ _ H) as He. cbn in He.
  unfold _remove. steps. apply wp_fuel_of. 
  destruct (inorder_around ctx) as (p & q & Hpq).
  assert (forall x, (Node e c k a b = node L e c k x Leaf \/ Node e c k a b = node R e c k x Leaf) ->
    holds m r (fill ctx (Node e c k a b)) ->
    wp (K := K) (V := V) (take_out (Some e) (Some e) (ptr_of x)) m r
    (fun _ m' r' => exists t' l1 l2, holds m' r' t' /\
      inorder (fill ctx (Node e c k a b)) = l1 ++ (e, k) :: l2 /\ inorder t' = l1 ++ l2)) as Hone.
  { intros x [E|E] Hx; rewrite E in Hx; (eapply wp_mono; [by eapply remove_one_ok|]);
      intros ? m' r' (t' & H' & Ei).
    - exists t', (p ++ inorder x), q. rewrite Ei, E, !Hpq. simpl. by rewrite <- !app_assoc.
    - exists t', p, (inorder x ++ q). by rewrite Ei, E, !Hpq. }
  destruct a as [|la ca ka a1 a2]; [|destruct b as [|lb cb kb b1 b2]].
  - change (is_null (ptr_of Leaf)) with true. cbn [orb]. steps. apply Hone; auto.
  - change (is_null (ptr_of Leaf)) with true. rewrite orb_true_r. steps.
    apply (Hone (Node la ca ka a1 a2)); auto.
  - clear Hone. set (A := Node la ca ka a1 a2) in *. set (B := Node lb cb kb b1 b2) in *.
    change (is_null (ptr_of A)) with false. change (is_null (ptr_of B)) with false. cbn [orb].
    unfold successor. steps.
    change (fill ctx (Node e c k A B)) with (fill (Frame R e c k A :: ctx) B) in H.
    destruct (go_down_ok (K := K) (V := V) (S (base.size m)) _ B lb m r H eq_refl) as (ctx' & y & cy & ky & x & EB & Ei & Hw).
    { pose proof (holds_size _ _ _ H) as Hs. rewrite length_fill in Hs. pose proof (height_locs B). lia. }
    eapply wp_mono; [exact Hw|]. intros ? ? ? (-> & -> & ->). clear Hw. clearbody A B.
    assert (m !! y = Some (mkLink (par_of (ctx' ++ Frame R e c k A :: ctx)) None (ptr_of x) cy ky)) as Hy.
    { rewrite EB, <- fill_app in H. exact (holds_link _ _ _ L _ _ _ _ _ H). }
    steps. rewrite EB, <- fill_app in H.
    eapply wp_mono; [exact (remove_two_ok _ _ _ _ _ _ _ _ _ _ _ _ H)|]. intros ? m' r' (t' & H' & Et).
    exists t', (p ++ inorder A), (inorder B ++ q). split_and!; [done| |].
    + rewrite Hpq. cbn [inorder]. by rewrite <- !app_assoc.
    + rewrite Et, Hpq, Ei. cbn [inorder]. by rewrite <- !app_assoc.
Qed.

(** ** Order *)

(** The hashes increase from left to right; hence no two entries have the same. *)
Definition by_hash (x y : loc * Z) : Prop := x.2 < y.2.
Definition ordered (t : tree) : Prop := StronglySorted by_hash (inorder t).

Lemma sorted_app l1 l2 :
  StronglySorted by_hash (l1 ++ l2) <->
  StronglySorted by_hash l1 /\ StronglySorted by_hash l2 /\ (forall x y, x ∈ l1 -> y ∈ l2 -> x.2 < y.2).
Proof.
  induction l1 as [|z l1 IH]; simpl.
  - split; [intros ?; split_and!; [constructor|done|by intros ? ? ?%elem_of_nil]|tauto].
  - split.
    + intros (H1 & H2)%StronglySorted_inv. apply IH in H1 as (? & ? & H3). rewrite Forall_app in H2.
      split_and!; [constructor; tauto|done|]. intros x y [->|?]%elem_of_cons ?; [|by apply H3].
      destruct H2 as [_ H2]. by apply (proj1 (Forall_forall _ _) H2).
    + intros (H1 & H2 & H3). apply StronglySorted_inv in H1 as (? & ?). constructor.
      * apply IH. split_and!; [done|done|]. intros x y ? ?. apply H3; [by right|done].
      * apply Forall_app. split; [done|]. apply Forall_forall. intros y ?. apply H3; [left|done].
Qed.

Lemma ordered_Node l c k a b :
  ordered (Node l c k a b) <->
  ordered a /\ ordered b /\ (forall x, x ∈ inorder a -> x.2 < k) /\ (forall y, y ∈ inorder b -> k < y.2).
Proof.
  unfold ordered. cbn [inorder]. rewrite sorted_app. split.
  - intros (Ha & (Hb & Hk)%StronglySorted_inv & H). rewrite Forall_forall in Hk.
    split_and!; [done..| |done]. intros x Hx. apply (H x (l, k) Hx). left.
  - intros (Ha & Hb & H1 & H2). split_and!; [done| |].
    + constructor; [done|]. by apply Forall_forall.
    + intros x y Hx [->|Hy]%elem_of_cons; [by apply H1|]. specialize (H1 _ Hx). specialize (H2 _ Hy). lia.
Qed.

(** ** Search *)

Fixpoint tree_find (h : Z) (t : tree) : ptr :=
  match t with
  | Leaf => None
  | Node l _ k a b => if h =? k then Some l else if k <? h then tree_find h b else tree_find h a
  end.

Lemma find_loop_ok {K V} h fuel t par m r :
  tree_at m par t -> (height t < fuel)%nat ->
  wp (K := K) (V := V) (_find_loop h (ptr_of t) fuel) m r (fun p m' r' => p = tree_find h t /\ m' = m /\ r' = r).
Proof.
  revert t par. induction fuel as [|fuel IH]; intros t par Ht Hf; [lia|]. cbn [_find_loop].
  destruct t as [|l c k a b]; cbn [ptr_of tree_find height] in *; [by steps|].
  destruct Ht as (Hl & Ha & Hb). steps. destruct (h =? k); [by steps|].
  destruct (k <? h); steps; [by apply (IH b (Some l)); [done|lia]|by apply (IH a (Some l)); [done|lia]].
Qed.

Lemma tree_find_spec h t l : ordered t -> tree_find h t = Some l <-> (l, h) ∈ inorder t.
Proof.
  induction t as [|l' c k a IHa b IHb]; [intros _; split; [done|by intros ?%elem_of_nil]|].
  intros (Ha & Hb & Hka & Hkb)%ordered_Node. cbn [inorder tree_find].
  rewrite elem_of_app, elem_of_cons. destruct (Z.eqb_spec h k) as [->|].
  - split; [intros [= ->]; auto|]. intros [Hx|[[= ->]|Hx]]; [|done|].
    + specialize (Hka _ Hx). simpl in Hka. lia.
    + specialize (Hkb _ Hx). simpl in Hkb. lia.
  - destruct (Z.ltb_spec k h).
    + rewrite IHb by done. split; [auto|]. intros [Hx|[[= -> ->]|Hx]]; [|lia|done].
      specialize (Hka _ Hx). simpl in Hka. lia.
    + rewrite IHa by done. split; [auto|]. intros [Hx|[[= -> ->]|Hx]]; [done|lia|].
      specialize (Hkb _ Hx). simpl in Hkb. lia.
Qed.

(** ** Insertion keeps the order *)

Lemma place_order k t : forall ctx p q, ordered t -> (forall u, inorder (fill ctx u) = p ++ inorder u ++ q) ->
  exists l1 l2, inorder t = l1 ++ l2 /\ (forall x, x ∈ l1 -> x.2 <= k) /\ (forall x, x ∈ l2 -> k < x.2) /\
  forall u, inorder (fill (place k t ctx) u) = p ++ l1 ++ inorder u ++ l2 ++ q.
Proof.
  induction t as [|l c k' a IHa b IHb]; intros ctx p q Ho Hctx.
  { exists [], []. split_and!; [done|by intros ? ?%elem_of_nil..|done]. }
  apply ordered_Node in Ho as (Ha & Hb & Hka & Hkb). cbn [place]. destruct (Z.leb_spec k' k).
  - destruct (IHb (Frame R l c k' a :: ctx) (p ++ inorder a ++ [(l, k')]) q) as (l1 & l2 & E & H1 & H2 & H3); [done| |].
    { intros u. rewrite plug_place, Hctx. simpl. by rewrite <- !app_assoc. }
    exists (inorder a ++ (l, k') :: l1), l2. split_and!; [|..|done|].
    + simpl. by rewrite E, <- !app_assoc.
    + intros x [Hx|[->|Hx]%elem_of_cons]%elem_of_app; [|done|by apply H1]. specialize (Hka _ Hx). lia.
    + intros u. rewrite H3. by rewrite <- !app_assoc.
  - destruct (IHa (Frame L l c k' b :: ctx) p ((l, k') :: inorder b ++ q)) as (l1 & l2 & E & H1 & H2 & H3); [done| |].
    { intros u. rewrite plug_place, Hctx. simpl. by rewrite <- !app_assoc. }
    exists l1, (l2 ++ (l, k') :: inorder b). split_and!; [|done|..].
    + simpl. by rewrite E, <- !app_assoc.
    + intros x [Hx|[->|Hx]%elem_of_cons]%elem_of_app; [by apply H2|simpl; lia|]. specialize (Hkb _ Hx). lia.
    + intros u. rewrite H3. by rewrite <- !app_assoc.
Qed.

Lemma tree_insert_order e k t :
  ordered t -> k ∉ (inorder t).*2 ->
  ordered (tree_insert e k t) /\ inorder (tree_insert e k t) ≡ₚ (e, k) :: inorder t.
Proof.
  intros Ho Hk.
  assert (exists l1 l2, inorder t = l1 ++ l2 /\ (forall x, x ∈ l1 -> x.2 <= k) /\ (forall x, x ∈ l2 -> k < x.2) /\
    inorder (tree_insert e k t) = l1 ++ (e, k) :: l2) as (l1 & l2 & E & H1 & H2 & E').
  { destruct (place_order k t [] [] [] Ho) as (l1 & l2 & E & H1 & H2 & H3); [intros u; by rewrite app_nil_r|].
    exists l1, l2. split_and!; [done..|]. destruct t as [|l c k' a b].
    - symmetry in E. by apply app_nil in E as [-> ->].
    - unfold tree_insert. rewrite inorder_paint, inorder_insert_fix, H3. simpl. by rewrite app_nil_r. }
  unfold ordered in *. rewrite E', E. rewrite E in Ho, Hk. split; [|solve_Permutation].
  apply sorted_app in Ho as (Ho1 & Ho2 & _). apply sorted_app. split_and!; [done| |].
  - constructor; [done|]. by apply Forall_forall.
  - assert (forall x, x ∈ l1 -> x.2 < k) as H1'.
    { intros x Hx. specialize (H1 _ Hx). assert (x.2 <> k); [|lia]. intros <-.
      apply Hk, list_elem_of_fmap. exists x. split; [done|]. apply elem_of_app. by left. }
    intros x y Hx [->|Hy]%elem_of_cons; [by apply H1'|]. specialize (H1' _ Hx). specialize (H2 _ Hy). lia.
Qed.

Lemma ordered_remove t l1 x l2 t' :
  ordered t -> inorder t = l1 ++ x :: l2 -> inorder t' = l1 ++ l2 -> ordered t'.
Proof.
  unfold ordered. intros Ho E E'. rewrite E in Ho. rewrite E'.
  apply sorted_app in Ho as (H1 & [H2 _]%StronglySorted_inv & H3). apply sorted_app.
  split_and!; [done..|]. intros y z ? ?. apply H3; [done|by right].
Qed.
