(* ===== verification/DictSpec.v ===== *)
(** * What a Dictionary promises

    A dictionary is an association list in the order of insertion, in which a key is found by its hash
    value.  [models d kvs] relates the two: the list of the entries and the tree of [DictTree] hold the
    same entries.  The class [Mapping] is the interface the users of a dictionary rely on; the
    dictionary is its instance. *)

From Stdlib Require Import Sorted.
From S2P Require Import Prelude Dictionary DictTree.

(** ** The specification *)

Section spec.
Context {K V : Type} `{Hasher K} `{DefaultValue V}.
Implicit Types (kvs : list (K * V)) (k : K) (v : V).

Definition same_hash (k : K) (kv : K * V) : bool := Hash kv.1 =? Hash k.

Fixpoint lookup k kvs : option V :=
  match kvs with
  | [] => None
  | kv :: kvs => if same_hash k kv then Some kv.2 else lookup k kvs
  end.

(** Assigning to a key that is there leaves the key that is stored. *)
Fixpoint update k v kvs : list (K * V) :=
  match kvs with
  | [] => [(k, v)]
  | kv :: kvs => if same_hash k kv then (kv.1, v) :: kvs else kv :: update k v kvs
  end.

Definition erase k kvs : list (K * V) := List.filter (fun kv => negb (same_hash k kv)) kvs.
End spec.

(** ** The list of entries *)

Section list.
Context {K V : Type}.
Implicit Types (es : list (loc * (K * V))) (prev next : ptr).

Definition Rest : Type := ptr * ptr * K * V.

Definition head_of es next : ptr := match es with [] => next | e :: _ => Some e.1 end.
Definition last_of prev es : ptr := match last es with None => prev | Some e => Some e.1 end.

(** The entries [es] after [prev] and before [next]. *)
Fixpoint segment (m : gmap loc Rest) prev es next : Prop :=
  match es with
  | [] => True
  | (l, (k, v)) :: es => m !! l = Some (prev, head_of es next, k, v) /\ segment m (Some l) es next
  end.

Lemma head_of_app es1 es2 next : head_of (es1 ++ es2) next = head_of es1 (head_of es2 next).
Proof. by destruct es1. Qed.

Lemma last_of_cons prev e es : last_of prev (e :: es) = last_of (Some e.1) es.
Proof. unfold last_of. rewrite last_cons. by destruct (last es). Qed.

Lemma last_of_snoc prev es e : last_of prev (es ++ [e]) = Some e.1.
Proof. unfold last_of. by rewrite last_snoc. Qed.

Lemma segment_app m prev es1 es2 next :
  segment m prev (es1 ++ es2) next <->
  segment m prev es1 (head_of es2 next) /\ segment m (last_of prev es1) es2 next.
Proof.
  revert prev. induction es1 as [|[l [k v]] es1 IH]; intros prev; [simpl; tauto|].
  cbn [app segment]. rewrite IH, head_of_app, last_of_cons. simpl. tauto.
Qed.

Lemma segment_insert m l r prev es next :
  l ∉ es.*1 -> segment (<[l:=r]> m) prev es next <-> segment m prev es next.
Proof.
  revert prev. induction es as [|[l' [k v]] es IH]; intros prev; [done|].
  cbn [fmap list_fmap fst]. rewrite not_elem_of_cons. intros [? ?]. cbn [segment].
  by rewrite IH, lookup_insert_ne.
Qed.

Lemma segment_ext m m' prev es next :
  (forall l, l ∈ es.*1 -> m' !! l = m !! l) -> segment m prev es next -> segment m' prev es next.
Proof.
  revert prev. induction es as [|[l [k v]] es IH]; intros prev Hm; [done|]. cbn [segment].
  intros [? ?]. split; [|apply IH; [|done]; intros l' ?; apply Hm; by right].
  rewrite Hm by left. done.
Qed.

(** ** Running commands on the list *)

Definition rests (d : Dictionary K V) : gmap loc Rest := rest_of <$> entries d.

(** The command changes the list of entries, its ends and the size, as [Q] says, but no links. *)
Definition wl {A} (c : M K V A) (m : gmap loc Rest) (f la : ptr) (n : Z)
    (Q : A -> gmap loc Rest -> ptr -> ptr -> Z -> Prop) : Prop :=
  forall d, rests d = m -> _first d = f -> _last d = la -> _size d = n ->
  exists a d', c d = Ok (a, d') /\ links d' = links d /\ _root d' = _root d /\
    Q a (rests d') (_first d') (_last d') (_size d').

Implicit Types m : gmap loc Rest.

Lemma wl_ret {A} (a : A) m f la n (Q : A -> _ -> _ -> _ -> _ -> Prop) : Q a m f la n -> wl (ret a) m f la n Q.
Proof. intros H d <- <- <- <-. by exists a, d. Qed.

Lemma wl_bind {A B} (c : M K V A) (g : A -> M K V B) m f la n Q :
  wl c m f la n (fun a m f la n => wl (g a) m f la n Q) -> wl (let* a := c in g a) m f la n Q.
Proof.
  intros H d Hm Hf Hl Hn. destruct (H d Hm Hf Hl Hn) as (a & d1 & E & L1 & R1 & H1).
  destruct (H1 d1 eq_refl eq_refl eq_refl eq_refl) as (b & d2 & E2 & L2 & R2 & H2).
  exists b, d2. unfold andThen. rewrite E. simpl. split_and!; [done|congruence..|done].
Qed.

Lemma wl_first m f la n (Q : ptr -> _ -> _ -> _ -> _ -> Prop) : Q f m f la n -> wl (this _first) m f la n Q.
Proof. intros H d <- <- <- <-. by eexists _, d. Qed.
Lemma wl_last m f la n (Q : ptr -> _ -> _ -> _ -> _ -> Prop) : Q la m f la n -> wl (this _last) m f la n Q.
Proof. intros H d <- <- <- <-. by eexists _, d. Qed.
Lemma wl_size m f la n (Q : Z -> _ -> _ -> _ -> _ -> Prop) : Q n m f la n -> wl (this _size) m f la n Q.
Proof. intros H d <- <- <- <-. by eexists _, d. Qed.
Lemma wl_set_first p m f la n (Q : unit -> _ -> _ -> _ -> _ -> Prop) : Q tt m p la n -> wl (set_first p) m f la n Q.
Proof. intros H d <- <- <- <-. by eexists _, _. Qed.
Lemma wl_set_last p m f la n (Q : unit -> _ -> _ -> _ -> _ -> Prop) : Q tt m f p n -> wl (set_last p) m f la n Q.
Proof. intros H d <- <- <- <-. by eexists _, _. Qed.
Lemma wl_set_size p m f la n (Q : unit -> _ -> _ -> _ -> _ -> Prop) : Q tt m f la p -> wl (set_size p) m f la n Q.
Proof. intros H d <- <- <- <-. by eexists _, _. Qed.

Lemma wl_fetch {A} (g : Entry K V -> A) (G : Rest -> A) l r m f la n (Q : A -> _ -> _ -> _ -> _ -> Prop) :
  (forall e, g e = G (rest_of e)) -> m !! l = Some r -> Q (G r) m f la n -> wl (fetch (Some l) g) m f la n Q.
Proof.
  intros Hg Hl H d <- <- <- <-. unfold rests in Hl. rewrite lookup_fmap in Hl.
  destruct (entries d !! l) as [e|] eqn:E; simplify_eq/=.
  exists (g e), d. unfold fetch. rewrite E. split_and!; [done..|by rewrite Hg].
Qed.

Lemma wl_assign g (G : Rest -> Rest) l r m f la n (Q : unit -> _ -> _ -> _ -> _ -> Prop) :
  (forall e, rest_of (g e) = G (rest_of e)) -> (forall e : Entry K V, link (g e) = link e) ->
  m !! l = Some r -> Q tt (<[l := G r]> m) f la n -> wl (assign (Some l) g) m f la n Q.
Proof.
  intros Hg Hk Hl H d <- <- <- <-. unfold rests in Hl. rewrite lookup_fmap in Hl.
  destruct (entries d !! l) as [e|] eqn:E; simplify_eq/=.
  eexists tt, _. unfold assign. rewrite E. split_and!; [done| |done|].
  - unfold links. simpl. rewrite fmap_insert, Hk. apply insert_id. by rewrite lookup_fmap, E.
  - unfold rests, with_entries. simpl. by rewrite fmap_insert, Hg.
Qed.

Definition wl_prev := wl_fetch _prev (fun r => r.1.1.1).
Definition wl_next := wl_fetch _next (fun r => r.1.1.2).
Definition wl_key := wl_fetch _key (fun r => r.1.2).
Definition wl_value := wl_fetch _value (fun r => r.2).
Definition wl_put_prev p := wl_assign (put_prev p) (fun r => (p, r.1.1.2, r.1.2, r.2)).
Definition wl_put_next p := wl_assign (put_next p) (fun r => (r.1.1.1, p, r.1.2, r.2)).
Definition wl_put_value v := wl_assign (put_value v) (fun r => (r.1.1.1, r.1.1.2, r.1.2, v)).
End list.

(** Run one command on the list. *)
Ltac lstep1 :=
  lazymatch goal with
  | |- wl (andThen _ _) _ _ _ _ _ => apply wl_bind
  | |- wl (ret _) _ _ _ _ _ => apply wl_ret
  | |- wl (this _first) _ _ _ _ _ => apply wl_first
  | |- wl (this _last) _ _ _ _ _ => apply wl_last
  | |- wl (this _size) _ _ _ _ _ => apply wl_size
  | |- wl (set_first _) _ _ _ _ _ => apply wl_set_first
  | |- wl (set_last _) _ _ _ _ _ => apply wl_set_last
  | |- wl (set_size _) _ _ _ _ _ => apply wl_set_size
  | |- wl (fetch (Some _) _prev) _ _ _ _ _ => eapply wl_prev; [done|links|]
  | |- wl (fetch (Some _) _next) _ _ _ _ _ => eapply wl_next; [done|links|]
  | |- wl (fetch (Some _) _key) _ _ _ _ _ => eapply wl_key; [done|links|]
  | |- wl (fetch (Some _) _value) _ _ _ _ _ => eapply wl_value; [done|links|]
  | |- wl (assign (Some _) (put_prev _)) _ _ _ _ _ => eapply wl_put_prev; [done|done|links|]
  | |- wl (assign (Some _) (put_next _)) _ _ _ _ _ => eapply wl_put_next; [done|done|links|]
  | |- wl (assign (Some _) (put_value _)) _ _ _ _ _ => eapply wl_put_value; [done|done|links|]
  | |- wl (if bool_decide ?P then _ else _) _ _ _ _ _ => step_if P
  end; cbn [fst snd].
Ltac lsteps := repeat lstep1.

Section link.
Context {K V : Type}.
Implicit Types (es : list (loc * (K * V))) (m : gmap loc (@Rest K V)).

(** [es] is the list from [f] to [la]. *)
Definition listed m (f la : ptr) es : Prop :=
  segment m None es None /\ f = head_of es None /\ la = last_of None es /\ NoDup es.*1.

Lemma link_ok l k v es m f la n :
  listed m f la es -> m !! l = Some (None, None, k, v) -> l ∉ es.*1 ->
  wl (_link (Some l)) m f la n (fun _ m' f' la' n' => listed m' f' la' (es ++ [(l, (k, v))]) /\ n' = u32 (n + 1)).
Proof.
  intros (Hs & -> & -> & Hd) Hl Hn. unfold _link.
  destruct es as [|[x [kx vx]] es _] using rev_ind.
  - change (last_of None _) with (@None loc). change (head_of _ None) with (@None loc). lsteps.
    split; [|done]. split_and!; [by split|done|done|]. apply NoDup_singleton.
  - rewrite last_of_snoc. cbn [fst]. apply segment_app in Hs as [Hs [Hx _]]. rewrite fmap_app in *.
    cbn in Hn, Hd. rewrite not_elem_of_app, not_elem_of_cons in Hn. destruct Hn as (? & ? & _).
    pose proof Hd as Hd'. apply NoDup_app in Hd as (? & Hd & ?). 
    assert (x ∉ es.*1) by (intros Hx'; apply (Hd x Hx'); left).
    cbn in Hx. lsteps. split; [|done]. split_and!.
    + rewrite <- app_assoc. apply segment_app. rewrite !segment_insert by done. split; [done|].
      cbn. split_and!; [links|links|done].
    + rewrite !head_of_app. by destruct es.
    + by rewrite last_of_snoc.
    + rewrite fmap_app. apply NoDup_app. split; [rewrite fmap_app; exact Hd'|]. split; [|apply NoDup_singleton].
      rewrite fmap_app. set_solver.
Qed.

Lemma head_of_in es next : es <> [] -> exists l, head_of es next = Some l /\ l ∈ es.*1.
Proof. destruct es as [|e es]; [done|]. intros _. exists e.1. split; [done|left]. Qed.

Lemma last_of_in prev es : es <> [] -> exists l, last_of prev es = Some l /\ l ∈ es.*1.
Proof.
  destruct es as [|e es _] using rev_ind; [done|]. intros _. rewrite last_of_snoc. exists e.1.
  split; [done|]. rewrite fmap_app. apply elem_of_app. right. left.
Qed.

Lemma last_of_app prev es1 es2 : last_of prev (es1 ++ es2) = last_of (last_of prev es1) es2.
Proof. revert prev. induction es1 as [|e es1 IH]; intros prev; [done|]. cbn [app]. by rewrite !last_of_cons, IH. Qed.

(** A neighbour is told about its new neighbour. *)
Lemma segment_set_next m prev es x k v next next' :
  segment m prev (es ++ [(x, (k, v))]) next -> NoDup (es ++ [(x, (k, v))]).*1 ->
  segment (<[x := (last_of prev es, next', k, v)]> m) prev (es ++ [(x, (k, v))]) next'.
Proof.
  rewrite !segment_app, fmap_app. intros [Hs [Hx _]] Hd. apply NoDup_app in Hd as (_ & Hd & _).
  split; [|split; [links|done]]. apply segment_insert; [|done]. intros H. apply (Hd _ H). left.
Qed.

Lemma segment_set_prev m prev prev' es y k v next :
  segment m prev ((y, (k, v)) :: es) next -> NoDup (y :: es.*1) ->
  segment (<[y := (prev', head_of es next, k, v)]> m) prev' ((y, (k, v)) :: es) next.
Proof.
  intros [Hy Hs] [Hn _]%NoDup_cons. split; [links|]. by apply segment_insert.
Qed.

Lemma unlink_ok es1 l k v es2 m f la n :
  listed m f la (es1 ++ (l, (k, v)) :: es2) ->
  wl (_unlink (Some l)) m f la n (fun _ m' f' la' n' =>
    listed m' f' la' (es1 ++ es2) /\ n' = u32 (n - 1) /\
    m' !! l = Some (last_of None es1, head_of es2 None, k, v)).
Proof.
  intros (Hs & -> & -> & Hd). unfold _unlink.
  apply segment_app in Hs as [Hs1 [Hl Hs2]]. rewrite fmap_app in Hd. cbn in Hd.
  apply NoDup_app in Hd as (Hd1 & Hd & [Hl2 Hd2]%NoDup_cons).
  assert (l ∉ es1.*1) as Hl1 by (intros Hx; apply (Hd l Hx); left).
  assert (NoDup (es1 ++ es2).*1) as Hdd.
  { rewrite fmap_app. apply NoDup_app. split_and!; [done| |done]. intros x Hx Hx2. apply (Hd x Hx). by right. }
  rewrite head_of_app, last_of_app. cbn [head_of fst]. rewrite last_of_cons. cbn [fst].
  assert (es1 <> [] -> head_of es1 (Some l) <> Some l /\ head_of es1 (Some l) = head_of (es1 ++ es2) None) as Hf.
  { destruct es1 as [|x es1]; [done|]. intros _. split; [|done]. intros [= E]. apply Hl1. rewrite <- E. left. }
  assert (es2 <> [] -> last_of (Some l) es2 <> Some l /\ last_of (Some l) es2 = last_of None (es1 ++ es2)) as Hla.
  { destruct es2 as [|x es2 _] using rev_ind; [done|]. intros _. rewrite app_assoc, !last_of_snoc.
    split; [|done]. intros [= E]. apply Hl2. rewrite <- E, fmap_app. apply elem_of_app. right. left. }
  destruct es1 as [|[x [kx vx]] es1 _] using rev_ind; destruct es2 as [|[y [ky vy]] es2].
  - cbn in *. by lsteps.
  - destruct Hla as [Hla1 Hla2]; [done|]. rewrite Hla2 in *. pose proof Hs2 as Hs2'. destruct Hs2 as [Hy Hs2].
    cbn [head_of last_of last fst app fmap list_fmap] in *.
    rewrite not_elem_of_cons in Hl2. destruct Hl2. lsteps. split_and!; [|done|links].
    split_and!; [exact (segment_set_prev _ _ _ _ _ _ _ _ Hs2' Hd2)|done..].
  - destruct Hf as [Hf1 Hf2]; [by destruct es1|]. rewrite app_nil_r in *. rewrite Hf2 in *.
    rewrite last_of_snoc in *. cbn [fst] in *. pose proof Hs1 as Hs1'.
    apply segment_app in Hs1 as [Hs1 [Hx _]]. rewrite fmap_app, not_elem_of_app in Hl1. cbn in Hl1, Hx, Hl |- *.
    rewrite not_elem_of_cons in Hl1. destruct Hl1 as (? & ? & _). lsteps. split_and!; [|done|links].
    split_and!; [exact (segment_set_next _ _ _ _ _ _ _ _ Hs1' Hdd)|done| |done]. by rewrite last_of_snoc.
  - destruct Hf as [Hf1 Hf2]; [by destruct es1|]. rewrite Hf2 in *. destruct Hla as [Hla1 Hla2]; [done|].
    rewrite Hla2 in *. rewrite last_of_snoc in *. pose proof Hs1 as Hs1'. pose proof Hs2 as [Hy _].
    apply segment_app in Hs1 as [Hs1 [Hx _]]. rewrite fmap_app, not_elem_of_app in Hl1. cbn in Hl1, Hx, Hl, Hl2.
    rewrite not_elem_of_cons in Hl1, Hl2. destruct Hl1 as (? & ? & _), Hl2 as [? ?].
    assert (forall z, z ∈ (es1 ++ [(x, (kx, vx))]).*1 -> z <> y /\ z ∉ es2.*1) as Hout.
    { intros z Hz. specialize (Hd z Hz). cbn in Hd. rewrite !not_elem_of_cons in Hd. tauto. }
    destruct (Hout x) as [Hxy Hx2]; [rewrite fmap_app; apply elem_of_app; right; left|].
    cbn [head_of fst] in *. lsteps. split_and!; [|done|links]. split_and!; [|done..].
    apply segment_app. rewrite last_of_snoc. split.
    + apply segment_insert; [intros Hy'; by destruct (Hout y Hy')|].
      exact (segment_set_next _ _ _ _ _ _ _ _ Hs1' Hd1).
    + apply (segment_set_prev _ (Some l)); [|done]. apply segment_insert; [|done]. cbn.
      by apply not_elem_of_cons.
Qed.
End link.

(** ** Representation *)

Section rep.
Context {K V : Type} `{Hasher K} `{DefaultValue V}.
Implicit Types (d : Dictionary K V) (es : list (loc * (K * V))) (k : K) (v : V).

Definition hash_of (e : loc * (K * V)) : loc * Z := (e.1, Hash e.2.1).

(** The entries of [d] are [es], in the order of insertion: they are in the list, in the ordered tree,
    and there are no others. *)
Definition holds_entries d es : Prop :=
  (exists t, holds (links d) (_root d) t /\ ordered t /\ inorder t ≡ₚ hash_of <$> es) /\
  listed (rests d) (_first d) (_last d) es /\
  _size d = u32 (zlen es) /\
  (forall l, is_Some (entries d !! l) <-> l ∈ es.*1).

Definition models d (kvs : list (K * V)) : Prop := exists es, holds_entries d es /\ kvs = es.*2.

(** The command succeeds and ends as [Q] says. *)
Definition runs {A} (c : M K V A) d (Q : A -> Dictionary K V -> Prop) : Prop :=
  exists a d', c d = Ok (a, d') /\ Q a d'.

Lemma runs_ret {A} (a : A) d (Q : A -> _ -> Prop) : Q a d -> runs (ret a) d Q.
Proof. intros ?. by exists a, d. Qed.

Lemma runs_bind {A B} (c : M K V A) (f : A -> M K V B) d (Q : B -> _ -> Prop) :
  runs c d (fun a d' => runs (f a) d' Q) -> runs (let* a := c in f a) d Q.
Proof. intros (a & d' & E & b & d'' & E' & HQ). exists b, d''. unfold andThen. by rewrite E. Qed.

Lemma runs_mono {A} (c : M K V A) d (Q Q' : A -> _ -> Prop) :
  runs c d Q -> (forall a d', Q a d' -> Q' a d') -> runs c d Q'.
Proof. intros (a & d' & E & HQ) HQ'. exists a, d'. auto. Qed.

Lemma runs_wp {A} (c : M K V A) d Q :
  wp c (links d) (_root d) Q -> runs c d (fun a d' => same_rest d d' /\ Q a (links d') (_root d')).
Proof. intros Hw. destruct (Hw d eq_refl eq_refl) as (a & d' & E & F & HQ). by exists a, d'. Qed.

Lemma runs_wl {A} (c : M K V A) d Q :
  wl c (rests d) (_first d) (_last d) (_size d) Q ->
  runs c d (fun a d' => links d' = links d /\ _root d' = _root d /\ Q a (rests d') (_first d') (_last d') (_size d')).
Proof. intros Hw. destruct (Hw d eq_refl eq_refl eq_refl eq_refl) as (a & d' & E & L & R & HQ). by exists a, d'. Qed.

(** Links and the rest make up an entry. *)
Lemma same_dictionary d d' : links d' = links d -> _root d' = _root d -> same_rest d d' -> d' = d.
Proof.
  destruct d as [n r f la h], d' as [n' r' f' la' h']. unfold links, same_rest. cbn.
  intros HL -> (-> & -> & -> & HR). f_equal. apply map_eq. intros l.
  assert ((link <$> h') !! l = (link <$> h) !! l) as HL' by (by rewrite HL).
  assert ((rest_of <$> h') !! l = (rest_of <$> h) !! l) as HR' by (by rewrite HR).
  rewrite !lookup_fmap in HL'. rewrite (lookup_fmap rest_of h' l), (lookup_fmap rest_of h l) in HR'.
  destruct (h !! l) as [[]|], (h' !! l) as [[]|]; try done. unfold link, rest_of in *. simpl in *. congruence.
Qed.

Lemma is_Some_links d l : is_Some (links d !! l) <-> is_Some (entries d !! l).
Proof. unfold links. by rewrite lookup_fmap, fmap_is_Some. Qed.
Lemma is_Some_rests d l : is_Some (rests d !! l) <-> is_Some (entries d !! l).
Proof. unfold rests. by rewrite lookup_fmap, fmap_is_Some. Qed.

Lemma same_entries_links d d' : links d' = links d -> forall l, is_Some (entries d' !! l) <-> is_Some (entries d !! l).
Proof. intros E l. by rewrite <- !is_Some_links, E. Qed.
Lemma same_entries_rests d d' : rests d' = rests d -> forall l, is_Some (entries d' !! l) <-> is_Some (entries d !! l).
Proof. intros E l. by rewrite <- !is_Some_rests, E. Qed.

(** ** The entry of a key *)

Fixpoint find_loc k es : ptr :=
  match es with
  | [] => None
  | e :: es => if same_hash k e.2 then Some e.1 else find_loc k es
  end.

Lemma ordered_NoDup t : ordered t -> NoDup (inorder t).*2.
Proof.
  unfold ordered. induction 1 as [|x l _ IH Hx]; [constructor|]. cbn. constructor; [|done].
  intros (y & Ey & Hy)%list_elem_of_fmap. rewrite Forall_forall in Hx. specialize (Hx y Hy).
  unfold by_hash in Hx. lia.
Qed.

Lemma find_loc_Some k es l :
  find_loc k es = Some l -> exists es1 kv es2, es = es1 ++ (l, kv) :: es2 /\ same_hash k kv = true /\
    Forall (fun e => same_hash k e.2 = false) es1.
Proof.
  induction es as [|[l' kv] es IH]; [done|]. cbn. destruct (same_hash k kv) eqn:E.
  - intros [= ->]. exists [], kv, es. split_and!; [done..|constructor].
  - intros (es1 & kv' & es2 & -> & ? & ?)%IH. exists ((l', kv) :: es1), kv', es2. by repeat constructor.
Qed.

Lemma find_loc_None k es : find_loc k es = None <-> Hash k ∉ (hash_of <$> es).*2.
Proof.
  induction es as [|[l' kv] es IH]; cbn; [split; [by intros _ ?%elem_of_nil|done]|].
  rewrite not_elem_of_cons. unfold same_hash. destruct (Z.eqb_spec (Hash kv.1) (Hash k)) as [E|E].
  - split; [done|]. intros [[] _]. congruence.
  - rewrite IH. split; [by intros|by intros [_ ?]].
Qed.

Lemma find_entry_ok k d es :
  holds_entries d es -> runs (_find k) d (fun p d' => p = find_loc k es /\ d' = d).
Proof.
  intros ((t & Ht & Ho & Hp) & _). unfold _find.
  assert (wp (K := K) (V := V) (_find k) (links d) (_root d)
    (fun p m' r' => p = tree_find (Hash k) t /\ m' = links d /\ r' = _root d)) as Hw.
  { apply wp_bind, wp_fuel_of. steps. pose proof Ht as (Hat & -> & _).
    eapply (find_loop_ok (Hash k) _ t); [done|]. pose proof (holds_size _ _ _ Ht). pose proof (height_locs t). lia. }
  eapply runs_mono; [by apply runs_wp|]. intros p d' (Hs & -> & HL & HR).
  split; [|by apply same_dictionary].
  destruct (find_loc k es) as [l|] eqn:El.
  - apply tree_find_spec; [done|]. rewrite Hp. apply find_loc_Some in El as (es1 & kv & es2 & -> & E & _).
    apply Z.eqb_eq in E. rewrite <- E.
    rewrite fmap_app. apply elem_of_app. right. left.
  - apply find_loc_None in El. rewrite <- Hp in El. destruct (tree_find _ _) as [l|] eqn:E; [|done].
    apply tree_find_spec in E; [|done]. destruct El. apply list_elem_of_fmap. by exists (l, Hash k).
Qed.

(** ** Adding an entry *)

Lemma holds_insert m r t l x : holds m r t -> l ∉ locs t -> holds (<[l:=x]> m) r t.
Proof. intros (? & ? & ?) Hl. split_and!; [by apply tree_at_insert|done..]. Qed.

Lemma locs_perm es t : inorder t ≡ₚ hash_of <$> es -> locs t ≡ₚ es.*1.
Proof.
  intros Hp. unfold locs. rewrite Hp, <- list_fmap_compose. apply reflexive_eq.
  apply list_fmap_ext. by intros ? [? []].
Qed.

(** A fresh entry, not yet linked. *)
Definition fresh_entry (k : K) (v : V) : Entry K V := mkEntry None None None None None RED k v (Hash k).

(** At most one entry more, where [tree_insert] puts it. *)
Definition grown d d' : Prop :=
  forall t, holds (links d) (_root d) t ->
  holds (links d') (_root d') t \/ exists l h, holds (links d') (_root d') (tree_insert l h t).

Lemma link_insert_ok d es l k v :
  holds_entries d es -> entries d !! l = None -> find_loc k es = None ->
  runs (_link (Some l) ;;* _insert (Some l) None) (with_entries d (<[l := fresh_entry k v]> (entries d)))
    (fun _ d' => holds_entries d' (es ++ [(l, (k, v))]) /\ grown d d').
Proof.
  intros Hd Hl Hk. pose proof Hd as ((t & Ht & Ho & Hp) & Hli & Hn & Hdom).
  pose proof (locs_perm _ _ Hp) as Hlp.
  assert (l ∉ es.*1) as Hle by (rewrite <- Hdom, Hl; by intros [? ?]).
  assert (l ∉ locs t) as Hlt by by rewrite Hlp.
  set (d1 := with_entries d _).
  assert (rests d1 = <[l := (None, None, k, v)]> (rests d)) as HR1.
  { unfold rests, d1. cbn. by rewrite fmap_insert. }
  assert (links d1 = <[l := mkLink None None None RED (Hash k)]> (links d)) as HL1.
  { unfold links, d1. cbn. by rewrite fmap_insert. }
  apply runs_bind. eapply runs_mono.
  { apply runs_wl. rewrite HR1. apply (link_ok l k v es); [|by rewrite lookup_insert_eq|done].
    destruct Hli as (Hs & ? & ? & ?). split_and!; [by apply segment_insert|done..]. }
  intros _ d2 (HL2 & HR2 & Hli2 & Hn2).
  assert (holds (links d2) (_root d2) t) as Ht2.
  { rewrite HL2, HR2, HL1. by apply holds_insert. }
  eapply runs_mono.
  { apply runs_wp. apply (insert_ok t l (Hash k)); [done| |done]. by rewrite HL2, HL1, lookup_insert_eq. }
  intros _ d3 (Hs3 & Ht3). destruct (tree_insert_order l (Hash k) t Ho) as [Ho3 Hp3].
  { apply find_loc_None in Hk. by rewrite Hp. }
  split; [|intros u Hu; right; exists l, (Hash k); by rewrite (holds_inj _ _ _ _ Hu Ht)].
  destruct Hs3 as (Hn3 & Hf3 & Hla3 & Hr3). split_and!.
  - exists (tree_insert l (Hash k) t). split_and!; [done..|].
    rewrite Hp3, Hp, fmap_app. cbn. solve_Permutation.
  - unfold rests in *. by rewrite Hr3, Hf3, Hla3.
  - rewrite Hn3, Hn2. cbn. rewrite Hn. unfold wrapU. rewrite Zplus_mod_idemp_l. f_equal. zlen_lia.
  - intros l'. rewrite (same_entries_rests d2 d3) by done. rewrite (same_entries_links d1 d2) by done.
    unfold d1. cbn. rewrite fmap_app, elem_of_app, <- Hdom. cbn. rewrite list_elem_of_singleton.
    destruct (decide (l = l')) as [->|]; [rewrite lookup_insert_eq|rewrite lookup_insert_ne by done].
    + split; [auto|by eauto].
    + split; [auto|]. by intros [? | ->].
Qed.

Lemma new_ok e d :
  runs (new e) d (fun p d' => exists l, p = Some l /\ entries d !! l = None /\
    d' = with_entries d (<[l := e]> (entries d))).
Proof.
  eexists _, _. split; [done|]. eexists. split_and!; [done| |done].
  apply not_elem_of_dom, is_fresh.
Qed.

Definition has k es : bool := negb (is_null (find_loc k es)).

Lemma hasKey_entry_ok k d es :
  holds_entries d es -> runs (hasKey k) d (fun b d' => b = has k es /\ d' = d).
Proof.
  intros Hd. apply runs_bind. eapply runs_mono; [by apply find_entry_ok|].
  intros p ? [-> ->]. by apply runs_ret.
Qed.

Lemma add_ok k v d es :
  holds_entries d es -> find_loc k es = None ->
  runs (add k v) d (fun _ d' => (exists l, holds_entries d' (es ++ [(l, (k, v))])) /\ grown d d').
Proof.
  intros Hd Hk. unfold add. apply runs_bind. eapply runs_mono; [by apply hasKey_entry_ok|].
  intros b ? [-> ->]. unfold has. rewrite Hk. cbn [negb].
  apply runs_bind. eapply runs_mono; [apply new_ok|]. intros p d1 (l & -> & Hl & ->).
  apply runs_bind. exists tt, (with_entries d (<[l := fresh_entry k v]> (entries d))). split.
  { cbn. rewrite lookup_insert_eq. unfold with_entries. cbn. by rewrite insert_insert_eq. }
  eapply runs_mono; [by apply link_insert_ok|].
  intros ? d' [Hd' Hg]. split; [by exists l|done].
Qed.

Lemma add_throws k v d es :
  holds_entries d es -> find_loc k es <> None -> add k v d = Throw InvalidArgumentException.
Proof.
  intros Hd Hk. destruct (hasKey_entry_ok k d es Hd) as (b & d' & E & -> & ->).
  unfold add, andThen at 1. rewrite E. unfold has. by destruct (find_loc k es).
Qed.


(** ** Removing an entry *)

(** [delete] of an entry that the tree and the list have let go. *)
Lemma free_ok d d0 es t l :
  holds (links d) (_root d) t -> ordered t -> inorder t ≡ₚ hash_of <$> es ->
  listed (rests d) (_first d) (_last d) es -> _size d = u32 (zlen es) ->
  (forall l', is_Some (entries d !! l') <-> is_Some (entries d0 !! l')) ->
  (forall l', is_Some (entries d0 !! l') <-> l' = l \/ l' ∈ es.*1) -> l ∉ es.*1 ->
  runs (free (Some l)) d (fun _ d' => holds_entries d' es).
Proof.
  intros Ht Ho Hp Hli Hn Hd Hd0 Hl.
  assert (is_Some (entries d !! l)) as [e He] by (apply Hd, Hd0; by left).
  exists tt, (with_entries d (delete l (entries d))). split; [cbn; by rewrite He|].
  pose proof (locs_perm _ _ Hp) as Hlp. split_and!; [| |done|].
  - exists t. split_and!; [|done..]. destruct Ht as (Hat & Hr & Hnd). split_and!; [|done..].
    assert (links (with_entries d (delete l (entries d))) = delete l (links d)) as ->
      by (unfold links; cbn; by rewrite fmap_delete).
    apply tree_at_ext with (links d); [|done]. intros x Hx. rewrite lookup_delete_ne; [done|].
    intros ->. by rewrite Hlp in Hx.
  - destruct Hli as (Hs & ? & ? & ?). split_and!; [|done..].
    apply segment_ext with (rests d); [|done]. intros x Hx.
    unfold rests. cbn. rewrite fmap_delete, lookup_delete_ne; [done|]. by intros ->.
  - intros x. cbn. destruct (decide (x = l)) as [->|Hx].
    + rewrite lookup_delete_eq. split; [by intros [? ?]|done].
    + rewrite lookup_delete_ne by done. rewrite Hd, Hd0. split; [by intros [?|?]|auto].
Qed.

Lemma in_tree_place t l h : (l, h) ∈ inorder t -> exists ctx c a b, t = fill ctx (Node l c h a b).
Proof.
  induction t as [|l' c k' a IHa b IHb]; [by intros ?%elem_of_nil|]. cbn [inorder].
  rewrite elem_of_app, elem_of_cons. intros [(ctx & c' & a' & b' & ->)%IHa|[[= -> ->]|(ctx & c' & a' & b' & ->)%IHb]].
  - exists (ctx ++ [Frame L l' c k' b]), c', a', b'. by rewrite fill_app.
  - by exists [], c, a, b.
  - exists (ctx ++ [Frame R l' c k' a]), c', a', b'. by rewrite fill_app.
Qed.

Lemma remove_entry_ok d es1 l kv es2 :
  holds_entries d (es1 ++ (l, kv) :: es2) ->
  runs (remove_entry (Some l)) d (fun _ d' => holds_entries d' (es1 ++ es2)).
Proof.
  intros ((t & Ht & Ho & Hp) & Hli & Hn & Hdom). destruct kv as [k v]. unfold remove_entry.
  pose proof (locs_perm _ _ Hp) as Hlp.
  assert (NoDup (es1 ++ (l, (k, v)) :: es2).*1) as Hnd by apply Hli.
  apply runs_bind. eapply runs_mono; [by apply runs_wl, unlink_ok|].
  intros ? d1 (HL1 & HR1 & Hli1 & Hn1 & _).
  destruct (in_tree_place t l (Hash k)) as (ctx & c & ta & tb & Et).
  { rewrite Hp, fmap_app. apply elem_of_app. right. left. }
  apply runs_bind. eapply runs_mono.
  { apply runs_wp, (remove_ok ctx l c (Hash k) ta tb). by rewrite HL1, HR1, <- Et. }
  intros ? d2 (Hs2 & t2 & l1 & l2 & Ht2 & E1 & E2). rewrite <- Et in E1.
  assert (inorder t2 ≡ₚ hash_of <$> es1 ++ es2) as Hp2.
  { rewrite E2. rewrite E1, !fmap_app in Hp. cbn in Hp. rewrite fmap_app.
    apply (Permutation.Permutation_cons_inv (a := (l, Hash k))).
    transitivity (l1 ++ (l, Hash k) :: l2); [solve_Permutation|]. rewrite Hp. solve_Permutation. }
  destruct Hs2 as (Hn2 & Hf2 & Hla2 & Hr2).
  eapply (free_ok d2 d (es1 ++ es2) t2).
  - done.
  - by eapply ordered_remove.
  - done.
  - unfold rests in *. by rewrite Hr2, Hf2, Hla2.
  - rewrite Hn2, Hn1, Hn. unfold wrapU. rewrite Zminus_mod_idemp_l. f_equal. zlen_lia.
  - intros x. rewrite (same_entries_rests d1 d2) by done. by rewrite (same_entries_links d d1).
  - intros x. rewrite Hdom, !fmap_app, !elem_of_app. cbn. rewrite elem_of_cons. tauto.
  - rewrite fmap_app in Hnd |- *. cbn in Hnd. rewrite not_elem_of_app.
    apply NoDup_app in Hnd as (_ & Hx & [? _]%NoDup_cons). split; [|done]. intros Hy. apply (Hx _ Hy). left.
Qed.

(** ** The specification at the entry of the key *)

Lemma same_hash_eq k (kv : K * V) : same_hash k kv = true <-> Hash kv.1 = Hash k.
Proof. apply Z.eqb_eq. Qed.

Lemma entries_NoDup d es : holds_entries d es -> NoDup (hash_of <$> es).*2.
Proof. intros ((t & _ & Ho & Hp) & _). rewrite <- Hp. by apply ordered_NoDup. Qed.

Lemma spec_miss k es :
  find_loc k es = None -> Forall (fun e => same_hash k e.2 = false) es.
Proof.
  induction es as [|e es IH]; [constructor|]. cbn. destruct (same_hash k e.2) eqn:E; [done|].
  constructor; [done|by apply IH].
Qed.

Lemma lookup_miss k es : Forall (fun e => same_hash k e.2 = false) es -> lookup k es.*2 = None.
Proof. induction 1 as [|e es E _ IH]; [done|]. cbn. by rewrite E. Qed.
Lemma update_miss k v es : Forall (fun e => same_hash k e.2 = false) es -> update k v es.*2 = es.*2 ++ [(k, v)].
Proof. induction 1 as [|e es E _ IH]; [done|]. cbn. by rewrite E, IH. Qed.
Lemma erase_miss k es : Forall (fun e => same_hash k e.2 = false) es -> erase k es.*2 = es.*2.
Proof. induction 1 as [|e es E _ IH]; [done|]. cbn. rewrite E. cbn. by f_equal. Qed.

Lemma lookup_hit k es1 l kv es2 :
  Forall (fun e => same_hash k e.2 = false) es1 -> same_hash k kv = true ->
  lookup k (es1 ++ (l, kv) :: es2).*2 = Some kv.2.
Proof. intros H1 Hk. induction H1 as [|e es E _ IH]; cbn; [by rewrite Hk|by rewrite E]. Qed.
Lemma update_hit k v es1 l kv es2 :
  Forall (fun e => same_hash k e.2 = false) es1 -> same_hash k kv = true ->
  update k v (es1 ++ (l, kv) :: es2).*2 = (es1 ++ (l, (kv.1, v)) :: es2).*2.
Proof. intros H1 Hk. induction H1 as [|e es E _ IH]; cbn; [by rewrite Hk|by rewrite E, IH]. Qed.
Lemma erase_hit k es1 l kv es2 :
  NoDup (hash_of <$> (es1 ++ (l, kv) :: es2)).*2 ->
  Forall (fun e => same_hash k e.2 = false) es1 -> same_hash k kv = true ->
  erase k (es1 ++ (l, kv) :: es2).*2 = (es1 ++ es2).*2.
Proof.
  intros Hnd H1 Hk. induction H1 as [|e es E _ IH]; cbn in *.
  - rewrite Hk. cbn. apply erase_miss. apply NoDup_cons in Hnd as [Hnd _]. apply Forall_forall.
    intros e He. destruct (same_hash k e.2) eqn:E; [|done]. exfalso. apply Hnd.
    apply same_hash_eq in E, Hk. rewrite Hk, <- E. apply list_elem_of_fmap. exists (hash_of e).
    split; [done|]. apply list_elem_of_fmap. by exists e.
  - rewrite E. cbn. f_equal. apply IH. by apply NoDup_cons in Hnd as [_ ?].
Qed.

Lemma find_lookup k es :
  match find_loc k es with
  | None => lookup k es.*2 = None
  | Some l => exists es1 kv es2, es = es1 ++ (l, kv) :: es2 /\ same_hash k kv = true /\
      Forall (fun e => same_hash k e.2 = false) es1 /\ lookup k es.*2 = Some kv.2
  end.
Proof.
  destruct (find_loc k es) as [l|] eqn:E.
  - apply find_loc_Some in E as (es1 & kv & es2 & -> & Hk & H1). exists es1, kv, es2.
    split_and!; [done..|]. by apply lookup_hit.
  - by apply lookup_miss, spec_miss.
Qed.

(** ** Values *)

Lemma fetch_value_ok d es1 l k v es2 :
  holds_entries d (es1 ++ (l, (k, v)) :: es2) -> runs (fetch (Some l) _value) d (fun a d' => a = v /\ d' = d).
Proof.
  intros (_ & (Hs & _) & _ & _). apply segment_app in Hs as [_ [Hl _]].
  unfold rests in Hl. rewrite lookup_fmap in Hl. destruct (entries d !! l) as [e|] eqn:E; [|done].
  cbn in Hl. injection Hl as _ _ _ Hv. exists (_value e), d. unfold fetch. by rewrite E.
Qed.

Lemma put_value_ok d es1 l k v v' es2 :
  holds_entries d (es1 ++ (l, (k, v)) :: es2) ->
  runs (assign (Some l) (put_value v')) d (fun _ d' =>
    holds_entries d' (es1 ++ (l, (k, v')) :: es2) /\ links d' = links d /\ _root d' = _root d).
Proof.
  intros ((t & Ht & Ho & Hp) & (Hs & Hf & Hla & Hd) & Hn & Hdom).
  assert ((es1 ++ (l, (k, v)) :: es2).*1 = (es1 ++ (l, (k, v')) :: es2).*1) as Ek by by rewrite !fmap_app.
  assert ((l ∉ es1.*1) /\ (l ∉ es2.*1)) as [Hl1 Hl2].
  { rewrite fmap_app in Hd. cbn in Hd. apply NoDup_app in Hd as (_ & Hx & [? _]%NoDup_cons).
    split; [|done]. intros Hy. apply (Hx _ Hy). left. }
  pose proof Hs as Hs'. apply segment_app in Hs' as [Hs1 [Hl Hs2]].
  eapply runs_mono.
  { apply runs_wl. eapply (wl_put_value v'); [done|done|exact Hl|].
    instantiate (1 := fun _ m f la n => m = <[l := _]> (rests d) /\ f = _first d /\ la = _last d /\ n = _size d). done. }
  intros ? d' (HL & HR & Hm & Hf' & Hla' & Hn'). cbn in Hm. split; [|done]. split_and!.
  - exists t. rewrite HL, HR. split_and!; [done..|]. rewrite Hp, !fmap_app. done.
  - rewrite Hm, Hf', Hla', Hf, Hla. split_and!.
    + apply segment_app. rewrite !segment_insert by done. split; [exact Hs1|].
      cbn. rewrite lookup_insert_eq. split; [done|]. by apply segment_insert.
    + rewrite !head_of_app. done.
    + rewrite !last_of_app, !last_of_cons. done.
    + by rewrite <- Ek.
  - rewrite Hn', Hn. f_equal. zlen_lia.
  - intros x. rewrite <- Ek, <- Hdom. by apply same_entries_links.
Qed.

(** ** The methods *)

Definition mem k (kvs : list (K * V)) : bool := match lookup k kvs with None => false | Some _ => true end.

Lemma has_mem k es : has k es = mem k es.*2.
Proof.
  unfold has, mem. pose proof (find_lookup k es) as Hf.
  destruct (find_loc k es) as [l|]; [by destruct Hf as (? & ? & ? & _ & _ & _ & ->)|by rewrite Hf].
Qed.

Lemma new_models : models (Dictionary_new (Key := K) (Value := V)) [].
Proof.
  exists []. split; [|done]. split_and!; [|by split_and!; [..|constructor]|done|].
  - exists Leaf. split_and!; [by split_and!; [..|constructor]|constructor|done].
  - intros l. cbn. rewrite lookup_empty. split; [by intros [? ?]|by intros ?%elem_of_nil].
Qed.

Lemma hasKey_spec k d kvs : models d kvs -> runs (hasKey k) d (fun b d' => b = mem k kvs /\ d' = d).
Proof.
  intros (es & Hd & ->). eapply runs_mono; [by apply hasKey_entry_ok|]. intros b ? [-> ->].
  by rewrite has_mem.
Qed.

Lemma add_spec k v d kvs :
  models d kvs ->
  if mem k kvs then add k v d = Throw InvalidArgumentException
  else runs (add k v) d (fun _ d' => models d' (kvs ++ [(k, v)])).
Proof.
  intros (es & Hd & ->). rewrite <- has_mem. unfold has. destruct (find_loc k es) eqn:E; cbn.
  - by apply (add_throws k v d es); [|rewrite E].
  - eapply runs_mono; [by apply add_ok|]. intros ? d' [(l & Hd') _]. eexists. split; [exact Hd'|].
    by rewrite fmap_app.
Qed.

Lemma remove_spec k d kvs :
  models d kvs ->
  if mem k kvs then runs (remove k) d (fun _ d' => models d' (erase k kvs))
  else remove k d = Throw NullPointerException.
Proof.
  intros (es & Hd & ->). destruct (find_entry_ok k d es Hd) as (p & d' & E & -> & ->).
  rewrite <- has_mem. unfold has, remove, runs, andThen at 1 2. rewrite E.
  destruct (find_loc k es) as [l|] eqn:El; cbn; [|done].
  apply find_loc_Some in El as (es1 & kv & es2 & -> & Hk & H1).
  destruct (remove_entry_ok _ _ _ _ _ Hd) as (a & d' & E' & Hd'). rewrite E'.
  exists a, d'. split; [done|]. eexists. split; [exact Hd'|]. apply erase_hit; [|done|done].
  by eapply entries_NoDup.
Qed.

Lemma get_spec k d kvs :
  models d kvs ->
  match lookup k kvs with
  | Some v => get k d = Ok (v, d)
  | None => get k d = Throw NullPointerException
  end.
Proof.
  intros (es & Hd & ->). destruct (find_entry_ok k d es Hd) as (p & d' & E & -> & ->).
  unfold get, andThen. rewrite E. pose proof (find_lookup k es) as Hf.
  destruct (find_loc k es) as [l|]; [|by rewrite Hf].
  destruct Hf as (es1 & [k' v] & es2 & -> & _ & _ & ->).
  destruct (fetch_value_ok _ _ _ _ _ _ Hd) as (? & ? & E' & -> & ->). exact E'.
Qed.

Lemma runs_assoc {A B C} (a : M K V A) (b : M K V B) (c : M K V C) d Q :
  runs ((a ;;* b) ;;* c) d Q -> runs (a ;;* b ;;* c) d Q.
Proof. unfold runs, andThen. by destruct (a d) as [[? ?]| | |]. Qed.

(** [operator[]] gives the entry of the key, which it adds with the default value when it is missing. *)
Lemma index_entry_ok k d es :
  holds_entries d es ->
  runs (index k) d (fun p d' => grown d d' /\ exists es1 l k' v es2, p = Some l /\ holds_entries d' (es1 ++ (l, (k', v)) :: es2) /\
    same_hash k (k', v) = true /\ Forall (fun e => same_hash k e.2 = false) es1 /\
    v = match lookup k es.*2 with Some v => v | None => default_value end /\
    (es1 ++ (l, (k', v)) :: es2).*2 = match lookup k es.*2 with Some _ => es.*2 | None => es.*2 ++ [(k, v)] end).
Proof.
  intros Hd. unfold index. apply runs_bind. eapply runs_mono; [by apply find_entry_ok|].
  intros p ? [-> ->]. pose proof (find_lookup k es) as Hf. destruct (find_loc k es) as [l|] eqn:El.
  - destruct Hf as (es1 & [k' v] & es2 & -> & Hk & H1 & ->). apply runs_ret. cbn [snd].
    split; [by left|]. by exists es1, l, k', v, es2.
  - rewrite Hf. cbn. apply runs_bind. eapply runs_mono; [apply new_ok|]. intros p d1 (l & -> & Hl & ->).
    apply runs_assoc, runs_bind. eapply runs_mono; [by apply link_insert_ok|]. intros ? d' [Hd' Hg].
    apply runs_ret. split; [done|]. exists es, l, k, default_value, []. split_and!; [done..| |by apply spec_miss|done|by rewrite fmap_app].
    by apply Z.eqb_eq.
Qed.

Lemma put_spec k v d kvs :
  models d kvs -> runs (put k v) d (fun _ d' => models d' (update k v kvs)).
Proof.
  intros (es & Hd & ->). apply runs_bind. eapply runs_mono; [by apply index_entry_ok|].
  intros p d1 (_ & es1 & l & k' & v' & es2 & -> & Hd1 & Hk & H1 & _ & E).
  eapply runs_mono; [exact (put_value_ok _ _ _ _ _ v _ Hd1)|]. intros ? d2 [Hd2 _]. eexists. split; [exact Hd2|].
  transitivity (update k v (es1 ++ (l, (k', v')) :: es2).*2); [|exact (update_hit k v es1 l (k', v') es2 H1 Hk)].
  rewrite E.
  pose proof (find_lookup k es) as Hf. destruct (lookup k es.*2) eqn:El; [done|].
  destruct (find_loc k es) as [?|] eqn:Ef; [by destruct Hf as (? & ? & ? & _ & _ & _ & ?)|].
  rewrite (update_miss k v es) by by apply spec_miss. apply spec_miss in Ef.
  change (es.*2 ++ [(k, v')]) with (es.*2 ++ [(1%positive, (k, v'))].*2). rewrite <- fmap_app.
  rewrite update_hit; [by rewrite fmap_app|done|by apply Z.eqb_eq].
Qed.

Lemma at_key_spec k d kvs :
  models d kvs ->
  runs (at_key k) d (fun v d' =>
    v = match lookup k kvs with Some v => v | None => default_value end /\
    models d' match lookup k kvs with Some _ => kvs | None => kvs ++ [(k, v)] end).
Proof.
  intros (es & Hd & ->). apply runs_bind. eapply runs_mono; [by apply index_entry_ok|].
  intros p d1 (_ & es1 & l & k' & v & es2 & -> & Hd1 & _ & _ & Ev & E).
  eapply runs_mono; [by eapply fetch_value_ok|]. intros ? ? [-> ->]. split; [done|].
  eexists. split; [exact Hd1|]. by rewrite E.
Qed.

(** ** Walks along the list *)

Lemma entries_size d es : holds_entries d es -> (length es <= base.size (entries d))%nat.
Proof.
  intros ((t & Ht & _ & Hp) & _). pose proof (holds_size _ _ _ Ht) as Hs.
  rewrite (locs_perm _ _ Hp), length_fmap in Hs. unfold links in Hs. by rewrite map_size_fmap in Hs.
Qed.

Lemma fetch_rest {A} (f : Entry K V -> A) (F : Rest -> A) d l r :
  (forall e, f e = F (rest_of e)) -> rests d !! l = Some r -> fetch (Some l) f d = Ok (F r, d).
Proof.
  intros Hf Hl. unfold rests in Hl. rewrite lookup_fmap in Hl. unfold fetch.
  destruct (entries d !! l) as [e|]; simplify_eq/=. by rewrite Hf.
Qed.

Lemma items_loop_ok d prev es fuel :
  segment (rests d) prev es None -> (length es < fuel)%nat ->
  items_loop (head_of es None) fuel d = Ok (es.*2, d).
Proof.
  revert prev fuel. induction es as [|[l [k v]] es IH]; intros prev [|fuel] Hs Hf; simpl in Hf; try lia; [done|].
  destruct Hs as [Hl Hs]. cbn [items_loop head_of fst]. unfold end_iter, iter_key, iter_value, iter_next, andThen at 1.
  cbn [ret bind]. unfold iter_eq. rewrite bool_decide_eq_false_2 by done. unfold andThen.
  rewrite (fetch_rest _key (fun r => r.1.2) d l _) by done. cbn [bind fst snd].
  rewrite (fetch_rest _value (fun r => r.2) d l _ ltac:(done) Hl). cbn [bind fst snd].
  rewrite (fetch_rest _next (fun r => r.1.1.2) d l _ ltac:(done) Hl). cbn [bind fst snd].
  by rewrite (IH (Some l) fuel Hs) by lia.
Qed.

Lemma items_spec d kvs : models d kvs -> items d = Ok (kvs, d).
Proof.
  intros (es & Hd & ->). pose proof (entries_size _ _ Hd). destruct Hd as (_ & (Hs & Hf & _) & _).
  unfold items, fuel_of, begin_iter, this, andThen. cbn [bind]. rewrite Hf.
  apply (items_loop_ok _ None); [done|lia].
Qed.

Lemma contains_loop_ok eqb v d prev es fuel :
  segment (rests d) prev es None -> (length es < fuel)%nat ->
  contains_loop eqb (head_of es None) v fuel d = Ok (existsb (fun kv => eqb kv.2 v) es.*2, d).
Proof.
  revert prev fuel. induction es as [|[l [k v']] es IH]; intros prev [|fuel] Hs Hf; simpl in Hf; try lia; [done|].
  destruct Hs as [Hl Hs]. cbn [contains_loop head_of fst]. rewrite (bool_decide_eq_false_2 (Some l = None)) by done.
  unfold andThen. rewrite (fetch_rest _value (fun r => r.2) d l _ ltac:(done) Hl). cbn [bind snd fmap list_fmap existsb].
  destruct (eqb v' v); [done|]. rewrite (fetch_rest _next (fun r => r.1.1.2) d l _ ltac:(done) Hl).
  cbn [bind fst snd]. by apply (IH (Some l)); [|lia].
Qed.

Lemma containsValue_spec eqb v d kvs :
  models d kvs -> containsValue eqb v d = Ok (existsb (fun kv => eqb kv.2 v) kvs, d).
Proof.
  intros (es & Hd & ->). pose proof (entries_size _ _ Hd). destruct Hd as (_ & (Hs & Hf & _) & _).
  unfold containsValue, fuel_of, this, andThen. cbn [bind]. rewrite Hf.
  apply (contains_loop_ok _ _ _ None); [done|lia].
Qed.

Lemma size_spec d kvs : models d kvs -> size d = Ok (u32 (zlen kvs), d).
Proof. intros (es & (_ & _ & Hn & _) & ->). unfold size, this. by rewrite Hn, zlen_fmap. Qed.

(** [clear] deletes the entries of the list one by one; what the links say no longer matters. *)
Lemma clear_loop_ok d prev es fuel :
  segment (rests d) prev es None -> NoDup es.*1 -> (length es < fuel)%nat ->
  exists d', clear_loop (head_of es None) fuel d = Ok (tt, d') /\
    forall l, entries d' !! l = if decide (l ∈ es.*1) then None else entries d !! l.
Proof.
  revert prev fuel d. induction es as [|[l [k v]] es IH]; intros prev [|fuel] d Hs Hd Hf; simpl in Hf; try lia.
  { exists d. split; [done|]. intros l. case_decide as Hl; [by apply elem_of_nil in Hl|done]. }
  destruct Hs as [Hl Hs]. cbn in Hd. apply NoDup_cons in Hd as [Hln Hd].
  assert (fetch (Some l) _next d = Ok (head_of es None, d)) as En
    by exact (fetch_rest _next (fun r => r.1.1.2) d l _ ltac:(done) Hl).
  cbn [clear_loop head_of fst]. rewrite (bool_decide_eq_false_2 (Some l = None)) by done.
  unfold andThen at 1. rewrite En. cbn [bind].
  unfold rests in Hl. rewrite lookup_fmap in Hl. destruct (entries d !! l) as [e|] eqn:E; [|done].
  unfold andThen, free. rewrite E. cbn [bind].
  set (d1 := with_entries d (delete l (entries d))).
  destruct (IH (Some l) fuel d1) as (d' & E' & Hd').
  - apply segment_ext with (rests d); [|done]. intros x Hx. unfold rests, d1. cbn.
    rewrite fmap_delete, lookup_delete_ne; [done|]. by intros ->.
  - done.
  - lia.
  - exists d'. split; [done|]. intros x. rewrite Hd'. cbn. destruct (decide (x = l)) as [->|Hx].
    + rewrite decide_False by done. rewrite decide_True by left. apply lookup_delete_eq.
    + rewrite lookup_delete_ne by done. repeat case_decide; set_solver.
Qed.

Lemma clear_spec d kvs : models d kvs -> runs clear d (fun _ d' => models d' []).
Proof.
  intros (es & Hd & ->). pose proof (entries_size _ _ Hd).
  destruct Hd as (_ & (Hs & Hf & _ & Hnd) & _ & Hdom).
  destruct (clear_loop_ok d None es (S (base.size (entries d))) Hs Hnd) as (d' & E & Hd'); [lia|].
  exists tt, (mkDictionary 0 None None None (entries d')). split.
  - unfold clear, fuel_of, this, andThen. cbn [bind]. rewrite Hf, E. done.
  - exists []. split; [|done]. split_and!; [|by split_and!; [..|constructor]|done|].
    + exists Leaf. split_and!; [by split_and!; [..|constructor]|constructor|done].
    + intros l. cbn. rewrite Hd'. case_decide as Hl.
      * split; [by intros [? ?]|by intros ?%elem_of_nil].
      * rewrite Hdom. split; [done|by intros ?%elem_of_nil].
Qed.

(** [remove(Iterator&)] at the entry after [es1]: the iterator moves to the next entry. *)
Lemma remove_iter_spec d es1 l k v es2 :
  holds_entries d (es1 ++ (l, (k, v)) :: es2) ->
  runs (remove_iter (Some l)) d (fun p d' => p = head_of es2 None /\ holds_entries d' (es1 ++ es2)).
Proof.
  intros Hd. pose proof Hd as (_ & (Hs & _) & _). apply segment_app in Hs as [_ [Hl _]].
  unfold remove_iter, iter_key, iter_next. apply runs_bind. exists k, d. split; [exact (fetch_rest _key (fun r => r.1.2) d l _ ltac:(done) Hl)|].
  apply runs_bind. eapply runs_mono; [by apply find_entry_ok|]. intros p ? [-> ->].
  assert (find_loc k (es1 ++ (l, (k, v)) :: es2) = Some l) as ->.
  { pose proof (entries_NoDup _ _ Hd) as Hnd. clear -Hnd. induction es1 as [|e es1 IH]; cbn in *.
    - unfold same_hash. by rewrite Z.eqb_refl.
    - apply NoDup_cons in Hnd as [Hn Hnd]. destruct (same_hash k e.2) eqn:E; [|by apply IH].
      exfalso. apply Hn. apply Z.eqb_eq in E. rewrite E, !fmap_app. apply elem_of_app. right. left. }
  change (is_null (Some l)) with false. cbn iota.
  apply runs_bind. eexists _, d. split; [exact (fetch_rest _next (fun r => r.1.1.2) d l _ ltac:(done) Hl)|].
  apply runs_bind. eapply runs_mono; [by eapply remove_entry_ok|]. intros ? d' Hd'. by apply runs_ret.
Qed.
End rep.

(** ** Sequences of operations *)

Inductive op (K V : Type) :=
  | OAdd (k : K) (v : V) | ORemove (k : K) | OGet (k : K) | OPut (k : K) (v : V) | OAt (k : K)
  | OHasKey (k : K) | OContains (v : V) | OSize | OIsEmpty | OItems | OClear.
Arguments OAdd {K V}. Arguments ORemove {K V}. Arguments OGet {K V}. Arguments OPut {K V}.
Arguments OAt {K V}. Arguments OHasKey {K V}. Arguments OContains {K V}. Arguments OSize {K V}.
Arguments OIsEmpty {K V}. Arguments OItems {K V}. Arguments OClear {K V}.

Inductive result (K V : Type) :=
  | RUnit | RValue (v : V) | RBool (b : bool) | RSize (n : Z) | RItems (l : list (K * V)).
Arguments RUnit {K V}. Arguments RValue {K V}. Arguments RBool {K V}. Arguments RSize {K V}.
Arguments RItems {K V}.

Section runs.
Context {K V : Type} `{Hasher K} `{DefaultValue V} (eqb : V -> V -> bool).

Definition run_op (o : op K V) : M K V (result K V) :=
  match o with
  | OAdd k v => add k v ;;* ret RUnit
  | ORemove k => remove k ;;* ret RUnit
  | OGet k => let* v := get k in ret (RValue v)
  | OPut k v => put k v ;;* ret RUnit
  | OAt k => let* v := at_key k in ret (RValue v)
  | OHasKey k => let* b := hasKey k in ret (RBool b)
  | OContains v => let* b := containsValue eqb v in ret (RBool b)
  | OSize => let* n := size in ret (RSize n)
  | OIsEmpty => let* b := isEmpty in ret (RBool b)
  | OItems => let* l := items in ret (RItems l)
  | OClear => clear ;;* ret RUnit
  end.

(** What the operation means on the association list. *)
Definition spec_op (o : op K V) (kvs : list (K * V)) : res (result K V * list (K * V)) :=
  match o with
  | OAdd k v => if mem k kvs then Throw InvalidArgumentException else Ok (RUnit, kvs ++ [(k, v)])
  | ORemove k => if mem k kvs then Ok (RUnit, erase k kvs) else Throw NullPointerException
  | OGet k => match lookup k kvs with Some v => Ok (RValue v, kvs) | None => Throw NullPointerException end
  | OPut k v => Ok (RUnit, update k v kvs)
  | OAt k => match lookup k kvs with
             | Some v => Ok (RValue v, kvs)
             | None => Ok (RValue default_value, kvs ++ [(k, default_value)])
             end
  | OHasKey k => Ok (RBool (mem k kvs), kvs)
  | OContains v => Ok (RBool (existsb (fun kv => eqb kv.2 v) kvs), kvs)
  | OSize => Ok (RSize (u32 (zlen kvs)), kvs)
  | OIsEmpty => Ok (RBool (u32 (zlen kvs) =? 0), kvs)
  | OItems => Ok (RItems kvs, kvs)
  | OClear => Ok (RUnit, [])
  end.

(** Run operations one after the other and collect their results.  An exception is thrown before
    anything is changed, so the next operation finds the same state; undefined behaviour ends it all. *)
Fixpoint exec {S} (run : op K V -> S -> res (result K V * S)) (os : list (op K V)) (s : S) :
    list (res (result K V)) * S :=
  match os with
  | [] => ([], s)
  | o :: os =>
      match run o s with
      | Ok (r, s') => let '(rs, s'') := exec run os s' in (Ok r :: rs, s'')
      | Throw e => let '(rs, s'') := exec run os s in (Throw e :: rs, s'')
      | UB => ([UB], s)
      | NoFuel => ([NoFuel], s)
      end
  end.

Lemma run_op_spec o d kvs :
  models d kvs ->
  match spec_op o kvs with
  | Ok (r, kvs') => exists d', run_op o d = Ok (r, d') /\ models d' kvs'
  | Throw e => run_op o d = Throw e
  | _ => False
  end.
Proof.
  intros Hd. destruct o as [k v|k|k|k v|k|k|v| | | |]; cbn [spec_op run_op]; unfold andThen.
  - pose proof (add_spec k v d kvs Hd) as Ha. destruct (mem k kvs); [by rewrite Ha|].
    destruct Ha as ([] & d' & -> & Hd'). by exists d'.
  - pose proof (remove_spec k d kvs Hd) as Ha. destruct (mem k kvs); [|by rewrite Ha].
    destruct Ha as ([] & d' & -> & Hd'). by exists d'.
  - pose proof (get_spec k d kvs Hd) as Ha. destruct (lookup k kvs); rewrite Ha; [|done]. by exists d.
  - destruct (put_spec k v d kvs Hd) as ([] & d' & -> & Hd'). by exists d'.
  - destruct (at_key_spec k d kvs Hd) as (v & d' & E & -> & Hd'). rewrite E. destruct (lookup k kvs); by exists d'.
  - destruct (hasKey_spec k d kvs Hd) as (b & d' & -> & -> & ->). by exists d.
  - rewrite (containsValue_spec eqb v d kvs Hd). by exists d.
  - rewrite (size_spec d kvs Hd). by exists d.
  - unfold isEmpty, andThen. rewrite (size_spec d kvs Hd). by exists d.
  - rewrite (items_spec d kvs Hd). by exists d.
  - destruct (clear_spec d kvs Hd) as ([] & d' & -> & Hd'). by exists d'.
Qed.

Lemma exec_spec os d kvs :
  models d kvs ->
  (exec run_op os d).1 = (exec spec_op os kvs).1 /\ models (exec run_op os d).2 (exec spec_op os kvs).2.
Proof.
  revert d kvs. induction os as [|o os IH]; intros d kvs Hd; [done|]. cbn [exec].
  pose proof (run_op_spec o d kvs Hd) as Ho. destruct (spec_op o kvs) as [[r kvs']|e| |]; [| |done..].
  - destruct Ho as (d' & -> & Hd'). destruct (IH d' kvs' Hd') as [E1 E2].
    destruct (exec run_op os d'), (exec spec_op os kvs'); cbn in *. by subst.
  - rewrite Ho. destruct (IH d kvs Hd) as [E1 E2].
    destruct (exec run_op os d), (exec spec_op os kvs); cbn in *. by subst.
Qed.

(** The dictionaries a program can build with the operations. *)
Inductive reachable : Dictionary K V -> Prop :=
  | reachable_new : reachable Dictionary_new
  | reachable_op o r d d' : reachable d -> run_op o d = Ok (r, d') -> reachable d'.

Lemma reachable_models d : reachable d -> exists kvs, models d kvs.
Proof.
  induction 1 as [|o r d d' _ (kvs & Hd) E]; [exists []; apply new_models|].
  pose proof (run_op_spec o d kvs Hd) as Ho. destruct (spec_op o kvs) as [[r' kvs']|e| |]; [| |done..].
  - destruct Ho as (d'' & E' & Hd'). exists kvs'. rewrite E in E'. by injection E' as <- <-.
  - congruence.
Qed.

Lemma reachable_exec os d : reachable d -> reachable (exec run_op os d).2.
Proof.
  revert d. induction os as [|o os IH]; intros d Hd; [done|]. cbn [exec].
  destruct (run_op o d) as [[r d']|e| |] eqn:E; [|specialize (IH d Hd)|done..].
  - specialize (IH d' (reachable_op o r d d' Hd E)). by destruct (exec run_op os d').
  - by destruct (exec run_op os d).
Qed.
End runs.

(** ** The invariant of the entries *)

Section invariant.
Context {K V : Type} `{Hasher K} `{DefaultValue V}.
Implicit Types (d : Dictionary K V).

(** Every entry agrees with its neighbours in the tree and in the list. *)
Record well_linked d : Prop := {
  wl_hash : forall l e, entries d !! l = Some e -> _hash e = Hash (_key e);
  wl_lesser : forall l e c, entries d !! l = Some e -> _lesser e = Some c ->
    exists e', entries d !! c = Some e' /\ _parent e' = Some l /\ _hash e' < _hash e;
  wl_greater' : forall l e c, entries d !! l = Some e -> _greater e = Some c ->
    exists e', entries d !! c = Some e' /\ _parent e' = Some l /\ _hash e < _hash e';
  wl_parent : forall l e, entries d !! l = Some e ->
    match _parent e with
    | None => _root d = Some l
    | Some p => exists e', entries d !! p = Some e' /\ (_lesser e' = Some l \/ _greater e' = Some l)
    end;
  wl_next' : forall l e, entries d !! l = Some e ->
    match _next e with
    | None => _last d = Some l
    | Some n => exists e', entries d !! n = Some e' /\ _prev e' = Some l
    end;
  wl_prev' : forall l e, entries d !! l = Some e ->
    match _prev e with
    | None => _first d = Some l
    | Some p => exists e', entries d !! p = Some e' /\ _next e' = Some l
    end;
  wl_unique : forall l l' e e', entries d !! l = Some e -> entries d !! l' = Some e' -> _hash e = _hash e' -> l = l' }.

Implicit Types es : list (loc * (K * V)).

Lemma ordered_fill ctx t : ordered (fill ctx t) -> ordered t.
Proof.
  revert t. induction ctx as [|[[] l c h s] ctx IH]; intros t; [done|..]; intros Ho%IH;
    by apply ordered_Node in Ho as (? & ? & _).
Qed.

(** The place of an entry in the tree. *)
Lemma entry_tree d es l e :
  holds_entries d es -> entries d !! l = Some e ->
  exists ctx c h a b, at_place (links d) (_root d) ctx (Node l c h a b) /\
    ordered (Node l c h a b) /\
    _parent e = par_of ctx /\ _lesser e = ptr_of a /\ _greater e = ptr_of b /\ _hash e = h.
Proof.
  intros ((t & Ht & Ho & Hp) & _ & _ & Hdom) He.
  assert (l ∈ locs t) as ([l' h] & -> & Hin)%list_elem_of_fmap.
  { rewrite (locs_perm _ _ Hp). by apply Hdom. }
  apply in_tree_place in Hin as (ctx & c & a & b & ->). apply holds_fill in Ht. cbn in *.
  pose proof Ht as ([Hl _] & _ & _). unfold links in Hl. rewrite lookup_fmap, He in Hl. injection Hl as ?????.
  exists ctx, c, h, a, b. split_and!; [done|by apply (ordered_fill ctx)|done..].
Qed.

(** The place of an entry in the list. *)
Lemma entry_list d es l e :
  holds_entries d es -> entries d !! l = Some e ->
  exists es1 es2, es = es1 ++ (l, (_key e, _value e)) :: es2 /\
    _prev e = last_of None es1 /\ _next e = head_of es2 None.
Proof.
  intros (_ & (Hs & _) & _ & Hdom) He.
  assert (l ∈ es.*1) as ([l' [k v]] & -> & Hin)%list_elem_of_fmap by by apply Hdom.
  apply list_elem_of_split in Hin as (es1 & es2 & ->). apply segment_app in Hs as [_ [Hl _]]. cbn in *.
  unfold rests in Hl. rewrite lookup_fmap, He in Hl. injection Hl as Hpr Hne <- <-. by exists es1, es2.
Qed.

Lemma links_entry d l k : links d !! l = Some k -> exists e, entries d !! l = Some e /\ link e = k.
Proof. unfold links. rewrite lookup_fmap. intros (e & -> & ->)%fmap_Some. by exists e. Qed.

Lemma rests_entry d l r : rests d !! l = Some r -> exists e, entries d !! l = Some e /\ rest_of e = r.
Proof. unfold rests. rewrite lookup_fmap. intros (e & -> & ->)%fmap_Some. by exists e. Qed.

Lemma NoDup_snd_inj {A B} (l : list (A * B)) a a' b : NoDup l.*2 -> (a, b) ∈ l -> (a', b) ∈ l -> a = a'.
Proof.
  induction l as [|[x y] l IH]; [by intros _ ?%elem_of_nil|]. intros [Hn Hl]%NoDup_cons.
  assert (forall z, (z, y) ∈ l -> False) as Hz by (intros z Hz; apply Hn, list_elem_of_fmap; by exists (z, y)).
  intros [E1|H1]%elem_of_cons [E2|H2]%elem_of_cons; simplify_eq; [done|by destruct (Hz a')|by destruct (Hz a)|auto].
Qed.

Lemma entry_hash d es l e : holds_entries d es -> entries d !! l = Some e -> _hash e = Hash (_key e).
Proof.
  intros Hd He. destruct (entry_list d es l e Hd He) as (es1 & es2 & E & _ & _).
  destruct Hd as ((t & Ht & Ho & Hp) & _). 
  assert ((l, Hash (_key e)) ∈ inorder t) as Hin by (rewrite Hp, E, fmap_app; apply elem_of_app; right; left).
  apply in_tree_place in Hin as (ctx & c & a & b & ->). apply holds_fill in Ht as ([Hl _] & _).
  apply links_entry in Hl as (e' & E' & Hk). simplify_eq. by injection Hk.
Qed.

Lemma child_linked d (l : loc) c co h a b :
  tree_at (links d) (Some l) (Node c co h a b) ->
  exists e', entries d !! c = Some e' /\ _parent e' = Some l /\ _hash e' = h.
Proof. intros ([e' [E' Hk]]%links_entry & _ & _). exists e'. by injection Hk. Qed.

Lemma models_linked d kvs : models d kvs -> well_linked d.
Proof.
  intros (es & Hd & _). split.
  - intros l e. by apply (entry_hash d es).
  - intros l e c He Hc.
    destruct (entry_tree d es l e Hd He) as (ctx & co & h & a & b & ((_ & Ha & _) & _) & Ho & _ & El & _ & ->).
    rewrite Hc in El. destruct a as [|l' c' h' a1 a2]; [done|]. injection El as <-.
    apply child_linked in Ha as (e' & E' & Hp' & <-). exists e'. split_and!; [done..|].
    apply ordered_Node in Ho as (_ & _ & Hlt & _). apply (Hlt (c, _hash e')), elem_of_app. right. left.
  - intros l e c He Hc.
    destruct (entry_tree d es l e Hd He) as (ctx & co & h & a & b & ((_ & _ & Hb) & _) & Ho & _ & _ & El & ->).
    rewrite Hc in El. destruct b as [|l' c' h' b1 b2]; [done|]. injection El as <-.
    apply child_linked in Hb as (e' & E' & Hp' & <-). exists e'. split_and!; [done..|].
    apply ordered_Node in Ho as (_ & _ & _ & Hgt). apply (Hgt (c, _hash e')), elem_of_app. right. left.
  - intros l e He.
    destruct (entry_tree d es l e Hd He) as (ctx & co & h & a & b & (_ & Hc & _) & _ & -> & _).
    destruct ctx as [|f ctx]; [done|]. destruct Hc as ([e' [E' Hk]]%links_entry & _). exists e'. split; [done|].
    unfold link, link_at in Hk. destruct (fside f); injection Hk; auto.
  - intros l e He. destruct (entry_list d es l e Hd He) as (es1 & es2 & -> & _ & ->).
    destruct Hd as (_ & (Hs & _ & -> & _) & _). destruct es2 as [|[y [k v]] es2].
    { by rewrite last_of_snoc. }
    apply segment_app in Hs as [_ [_ [[e' [E' Hr]]%rests_entry _]]]. exists e'. by injection Hr.
  - intros l e He. destruct (entry_list d es l e Hd He) as (es1 & es2 & -> & -> & _).
    destruct Hd as (_ & (Hs & -> & _) & _). destruct es1 as [|[y [k v]] es1 _] using rev_ind; [done|].
    rewrite last_of_snoc, <- app_assoc in *. cbn [app] in Hs.
    apply segment_app in Hs as [_ [[e' [E' Hr]]%rests_entry _]]. exists e'. by injection Hr.
  - intros l l' e e' He He' Eh. pose proof (entries_NoDup d es Hd) as Hnd.
    rewrite (entry_hash d es l e), (entry_hash d es l' e') in Eh by done.
    destruct (entry_list d es l e Hd He) as (es1 & es2 & E1 & _).
    destruct (entry_list d es l' e' Hd He') as (es3 & es4 & E2 & _).
    assert ((l, Hash (_key e)) ∈ hash_of <$> es) as Hi1 by (rewrite E1, fmap_app; apply elem_of_app; right; left).
    assert ((l', Hash (_key e')) ∈ hash_of <$> es) as Hi2 by (rewrite E2, fmap_app; apply elem_of_app; right; left).
    rewrite Eh in Hi1. by eapply NoDup_snd_inj.
Qed.
End invariant.

(** ** The two theorems *)

Section theorems.
Context {K V : Type} `{Hasher K} `{DefaultValue V}.


End theorems.

