(* ===== verification/DictBalance.v ===== *)
(** * How deep the tree of a Dictionary gets

    Insertion alone keeps the red-black properties, so that a search takes at most
    [2 log2 (n + 1) + 1] steps.  A removal does not: [_remove] repairs the tree only when the entry
    it takes out has a child. *)

From S2P Require Import Prelude Dictionary DictTree DictSpec.

(** ** Red-black trees *)

(** [rb c n t]: the root has the colour [c], no red entry has a red child, and every path to a leaf
    passes [n] black entries. *)
Inductive rb : COLOR -> nat -> tree -> Prop :=
  | rb_Leaf : rb BLACK 0 Leaf
  | rb_black l k c c' n a b : rb c n a -> rb c' n b -> rb BLACK (S n) (Node l BLACK k a b)
  | rb_red l k n a b : rb BLACK n a -> rb BLACK n b -> rb RED n (Node l RED k a b).

(** [hole red n ctx]: the place takes a tree of black height [n], with a red root only if [red]. *)
Inductive hole : bool -> nat -> list frame -> Prop :=
  | hole_top n : hole true n []
  | hole_black red s l k c n t ctx : hole red (S n) ctx -> rb c n t -> hole true n (Frame s l BLACK k t :: ctx)
  | hole_red s l k n t ctx : hole true n ctx -> rb BLACK n t -> hole false n (Frame s l RED k t :: ctx).

(** A tree that is red-black, and one that is when its root is painted black. *)
Definition balanced (t : tree) : Prop := exists c n, rb c n t.
Definition nearly_balanced (t : tree) : Prop := exists n, rb BLACK n (paint BLACK t).

Lemma rb_node_black s l k c c' n a b : rb c n a -> rb c' n b -> rb BLACK (S n) (node s l BLACK k a b).
Proof. destruct s; intros; by eapply rb_black. Qed.
Lemma rb_node_red s l k n a b : rb BLACK n a -> rb BLACK n b -> rb RED n (node s l RED k a b).
Proof. destruct s; intros; by apply rb_red. Qed.
#[local] Hint Resolve rb_node_black rb_node_red rb_Leaf : core.

Lemma rb_paint c n t : rb c n t -> nearly_balanced t.
Proof. intros H. destruct H; [by exists 0%nat|exists (S n); by eapply rb_black|exists (S n); by eapply rb_black]. Qed.

Lemma fill_balanced red n ctx c t :
  hole red n ctx -> rb c n t -> (c = RED -> red = true) -> nearly_balanced (fill ctx t).
Proof.
  intros Hh. revert c t. induction Hh as [n|red s l k c' n t' ctx Hh IH Ht'|s l k n t' ctx Hh IH Ht'];
    intros c t Ht Hc; cbn [fill foldl].
  - by eapply rb_paint.
  - unfold plug. cbn. apply (IH BLACK); [by eauto|done].
  - destruct c; [by specialize (Hc eq_refl)|]. unfold plug. cbn. by apply (IH RED); [auto|].
Qed.

Lemma insert_fix_balanced n ctx red t :
  hole red n ctx -> rb RED n t -> nearly_balanced (insert_fix ctx t).
Proof.
  remember (length ctx) as len eqn:Hlen. revert n ctx red t Hlen.
  induction len as [len IH] using lt_wf_ind; intros n ctx red t -> Hh Ht.
  destruct ctx as [|[s1 p c1 k1 z] rest]; [by eapply rb_paint|].
  inversion Hh as [|red1 ? ? ? cz ? ? ? Hg Hz|? ? ? ? ? ? Hg Hz]; subst.
  { by eapply (fill_balanced true _ (Frame s1 p BLACK k1 z :: rest) RED). }
  destruct rest as [|[s2 g c2 k2 y] ctx].
  { destruct s1; eexists; by eapply rb_black. }
  inversion Hg as [|red2 ? ? ? cy ? ? ? Hu Hy|]; subst. cbn [insert_fix].
  case_decide as Hred; [|case_decide as Hs].
  - eapply (IH (length ctx)); [simpl; lia|done|exact Hu|].
    apply rb_node_red; [by eauto|]. destruct Hy; try done. by eapply rb_black.
  - eapply (fill_balanced red2 _ ctx BLACK); [done| |done].
    destruct Hy; [| |done]; subst; eapply rb_node_black; by eauto using rb_black.
  - inversion Ht as [| |e ke ? a b Ha Hb]; subst.
    destruct s2; (eapply (fill_balanced red2 _ ctx BLACK); [exact Hu| |done]); (destruct Hy; [| |done]);
      (eapply rb_black; apply rb_red; by eauto using rb_black).
Qed.

Lemma place_hole k t : forall n c red ctx,
  rb c n t -> hole red n ctx -> (c = RED -> red = true) -> exists red', hole red' 0 (place k t ctx).
Proof.
  induction t as [|l c' k' a IHa b IHb]; intros n c red ctx Ht Hh Hc; [inversion Ht; subst; by exists red|].
  cbn [place]. inversion Ht as [|? ? ca cb m ? ? Ha Hb|? ? m ? ? Ha Hb]; subst.
  - destruct (k' <=? k).
    + eapply (IHb m cb true); [done| |done]. by eapply hole_black.
    + eapply (IHa m ca true); [done| |done]. by eapply hole_black.
  - rewrite (Hc eq_refl) in Hh. destruct (k' <=? k).
    + eapply (IHb n BLACK false); [done| |done]. by apply hole_red.
    + eapply (IHa n BLACK false); [done| |done]. by apply hole_red.
Qed.

Lemma tree_insert_balanced e k t : balanced t -> balanced (tree_insert e k t).
Proof.
  intros (c & n & Ht). unfold tree_insert. destruct t as [|l c' k' a b].
  - exists RED, 0%nat. by apply rb_red.
  - destruct (place_hole k _ n c true [] Ht (hole_top n)) as [red Hh]; [done|].
    destruct (insert_fix_balanced 0 _ red (Node e RED k Leaf Leaf) Hh) as [m Hm]; [by apply rb_red|].
    by exists BLACK, m.
Qed.

(** ** Depth *)

Definition nodes (t : tree) : nat := length (locs t).

Lemma nodes_Node l c k a b : nodes (Node l c k a b) = S (nodes a + nodes b).
Proof. unfold nodes. by rewrite locs_Node, length_cons, length_app. Qed.

Lemma rb_nodes c n t : rb c n t -> (2 ^ n <= S (nodes t))%nat.
Proof. induction 1; rewrite ?nodes_Node; cbn in *; lia. Qed.

Lemma rb_height c n t : rb c n t -> (height t <= 2 * n + if decide (c = RED) then 1 else 0)%nat.
Proof. induction 1; cbn in *; repeat case_decide; try done; lia. Qed.

Lemma balanced_height t : balanced t -> (height t <= S (2 * Nat.log2 (S (nodes t))))%nat.
Proof.
  intros (c & n & Ht). pose proof (rb_height _ _ _ Ht). pose proof (rb_nodes _ _ _ Ht) as Hn.
  apply Nat.log2_le_mono in Hn. rewrite Nat.log2_pow2 in Hn by lia. case_decide; lia.
Qed.

(** ** The tree of a dictionary that only grows *)

Section balance.
Context {K V : Type} `{Hasher K} `{DefaultValue V}.
Implicit Types (d : Dictionary K V) (k : K) (v : V).

Definition balanced_dict d : Prop := exists t, holds (links d) (_root d) t /\ balanced t.

Lemma grown_balanced d d' : grown d d' -> balanced_dict d -> balanced_dict d'.
Proof.
  intros Hg (t & Ht & Hb). destruct (Hg t Ht) as [Ht'|(l & h & Ht')]; [by exists t|].
  exists (tree_insert l h t). split; [done|by apply tree_insert_balanced].
Qed.

Lemma same_balanced d d' : links d' = links d -> _root d' = _root d -> balanced_dict d -> balanced_dict d'.
Proof. unfold balanced_dict. by intros -> ->. Qed.

Lemma empty_balanced d : _root d = None -> balanced_dict d.
Proof.
  intros E. exists Leaf. rewrite E. split; [by split_and!; [..|constructor]|].
  exists BLACK, 0%nat. constructor.
Qed.

Lemma runs_eq {A} (c : M K V A) d a d' Q : runs c d Q -> c d = Ok (a, d') -> Q a d'.
Proof. intros (b & d1 & E & HQ) E'. rewrite E in E'. by injection E' as <- <-. Qed.

Definition removes (o : op K V) : bool := match o with ORemove _ => true | _ => false end.

Lemma add_balanced k v d es :
  holds_entries d es -> balanced_dict d -> find_loc k es = None -> runs (add k v) d (fun _ d' => balanced_dict d').
Proof.
  intros Hd Hb Hk. eapply runs_mono; [by apply add_ok|]. intros ? d' [_ Hg]. by eapply grown_balanced.
Qed.

Lemma put_balanced k v d es :
  holds_entries d es -> balanced_dict d -> runs (put k v) d (fun _ d' => balanced_dict d').
Proof.
  intros Hd Hb. apply runs_bind. eapply runs_mono; [by apply index_entry_ok|].
  intros p d1 (Hg & es1 & l & k' & v' & es2 & -> & Hd1 & _).
  eapply runs_mono; [exact (put_value_ok _ _ _ _ _ v _ Hd1)|]. intros ? d2 (_ & HL & HR).
  by eapply same_balanced, grown_balanced.
Qed.

Lemma at_key_balanced k d es :
  holds_entries d es -> balanced_dict d -> runs (at_key k) d (fun _ d' => balanced_dict d').
Proof.
  intros Hd Hb. apply runs_bind. eapply runs_mono; [by apply index_entry_ok|].
  intros p d1 (Hg & es1 & l & k' & v' & es2 & -> & Hd1 & _).
  eapply runs_mono; [by eapply fetch_value_ok|]. intros ? ? [_ ->]. by eapply grown_balanced.
Qed.

Lemma clear_root d d' : clear d = Ok (tt, d') -> _root d' = None.
Proof.
  unfold clear, fuel_of, this, andThen. cbn [bind].
  match goal with |- context [clear_loop ?a ?b ?c] => destruct (clear_loop a b c) as [[[] d1]| | |] end; cbn [bind]; [|done..].
  by intros [= <-].
Qed.

Lemma run_op_balanced eqb o r d d' :
  removes o = false -> (exists kvs, models d kvs) -> balanced_dict d -> run_op eqb o d = Ok (r, d') -> balanced_dict d'.
Proof.
  intros Ho (kvs & Hm) Hb. pose proof Hm as (es & Hd & _).
  destruct o as [k v|k|k|k v|k|k|v| | | |]; try done; cbn [run_op]; unfold andThen at 1.
  - pose proof (add_spec k v d kvs Hm) as Ha. destruct (add k v d) as [[[] d1]|e| |] eqn:E; [|done..].
    intros [= _ <-]. destruct (find_loc k es) eqn:Ek.
    + by rewrite (add_throws k v d es) in E by (done || by rewrite Ek).
    + by apply (runs_eq _ _ _ _ _ (add_balanced k v d es Hd Hb Ek) E).
  - pose proof (get_spec k d kvs Hm) as Hg. destruct (lookup k kvs); rewrite Hg; [|done]. by intros [= _ <-].
  - destruct (put k v d) as [[[] d1]|e| |] eqn:E; [|done..]. intros [= _ <-].
    by apply (runs_eq _ _ _ _ _ (put_balanced k v d es Hd Hb) E).
  - destruct (at_key k d) as [[x d1]|e| |] eqn:E; [|done..]. intros [= _ <-].
    by apply (runs_eq _ _ _ _ _ (at_key_balanced k d es Hd Hb) E).
  - destruct (hasKey_spec k d kvs Hm) as (b & d1 & -> & _ & ->). by intros [= _ <-].
  - rewrite (containsValue_spec eqb v d kvs Hm). by intros [= _ <-].
  - rewrite (size_spec d kvs Hm). by intros [= _ <-].
  - unfold isEmpty, andThen. rewrite (size_spec d kvs Hm). by intros [= _ <-].
  - rewrite (items_spec d kvs Hm). by intros [= _ <-].
  - destruct (clear d) as [[[] d1]|e| |] eqn:E; [|done..]. intros [= _ <-].
    by eapply empty_balanced, clear_root.
Qed.

Lemma exec_balanced eqb os d :
  Forall (fun o => removes o = false) os -> (exists kvs, models d kvs) -> balanced_dict d ->
  balanced_dict (exec (run_op eqb) os d).2.
Proof.
  intros Hos. revert d. induction Hos as [|o os Ho _ IH]; intros d Hm Hb; [done|]. cbn [exec].
  destruct (run_op eqb o d) as [[r d']|e| |] eqn:E; [| |done..].
  - assert (exists kvs, models d' kvs) as Hm'.
    { destruct Hm as (kvs & Hm). pose proof (run_op_spec eqb o d kvs Hm) as Hs. rewrite E in Hs.
      destruct (spec_op eqb o kvs) as [[r' kvs']|e| |]; [|done..]. destruct Hs as (d2 & [= <- <-] & ?). by exists kvs'. }
    specialize (IH d' Hm' (run_op_balanced _ _ _ _ _ Ho Hm Hb E)). by destruct (exec (run_op eqb) os d').
  - specialize (IH d Hm Hb). by destruct (exec (run_op eqb) os d).
Qed.

Lemma find_within d t k fuel fuel' :
  holds (links d) (_root d) t -> (height t < fuel)%nat -> (height t < fuel')%nat ->
  _find_loop (Hash k) (_root d) fuel d = _find_loop (Hash k) (_root d) fuel' d.
Proof.
  intros (Ht & Hr & _) Hf Hf'. rewrite Hr.
  destruct (find_loop_ok (K := K) (V := V) (Hash k) fuel t _ _ (_root d) Ht Hf d eq_refl eq_refl)
    as (a & d1 & -> & Hs1 & -> & HL1 & HR1).
  destruct (find_loop_ok (K := K) (V := V) (Hash k) fuel' t _ _ (_root d) Ht Hf' d eq_refl eq_refl)
    as (a' & d2 & -> & Hs2 & -> & HL2 & HR2).
  by rewrite (same_dictionary d d1), (same_dictionary d d2).
Qed.

(** C8: bounds. After any insertions and no removal, the search for a key ends within 2 log2(n+1) + 2
    steps for n entries: the insertion keeps the red-black balance. *)
Theorem find_depth eqb (os : list (op K V)) k :
  Forall (fun o => removes o = false) os ->
  let d := (exec (run_op eqb) os Dictionary_new).2 in
  exists p, _find_loop (Hash k) (_root d) (2 * Nat.log2 (S (base.size (entries d))) + 2) d = Ok (p, d) /\
    _find k d = Ok (p, d).
Proof.
  intros Hos d. destruct (exec_balanced eqb os Dictionary_new Hos) as (t & Ht & Hb).
  { exists []. apply new_models. }
  { by apply empty_balanced. }
  destruct (exec_spec eqb os _ _ new_models) as [_ (es & Hd & _)]. fold d in Ht, Hd.
  destruct (find_entry_ok k d es Hd) as (p & d1 & E & _ & ->). exists p. split; [|done].
  rewrite <- E. unfold _find, fuel_of, this, andThen. cbn [bind].
  pose proof (holds_size _ _ _ Ht) as Hs. unfold links in Hs. rewrite map_size_fmap in Hs.
  pose proof (balanced_height _ Hb). pose proof (height_locs t).
  pose proof (Nat.log2_le_mono (S (nodes t)) (S (base.size (entries d)))). unfold nodes in *.
  apply (find_within d t); [done|lia..].
Qed.
End balance.

Lemma find_depth_witness :
  exists p, (let d := (exec (run_op Z.eqb) (List.map (fun k => OAdd k k) [1; 2; 3; 4; 5; 6; 7; 8]) Dictionary_new).2 in
    base.size (entries d) = 8%nat /\ _find_loop 8 (_root d) 8 d = Ok (p, d)).
Proof.
  destruct (find_depth Z.eqb (List.map (fun k => OAdd k k) [1; 2; 3; 4; 5; 6; 7; 8]) 8) as (p & E & _).
  - repeat constructor.
  - exists p. split; [vm_compute; reflexivity|]. exact E.
Defined.

(** ** Removing *)

(** The keys of the entries left of the rightmost path, children first: each is a leaf of the tree
    when its turn comes. *)
Fixpoint postorder (t : tree) : list Z :=
  match t with Leaf => [] | Node _ _ k a b => postorder a ++ postorder b ++ [k] end.
Fixpoint left_of_spine (t : tree) : list Z :=
  match t with Leaf => [] | Node _ _ k a b => postorder a ++ left_of_spine b end.
Fixpoint ascending (n : nat) : tree :=
  match n with O => Leaf | S m => tree_insert (Pos.of_nat n) (Z.of_nat n) (ascending m) end.

Definition degenerate : list (op Z Z) :=
  List.map (fun k => OAdd k k) (seqZ 1 46) ++ List.map ORemove (left_of_spine (ascending 46)).

(** The removal of a black leaf is not repaired: after these operations the paths have different
    numbers of black entries, which insertion alone never causes. *)
Theorem removal_unbalances :
  let d := (exec (run_op Z.eqb) degenerate Dictionary_new).2 in
  base.size (entries d) = 9%nat /\ items d = Ok (List.map (fun k => (k, k)) [16; 24; 32; 36; 40; 42; 44; 45; 46], d) /\
  _find_loop 46 (_root d) (2 * Nat.log2 (S (base.size (entries d))) + 2) d = NoFuel.
Proof. vm_compute. repeat split. Qed.
