(* ===== verification/Mapping.v ===== *)
(** * The interface of a dictionary

    [Mapping] states what the users of a [Dictionary] rely on: a container [D] stands for an association
    list in the order of insertion, and every method does on the container what the functions of
    [DictSpec] do on the list.  The parsers and the query of a URI are written and proved against this
    class; [Dictionary_Mapping] discharges it.  Keys are identified by their hash value only. *)

From S2P Require Import Prelude CString StrConv Dictionary DictTree DictSpec.

(** The hash of [String::Hash(const String&)], stored as an [int]; a new value is an empty [String]. *)
#[export] Instance Hasher_String : Hasher str := fun s => s32 (hash_chars s).
#[export] Instance DefaultValue_String : DefaultValue str := [].

(** A dictionary of pointers: NULL, or the number of an object of its users. *)
Definition ref : Type := option nat.
#[export] Instance DefaultValue_ref : DefaultValue ref := None.

Class MapOps (D K V : Type) := {
  map_new : D;
  map_hasKey : K -> D -> res bool;
  map_get : K -> D -> res V;
  map_at : K -> D -> res (V * D);
  map_put : K -> V -> D -> res D;
  map_add : K -> V -> D -> res D;
  map_remove : K -> D -> res D;
  map_clear : D -> res D;
  map_size : D -> res Z;
  map_items : D -> res (list (K * V))
}.

Class Mapping (D K V : Type) `{Hasher K} `{DefaultValue V} `{MapOps D K V} := {
  stands_for : D -> list (K * V) -> Prop;
  new_law : stands_for map_new [];
  hasKey_law : forall k d kvs, stands_for d kvs -> map_hasKey k d = Ok (mem k kvs);
  get_law : forall k d kvs, stands_for d kvs ->
    map_get k d = match lookup k kvs with Some v => Ok v | None => Throw NullPointerException end;
  at_law : forall k d kvs, stands_for d kvs -> exists d',
    map_at k d = Ok (match lookup k kvs with Some v => v | None => default_value end, d') /\
    stands_for d' match lookup k kvs with Some _ => kvs | None => kvs ++ [(k, default_value)] end;
  put_law : forall k v d kvs, stands_for d kvs -> exists d',
    map_put k v d = Ok d' /\ stands_for d' (update k v kvs);
  add_law : forall k v d kvs, stands_for d kvs ->
    if mem k kvs then map_add k v d = Throw InvalidArgumentException
    else exists d', map_add k v d = Ok d' /\ stands_for d' (kvs ++ [(k, v)]);
  remove_law : forall k d kvs, stands_for d kvs ->
    if mem k kvs then exists d', map_remove k d = Ok d' /\ stands_for d' (erase k kvs)
    else map_remove k d = Throw NullPointerException;
  clear_law : forall d kvs, stands_for d kvs -> exists d', map_clear d = Ok d' /\ stands_for d' [];
  size_law : forall d kvs, stands_for d kvs -> map_size d = Ok (u32 (zlen kvs));
  items_law : forall d kvs, stands_for d kvs -> map_items d = Ok kvs
}.

(** ** The dictionary is one *)

Section instance.
Context {K V : Type} `{Hasher K} `{DefaultValue V}.

(** The new state of a command, and its result. *)
Definition effect {A} (c : M K V A) (d : Dictionary K V) : res (Dictionary K V) := let? (_, d') := c d in Ok d'.
Definition value {A} (c : M K V A) (d : Dictionary K V) : res A := let? (a, _) := c d in Ok a.

#[export] Instance Dictionary_MapOps : MapOps (Dictionary K V) K V := {
  map_new := Dictionary_new;
  map_hasKey k := value (hasKey k);
  map_get k := value (get k);
  map_at k := at_key k;
  map_put k v := effect (put k v);
  map_add k v := effect (add k v);
  map_remove k := effect (remove k);
  map_clear := effect clear;
  map_size := value size;
  map_items := value items
}.

Lemma runs_effect {A} (c : M K V A) d (Q : Dictionary K V -> Prop) :
  runs c d (fun _ d' => Q d') -> exists d', effect c d = Ok d' /\ Q d'.
Proof. intros (a & d' & E & HQ). exists d'. unfold effect. by rewrite E. Qed.

#[export] Instance Dictionary_Mapping : Mapping (Dictionary K V) K V.
Proof.
  refine {| stands_for := models |}; cbn [map_new map_hasKey map_get map_at map_put map_add map_remove
    map_clear map_size map_items Dictionary_MapOps]; unfold value.
  - apply new_models.
  - intros k d kvs (b & d' & -> & -> & ->)%(hasKey_spec k). done.
  - intros k d kvs Hd. pose proof (get_spec k d kvs Hd) as Hg. by destruct (lookup k kvs); rewrite Hg.
  - intros k d kvs (v & d' & -> & -> & Hd)%(at_key_spec k). exists d'. split; [done|]. by destruct (lookup k kvs).
  - intros k v d kvs Hd. by apply runs_effect, put_spec.
  - intros k v d kvs Hd. pose proof (add_spec k v d kvs Hd) as Ha. destruct (mem k kvs).
    + unfold effect. by rewrite Ha.
    + by apply runs_effect.
  - intros k d kvs Hd. pose proof (remove_spec k d kvs Hd) as Ha. destruct (mem k kvs).
    + by apply runs_effect.
    + unfold effect. by rewrite Ha.
  - intros d kvs Hd. by apply runs_effect, clear_spec with kvs.
  - intros d kvs Hd. by rewrite (size_spec d kvs Hd).
  - intros d kvs Hd. by rewrite (items_spec d kvs Hd).
Defined.
End instance.

(** ** Strings as keys *)

(** A string is found by its hash, so that two strings with one hash are one key. *)
Definition collide (k k' : str) : Prop := k <> k' /\ Hasher_String k = Hasher_String k'.

(** ** The functions on association lists *)

Section assoc.
Context {K V : Type} `{Hasher K}.
Implicit Types (kvs : list (K * V)).

Lemma lookup_update (k : K) (v : V) kvs : lookup k (update k v kvs) = Some v.
Proof.
  induction kvs as [|kv kvs IH]; cbn; [unfold same_hash; cbn; by rewrite Z.eqb_refl|].
  destruct (same_hash k kv) eqn:Es; cbn; [|by rewrite Es].
  assert (same_hash k (kv.1, v) = true) as -> by done. done.
Qed.

Lemma update_update (k : K) (v v' : V) kvs : update k v' (update k v kvs) = update k v' kvs.
Proof.
  induction kvs as [|kv kvs IH]; cbn; [unfold same_hash; cbn; by rewrite Z.eqb_refl|].
  destruct (same_hash k kv) eqn:Es; cbn; [|by rewrite Es, IH].
  assert (same_hash k (kv.1, v) = true) as -> by done. done.
Qed.

Lemma update_none (k : K) (v : V) kvs : lookup k kvs = None -> update k v kvs = kvs ++ [(k, v)].
Proof.
  induction kvs as [|kv kvs IH]; [done|]. cbn. destruct (same_hash k kv); [done|]. intros E. by rewrite IH.
Qed.

Lemma lookup_app (k : K) kvs kvs' :
  lookup k (kvs ++ kvs') = match lookup k kvs with Some v => Some v | None => lookup k kvs' end.
Proof. induction kvs as [|kv kvs IH]; [done|]. cbn. by destruct (same_hash k kv). Qed.

(** No key has the hash of [k]. *)
Lemma lookup_fresh (k : K) kvs : (forall k', k' ∈ kvs.*1 -> Hash k' <> Hash k) -> lookup k kvs = None.
Proof.
  induction kvs as [|kv kvs IH]; intros Hk; [done|]. cbn. unfold same_hash.
  destruct (Z.eqb_spec (Hash kv.1) (Hash k)) as [E|_].
  - exfalso. apply (Hk kv.1); [left|done].
  - apply IH. intros k' Hin. apply Hk. by right.
Qed.

Lemma length_update (k : K) (v : V) kvs :
  zlen (update k v kvs) = if mem k kvs then zlen kvs else zlen kvs + 1.
Proof.
  unfold mem. induction kvs as [|kv kvs IH]; [done|]. cbn. destruct (same_hash k kv) eqn:Es; [zlen_lia|].
  rewrite zlen_cons, IH. destruct (lookup k kvs); zlen_lia.
Qed.
End assoc.

(** ** Strings as keys: collisions *)

Lemma lookup_same_hash {V} (k k' : str) (kvs : list (str * V)) :
  Hasher_String k = Hasher_String k' -> lookup k kvs = lookup k' kvs.
Proof.
  intros E. induction kvs as [|kv kvs IH]; [done|]. cbn. unfold same_hash.
  change (Hash k) with (Hasher_String k). change (Hash k') with (Hasher_String k'). rewrite E. by rewrite IH.
Qed.

(** Two strings with one hash are one key: the second finds the value of the first, cannot be added
    beside it, and is changed with it. *)
Theorem colliding_keys {D V} `{DefaultValue V, MapOps D str V, !Mapping D str V} (k k' : str) (v : V) (d : D) kvs :
  stands_for d kvs -> collide k k' ->
  (map_get k d = Ok v -> map_get k' d = Ok v) /\
  (mem k kvs = true -> map_add k' v d = Throw InvalidArgumentException) /\
  (forall d', map_put k v d = Ok d' -> map_get k' d' = Ok v).
Proof.
  intros Hd [_ E]. split_and!.
  - rewrite (get_law k d kvs Hd), (get_law k' d kvs Hd). by rewrite (lookup_same_hash k k').
  - intros Hm. pose proof (add_law k' v d kvs Hd) as Ha. unfold mem in *.
    rewrite <- (lookup_same_hash k k' kvs E) in Ha. by destruct (lookup k kvs).
  - intros d' Ep. destruct (put_law k v d kvs Hd) as (d2 & E2 & Hd2). rewrite Ep in E2. injection E2 as <-.
    by rewrite (get_law k' d' _ Hd2), <- (lookup_same_hash k k' _ E), lookup_update.
Qed.

Lemma colliding_keys_witness :
  collide (lit "-s-") (lit "-qo") /\
  map_get (MapOps := Dictionary_MapOps) (lit "-qo") (exec (run_op Z.eqb) [OAdd (lit "-s-") 7] Dictionary_new).2 = Ok 7.
Proof.
  assert (collide (lit "-s-") (lit "-qo")) as Hc by (split; [done|vm_compute; reflexivity]).
  split; [exact Hc|].
  destruct (exec_spec Z.eqb [OAdd (lit "-s-") 7] Dictionary_new [] new_models) as [_ Hd].
  apply (@colliding_keys (Dictionary str Z) Z _ _ Dictionary_Mapping (lit "-s-") (lit "-qo") 7 _ _ Hd Hc).
  vm_compute. reflexivity.
Defined.
