(* ===== verification/Date.v ===== *)
(** * Dates (src/cpp/src/Date.cpp)

    A [Date] keeps a Julian day number and the day, month and year of the Gregorian calendar it
    stands for.  The conversions are modelled with the C operations: truncating division on [int] in
    [_update_julian], [unsigned int] arithmetic in [_update_ymd].  The theorems show them inverse to
    each other over the range of the constructors' arguments, against a calendar defined here.  The
    system clock ([update], [isToday]) and [strftime] are outside the model. *)

From S2P Require Import Prelude.

Record Date := mkDate {
  _julian : Z;  (** int32 *)
  _day : Z;  (** uint8 *)
  _month : Z;  (** uint8 *)
  _year : Z  (** int32 *)
}.

Definition __days_in_months : list (list Z) :=
  [[0; 31; 28; 31; 30; 31; 30; 31; 31; 30; 31; 30; 31];
   [0; 31; 29; 31; 30; 31; 30; 31; 31; 30; 31; 30; 31]].

Definition __days_in_year : list (list Z) :=
  [[0; 0; 31; 59; 90; 120; 151; 181; 212; 243; 273; 304; 334; 365];
   [0; 0; 31; 60; 91; 121; 152; 182; 213; 244; 274; 305; 335; 366]].

Definition leap (y : Z) : bool :=
  ((Z.rem y 4 =? 0) && negb (Z.rem y 100 =? 0)) || (Z.rem y 400 =? 0).

Definition isLeapYear (d : Date) : bool := leap (_year d).

(** [table[isLeapYear()][month]] *)
Definition table_at (table : list (list Z)) (y month : Z) : res Z :=
  let? row := of_option (table !! (if leap y then 1 else 0)%nat) in
  of_option (zget row month).

(** ** The Julian day number *)

(** d-32075+1461*(y+4800+(m-14)/12)/4+367*(m-2-(m-14)/12*12)/12-3*((y+4900+(m-14)/12)/100)/4 *)
Definition julian_of (d m y : Z) : Z :=
  d - 32075
  + Z.quot (1461 * (y + 4800 + Z.quot (m - 14) 12)) 4
  + Z.quot (367 * (m - 2 - Z.quot (m - 14) 12 * 12)) 12
  - Z.quot (3 * Z.quot (y + 4900 + Z.quot (m - 14) 12) 100) 4.

Definition _update_julian (t : Date) : Date :=
  mkDate (s32 (julian_of (_day t) (_month t) (_year t))) (_day t) (_month t) (_year t).

Definition _update_ymd (t : Date) : Date :=
  let A := u32 (_julian t + 32045) in
  let B := u32 (u32 (4 * u32 (A + 36524)) / 146097 - 1) in
  let C := u32 (A - u32 (146097 * B) / 4) in
  let D := u32 (u32 (4 * u32 (C + 365)) / 1461 - 1) in
  let E := u32 (C - u32 (1461 * D) / 4) in
  let M := u32 (u32 (5 * u32 (E - 1)) + 2) / 153 in
  mkDate (_julian t)
    (u8 (E - u32 (153 * M + 2) / 5))
    (u8 (M + 3 - 12 * (M / 10)))
    (s32 (u32 (100 * B + D - 4800 + M / 10))).

(** ** Construction *)

(** [Date(uint8 day, uint8 month, int16 year)]; the old fields are overwritten. *)
Definition Date_ymd (day month year : Z) : Date := _update_julian (mkDate 0 day month year).

(** [Date(int32 julian_date)] *)
Definition Date_julian (julian_date : Z) : Date := _update_ymd (mkDate julian_date 0 0 0).

(** [struct tm], the fields [Date] reads and writes *)
Record tm := mkTm { tm_mday : Z; tm_mon : Z; tm_year : Z; tm_wday : Z; tm_yday : Z; tm_isdst : Z }.

(** [Date(tm* )] *)
Definition Date_tm (dt : tm) : Date :=
  _update_julian (mkDate 0 (u8 (tm_mday dt)) (u8 (tm_mon dt + 1)) (tm_year dt + 1900)).

(** ** Queries *)

Definition isValid (t : Date) : bool :=
  if 31 <? _day t then false
  else if 12 <? _month t then false
  else if 4000 <? _year t then false
  else true.

Definition dayOfWeek (t : Date) : Z := u8 (Z.rem (_julian t) 7 + 1).
Definition daysInMonth (t : Date) : res Z := table_at __days_in_months (_year t) (_month t).
Definition dayOfYear (t : Date) : res Z :=
  let? n := table_at __days_in_year (_year t) (_month t) in Ok (u16 (n + _day t)).

Definition toTM (t : Date) : res tm :=
  let day := dayOfWeek t in
  let day := if day =? 7 then 0 else day in
  let? yday := dayOfYear t in
  Ok (mkTm (_day t) (_month t - 1) (_year t - 1900) day (yday - 1) (-1)).

(** ** Arithmetic *)

Definition addToDay (t : Date) (days : Z) : Date :=
  _update_ymd (mkDate (s32 (_julian t + days)) (_day t) (_month t) (_year t)).

Definition addToMonth (t : Date) (months : Z) : res Date :=
  let tmonths := s32 (_month t + months) in
  let years := Z.quot tmonths 12 in
  let tmonths := Z.rem tmonths 12 in
  let '(years, tmonths) := if tmonths <? 0 then (years - 1, 12 + tmonths) else (years, tmonths) in
  let month := u8 tmonths in
  let year := s32 (_year t + years) in
  let? dim := table_at __days_in_months year month in
  let day := if dim <? _day t then dim else _day t in
  Ok (_update_julian (mkDate (_julian t) day month year)).

Definition addToYear (t : Date) (years : Z) : Date :=
  let year := s32 (_year t + years) in
  let day := if (_month t =? 2) && (_day t =? 29) && negb (leap year) then 28 else _day t in
  _update_julian (mkDate (_julian t) day (_month t) year).

(** operator=, ++, --, += and -= of days or of another date's Julian number *)
Definition assign (d : Date) : Date := _update_ymd d.
Definition incr (t : Date) : Date := addToDay t 1.
Definition decr (t : Date) : Date := addToDay t (-1).
Definition plus_date (t d : Date) : Date := addToDay t (_julian d).
Definition minus_date (t d : Date) : Date := addToDay t (- _julian d).
Definition plus_days (t : Date) (days : Z) : Date := addToDay t days.
Definition minus_days (t : Date) (days : Z) : Date := addToDay t (- days).

(** operator- and operator+ as free functions *)
Definition sub_dates (d1 d2 : Date) : Date := Date_julian (s32 (_julian d1 - _julian d2)).
Definition sub_days (d : Date) (days : Z) : Date := Date_julian (s32 (_julian d - days)).
Definition days_sub (days : Z) (d : Date) : Date := Date_julian (s32 (days - _julian d)).
Definition add_dates (d1 d2 : Date) : Date := Date_julian (s32 (_julian d1 + _julian d2)).
Definition add_days (d : Date) (days : Z) : Date := Date_julian (s32 (_julian d + days)).

(** ** Comparison *)

Definition date_lt (d1 d2 : Date) : bool := _julian d1 <? _julian d2.
Definition date_le (d1 d2 : Date) : bool := _julian d1 <=? _julian d2.
Definition date_gt (d1 d2 : Date) : bool := _julian d2 <? _julian d1.
Definition date_ge (d1 d2 : Date) : bool := _julian d2 <=? _julian d1.
Definition date_eq (d1 d2 : Date) : bool := _julian d1 =? _julian d2.
Definition date_ne (d1 d2 : Date) : bool := negb (_julian d1 =? _julian d2).

(** [DateTime] (src/cpp/src/DateTime.cpp) adds a time of day; its comparisons, over the ordered
    type of the times ([float64] seconds), which only their order matters for. *)
Section datetime.
Context {T : Type} (lt le eqb : T -> T -> bool).
Definition DateTime : Type := T * Date.

Definition dt_both (b : bool) (a1 a2 : DateTime) : bool := b && (_julian a1.2 =? _julian a2.2).
Definition dt_eq (a1 a2 : DateTime) : bool := dt_both (eqb a1.1 a2.1) a1 a2.
Definition dt_ne (a1 a2 : DateTime) : bool := dt_both (negb (eqb a1.1 a2.1)) a1 a2.
Definition dt_lt (a1 a2 : DateTime) : bool := dt_both (lt a1.1 a2.1) a1 a2.
Definition dt_le (a1 a2 : DateTime) : bool := dt_both (le a1.1 a2.1) a1 a2.
Definition dt_gt (a1 a2 : DateTime) : bool := dt_both (lt a2.1 a1.1) a1 a2.
Definition dt_ge (a1 a2 : DateTime) : bool := dt_both (le a2.1 a1.1) a1 a2.
End datetime.

(** ** The calendar, independently of the formulas *)

Definition month_length (m y : Z) : Z :=
  if m =? 2 then if leap y then 29 else 28
  else if (m =? 4) || (m =? 6) || (m =? 9) || (m =? 11) then 30 else 31.

Definition valid_date (d m y : Z) : bool :=
  (1 <=? m) && (m <=? 12) && (1 <=? d) && (d <=? month_length m y).

Definition next_day (d m y : Z) : Z * Z * Z :=
  if d <? month_length m y then (d + 1, m, y)
  else if m <? 12 then (1, m + 1, y) else (1, 1, y + 1).

(** The days of the years and months before a date's month. *)
Definition ymd (t : Date) : Z * Z * Z := (_day t, _month t, _year t).

(** ** Theorems *)

(** The day number without machine arithmetic. *)
Definition julian_pure (d m y : Z) : Z :=
  d - 32075 + 1461 * (y + 4800 + Z.quot (m - 14) 12) / 4
  + 367 * (m - 2 - Z.quot (m - 14) 12 * 12) / 12
  - 3 * ((y + 4900 + Z.quot (m - 14) 12) / 100) / 4.

Lemma leap_spec y :
  leap y = true <-> (y mod 4 = 0 /\ y mod 100 <> 0) \/ y mod 400 = 0.
Proof.
  unfold leap. rewrite orb_true_iff, andb_true_iff, negb_true_iff, !Z.eqb_eq, Z.eqb_neq.
  rewrite !Z.rem_divide, <- !Z.mod_divide by lia. done.
Qed.

(** The day of the year counted from the first of March, and the inverse of its month part. *)
Definition march (m : Z) : Z := (m + 9) mod 12.
Definition march_days (a : Z) : Z := (153 * a + 2) / 5.

(** The divisions of [_update_ymd] on the day [n] of the year [100 * b + c], years starting in
    March. *)
Lemma division_steps n b c :
  0 <= b -> 0 <= c < 100 -> 1 <= n <= 366 ->
  (n = 366 -> c mod 4 = 3 /\ (c = 99 -> b mod 4 = 3)) ->
  let A := n + 36524 * b + b / 4 + 365 * c + c / 4 in
  4 * (A + 36524) / 146097 = b + 1 /\ A - 146097 * b / 4 = n + 365 * c + c / 4 /\
  4 * (n + 365 * c + c / 4 + 365) / 1461 = c + 1 /\ n + 365 * c + c / 4 - 1461 * c / 4 = n.
Proof.
  intros Hb Hc Hn H366 A.
  pose proof (Z.div_mod b 4 ltac:(lia)) as Eb. pose proof (Z.mod_pos_bound b 4 ltac:(lia)) as Rb.
  pose proof (Z.div_mod c 4 ltac:(lia)) as Ec. pose proof (Z.mod_pos_bound c 4 ltac:(lia)) as Rc.
  assert (146097 * b / 4 = 36524 * b + b / 4) as ->.
  { symmetry. apply (Z.div_unique _ _ _ (b mod 4)); [left; lia|lia]. }
  assert (1461 * c / 4 = 365 * c + c / 4) as ->.
  { symmetry. apply (Z.div_unique _ _ _ (c mod 4)); [left; lia|lia]. }
  split; [|split; [subst A; lia|split; [|lia]]].
  - symmetry. apply (Z.div_unique _ _ _ (4 * (A + 36524) - 146097 * (b + 1))); [left|lia].
    subst A. destruct (decide (n = 366)) as [->|]; [|lia].
    destruct (H366 eq_refl) as [H3 H99]. destruct (decide (c = 99)); [specialize (H99 ltac:(done))|]; lia.
  - symmetry. apply (Z.div_unique _ _ _ (4 * (n + 365 * c + c / 4 + 365) - 1461 * (c + 1))); [left|lia].
    destruct (decide (n = 366)) as [->|]; [|lia]. destruct (H366 eq_refl). lia.
Qed.

Ltac each_month m :=
  let H := fresh in
  assert (m = 1 \/ m = 2 \/ m = 3 \/ m = 4 \/ m = 5 \/ m = 6 \/ m = 7 \/ m = 8 \/ m = 9 \/ m = 10 \/
    m = 11 \/ m = 12) as H by lia;
  destruct_or! H; subst m.

Lemma month_shift m : 1 <= m <= 12 -> Z.quot (m - 14) 12 = if m <=? 2 then -1 else 0.
Proof. intros Hm. each_month m; reflexivity. Qed.

(** [julian_pure] counts days from the first of March of -4800. *)
Lemma julian_march d m b c :
  1 <= m <= 12 -> 0 <= b -> 0 <= c < 100 ->
  julian_pure d m (100 * b + c - 4800 + (if m <=? 2 then 1 else 0)) + 32045 =
    d + march_days (march m) + 36524 * b + b / 4 + 365 * c + c / 4.
Proof.
  intros Hm Hb Hc. unfold julian_pure, march_days.
  pose proof (Z.div_mod b 4 ltac:(lia)) as Eb. pose proof (Z.mod_pos_bound b 4 ltac:(lia)) as Rb.
  pose proof (Z.div_mod c 4 ltac:(lia)) as Ec. pose proof (Z.mod_pos_bound c 4 ltac:(lia)) as Rc.
  replace (100 * b + c - 4800 + (if m <=? 2 then 1 else 0) + 4800 + Z.quot (m - 14) 12) with (100 * b + c).
  2:{ rewrite month_shift by done. destruct (m <=? 2); lia. }
  replace (100 * b + c - 4800 + (if m <=? 2 then 1 else 0) + 4900 + Z.quot (m - 14) 12)
    with (c + (b + 1) * 100).
  2:{ rewrite month_shift by done. destruct (m <=? 2); lia. }
  rewrite Z.div_add, (Z.div_small c 100) by lia.
  assert (1461 * (100 * b + c) / 4 = 36525 * b + 365 * c + c / 4) as ->.
  { symmetry. apply (Z.div_unique _ _ _ (c mod 4)); [left; lia|lia]. }
  assert (3 * (0 + (b + 1)) / 4 = b - b / 4) as ->.
  { symmetry. apply (Z.div_unique _ _ _ (3 - b mod 4)); [left; lia|lia]. }
  assert (367 * (m - 2 - Z.quot (m - 14) 12 * 12) / 12 = 30 + (153 * march m + 2) / 5) as ->; [|lia].
  each_month m; reflexivity.
Qed.

(** [lia] with division and remainder by constants. *)
Ltac dlia := Z.to_euclidean_division_equations; lia.

Lemma valid_bounds d m y :
  valid_date d m y = true -> 1 <= m <= 12 /\ 1 <= d <= month_length m y.
Proof. unfold valid_date. lia. Qed.

Lemma month_length_bounds m y : 28 <= month_length m y <= 31.
Proof. unfold month_length. repeat case_match; lia. Qed.

(** The month and the day of the day [n] of a year from March. *)
Lemma month_day d m y :
  valid_date d m y = true ->
  let n := d + march_days (march m) in let M := (5 * (n - 1) + 2) / 153 in
  1 <= n <= 366 /\ M = march m /\ n - (153 * M + 2) / 5 = d /\
  M + 3 - 12 * (M / 10) = m /\ M / 10 = (if m <=? 2 then 1 else 0) /\
  (n = 366 -> m = 2 /\ leap y = true).
Proof.
  intros [Hm Hd]%valid_bounds n M.
  assert (1 <= n <= 366 /\ (5 * (n - 1) + 2) / 153 = march m /\ (n = 366 -> m = 2 /\ leap y = true)) as (Hn & HM & H366).
  { clear M. subst n. unfold month_length in Hd. destruct (leap y).
    all: each_month m; simpl in Hd;
      repeat match goal with
      | |- context [march_days (march ?k)] =>
          let v := eval vm_compute in (march_days (march k)) in change (march_days (march k)) with v
      | |- context [march ?k] => let v := eval vm_compute in (march k) in change (march k) with v
      end; (split; [lia|split; [dlia|intros ?; first [lia | split; reflexivity]]]). }
  subst M. rewrite HM. split; [done|]. split; [done|]. subst n. unfold march_days.
  split; [dlia|]. unfold march. split; [each_month m; reflexivity|].
  split; [each_month m; reflexivity|done].
Qed.

(** The dates the conversions are exact on. *)
Definition from_march (m y : Z) : Prop := -4800 < y \/ (y = -4800 /\ 3 <= m).

Lemma century m y :
  from_march m y -> 1 <= m <= 12 ->
  exists b c, 0 <= b /\ 0 <= c < 100 /\ y = 100 * b + c - 4800 + (if m <=? 2 then 1 else 0).
Proof.
  intros Hf Hm. set (Y := y + 4800 - (if m <=? 2 then 1 else 0)).
  assert (0 <= Y) as HY by (subst Y; unfold from_march in Hf; destruct (Z.leb_spec m 2); lia).
  exists (Y / 100), (Y mod 100). split; [apply Z.div_pos; lia|].
  split; [apply Z.mod_pos_bound; lia|]. pose proof (Z.div_mod Y 100 ltac:(lia)). lia.
Qed.

(** A date, as the day [n] of the year [100 * b + c] from March. *)
Lemma date_steps d m y :
  valid_date d m y = true -> from_march m y ->
  exists n b c, 0 <= b /\ 0 <= c < 100 /\ 1 <= n <= 366 /\
    (n = 366 -> c mod 4 = 3 /\ (c = 99 -> b mod 4 = 3)) /\
    y = 100 * b + c - 4800 + (if m <=? 2 then 1 else 0) /\
    n = d + march_days (march m) /\
    julian_pure d m y + 32045 = n + 36524 * b + b / 4 + 365 * c + c / 4.
Proof.
  intros Hv Hf. pose proof (valid_bounds _ _ _ Hv) as [Hm _].
  destruct (month_day d m y Hv) as (Hn & _ & _ & _ & _ & H366).
  destruct (century m y Hf Hm) as (b & c & Hb & Hc & Ey).
  exists (d + march_days (march m)), b, c. do 3 (split; [done|]).
  split; [|split; [done|split; [done|rewrite Ey; by apply julian_march]]].
  intros [-> Hl]%H366. rewrite leap_spec in Hl. simpl in Ey. subst y. clear - Hl Hb Hc. dlia.
Qed.

(** The next day of the calendar is one day number further. *)
Lemma julian_next d m y :
  valid_date d m y = true -> from_march m y ->
  let '(d', m', y') := next_day d m y in
  valid_date d' m' y' = true /\ from_march m' y' /\ julian_pure d' m' y' = julian_pure d m y + 1.
Proof.
  intros Hv Hf. pose proof (valid_bounds _ _ _ Hv) as [Hm Hd]. unfold next_day.
  destruct (Z.ltb_spec d (month_length m y)) as [Hlt|Hge].
  { split; [unfold valid_date; lia|]. split; [done|]. unfold julian_pure. lia. }
  assert (d = month_length m y) as -> by lia.
  unfold month_length in *. destruct (Z.ltb_spec m 12) as [Hm12|Hm12].
  - split; [unfold valid_date; pose proof (month_length_bounds (m + 1) y); lia|].
    split; [unfold from_march in *; lia|].
    destruct (century m y Hf Hm) as (b & c & Hb & Hc & Ey).
    destruct (decide (m = 2)) as [->|Hm2].
    + simpl in Ey. pose proof (julian_march (if leap y then 29 else 28) 2 b c ltac:(lia) Hb Hc) as E1. simpl in E1.
      unfold month_length. simpl (2 =? 2). cbv iota. simpl (2 + 1).
      replace (100 * b + c - 4800 + 1) with y in E1 by lia.
      change (march_days (march 2)) with 337 in E1.
      assert (leap y = true /\ (y mod 4 = 0 /\ y mod 100 <> 0 \/ y mod 400 = 0) \/
              leap y = false /\ ~ (y mod 4 = 0 /\ y mod 100 <> 0 \/ y mod 400 = 0)) as Hl.
      { rewrite <- leap_spec. destruct (leap y); [left|right]; by split. }
      destruct (decide (c = 99)) as [->|Hc99].
      * pose proof (julian_march 1 3 (b + 1) 0 ltac:(lia) ltac:(lia) ltac:(lia)) as E2. simpl in E2.
        replace (100 * (b + 1) + 0 - 4800 + 0) with y in E2 by lia.
        change (march_days (march 3)) with 0 in E2.
        destruct Hl as [[El Hl]|[El Hl]]; rewrite El in *; change (2 + 1) with 3; clear - E1 E2 Hl Hb Ey; dlia.
      * pose proof (julian_march 1 3 b (c + 1) ltac:(lia) ltac:(lia) ltac:(lia)) as E2. simpl in E2.
        replace (100 * b + (c + 1) - 4800 + 0) with y in E2 by lia.
        change (march_days (march 3)) with 0 in E2.
        destruct Hl as [[El Hl]|[El Hl]]; rewrite El in *; change (2 + 1) with 3; clear - E1 E2 Hl Hb Hc Hc99 Ey; dlia.
    + assert (1 <= m <= 11 /\ m <> 2) as Hm' by lia. clear - Hm'. unfold julian_pure.
      assert (m = 1 \/ m = 3 \/ m = 4 \/ m = 5 \/ m = 6 \/ m = 7 \/ m = 8 \/ m = 9 \/ m = 10 \/ m = 11) as H by lia.
      destruct_or! H; subst m; simpl; dlia.
  - assert (m = 12) as -> by lia. simpl. split; [by unfold valid_date|].
    split; [unfold from_march in *; lia|].
    unfold julian_pure. change (Z.quot (1 - 14) 12) with (-1). change (Z.quot (12 - 14) 12) with 0.
    change (367 * (1 - 2 - -1 * 12) / 12) with 336. change (367 * (12 - 2 - 0 * 12) / 12) with 305.
    replace (y + 1 + 4800 + -1) with (y + 4800 + 0) by lia.
    replace (y + 1 + 4900 + -1) with (y + 4900 + 0) by lia. lia.
Qed.

(** Every day number from the first of March of -4800 on belongs to a valid date. *)
Lemma julian_cover A :
  1 <= A -> exists d m y, valid_date d m y = true /\ from_march m y /\ julian_pure d m y + 32045 = A.
Proof.
  intros HA. replace A with (Z.of_nat (Z.to_nat (A - 1)) + 1) by lia.
  induction (Z.to_nat (A - 1)) as [|n IH].
  - exists 1, 3, (-4800). split; [done|]. split; [right; lia|done].
  - destruct IH as (d & m & y & Hv & Hf & E). pose proof (julian_next d m y Hv Hf) as Hnext.
    destruct (next_day d m y) as [[d' m'] y']. destruct Hnext as (Hv' & Hf' & E').
    exists d', m', y'. split; [done|]. split; [done|]. lia.
Qed.

(** ** The code's conversions *)

Lemma julian_of_pure d m y :
  valid_date d m y = true -> from_march m y -> julian_of d m y = julian_pure d m y.
Proof.
  intros Hv Hf. pose proof (valid_bounds _ _ _ Hv) as [Hm _].
  unfold julian_of, julian_pure. unfold from_march in Hf. rewrite month_shift by done.
  rewrite !Z.quot_div_nonneg; [done| | | | | | | |]; try lia; destruct (Z.leb_spec m 2); try lia.
  all: apply Z.mul_nonneg_nonneg; [lia|apply Z.quot_pos; lia].
Qed.

Lemma julian_pure_bound d m y :
  valid_date d m y = true -> from_march m y -> y <= 100000 ->
  -32044 <= julian_pure d m y < 40000000.
Proof.
  intros Hv Hf Hy. destruct (date_steps d m y Hv Hf) as (n & b & c & Hb & Hc & Hn & _ & Ey & _ & E).
  assert (b <= 1048) by (destruct (m <=? 2); lia). clear - E Hb Hc Hn H. dlia.
Qed.

(** [_update_ymd] finds the date a day number belongs to. *)
Lemma update_ymd_valid d m y t :
  valid_date d m y = true -> from_march m y -> y <= 100000 -> _julian t = julian_pure d m y ->
  _update_ymd t = mkDate (_julian t) d m y.
Proof.
  intros Hv Hf Hy Et. pose proof (julian_pure_bound d m y Hv Hf Hy) as Hj.
  pose proof (month_day d m y Hv) as (_ & HM & Hday & Hmon & H10 & _).
  pose proof (valid_bounds _ _ _ Hv) as [Hm Hd]. pose proof (month_length_bounds m y) as Hlen.
  destruct (date_steps d m y Hv Hf) as (n & b & c & Hb & Hc & Hn & H366 & Ey & En & E).
  rewrite <- En in *.
  assert (b <= 1048) as Hb' by (destruct (m <=? 2); lia).
  pose proof (division_steps n b c Hb Hc Hn H366) as (E1 & E2 & E3 & E4). rewrite <- E in *.
  assert (0 <= c / 4 < 25) as Hc4 by (clear - Hc; dlia).
  assert (0 <= 146097 * b / 4 < 40000000) as Hb4 by (clear - Hb Hb'; dlia).
  assert (0 <= 1461 * c / 4 < 40000) as Hc1 by (clear - Hc; dlia).
  unfold _update_ymd. rewrite Et. set (A := julian_pure d m y + 32045) in *.
  rewrite (wrapU_small 32 A), (wrapU_small 32 (A + 36524)), (wrapU_small 32 (4 * (A + 36524))) by lia.
  rewrite E1. replace (b + 1 - 1) with b by lia.
  rewrite (wrapU_small 32 b), (wrapU_small 32 (146097 * b)) by lia. rewrite E2.
  rewrite (wrapU_small 32 (n + _ + _)), (wrapU_small 32 (n + _ + _ + 365)),
    (wrapU_small 32 (4 * _)) by lia. rewrite E3.
  replace (c + 1 - 1) with c by lia. rewrite (wrapU_small 32 c), (wrapU_small 32 (1461 * c)) by lia.
  rewrite E4. rewrite (wrapU_small 32 n), (wrapU_small 32 (n - 1)), (wrapU_small 32 (5 * (n - 1))),
    (wrapU_small 32 (5 * (n - 1) + 2)) by lia.
  set (M := (5 * (n - 1) + 2) / 153) in *.
  assert (0 <= M < 12) as HMb by (subst M; clear - Hn; dlia).
  rewrite (wrapU_small 32 (153 * M + 2)) by lia. rewrite Hday, Hmon, H10, (wrapU_small 8 d), (wrapU_small 8 m) by lia.
  f_equal. rewrite wrapS_wrapU, wrapS_small by lia. lia.
Qed.

Lemma s32_julian d m y :
  valid_date d m y = true -> from_march m y -> y <= 100000 ->
  s32 (julian_of d m y) = julian_pure d m y.
Proof.
  intros Hv Hf Hy. rewrite julian_of_pure by done.
  pose proof (julian_pure_bound d m y Hv Hf Hy). apply wrapS_small; lia.
Qed.


Lemma julian_date j :
  -32044 <= j < 30000000 ->
  exists d m y, valid_date d m y = true /\ from_march m y /\ y < 100000 /\ julian_pure d m y = j.
Proof.
  intros Hj. destruct (julian_cover (j + 32045)) as (d & m & y & Hv & Hf & E); [lia|].
  exists d, m, y. do 2 (split; [done|]). split; [|lia].
  destruct (date_steps d m y Hv Hf) as (n & b & c & Hb & Hc & Hn & _ & Ey & _ & E').
  assert (b < 830) by (clear - Hb Hc Hn E E' Hj; dlia). destruct (m <=? 2); lia.
Qed.

(** Every day number of the range stands for a valid date, whose number it is, and the next
    number stands for the next day of the calendar. *)
Theorem julian_calendar j :
  -32044 <= j < 30000000 ->
  let t := Date_julian j in
  valid_date (_day t) (_month t) (_year t) = true /\ _update_julian t = t /\
  ymd (incr t) = next_day (_day t) (_month t) (_year t) /\ decr (incr t) = t.
Proof.
  intros Hj t. destruct (julian_date j Hj) as (d & m & y & Hv & Hf & Hy & Ej).
  pose proof (julian_next d m y Hv Hf) as Hnext. destruct (next_day d m y) as [[d' m'] y'] eqn:En.
  destruct Hnext as (Hv' & Hf' & Ej').
  assert (y' <= 100000) as Hy'.
  { revert En. unfold next_day. repeat case_match; intros [= <- <- <-]; lia. }
  assert (t = mkDate j d m y) as ->.
  { subst t. unfold Date_julian. apply update_ymd_valid; [done|done|lia|done]. }
  cbn [_day _month _year]. split; [done|]. split.
  { unfold _update_julian. cbn [_day _month _year]. rewrite s32_julian by (done || lia). by rewrite Ej. }
  assert (incr (mkDate j d m y) = mkDate (j + 1) d' m' y') as ->.
  { unfold incr, addToDay. cbn [_julian]. rewrite wrapS_small by lia.
    apply update_ymd_valid; [done|done|done|]. cbn [_julian]. lia. }
  split; [by rewrite En|]. unfold decr, addToDay. cbn [_julian].
  replace (j + 1 + -1) with j by lia. rewrite wrapS_small by lia.
  apply update_ymd_valid; [done|done|lia|done].
Qed.

(** The day numbers inside a year. *)
Lemma julian_in_year d m y :
  valid_date d m y = true -> from_march m y -> -4800 < y ->
  exists k, table_at __days_in_year y m = Ok k /\ julian_pure d m y = julian_pure 1 1 y + k + d - 1 /\
    0 <= k <= 335.
Proof.
  intros Hv Hf Hy. pose proof (valid_bounds _ _ _ Hv) as [Hm Hd].
  assert (julian_pure 1 3 y = julian_pure 1 1 y + (if leap y then 60 else 59)) as Hmar.
  { set (f := month_length 2 y).
    assert (valid_date f 2 y = true) as Hv2.
    { subst f. unfold valid_date. pose proof (month_length_bounds 2 y). lia. }
    pose proof (julian_next f 2 y Hv2) as Hn. unfold next_day in Hn. fold f in Hn.
    rewrite Z.ltb_irrefl in Hn. simpl in Hn. destruct Hn as (_ & _ & E); [left; lia|].
    change (2 + 1) with 3 in E. rewrite E. clear E.
    assert (julian_pure f 2 y = julian_pure f 1 y + 31) as ->
      by (unfold julian_pure; simpl; dlia).
    subst f. unfold month_length, julian_pure. simpl. destruct (leap y); lia. }
  assert (3 <= m -> julian_pure d m y = julian_pure 1 3 y + march_days (march m) + d - 1) as H3.
  { intros H3. clear - H3 Hm. unfold julian_pure, march_days. rewrite !month_shift by lia.
    replace (m <=? 2) with false by lia. change (3 <=? 2) with false. cbv iota.
    assert (367 * (m - 2 - 0 * 12) / 12 = 30 + (153 * march m + 2) / 5) by (each_month m; reflexivity || lia).
    change (367 * (3 - 2 - 0 * 12) / 12) with 30. lia. }
  clear Hv Hf Hd. unfold table_at. destruct (leap y).
  all: each_month m;
    (eexists; split; [reflexivity|]; split; [|lia]);
    first [rewrite H3 by lia; rewrite Hmar;
           match goal with |- context [march_days ?a] =>
             let v := eval vm_compute in (march_days a) in change (march_days a) with v end; lia
          | unfold julian_pure; simpl; dlia].
Qed.

(** [dayOfYear] counts the days from the first of January. *)
Theorem dayOfYear_spec d m y :
  valid_date d m y = true -> from_march m y -> -4800 < y < 2 ^ 15 ->
  dayOfYear (Date_ymd d m y) = Ok (_julian (Date_ymd d m y) - _julian (Date_ymd 1 1 y) + 1).
Proof.
  intros Hv Hf Hy. destruct (julian_in_year d m y Hv Hf) as (k & E & Ej & Hk); [lia|].
  pose proof (valid_bounds _ _ _ Hv) as [Hm Hd]. pose proof (month_length_bounds m y).
  unfold dayOfYear. simpl. rewrite E. cbn [bind]. rewrite (s32_julian d m y) by (done || lia).
  rewrite s32_julian by (first [done | left; lia | lia]). rewrite wrapU_small by lia. f_equal. lia.
Qed.

(** [dayOfWeek] counts from Monday, not from Sunday as its comment and [WEEKDAY] say: it goes
    from one day to the next in cycles of seven and is 6 on Saturday, the first of January 2000. *)
Theorem dayOfWeek_from_monday j :
  0 <= j < 30000000 ->
  dayOfWeek (incr (Date_julian j)) = dayOfWeek (Date_julian j) mod 7 + 1 /\
  dayOfWeek (Date_ymd 1 1 2000) = 6.
Proof.
  intros Hj. split; [|reflexivity]. unfold dayOfWeek, incr, addToDay, Date_julian, _update_ymd.
  cbn [_julian]. rewrite (wrapS_small 32) by lia. rewrite !Z.rem_mod_nonneg by lia.
  rewrite !wrapU_small by (clear - Hj; dlia). clear - Hj. dlia.
Qed.

(** ** Adding months *)

Lemma month_length_table m y :
  1 <= m <= 12 -> table_at __days_in_months y m = Ok (month_length m y).
Proof. intros Hm. unfold table_at, month_length. destruct (leap y); each_month m; reflexivity. Qed.

Lemma months_split t : -2 ^ 31 <= t < 2 ^ 31 ->
  (let years := Z.quot t 12 in let r := Z.rem t 12 in
   if r <? 0 then (years - 1, 12 + r) else (years, r)) = (t / 12, t mod 12).
Proof. intros Ht. cbv zeta. destruct (Z.ltb_spec (Z.rem t 12) 0); f_equal; dlia. Qed.

(** [addToMonth] moves to the same day of the target month, or to its last day, unless the
    target is December. *)
Theorem addToMonth_spec d m y n :
  valid_date d m y = true -> -2 ^ 15 <= y < 2 ^ 15 -> -2 ^ 30 <= n < 2 ^ 30 -> (m + n) mod 12 <> 0 ->
  let m' := (m + n) mod 12 in let y' := y + (m + n) / 12 in
  addToMonth (Date_ymd d m y) n = Ok (Date_ymd (Z.min d (month_length m' y')) m' y').
Proof.
  intros Hv Hy Hn Hd m' y'. pose proof (valid_bounds _ _ _ Hv) as [Hm _].
  unfold addToMonth. change (_month (Date_ymd d m y)) with m. change (_year (Date_ymd d m y)) with y.
  change (_day (Date_ymd d m y)) with d.
  rewrite (wrapS_small 32 (m + n)) by lia.
  pose proof (months_split (m + n) ltac:(lia)) as E. cbv zeta in E. rewrite E.
  assert (1 <= m' <= 11) as Hm' by (subst m'; pose proof (Z.mod_pos_bound (m + n) 12); lia).
  fold m' y'. rewrite (wrapU_small 8 m') by lia.
  rewrite (wrapS_small 32 y') by (subst y'; clear - Hy Hn Hm; dlia).
  rewrite month_length_table by lia. cbn [bind _day _julian].
  unfold Date_ymd. unfold _update_julian. cbn [_day _month _year].
  by replace (if month_length m' y' <? d then month_length m' y' else d)
    with (Z.min d (month_length m' y')) by (destruct (Z.ltb_spec (month_length m' y') d); lia).
Qed.

(** Adding months to get to December gives month 0 and day 0 of the next year, whose day number
    is that of the last day of November. *)
Theorem addToMonth_december d m y n :
  valid_date d m y = true -> -3000 <= y <= 30000 -> -12000 <= n <= 12000 -> (m + n) mod 12 = 0 ->
  let y' := y + (m + n) / 12 in
  exists t, addToMonth (Date_ymd d m y) n = Ok t /\ ymd t = (0, 0, y') /\
    assign t = Date_ymd 30 11 (y' - 1).
Proof.
  intros Hv Hy Hn Hd y'. pose proof (valid_bounds _ _ _ Hv) as [Hm Hd1].
  unfold addToMonth. change (_month (Date_ymd d m y)) with m. change (_year (Date_ymd d m y)) with y.
  change (_day (Date_ymd d m y)) with d.
  rewrite (wrapS_small 32 (m + n)) by lia.
  pose proof (months_split (m + n) ltac:(lia)) as E. cbv zeta in E. rewrite E, Hd.
  fold y'. change (u8 0) with 0.
  assert (-4799 < y' < 32000) as Hy' by (subst y'; clear - Hy Hn Hm; dlia).
  rewrite (wrapS_small 32 y') by lia.
  assert (table_at __days_in_months y' 0 = Ok 0) as -> by (unfold table_at; by destruct (leap y')).
  cbn [bind _day]. replace (0 <? d) with true by lia.
  eexists. split; [done|]. split; [done|].
  assert (julian_of 0 0 y' = julian_of 30 11 (y' - 1)) as Ej.
  { unfold julian_of. change (Z.quot (0 - 14) 12) with (-1). change (Z.quot (11 - 14) 12) with 0.
    change (Z.quot (367 * (0 - 2 - -1 * 12)) 12) with 305.
    change (Z.quot (367 * (11 - 2 - 0 * 12)) 12) with 275.
    replace (y' + 4800 + -1) with (y' - 1 + 4800 + 0) by lia.
    replace (y' + 4900 + -1) with (y' - 1 + 4900 + 0) by lia. lia. }
  unfold assign, _update_julian, Date_ymd. cbn [_day _month _year].
  unfold _update_julian. cbn [_day _month _year]. rewrite Ej.
  assert (valid_date 30 11 (y' - 1) = true) as Hv' by done.
  apply update_ymd_valid; [done|left; lia|lia|]. cbn [_julian]. apply s32_julian; [done|left; lia|lia].
Qed.

(** The comparisons of [DateTime] other than equality hold only for times of the same day: on
    different days none of them does, not even [!=]. *)
Theorem datetime_incomparable {T} (lt le eqb : T -> T -> bool) (a1 a2 : DateTime (T := T)) :
  _julian a1.2 <> _julian a2.2 ->
  dt_ne eqb a1 a2 = false /\ dt_lt lt a1 a2 = false /\ dt_le le a1 a2 = false /\
  dt_gt lt a1 a2 = false /\ dt_ge le a1 a2 = false /\ dt_eq eqb a1 a2 = false.
Proof.
  intros Hne. unfold dt_ne, dt_lt, dt_le, dt_gt, dt_ge, dt_eq, dt_both.
  replace (_julian a1.2 =? _julian a2.2) with false by lia. by rewrite !andb_false_r.
Qed.


(** ** Witnesses *)


Lemma julian_calendar_witness :
  let t := Date_julian 2451604 in
  valid_date (_day t) (_month t) (_year t) = true /\ _update_julian t = t /\
  ymd (incr t) = next_day (_day t) (_month t) (_year t) /\ decr (incr t) = t.
Proof. apply (julian_calendar 2451604). lia. Defined.

Lemma dayOfYear_spec_witness : dayOfYear (Date_ymd 1 3 2000) = Ok 61.
Proof. apply (dayOfYear_spec 1 3 2000); [reflexivity|left; lia|lia]. Defined.

Lemma addToMonth_spec_witness : addToMonth (Date_ymd 31 1 2001) 13 = Ok (Date_ymd 28 2 2002).
Proof. apply (addToMonth_spec 31 1 2001 13); [reflexivity|lia|lia|by vm_compute]. Defined.

Lemma addToMonth_december_witness :
  exists t, addToMonth (Date_ymd 15 10 2000) 2 = Ok t /\ ymd t = (0, 0, 2001) /\ assign t = Date_ymd 30 11 2000.
Proof. apply (addToMonth_december 15 10 2000 2); [reflexivity|lia|lia|reflexivity]. Defined.
