(* ===== verification/Time.v ===== *)
(** * Times of day and DateTime (src/cpp/src/Time.cpp, src/cpp/src/DateTime.cpp)

    A [Time] keeps a [float64] number of seconds since midnight.  The model has the times of a whole
    number of seconds, on which the floating point operations of the code are exact: the sums stay
    below 2^53, the [float32] products of [rescale] and of the constructors have 24 significant bits
    ([day_product]), and a quotient is cut to an integer.  Cutting a number that the integer type
    does not have is undefined.  [_tz], which only [timezone()] reads, is left out.  The clock
    ([update]), [gmtime] and fractions of a second are outside the model; the comparisons are those
    of [Date], for any times. *)

From S2P Require Import Prelude CString Date.

Definition SECONDS_IN_DAY : Z := 86400.

(** [(uint32) x] and [(int32) x] on a floating point number with the integral part [x] *)
Definition to_uint32 (x : Z) : res Z := if (0 <=? x) && (x <? 2 ^ 32) then Ok x else UB.
Definition to_int32 (x : Z) : res Z := if (- 2 ^ 31 <=? x) && (x <? 2 ^ 31) then Ok x else UB.

(** ** Time *)

Definition Time : Type := Z.  (* _time *)

(** The fields of [struct tm] that a [Time] reads and writes *)
Record clock := mkClock { tm_hour : Z; tm_min : Z; tm_sec : Z }.

(** Time(tm* ), and Time(uint8 hour, uint8 minute, float32 second) with [_update] *)
Definition Time_tm (dt : clock) : Time := tm_hour dt * 3600 + tm_min dt * 60 + tm_sec dt.
Definition Time_hms (hour minute second : Z) : Time := hour * 3600 + minute * 60 + second.
(** Time(time_t ts) *)
Definition Time_ts (ts : Z) : Time :=
  let ts := s32 ts in if SECONDS_IN_DAY <? ts then Z.rem ts SECONDS_IN_DAY else ts.

(** [(uint8)((uint32)(_time / 3600))%24]: the cast to [uint8] comes first. *)
Definition hour (t : Time) : res Z :=
  let? h := to_uint32 (Z.quot t 3600) in Ok (u8 h mod 24).
Definition minute (t : Time) : res Z :=
  let? m := to_int32 (Z.quot t 60) in Ok (u8 (Z.rem m 60)).
Definition second (t : Time) : res Z :=
  let? itime := to_uint32 t in Ok (itime mod 60 + (t - itime)).

Definition addToHour (hours : Z) (t : Time) : Time := t + s32 (hours * 3600).
Definition addToMinute (minutes : Z) (t : Time) : Time := t + s32 (minutes * 60).

Definition isValid (t : Time) : bool := (0 <? t) && (t <? 86400).

Definition toTM (t : Time) : res clock :=
  let? h := hour t in
  let? m := minute t in
  let? s := second t in
  Ok (mkClock h m s).

(** [rescale()]: the days taken out, and what is left *)
Definition rescale (t : Time) : res (Z * Time) :=
  if (SECONDS_IN_DAY <? t) || (t <? 0) then
    let? new_days := to_int32 (Z.quot t SECONDS_IN_DAY) in
    Ok (new_days, t - s32 (new_days * SECONDS_IN_DAY))
  else Ok (0, t).

(** ** DateTime *)

Abbreviation DateTime := (Date.DateTime (T := Time)).

(** Date::addToDay(Time::rescale()) *)
Definition settle (d : DateTime) : res DateTime :=
  let? (days, t) := rescale d.1 in Ok (t, addToDay d.2 days).

Definition DateTime_ymd (day month year hour minute second : Z) : DateTime :=
  (Time_hms hour minute second, Date_ymd day month year).
Definition DateTime_sec (sec julian_days : Z) : res DateTime := settle (sec, Date_julian julian_days).
Definition DateTime_tm (dt : tm) (ck : clock) : res DateTime := settle (Time_tm ck, Date_tm dt).

(** operator=, and with it the copy constructor *)
Definition DateTime_assign (d : DateTime) : DateTime := (d.1, _update_ymd d.2).

Definition DateTime_addToHour (hours : Z) (d : DateTime) : res DateTime := settle (addToHour hours d.1, d.2).
Definition DateTime_addToMinute (minutes : Z) (d : DateTime) : res DateTime := settle (addToMinute minutes d.1, d.2).

(** ++, --, += and -= *)
Definition DateTime_incr (d : DateTime) : res DateTime := settle (d.1 + 1, d.2).
Definition DateTime_decr (d : DateTime) : res DateTime := settle (d.1 - 1, d.2).
Definition add_seconds (seconds : Z) (d : DateTime) : res DateTime := settle (d.1 + seconds, d.2).
Definition sub_seconds (seconds : Z) (d : DateTime) : res DateTime := settle (d.1 - seconds, d.2).
Definition set_julian (j : Z) (t : Date) : Date := mkDate j (_day t) (_month t) (_year t).
Definition add_DateTime (t d : DateTime) : res DateTime :=
  settle (d.1 + t.1, set_julian (s32 (_julian d.2 + _julian t.2)) d.2).
Definition sub_DateTime (t d : DateTime) : res DateTime :=
  settle (d.1 - t.1, set_julian (s32 (_julian d.2 - _julian t.2)) d.2).

(** + and - as free functions *)
Definition plus_DateTime (t1 t2 : DateTime) : res DateTime := DateTime_sec (t1.1 + t2.1) (s32 (_julian t1.2 + _julian t2.2)).
Definition minus_DateTime (t1 t2 : DateTime) : res DateTime := DateTime_sec (t1.1 - t2.1) (s32 (_julian t1.2 - _julian t2.2)).
Definition plus_seconds (t1 : DateTime) (seconds : Z) : res DateTime := DateTime_sec (t1.1 + seconds) (_julian t1.2).
Definition minus_seconds (t1 : DateTime) (seconds : Z) : res DateTime := DateTime_sec (t1.1 - seconds) (_julian t1.2).
Definition seconds_minus (seconds : Z) (t1 : DateTime) : res DateTime := DateTime_sec (seconds - t1.1) (_julian t1.2).

Definition DateTime_isValid (d : DateTime) : bool := isValid d.1 && Date.isValid d.2.

(** [formatString] for the function [strftime] with the format at hand *)
Definition DateTime_toTM (d : DateTime) : res (tm * clock) :=
  let? dt := Date.toTM d.2 in
  let? ck := toTM d.1 in Ok (dt, ck).
Definition formatString (strftime : tm -> clock -> str) (d : DateTime) : res str :=
  let? (dt, ck) := DateTime_toTM d in Ok (cstr (ztake 254 (strftime dt ck))).

(** ** Moving a time *)

(** The seconds since the beginning of the day 0 *)
Definition instant (d : DateTime) : Z := _julian d.2 * SECONDS_IN_DAY + d.1.

Inductive dt_op :=
  | AddHours (n : Z)
  | AddMinutes (n : Z)
  | Incr
  | Decr
  | AddSeconds (n : Z)
  | SubSeconds (n : Z).

Definition dt_step (o : dt_op) : DateTime -> res DateTime :=
  match o with
  | AddHours n => DateTime_addToHour n
  | AddMinutes n => DateTime_addToMinute n
  | Incr => DateTime_incr
  | Decr => DateTime_decr
  | AddSeconds n => add_seconds n
  | SubSeconds n => sub_seconds n
  end.
Fixpoint dt_run (os : list dt_op) (d : DateTime) : res DateTime :=
  match os with [] => Ok d | o :: os => let? d := dt_step o d in dt_run os d end.

(** The seconds that an operation adds *)
Definition amount (o : dt_op) : Z :=
  match o with
  | AddHours n => n * 3600 | AddMinutes n => n * 60 | Incr => 1 | Decr => -1
  | AddSeconds n => n | SubSeconds n => - n
  end.
Definition total (os : list dt_op) : Z := foldr (fun o n => amount o + n) 0 os.

(** The date is that of its day number, and the time within a day of midnight. *)
Definition settled (d : DateTime) : Prop :=
  d.2 = Date_julian (_julian d.2) /\ - SECONDS_IN_DAY < d.1 <= SECONDS_IN_DAY.

(** The products of [rescale] are numbers of [float32]. *)
Lemma day_product d : - 2 ^ 31 <= d * SECONDS_IN_DAY < 2 ^ 31 ->
  exists k, d * SECONDS_IN_DAY = k * 2 ^ 7 /\ - 2 ^ 24 < k < 2 ^ 24.
Proof. unfold SECONDS_IN_DAY. intros H. exists (d * 675). lia. Qed.

Lemma addToDay_julian t days : addToDay t days = Date_julian (s32 (_julian t + days)).
Proof. done. Qed.

Lemma settle_ok t date : - 2 ^ 31 + SECONDS_IN_DAY <= t < 2 ^ 31 -> -32044 + 24856 <= _julian date < 30000000 - 24856 ->
  exists d, settle (t, date) = Ok d /\ instant d = instant (t, date) /\ settled d /\
    (0 <= t -> 0 <= d.1) /\ - 24856 <= _julian d.2 - _julian date <= 24856.
Proof.
  intros Ht Hj. unfold settle, rescale, SECONDS_IN_DAY in *. cbn [fst snd].
  assert (forall days t', - 24856 <= days <= 24856 -> t = days * 86400 + t' -> - 86400 < t' <= 86400 ->
    instant (t', addToDay date days) = instant (t, date) /\ settled (t', addToDay date days) /\
    - 24856 <= _julian (addToDay date days) - _julian date <= 24856) as Hd.
  { intros days t' Hd E Ht'. rewrite addToDay_julian. unfold settled, instant, SECONDS_IN_DAY. cbn [fst snd].
    assert (_julian (Date_julian (s32 (_julian date + days))) = _julian date + days) as -> by (cbn; apply wrapS_small; lia).
    rewrite (wrapS_small 32) by lia. split_and!; [lia|done|lia..]. }
  destruct (Z.ltb_spec 86400 t) as [H1|H1]; [|destruct (Z.ltb_spec t 0) as [H2|H2]]; cbn [orb].
  1-2: set (q := Z.quot t 86400);
    assert (- 24856 <= q <= 24856 /\ t = q * 86400 + Z.rem t 86400 /\ - 86400 < Z.rem t 86400 < 86400 /\
      (0 <= t -> 0 <= Z.rem t 86400) /\ - 2 ^ 31 <= q * 86400 < 2 ^ 31) as (Hq & E & Hr & Hp & Hw)
      by (unfold q; Z.to_euclidean_division_equations; lia);
    unfold to_int32; replace (_ && _) with true by lia; cbn [bind]; rewrite (wrapS_small 32) by lia;
    destruct (Hd q (t - q * 86400)) as (E1 & E2 & E3); [lia|lia|lia|]; eexists; split; [done|]; cbn [fst snd];
    split_and!; try done; lia.
  cbn [bind]. destruct (Hd 0 t) as (E1 & E2 & E3); [lia..|]. eexists. split; [done|]. cbn [fst snd]. split_and!; try done; lia.
Qed.

Lemma step_settle o d : - 2 ^ 31 <= amount o < 2 ^ 31 -> dt_step o d = settle (d.1 + amount o, d.2).
Proof.
  intros Ha. destruct o; cbn in *; try done; unfold DateTime_addToHour, DateTime_addToMinute, addToHour, addToMinute;
    by rewrite (wrapS_small 32) by lia.
Qed.

(** C39: invariant. However hours, minutes and seconds are added and subtracted, the instant moves by their
    sum, the date stays that of its day number, and the time within a day of midnight. *)
Theorem DateTime_instant os : forall d,
  settled d -> Forall (fun o => - 2 ^ 30 <= amount o <= 2 ^ 30) os ->
  -32044 + 24856 * (zlen os + 1) <= _julian d.2 < 30000000 - 24856 * (zlen os + 1) ->
  exists d', dt_run os d = Ok d' /\ instant d' = instant d + total os /\ settled d'.
Proof.
  induction os as [|o os IH]; intros d Hd Ho Hj; cbn [dt_run total foldr]; [exists d; rewrite Z.add_0_r; by split_and!|].
  apply Forall_cons_iff in Ho as [Ho Hos]. rewrite zlen_cons in Hj. pose proof (zlen_nonneg os). destruct Hd as [_ Ht].
  unfold SECONDS_IN_DAY in Ht. rewrite step_settle by lia.
  destruct (settle_ok (d.1 + amount o) d.2) as (d1 & E & Ei & Hd1 & _ & Hj1); [unfold SECONDS_IN_DAY; lia|lia|].
  rewrite E. cbn [bind]. destruct (IH d1) as (d' & E' & Ei' & Hd'); [done|done|lia|]. exists d'. split; [done|]. split; [|done].
  rewrite Ei', Ei. unfold instant, total. cbn [fst snd]. lia.
Qed.

(** ** The parts of a time *)

Lemma parts_ok t : 0 <= t < SECONDS_IN_DAY -> exists h m s,
  toTM t = Ok (mkClock h m s) /\ 0 <= h < 24 /\ 0 <= m < 60 /\ 0 <= s < 60 /\ t = h * 3600 + m * 60 + s.
Proof.
  unfold SECONDS_IN_DAY. intros Ht. exists (Z.quot t 3600), (Z.rem (Z.quot t 60) 60), (t mod 60).
  assert (0 <= Z.quot t 3600 < 24 /\ 0 <= Z.quot t 60 < 1440 /\ 0 <= Z.rem (Z.quot t 60) 60 < 60 /\ 0 <= t mod 60 < 60 /\
    t = Z.quot t 3600 * 3600 + Z.rem (Z.quot t 60) 60 * 60 + t mod 60) as (H1 & H2 & H3 & H4 & H5)
    by (split_and!; Z.to_euclidean_division_equations; lia).
  split; [|done]. unfold toTM, hour, minute, second, to_uint32, to_int32.
  replace ((0 <=? Z.quot t 3600) && _) with true by lia. replace ((- 2 ^ 31 <=? Z.quot t 60) && _) with true by lia.
  replace ((0 <=? t) && _) with true by lia. cbn [bind]. rewrite !wrapU_small by lia.
  rewrite (Z.mod_small (Z.quot t 3600)) by lia. by rewrite Z.sub_diag, Z.add_0_r.
Qed.

(** The [struct tm] of a valid date and time of day has their parts, and gives the same DateTime. *)
Theorem tm_roundtrip d m y t :
  valid_date d m y = true -> from_march m y -> y < 2 ^ 15 -> 0 <= t < SECONDS_IN_DAY ->
  exists dt ck, DateTime_toTM (t, Date_ymd d m y) = Ok (dt, ck) /\
    tm_mday dt = d /\ tm_mon dt = m - 1 /\ tm_year dt = y - 1900 /\
    t = tm_hour ck * 3600 + tm_min ck * 60 + tm_sec ck /\
    0 <= tm_hour ck < 24 /\ 0 <= tm_min ck < 60 /\ 0 <= tm_sec ck < 60 /\
    DateTime_tm dt ck = Ok (t, Date_ymd d m y).
Proof.
  intros Hv Hf Hy Ht. pose proof (valid_bounds _ _ _ Hv) as [Hm Hd]. pose proof (month_length_bounds m y) as Hlen.
  destruct (parts_ok t Ht) as (h & mi & s & Ec & Hh & Hmi & Hs & Et). unfold SECONDS_IN_DAY in Ht.
  assert (exists n, dayOfYear (Date_ymd d m y) = Ok n) as [n En].
  { unfold dayOfYear, table_at, Date_ymd, _update_julian. cbn [_month _year _day].
    assert (exists row, __days_in_year !! (if leap y then 1 else 0)%nat = Some row /\ length row = 14%nat) as (row & -> & Hrow)
      by (destruct (leap y); by eexists).
    cbn [of_option bind]. destruct (zget_is_Some row m) as [x ->]; [unfold zlen; lia|]. by eexists. }
  unfold DateTime_toTM, Date.toTM. cbn [fst snd]. rewrite En. cbn [bind]. rewrite Ec. cbn [bind].
  eexists _, _. split; [reflexivity|]. cbn [tm_mday tm_mon tm_year tm_hour tm_min tm_sec]. split_and!; try done; try lia.
  unfold DateTime_tm, Time_tm, Date_tm, settle, rescale, SECONDS_IN_DAY. cbn [fst snd tm_mday tm_mon tm_year tm_hour tm_min tm_sec].
  rewrite <- Et. replace (_ || _) with false by lia. cbn [bind]. do 3 f_equal.
  unfold Date_ymd, _update_julian. cbn [_day _month _year]. rewrite !(wrapU_small 8), !Z.sub_add by lia.
  rewrite s32_julian by (done || lia). rewrite addToDay_julian. cbn [_julian]. pose proof (julian_pure_bound d m y Hv Hf ltac:(lia)).
  rewrite Z.add_0_r, wrapS_small by lia. unfold Date_julian. by apply update_ymd_valid; [..|lia|].
Qed.

(** Two times of whole days are equal when their instants are. *)
Lemma dt_eq_instant d1 d2 : 0 <= d1.1 < SECONDS_IN_DAY -> 0 <= d2.1 < SECONDS_IN_DAY ->
  dt_eq Z.eqb d1 d2 = true <-> instant d1 = instant d2.
Proof. unfold dt_eq, dt_both, instant, SECONDS_IN_DAY. unfold Time in *. intros. rewrite andb_true_iff, !Z.eqb_eq. lia. Qed.

(** ** What goes wrong *)

(** A second before midnight is a negative time of the same day, whose parts are undefined or wrap around;
    24 hours after midnight is hour 0 of the same day, and not equal to midnight of the next; midnight
    is not valid; and hour 256 is hour 0. *)
Theorem datetime_defects :
  let midnight := DateTime_ymd 1 1 2000 0 0 0 in
  DateTime_decr midnight = Ok (-1, Date_ymd 1 1 2000) /\ second (-1) = UB /\ minute (-120) = Ok 254 /\ hour (-1) = Ok 0 /\
  DateTime_addToHour 24 midnight = Ok (86400, Date_ymd 1 1 2000) /\ hour 86400 = Ok 0 /\
  DateTime_isValid midnight = false /\
  (let? d := DateTime_addToHour 24 midnight in Ok (dt_eq Z.eqb d (DateTime_ymd 2 1 2000 0 0 0))) = Ok false /\
  hour (256 * 3600) = Ok 0.
Proof. vm_compute. repeat split. Qed.

(** ** Witnesses *)

Lemma DateTime_instant_witness :
  let d := DateTime_ymd 28 2 2000 23 30 0 in
  settled d /\ exists d', dt_run [AddMinutes 45; Incr; SubSeconds 2; AddHours 24] d = Ok d' /\ instant d' = instant d + 89099 /\
    d' = DateTime_ymd 1 3 2000 0 14 59.
Proof.
  assert (settled (DateTime_ymd 28 2 2000 23 30 0)) as Hs by (vm_compute; split; [done|by split]).
  split; [done|]. destruct (DateTime_instant [AddMinutes 45; Incr; SubSeconds 2; AddHours 24] _ Hs) as (d' & E & Ei & _).
  - by repeat constructor.
  - by vm_compute.
  - exists d'. split; [done|]. split; [done|]. vm_compute in E. by injection E as <-.
Defined.

Lemma tm_roundtrip_witness :
  exists dt ck, DateTime_toTM (3661, Date_ymd 29 2 2000) = Ok (dt, ck) /\ DateTime_tm dt ck = Ok (3661, Date_ymd 29 2 2000).
Proof.
  destruct (tm_roundtrip 29 2 2000 3661) as (dt & ck & E & _ & _ & _ & _ & _ & _ & _ & E'); [reflexivity|left; lia|lia|done|].
  exists dt, ck. by split.
Defined.
