(* ===== verification/Logger.v ===== *)
(** * Logging (src/cpp/src/log/Logger.cpp, SysLog.cpp, include/srl/log/Logger.h)

    The static members of [Logger] are one state: the loggers that were made, which live as long as the
    program, the dictionary that finds them by name, the outputs, and the global priority.  An output is
    the console or the system's log.  The mutexes are left out: every function is entered with its own,
    and [AddOutput], which [GetInstance] calls with the lock held, takes it once more ([Mutex]).  A
    message with a format is given as the text that printf makes of it. *)

From S2P Require Import Prelude Dictionary DictTree DictSpec Mapping State CString Str StrConv.

Inductive Priority := ALL | DEBUG | INFO | NOTICE | WARN | ERR | CRIT | ALERT | EMERG | FATAL.
Definition priority_value (p : Priority) : Z :=
  match p with
  | ALL => 0 | DEBUG => 1 | INFO => 2 | NOTICE => 3 | WARN => 4 | ERR => 5 | CRIT => 6 | ALERT => 7 | EMERG => 8 | FATAL => 9
  end.

Definition GetPriorityName (p : Priority) : str :=
  match p with
  | DEBUG => lit "debug"
  | INFO => lit "info"
  | NOTICE => lit "notice"
  | WARN => lit "warning"
  | ERR => lit "error"
  | CRIT => lit "critical"
  | ALERT => lit "alert"
  | EMERG => lit "emergency"
  | FATAL => lit "fatal"
  | ALL => []
  end.

(** The levels of <syslog.h> *)
Definition GetSysLogLevel (p : Priority) : Z :=
  match p with
  | ALL | EMERG | FATAL => 0 | ALERT => 1 | CRIT => 2 | ERR => 3 | WARN => 4 | NOTICE => 5 | INFO => 6 | DEBUG => 7
  end.

(** What [syslog] makes of a format without arguments; [%m], which needs none, is left out. *)
Fixpoint printf_0 (fmt : str) : res str :=
  match fmt with
  | [] => Ok []
  | c :: fmt' =>
      if decide (c = "%"%char) then
        match fmt' with
        | d :: fmt'' => if decide (d = "%"%char) then let? s := printf_0 fmt'' in Ok (c :: s) else UB
        | [] => UB
        end
      else let? s := printf_0 fmt' in Ok (c :: s)
  end.

(** [putc] and [puts] on the standard output, the time as text, and the system's log (name, level, text) *)
Class LogSystem (W : Type) := {
  console : str -> W -> W;
  time_text : W -> str * W;
  syslog : str -> Z -> str -> W -> W
}.

Inductive LoggerOutput :=
  | ConsoleOutput (_loglevel : Priority)
  | SysLog (_syslog_name : str) (_loglevel : Priority).

Record Logger := mkLogger { _name : str; _priorityLevel : Priority }.

Section logging.
Context {W : Type} `{LogSystem W} {D : Type} `{MapOps D str ref}.

Record Logging := mkLogging {
  made : list Logger;
  __Map : D;
  __Outputs : list LoggerOutput;
  __GlobalPriorityLevel : Priority;
  system : W
}.
Abbreviation M := (ST Logging).
Definition with_made (s : Logging) l := mkLogging l (__Map s) (__Outputs s) (__GlobalPriorityLevel s) (system s).
Definition with_map (s : Logging) d := mkLogging (made s) d (__Outputs s) (__GlobalPriorityLevel s) (system s).
Definition with_outputs (s : Logging) o := mkLogging (made s) (__Map s) o (__GlobalPriorityLevel s) (system s).
Definition with_global (s : Logging) p := mkLogging (made s) (__Map s) (__Outputs s) p (system s).
Definition with_system (s : Logging) w := mkLogging (made s) (__Map s) (__Outputs s) (__GlobalPriorityLevel s) w.

(** The static members before [main] *)
Definition Logging_start (w : W) : Logging := mkLogging [] map_new [] FATAL w.

Definition AddOutput (o : LoggerOutput) : M unit := modify (fun s => with_outputs s (__Outputs s ++ [o])).
Definition SetOutput (o : LoggerOutput) : M unit :=
  modify (fun s => with_outputs s []) ;;! modify (fun s => with_outputs s (__Outputs s ++ [o])).
Definition LoggerOutput_Create (loglevel : Priority) : M unit := AddOutput (ConsoleOutput loglevel).
Definition SysLog_Create (name : str) (loglevel : Priority) : M unit := AddOutput (SysLog name loglevel).
Definition SetGlobalPriorityLevel (p : Priority) : M unit := modify (fun s => with_global s p).

(** [new Logger(loggerName)] *)
Definition new_logger (name : str) : M nat := fun s => (Ok (length (made s)), with_made s (made s ++ [mkLogger name INFO])).

Definition GetInstance (loggerName : str) : M nat :=
  let! d := get __Map in
  let! has := lift (map_hasKey loggerName d) in
  let! ptr :=
    (if negb has then
      let! i := new_logger loggerName in
      let! d := get __Map in
      let! d := lift (map_put loggerName (Some i : ref) d) in
      modify (fun s => with_map s d) ;;! sret (Some i)
    else
      let! (p, d) := lift (map_at loggerName d) in
      modify (fun s => with_map s d) ;;! sret p : ST Logging ref) in
  let! outputs := get __Outputs in
  (if zlen outputs =? 0 then LoggerOutput_Create INFO else sret tt) ;;!
  lift (of_option ptr).

(** [this], a logger that was made *)
Definition this (i : nat) : M Logger := fun s => (of_option (made s !! i), s).
Definition name (i : nat) : M str := let! l := this i in sret (_name l).
Definition priorityLevel (i : nat) : M Priority := let! l := this i in sret (_priorityLevel l).
Definition setPriorityLevel (i : nat) (p : Priority) : M unit :=
  let! l := this i in
  if priority_value (_priorityLevel l) =? priority_value p then sret tt
  else modify (fun s => with_made s (<[i := mkLogger (_name l) p]> (made s))).

(** ** Writing *)

Definition print (text : str) : M unit := modify (fun s => with_system s (console text (system s))).
Definition writeLine (output : str) : M unit := print (cstr output ++ [chr 10]).
Definition output_log (o : LoggerOutput) (p : Priority) (name message : str) : M unit :=
  match o with
  | ConsoleOutput _ =>
      let! t := fun s => let '(t, w) := time_text (system s) in (Ok t, with_system s w) in
      print (lit "<") ;;! print t ;;! print (lit ">") ;;!
      print (lit "[") ;;! print name ;;! print (lit ":") ;;! print (GetPriorityName p) ;;! print (lit "] ") ;;!
      writeLine message
  | SysLog syslog_name _ =>
      let! fmt := lift (Format (lit "(%s) %s") (lit "(" ++ cstr (GetPriorityName p) ++ lit ") " ++ cstr message)) in
      let! text := lift (printf_0 (cstr fmt)) in
      modify (fun s => with_system s (syslog (cstr name) (GetSysLogLevel p) text (system s)))
  end.

Fixpoint outputs_loop (os : list LoggerOutput) (p : Priority) (name message : str) : M unit :=
  match os with
  | [] => sret tt
  | o :: os => output_log o p name message ;;! outputs_loop os p name message
  end.
Definition _log (l : Logger) (p : Priority) (message : str) : M unit :=
  let! os := get __Outputs in outputs_loop os p (_name l) message.

Definition enabled (l : Logger) (global p : Priority) : bool :=
  (priority_value (_priorityLevel l) <=? priority_value p) || (priority_value global <=? priority_value p).

(** [log(priority, message)], and with a format *)
Definition log (p : Priority) (i : nat) (message : str) : M unit :=
  let! l := this i in
  let! global := get __GlobalPriorityLevel in
  if enabled l global p then _log l p message else sret tt.
Definition log_format (p : Priority) (i : nat) (out : str) : M unit :=
  let! l := this i in
  let! global := get __GlobalPriorityLevel in
  if enabled l global p then let! tmp := lift (logva out) in _log l p (cstr tmp) else sret tt.

Definition debug : nat -> str -> M unit := log DEBUG.
Definition info : nat -> str -> M unit := log INFO.
Definition notice : nat -> str -> M unit := log NOTICE.
Definition warn : nat -> str -> M unit := log WARN.
Definition error : nat -> str -> M unit := log ERR.
Definition crit : nat -> str -> M unit := log CRIT.
Definition alert : nat -> str -> M unit := log ALERT.
Definition emerg : nat -> str -> M unit := log EMERG.
Definition fatal : nat -> str -> M unit := log FATAL.
Definition debug_format : nat -> str -> M unit := log_format DEBUG.
Definition info_format : nat -> str -> M unit := log_format INFO.
Definition notice_format : nat -> str -> M unit := log_format NOTICE.
Definition warn_format : nat -> str -> M unit := log_format WARN.
Definition error_format : nat -> str -> M unit := log_format ERR.
Definition crit_format : nat -> str -> M unit := log_format CRIT.
Definition alert_format : nat -> str -> M unit := log_format ALERT.
Definition emerg_format : nat -> str -> M unit := log_format EMERG.
Definition fatal_format : nat -> str -> M unit := log_format FATAL.
End logging.
Arguments Logging W D : clear implicits.

(** ** The loggers *)

(** The dictionary after loggers of these names were made, from the number [n] on *)
Fixpoint entries (n : nat) (names : list str) : list (str * ref) :=
  match names with [] => [] | x :: names => (x, Some n) :: entries (S n) names end.
(** The number of the logger with the hash of the name *)
Fixpoint position (name : str) (n : nat) (names : list str) : option nat :=
  match names with [] => None | x :: names => if Hash x =? Hash name then Some n else position name (S n) names end.

Lemma entries_app n a b : entries n (a ++ b) = entries n a ++ entries (n + length a) b.
Proof. revert n. induction a as [|x a IH]; intros n; cbn; [by rewrite Nat.add_0_r|]. by rewrite IH, Nat.add_succ_r. Qed.

Lemma lookup_entries name n names : DictSpec.lookup name (entries n names) = Some <$> position name n names.
Proof.
  revert n. induction names as [|x names IH]; intros n; [done|]. cbn. unfold same_hash. cbn.
  destruct (Hash x =? Hash name); [done|]. apply IH.
Qed.

Lemma position_bound name n names i : position name n names = Some i -> (n <= i < n + length names)%nat.
Proof.
  revert n. induction names as [|x names IH]; intros n; [done|]. cbn. destruct (_ =? _); [intros [= <-]; lia|]. intros E%IH. lia.
Qed.

Lemma position_lookup name n names i : position name n names = Some i -> exists x, names !! (i - n)%nat = Some x /\ Hash x = Hash name.
Proof.
  revert n. induction names as [|x names IH]; intros n; [done|]. cbn [position]. destruct (Z.eqb_spec (Hash x) (Hash name)) as [Eh|].
  - intros [= <-]. rewrite Nat.sub_diag. by exists x.
  - intros E. pose proof (position_bound _ _ _ _ E). replace (i - n)%nat with (S (i - S n)) by lia. by apply IH.
Qed.

Lemma position_hash a b n names : Hash a = Hash b -> position a n names = position b n names.
Proof. intros E. revert n. induction names as [|x names IH]; intros n; [done|]. cbn. by rewrite E, IH. Qed.

Lemma position_app name n names more i : position name n names = Some i -> position name n (names ++ more) = Some i.
Proof. revert n. induction names as [|x names IH]; intros n; [done|]. cbn. destruct (_ =? _); [done|]. apply IH. Qed.

Lemma position_snoc name n names : position name n names = None -> position name n (names ++ [name]) = Some (n + length names)%nat.
Proof.
  revert n. induction names as [|x names IH]; intros n; cbn; [by rewrite Z.eqb_refl, Nat.add_0_r|].
  destruct (_ =? _); [done|]. intros E%IH. rewrite E. f_equal. lia.
Qed.

Lemma zlen_none {A} (l : list A) : (zlen l =? 0) = true -> l = [].
Proof. destruct l as [|x l]; [done|]. rewrite zlen_cons. pose proof (zlen_nonneg l). lia. Qed.

Section loggers.
Context {W : Type} `{LogSystem W} {D : Type} `{MapOps D str ref, !Mapping D str ref}.
Implicit Types s : Logging W D.

(** The loggers are those of these names, each found under its own. *)
Definition interned s (names : list str) : Prop :=
  _name <$> made s = names /\ stands_for (__Map s) (entries 0 names).

Lemma start_interned w : interned (Logging_start w) [].
Proof. split; [done|]. apply new_law. Qed.

Lemma with_outputs_interned s names o : interned s names -> interned (with_outputs s o) names.
Proof. done. Qed.

(** The first call for a name makes its logger, with the level INFO; later calls find it. *)
Lemma GetInstance_ok name s names : interned s names -> exists i s',
  GetInstance name s = (Ok i, s') /\ __Outputs s' = (if zlen (__Outputs s) =? 0 then [ConsoleOutput INFO] else __Outputs s) /\
  system s' = system s /\ __GlobalPriorityLevel s' = __GlobalPriorityLevel s /\
  match position name 0 names with
  | Some j => i = j /\ made s' = made s /\ interned s' names
  | None => i = length names /\ made s' = made s ++ [mkLogger name INFO] /\ interned s' (names ++ [name])
  end.
Proof.
  intros [Hm Hd]. assert (length (made s) = length names) as Hlen by (rewrite <- Hm; by rewrite length_fmap).
  unfold GetInstance, sbind, get, lift. rewrite (hasKey_law _ _ _ Hd). unfold mem. rewrite lookup_entries.
  destruct (position name 0 names) as [j|] eqn:Ej; cbn [fmap option_fmap option_map negb].
  - destruct (at_law name _ _ Hd) as (d' & Ed & Hd'). rewrite lookup_entries, Ej in Ed, Hd'. cbn [fmap option_fmap option_map] in Ed, Hd'. rewrite Ed.
    cbn [modify sret]. destruct (zlen (__Outputs s) =? 0) eqn:Eo; unfold with_map; cbn; rewrite Eo; (eexists _, _; split; [done|]); split_and!; try done.
    by rewrite (zlen_none _ Eo).
  - unfold new_logger. cbn [__Map with_made made].
    destruct (put_law name (Some (length (made s)) : ref) _ _ Hd) as (d' & -> & Hd'). rewrite update_none in Hd' by (by rewrite lookup_entries, Ej).
    cbn [modify sret]. unfold with_map. cbn.
    assert (stands_for d' (entries 0 (names ++ [name]))) as Hd2 by (rewrite entries_app; cbn; by rewrite <- Hlen).
    assert (_name <$> (made s ++ [mkLogger name INFO]) = names ++ [name]) as Hm2 by (by rewrite fmap_app, Hm).
    destruct (zlen (__Outputs s) =? 0) eqn:Eo; cbn; rewrite ?Eo; (eexists _, _; split; [done|]); split_and!; try done.
    by rewrite (zlen_none _ Eo).
Qed.

(** The loggers for the names, one after the other *)
Fixpoint get_all (names : list str) : ST (Logging W D) (list nat) :=
  match names with
  | [] => sret []
  | n :: names => let! i := GetInstance n in let! l := get_all names in sret (i :: l)
  end.

Fixpoint intern_all (known names : list str) : list nat * list str :=
  match names with
  | [] => ([], known)
  | n :: names =>
      match position n 0 known with
      | Some j => let '(l, k) := intern_all known names in (j :: l, k)
      | None => let '(l, k) := intern_all (known ++ [n]) names in (length known :: l, k)
      end
  end.

Lemma get_all_ok names : forall s known, interned s known -> exists s',
  get_all names s = (Ok (intern_all known names).1, s') /\ interned s' (intern_all known names).2.
Proof.
  induction names as [|n names IH]; intros s known Hk; cbn [get_all intern_all]; [by exists s|].
  destruct (GetInstance_ok n s known Hk) as (i & s1 & E & _ & _ & _ & Hi). unfold sbind. rewrite E.
  destruct (position n 0 known) as [j|]; destruct Hi as (-> & _ & Hk1); destruct (IH s1 _ Hk1) as (s2 & E2 & Hk2); rewrite E2;
    destruct (intern_all _ names); by exists s2.
Qed.

Lemma intern_all_positions names : forall known,
  let '(l, k) := intern_all known names in
  known `prefix_of` k /\ Forall2 (fun n i => position n 0 k = Some i) names l.
Proof.
  induction names as [|n names IH]; intros known; cbn [intern_all]; [by split; [|constructor]|].
  destruct (position n 0 known) as [j|] eqn:Ej.
  - specialize (IH known). destruct (intern_all known names) as [l k]. destruct IH as [[more ->] Hl].
    split; [by eexists|]. constructor; [by apply position_app|done].
  - specialize (IH (known ++ [n])). destruct (intern_all (known ++ [n]) names) as [l k]. destruct IH as [[more ->] Hl].
    split; [eexists; by rewrite <- app_assoc|]. constructor; [|done]. by apply position_app, (position_snoc n 0 known).
Qed.

(** ** The lines *)

(** What was printed grows by what is written; asking for the time prints nothing. *)
Class LogLaws := {
  printed : W -> str;
  console_law : forall t w, printed (console t w) = printed w ++ t;
  time_law : forall w, printed (time_text w).2 = printed w
}.
Context `{!LogLaws}.

Definition log_line (t : str) (p : Priority) (name message : str) : str :=
  lit "<" ++ t ++ lit ">" ++ lit "[" ++ name ++ lit ":" ++ GetPriorityName p ++ lit "] " ++ cstr message ++ [chr 10].

(** One line for each output, each with its own time *)
Inductive copies (p : Priority) (name message : str) : nat -> str -> Prop :=
  | copies_none : copies p name message 0 []
  | copies_line n t out : copies p name message n out -> copies p name message (S n) (log_line t p name message ++ out).

(** The calls of [log] on loggers with these names and levels, with [n] outputs *)
Inductive written (ls : list Logger) (global : Priority) (n : nat) : list (Priority * nat * str) -> str -> Prop :=
  | written_none : written ls global n [] []
  | written_call p i message l cs out1 out2 : ls !! i = Some l ->
      (if enabled l global p then copies p (_name l) message n out1 else out1 = []) ->
      written ls global n cs out2 -> written ls global n ((p, i, message) :: cs) (out1 ++ out2).

Fixpoint log_all (cs : list (Priority * nat * str)) : ST (Logging W D) unit :=
  match cs with
  | [] => sret tt
  | (p, i, message) :: cs => log p i message ;;! log_all cs
  end.

Definition on_console (o : LoggerOutput) : bool := match o with ConsoleOutput _ => true | SysLog _ _ => false end.

Lemma with_system_same s : with_system s (system s) = s.
Proof. by destruct s. Qed.

Lemma print_then {A} text (m : ST (Logging W D) A) s : (print text ;;! m) s = m (with_system s (console text (system s))).
Proof. done. Qed.

Lemma console_ok l p name message s : exists w t,
  output_log (ConsoleOutput l) p name message s = (Ok tt, with_system s w) /\
  printed w = printed (system s) ++ log_line t p name message.
Proof.
  pose proof (time_law (system s)) as Ht. cbn [output_log]. unfold sbind at 1.
  destruct (time_text (system s)) as [t w0]. cbn [snd] in Ht. rewrite !print_then. unfold writeLine, print, modify.
  eexists _, t. split; [reflexivity|]. cbn [system with_system]. rewrite !console_law, Ht. unfold log_line.
  by repeat rewrite <- app_assoc.
Qed.

Lemma outputs_loop_ok p name message os : forallb on_console os = true -> forall s, exists w out,
  outputs_loop os p name message s = (Ok tt, with_system s w) /\ printed w = printed (system s) ++ out /\
  copies p name message (length os) out.
Proof.
  induction os as [|o os IH]; intros Ho s; cbn [outputs_loop forallb length] in *.
  - exists (system s), []. rewrite with_system_same, app_nil_r. split; [done|]. split; [done|]. constructor.
  - apply andb_true_iff in Ho as [Ho Hos]. destruct o as [l|]; [|done].
    destruct (console_ok l p name message s) as (w0 & t & E & Hw). unfold sbind. rewrite E.
    destruct (IH Hos (with_system s w0)) as (w & out & -> & Hp & Hc).
    exists w, (log_line t p name message ++ out). split; [done|]. split; [|apply copies_line, Hc].
    rewrite Hp. cbn [system with_system]. by rewrite Hw, <- app_assoc.
Qed.

Lemma log_ok p i message l s : made s !! i = Some l -> forallb on_console (__Outputs s) = true -> exists w out,
  log p i message s = (Ok tt, with_system s w) /\ printed w = printed (system s) ++ out /\
  if enabled l (__GlobalPriorityLevel s) p then copies p (_name l) message (length (__Outputs s)) out else out = [].
Proof.
  intros El Ho. unfold log, sbind, this, get. rewrite El. cbn [of_option]. destruct (enabled _ _ _).
  - unfold _log, sbind, get. by apply outputs_loop_ok.
  - exists (system s), []. rewrite with_system_same. by rewrite app_nil_r.
Qed.
End loggers.

(** Whatever the names asked for, each gets a logger of that name, and two get the same logger exactly
    when the hashes of the names are equal. *)
Theorem GetInstance_spec {W : Type} `{LogSystem W} {D : Type} `{MapOps D str ref, !Mapping D str ref} (names : list str) (w : W) :
  exists l s, get_all names (Logging_start w : Logging W D) = (Ok l, s) /\
    Forall2 (fun n i => exists logger, made s !! i = Some logger /\ Hash (_name logger) = Hash n) names l /\
    (forall j k n m a b, names !! j = Some n -> names !! k = Some m -> l !! j = Some a -> l !! k = Some b -> (a = b <-> Hash n = Hash m)).
Proof.
  destruct (get_all_ok names (Logging_start w : Logging W D) [] (start_interned w)) as (s & E & Hm & _).
  pose proof (intern_all_positions names []) as Hp. destruct (intern_all [] names) as [l k]. destruct Hp as [_ Hp]. cbn [fst snd] in *.
  exists l, s. split; [exact E|]. split.
  - eapply Forall2_impl; [exact Hp|]. cbn. intros n i Hi%position_lookup. rewrite Nat.sub_0_r in Hi.
    rewrite <- Hm in Hi. destruct Hi as (x & (logger & -> & Hl)%list_lookup_fmap_Some & Hx). exists logger. split; [done|]. congruence.
  - intros j1 j2 n m a b Hn Hm2 Ha Hb. pose proof (Forall2_lookup_lr _ _ _ _ _ _ Hp Hn Ha) as Hpa.
    pose proof (Forall2_lookup_lr _ _ _ _ _ _ Hp Hm2 Hb) as Hpb. cbn in Hpa, Hpb. split.
    + intros <-. apply position_lookup in Hpa as (x & Ex & Hx), Hpb as (y & Ey & Hy). congruence.
    + intros Eh. rewrite (position_hash n m) in Hpa by done. congruence.
Qed.

(** The calls of [log] write a line on each console for every message whose priority reaches the level of
    its logger or the global one, in order, and nothing else. *)
Theorem log_all_spec {W : Type} `{LogSystem W} {D : Type} `{!LogLaws (W := W)} cs (s : Logging W D) :
  Forall (fun c => is_Some (made s !! c.1.2)) cs -> forallb on_console (__Outputs s) = true ->
  exists w out, log_all cs s = (Ok tt, with_system s w) /\ printed w = printed (system s) ++ out /\
    written (made s) (__GlobalPriorityLevel s) (length (__Outputs s)) cs out.
Proof.
  intros Hcs Ho. revert s Hcs Ho. induction cs as [|[[p i] message] cs IH]; intros s Hcs Ho; cbn [log_all].
  - exists (system s), []. rewrite with_system_same, app_nil_r. split; [done|]. split; [done|]. constructor.
  - apply Forall_cons in Hcs as [[l El] Hcs]. cbn in El.
    destruct (log_ok p i message l s El Ho) as (w1 & o1 & E1 & Hp1 & Hc1). unfold sbind. rewrite E1.
    destruct (IH (with_system s w1) Hcs Ho) as (w2 & o2 & E2 & Hp2 & Hc2). exists w2, (o1 ++ o2). split; [exact E2|].
    split; [rewrite Hp2; cbn; by rewrite Hp1, <- app_assoc|]. by econstructor.
Qed.

(** ** A terminal to evaluate *)

Record terminal := mkTerminal { screen : str; ticks : Z; logged : list (str * Z * str) }.
#[export] Instance terminal_LogSystem : LogSystem terminal := {
  console t w := mkTerminal (screen w ++ t) (ticks w) (logged w);
  time_text w := (replicate (Z.to_nat (ticks w)) "t"%char, mkTerminal (screen w) (ticks w + 1) (logged w));
  syslog name level text w := mkTerminal (screen w) (ticks w) (logged w ++ [(name, level, text)])
}.
#[export] Instance terminal_LogLaws : LogLaws.
Proof. refine {| printed := screen |}; done. Defined.

Abbreviation LOG := (Logging terminal (Dictionary str ref)).
Definition at_start : LOG := Logging_start (mkTerminal [] 0 []).
(** A logger [a], with one console and the system's log as outputs *)
Definition with_syslog : LOG := ((GetInstance (lit "a") ;;! SysLog_Create (lit "srl") INFO) at_start).2.
Definition with_console (level : Priority) : LOG := ((LoggerOutput_Create level ;;! GetInstance (lit "a")) at_start).2.

Example log_1 :
  let '(r, s) := (let! a := GetInstance (lit "a") in let! b := GetInstance (lit "b") in
    setPriorityLevel a ERR ;;! debug b (lit "no") ;;! info b (lit "yes") ;;! info a (lit "no") ;;! fatal_format a (lit "100%")) at_start in
  r = Ok tt /\ screen (system s) = lit "<>[b:info] yes" ++ [chr 10] ++ lit "<t>[a:fatal] 100%" ++ [chr 10] /\
  map _name (made s) = [lit "a"; lit "b"].
Proof. vm_compute. repeat split. Qed.

(** A message of 512 characters with a format overruns the buffer, when its level is written; the
    system's log takes a message for a format, and formats it in a buffer of its own; and the level of
    an output is not looked at. *)
Theorem log_defects :
  (info_format 0 (replicate 511 "x"%char) (with_console INFO)).1 = Ok tt /\
  (info_format 0 (replicate 512 "x"%char) (with_console INFO)).1 = UB /\
  (debug_format 0 (replicate 512 "x"%char) (with_console INFO)).1 = Ok tt /\
  (let '(r, s) := info 0 (lit "done") with_syslog in r = Ok tt /\ logged (system s) = [(lit "a", 6, lit "(info) done")]) /\
  (info 0 (lit "100%") with_syslog).1 = UB /\
  (info 0 (replicate 130 "x"%char) with_syslog).1 = UB /\
  screen (system (info 0 (lit "seen") (with_console FATAL)).2) = lit "<>[a:info] seen" ++ [chr 10].
Proof. vm_compute. split_and!; reflexivity. Qed.

(** ** Witnesses *)

Lemma log_all_spec_witness :
  exists w out, log_all [(INFO, 0%nat, lit "one"); (DEBUG, 0%nat, lit "two")] (with_console INFO) = (Ok tt, with_system (with_console INFO) w) /\
    screen w = out /\
    written [mkLogger (lit "a") INFO] FATAL 1 [(INFO, 0%nat, lit "one"); (DEBUG, 0%nat, lit "two")] out.
Proof.
  destruct (log_all_spec [(INFO, 0%nat, lit "one"); (DEBUG, 0%nat, lit "two")] (with_console INFO)) as (w & out & E & Hp & Hw).
  - vm_compute. repeat constructor; by eexists.
  - reflexivity.
  - exists w, out. split; [exact E|]. split; [exact Hp|exact Hw].
Defined.

Lemma GetInstance_spec_witness :
  exists l s, get_all [lit "a"; lit "b"; lit "a"] at_start = (Ok l, s) /\ length l = 3%nat /\ l !! 0%nat = l !! 2%nat /\ l !! 0%nat <> l !! 1%nat.
Proof.
  destruct (GetInstance_spec (D := Dictionary str ref) [lit "a"; lit "b"; lit "a"] (mkTerminal [] 0 [])) as (l & s & E & Hl & Heq).
  exists l, s. split; [exact E|]. pose proof (Forall2_length _ _ _ Hl) as Hn. split; [by rewrite <- Hn|].
  destruct l as [|a [|b [|c []]]]; try discriminate Hn. cbn. split.
  - f_equal. apply (Heq 0%nat 2%nat (lit "a") (lit "a")); done.
  - intros [= Eab]. apply (Heq 0%nat 1%nat (lit "a") (lit "b")) in Eab; [by vm_compute in Eab|done..].
Defined.
