(* ===== verification/ByteBuffer.v ===== *)
(** * Byte streams: [IO::BinaryWriter], [IO::BinaryReader], [IO::ByteBuffer]
    (src/cpp/src/io/)

    The two abstract classes are the interfaces [BinaryWriter] and [BinaryReader]: a type of streams
    with the virtual methods, over which the overloads of [write] and [read] are defined.
    [ByteBuffer] implements both; [AppendWriter] states what a client such as [Base64::decode] relies
    on when it writes: the bytes are appended to what was written before.

    Bytes are characters; a multi-byte integer is written as it lies in the memory of the (little
    endian) targets of the build.  The memory of a buffer is that of [StrMem]. *)

From S2P Require Import Prelude CString Str StrMem.

(** ** The interfaces *)

Class BinaryWriter (W : Type) := {
  canWrite : W -> bool;
  writeData : W -> str -> res (W * Z)
}.

Class BinaryReader (R : Type) := {
  canRead : R -> bool;
  atEnd : R -> bool;
  read1 : R -> res (char * R);
  readData : R -> Z -> res (str * R * Z)
}.

(** The bytes of an integer of [n] bytes, least significant first, and back. *)
Fixpoint to_bytes (n : nat) (z : Z) : str :=
  match n with
  | O => []
  | S n' => chr z :: to_bytes n' (Z.shiftr z 8)
  end.

Fixpoint of_bytes (s : str) : Z :=
  match s with
  | [] => 0
  | c :: s' => ord c + Z.shiftl (of_bytes s') 8
  end.

Section writer.
Context {W : Type} `{BinaryWriter W}.

(** [write(const uint16* )], [write(const int32* )] and the like, for an array of integers *)
Definition write_ints (w : W) (size : nat) (zs : list Z) : res (W * Z) :=
  writeData w (zs ≫= to_bytes size).
Definition write_byte (w : W) (b : char) : res (W * Z) := writeData w [b].

(** [write(const char* str, bool writeLength)] *)
Definition write_cstr (w : W) (s : str) (writeLength : bool) : res (W * Z) :=
  let size := u32 (strlen s) in
  let? (w, write_count) :=
    if writeLength then writeData w (to_bytes 4 size) else Ok (w, 0) in
  let? (w, n) := writeData w (ztake size s) in
  Ok (w, write_count + n).
Definition write_String (w : W) (s : str) (writeLength : bool) : res (W * Z) :=
  write_cstr w s writeLength.
End writer.

Section reader.
Context {R : Type} `{BinaryReader R}.

(** [read(uint32* )] and the like *)
Definition read_int (r : R) (size : nat) : res (Z * R * Z) :=
  let? (bs, r, n) := readData r (Z.of_nat size) in Ok (of_bytes bs, r, n).

(** [read(char* str, uint32 arrysize)]: a length of 512 or more gives the empty string. *)
Definition read_cstr (r : R) (arrysize : Z) : res (str * R * Z) :=
  let? (strsize, r, read_count) := if arrysize =? 0 then read_int r 4 else Ok (arrysize, r, 0) in
  if (0 <? strsize) && (strsize <? 512) then
    let? (bs, r, n) := readData r strsize in Ok (bs, r, read_count + n)
  else Ok ([], r, read_count).

(** [read(String& str, uint32 arrysize)], the same text in [BinaryReader] and [ByteBuffer] *)
Definition read_String (r : R) (arrysize : Z) : res (str * R * Z) :=
  let? (strsize, r, read_count) := if arrysize =? 0 then read_int r 4 else Ok (arrysize, r, 0) in
  if 0 <? strsize then
    let? (bs, r, n) := readData r strsize in Ok (bs, r, read_count + n)
  else Ok ([], r, read_count).
End reader.

(** ** [ByteBuffer] *)

Record ByteBuffer := mkBB {
  _buffer : option (list cell);  (** [None] is the shared constant [EMPTY] *)
  _size : Z;
  _length : Z;
  _pos : Z
}.

Definition set_buffer (b : ByteBuffer) (m : option (list cell)) : ByteBuffer :=
  mkBB m (_size b) (_length b) (_pos b).
Definition set_size (b : ByteBuffer) (n : Z) : ByteBuffer := mkBB (_buffer b) n (_length b) (_pos b).
Definition setLength (b : ByteBuffer) (n : Z) : ByteBuffer := mkBB (_buffer b) (_size b) n (_pos b).
Definition set_pos (b : ByteBuffer) (p : Z) : ByteBuffer := mkBB (_buffer b) (_size b) (_length b) p.

(** [n] cells from [&_buffer[i]], one byte, and writing cells *)
Definition bread (b : ByteBuffer) (i n : Z) : res (list cell) :=
  if n =? 0 then Ok []
  else match _buffer b with
       | None => if (0 <=? i) && (0 <=? n) && (i + n <=? 4) then Ok (replicate (Z.to_nat n) (Some NUL)) else UB
       | Some m => if (0 <=? i) && (0 <=? n) && (i + n <=? zlen m) then Ok (zsub i n m) else UB
       end.

Definition bload (b : ByteBuffer) (i : Z) : res char :=
  let? cs := bread b i 1 in
  match cs with [Some c] => Ok c | _ => UB end.

(** The bytes of cells, when all are initialised. *)
Definition bytes_of (cs : list cell) : res str := of_option (mapM id cs).

Definition bwrite (b : ByteBuffer) (i : Z) (cs : list cell) : res ByteBuffer :=
  match cs with
  | [] => Ok b
  | _ =>
      match _buffer b with
      | None => UB
      | Some m =>
          if (0 <=? i) && (i + zlen cs <=? zlen m) then Ok (set_buffer b (Some (splice m i cs))) else UB
      end
  end.

Definition resize (b : ByteBuffer) (new_size : Z) : res ByteBuffer :=
  if 0 <? new_size then
    let new_size := ROUNDUP (u32 (new_size + 1)) ROUNDVAL in
    if new_size =? _size b then
      if 0 <? new_size then bwrite b (new_size - 1) [Some NUL] else Ok b
    else
      let b := set_buffer b (Some (alloc new_size (_buffer b))) in
      let? b := bwrite b (new_size - 1) [Some NUL] in
      Ok (set_size b new_size)
  else
    match _buffer b with
    | Some _ => Ok (set_size (set_buffer b None) 0)
    | None => Ok (set_size b new_size)
    end.

Definition BB_new (new_size : Z) : res ByteBuffer := resize (mkBB None 0 0 0) new_size.

(** The copy constructor copies the allocated bytes, and neither the length nor, being left
    uninitialised, the position; [pos] is whatever [_pos] holds. *)
Definition BB_copy (other : ByteBuffer) (pos : Z) : res ByteBuffer :=
  let n := _size other in
  let? b := resize (mkBB None 0 0 pos) n in
  if 0 <? n then let? cs := bread other 0 n in bwrite b 0 cs else Ok b.

Definition BB_delete (b : ByteBuffer) : res ByteBuffer := resize b 0.
Definition close (b : ByteBuffer) : res ByteBuffer := resize b 0.

Definition remaining (b : ByteBuffer) : Z := u32 (_length b - _pos b).

Definition setPosition (b : ByteBuffer) (pos : Z) : res ByteBuffer :=
  if _size b <? pos then Throw IndexOutOfBoundsException else Ok (set_pos b pos).

Definition flip (b : ByteBuffer) : res ByteBuffer := setPosition b 0.

Definition moveStart (b : ByteBuffer) : res ByteBuffer :=
  if (_pos b <? _length b) && (0 <? _length b) && (0 <=? _pos b) then
    let n := u32 (_length b - _pos b) in
    let? cs := bread b (_pos b) n in
    let? b := bwrite (setLength b n) 0 cs in
    bwrite (set_pos b n) n [Some NUL]
  else Ok b.

Definition toggle (b : ByteBuffer) (write_mode : bool) : res ByteBuffer :=
  if write_mode then
    if _pos b =? _length b then Ok (setLength (set_pos b 0) 0) else moveStart b
  else Ok (set_pos b 0).

(** for (uint32 i=_pos; i < _length; ++i), by the number of indices left *)
Fixpoint find_loop (b : ByteBuffer) (value : char) (i : Z) (n : nat) : res Z :=
  match n with
  | O => Ok (-1)
  | S n' =>
      let? c := bload b i in
      if decide (c = value) then Ok (s32 i) else find_loop b value (i + 1) n'
  end.
Definition find (b : ByteBuffer) (value : char) : res Z :=
  find_loop b value (_pos b) (Z.to_nat (_length b - _pos b)).

(** while (_buffer[i+p] == value[p]) { ++p; if (p == value.length()) return i; } *)
Fixpoint match_loop (b : ByteBuffer) (value : str) (i p : Z) (fuel : nat) : res bool :=
  match fuel with
  | O => NoFuel
  | S fuel' =>
      let? c := bload b (i + p) in
      let? v := of_option (zget (value ++ [NUL]) p) in
      if decide (c = v) then
        if p + 1 =? zlen value then Ok true else match_loop b value i (p + 1) fuel'
      else Ok false
  end.
Fixpoint find_String_loop (b : ByteBuffer) (value : str) (i : Z) (n : nat) : res Z :=
  match n with
  | O => Ok (-1)
  | S n' =>
      let? found := match_loop b value i 0 (S (S (length value))) in
      if found : bool then Ok (s32 i) else find_String_loop b value (i + 1) n'
  end.
Definition find_String (b : ByteBuffer) (value : str) : res Z :=
  find_String_loop b value (_pos b) (Z.to_nat (_length b - _pos b)).

(** The two [readUntil] methods, from the result of [find] and the length of what was looked for;
    they give the new content of [buf], the buffer and the count. *)
Definition readUntil_at (b : ByteBuffer) (pos n : Z) : res (str * ByteBuffer * Z) :=
  let start_pos := _pos b in
  if 0 <=? pos then
    let end_pos := u32 (pos + n) in
    let len := u32 (end_pos - start_pos) in
    let? cs := bread b start_pos len in
    let? buf := bytes_of cs in
    Ok (buf, set_pos b end_pos, len)
  else Ok ([], b, 0).
Definition readUntil_char (b : ByteBuffer) (c : char) : res (str * ByteBuffer * Z) :=
  let? pos := find b c in readUntil_at b pos 1.
Definition readUntil_String (b : ByteBuffer) (s : str) : res (str * ByteBuffer * Z) :=
  let? pos := find_String b s in readUntil_at b pos (zlen s).

(** operator==, with [memcmp] *)
Definition bb_eq (b other : ByteBuffer) : res bool :=
  if negb (_length b =? _length other) then Ok false
  else
    let? c1 := bread b 0 (_length b) in
    let? c2 := bread other 0 (_length b) in
    let? s1 := bytes_of c1 in
    let? s2 := bytes_of c2 in
    Ok (bool_decide (s1 = s2)).

Definition bb_atEnd (b : ByteBuffer) : bool := _length b <=? _pos b.
Definition bb_canRead (b : ByteBuffer) : bool := bb_atEnd b.
Definition bb_canWrite (b : ByteBuffer) : bool := _pos b <? _size b.

(** [read()]: no check *)
Definition bb_read1 (b : ByteBuffer) : res (char * ByteBuffer) :=
  let? c := bload b (_pos b) in Ok (c, set_pos b (u32 (_pos b + 1))).

(** [read(void* obj, objsize, arrysize)], with the product of the sizes *)
Definition bb_read (b : ByteBuffer) (read_size : Z) : res (str * ByteBuffer * Z) :=
  if _length b <=? u32 (read_size + _pos b) then Throw IndexOutOfBoundsException
  else
    let? cs := bread b (_pos b) read_size in
    let? bs := bytes_of cs in
    Ok (bs, set_pos b (u32 (_pos b + read_size)), read_size).

Definition bb_writeData (b : ByteBuffer) (obj : str) : res (ByteBuffer * Z) :=
  let write_size := u32 (zlen obj) in
  let? b :=
    if _size b <=? u32 (write_size + _pos b) then resize b (u32 (write_size + _pos b)) else Ok b in
  let? b := bwrite b (_pos b) (Some <$> obj) in
  let b := set_pos b (u32 (_pos b + write_size)) in
  let b := setLength b (_pos b) in
  let? b := bwrite b (_pos b) [Some NUL] in
  Ok (b, write_size).

#[export] Instance ByteBuffer_writer : BinaryWriter ByteBuffer :=
  {| canWrite := bb_canWrite; writeData := bb_writeData |}.
#[export] Instance ByteBuffer_reader : BinaryReader ByteBuffer :=
  {| canRead := bb_canRead; atEnd := bb_atEnd; read1 := bb_read1; readData := bb_read |}.

(** [ByteBuffer::read(String& str, uint32 arrysize)] hides the method of the base class and has the
    same text. *)
Definition bb_read_String (b : ByteBuffer) (arrysize : Z) : res (str * ByteBuffer * Z) :=
  read_String b arrysize.

(** [serialize(writer)] and [deserialize(reader)] *)
Definition serialize {W} `{BinaryWriter W} (b : ByteBuffer) (w : W) : res (W * Z) :=
  let? (w, counter) := writeData w (to_bytes 4 (_length b)) in
  let? cs := bread b 0 (_length b) in
  let? bs := bytes_of cs in
  let? (w, n) := writeData w bs in
  Ok (w, counter + n).

Definition deserialize {R} `{BinaryReader R} (b : ByteBuffer) (r : R) : res (ByteBuffer * R * Z) :=
  let? (n, r, counter) := read_int r 4 in
  let? b := resize (setLength b n) n in
  let? (bs, r, k) := readData r n in
  let? b := bwrite b 0 (Some <$> bs) in
  Ok (b, r, counter + k).

(** ** What a buffer holds *)

(** [b] holds the bytes [l], of which the first [p] are behind its position. *)
Definition brepr (b : ByteBuffer) (l : str) (p : Z) : Prop :=
  _length b = zlen l /\ _pos b = p /\ 0 <= p <= zlen l /\ zlen l < _size b < 2 ^ 31 + 32 /\
  (16 | _size b) /\
  exists junk, _buffer b = Some ((Some <$> l) ++ junk) /\ zlen ((Some <$> l) ++ junk) = _size b.

Lemma bwrite_app b p old q i cs :
  _buffer b = Some (p ++ old ++ q) -> i = zlen p -> zlen old = zlen cs ->
  bwrite b i cs = Ok (set_buffer b (Some (p ++ cs ++ q))).
Proof.
  intros Hb -> Hl. unfold bwrite. destruct cs as [|c cs].
  - destruct old; [|exfalso; revert Hl; zlen_lia]. destruct b; simpl in *. by subst.
  - rewrite Hb. rewrite !zlen_app, Hl. pose proof (zlen_nonneg p). pose proof (zlen_nonneg q).
    replace (_ && _) with true by lia. by rewrite splice_app.
Qed.

Lemma bread_app b p m q i n :
  _buffer b = Some (p ++ m ++ q) -> i = zlen p -> n = zlen m -> bread b i n = Ok m.
Proof.
  intros Hb -> ->. unfold bread. pose proof (zlen_nonneg p). pose proof (zlen_nonneg q).
  pose proof (zlen_nonneg m).
  destruct (Z.eqb_spec (zlen m) 0) as [E|_].
  - destruct m; [done|]. exfalso. revert E. zlen_lia.
  - rewrite Hb, !zlen_app. replace (_ && _) with true by lia. unfold zsub.
    rewrite Str.zdrop_app_zlen. unfold ztake, zlen. by rewrite Nat2Z.id, take_app_length.
Qed.

Lemma bytes_of_Some (l : str) : bytes_of (Some <$> l) = Ok l.
Proof. unfold bytes_of. by rewrite mapM_id_Some. Qed.

Lemma bresize_spec b q rest n :
  default [] (_buffer b) = q ++ rest -> zlen (q ++ rest) = _size b -> zlen q <= n -> 0 < n < 2 ^ 31 ->
  exists rest' cap, resize b n = Ok (mkBB (Some (q ++ rest')) cap (_length b) (_pos b)) /\
    zlen (q ++ rest') = cap /\ n < cap < n + 17 /\ (16 | cap).
Proof.
  intros Hb Hz Hq Hn. pose proof (ROUNDUP_bounds (n + 1) 4) as HR. change (2 ^ 4) with ROUNDVAL in HR.
  destruct HR as [HR HD]; [lia|lia|unfold ROUNDVAL; lia|].
  unfold resize. replace (0 <? n) with true by lia. rewrite wrapU_small by lia.
  set (cap := ROUNDUP (n + 1) ROUNDVAL) in *. unfold ROUNDVAL in HR. pose proof (zlen_nonneg q).
  assert (forall m, zlen m = cap -> (exists k, m = q ++ k) -> exists rest', zlen (q ++ rest') = cap /\
    forall b', _buffer b' = Some m -> bwrite b' (cap - 1) [Some NUL] = Ok (set_buffer b' (Some (q ++ rest')))) as Hlast.
  { intros m Hm [k ->]. rewrite zlen_app in Hm. pose proof (zlen_nonneg q).
    destruct k as [|x k _] using rev_ind; [exfalso; revert Hm; zlen_lia|].
    exists (k ++ [Some NUL]). split; [revert Hm; zlen_lia|]. intros b' Hb'.
    rewrite (bwrite_app b' (q ++ k) [x] []); [by rewrite <- app_assoc|by rewrite <- app_assoc| |done].
    revert Hm. zlen_lia. }
  destruct (Z.eqb_spec cap (_size b)) as [E|E].
  - replace (0 <? cap) with true by lia.
    destruct (_buffer b) as [m|] eqn:Hm; simpl in Hb;
      [|rewrite <- Hb in Hz; change (zlen []) with 0 in Hz; lia].
    destruct (Hlast m) as (rest' & Hl & Hw); [by rewrite Hb, Hz|by exists rest|].
    exists rest', cap. rewrite (Hw b Hm). split; [|split; [done|split; [lia|done]]].
    unfold set_buffer. by rewrite <- E.
  - destruct (alloc_app cap (_buffer b) q rest Hb) as (k & Ek & Hk); [lia|].
    destruct (Hlast _ Hk) as (rest' & Hl & Hw); [by exists k|].
    exists rest', cap. rewrite Hw by done. split; [done|]. split; [done|]. split; [lia|done].
Qed.

Lemma brepr_new n : 0 < n < 2 ^ 31 -> exists b, BB_new n = Ok b /\ brepr b [] 0.
Proof.
  intros Hn. destruct (bresize_spec (mkBB None 0 0 0) [] [] n) as (rest & cap & E & Hz & Hc & Hd);
    [done|done|zlen_lia|done|].
  eexists. split; [exact E|]. unfold brepr. simpl in *. change (zlen []) with 0.
  do 2 (split; [done|]). split; [lia|]. split; [lia|]. split; [done|]. by exists rest.
Qed.

(** [writeData] puts the bytes at the position and ends the content there, growing the buffer
    when they do not fit. *)
Lemma writeData_repr b l p t :
  brepr b l p -> p + zlen t < 2 ^ 31 ->
  exists b', writeData b t = Ok (b', zlen t) /\ brepr b' (ztake p l ++ t) (p + zlen t).
Proof.
  intros (Hlen & Hpos & Hp & Hsz & Hd & junk & Hb & Hz) Ht. pose proof (zlen_nonneg t).
  cbn [writeData ByteBuffer_writer]. unfold bb_writeData. rewrite (wrapU_small 32 (zlen t)) by lia.
  rewrite Hpos, !(wrapU_small 32 (zlen t + p)) by lia.
  set (q := ztake p l). assert (zlen q = p) as Hq by (subst q; rewrite zlen_take; lia).
  assert (exists rest, (Some <$> l) ++ junk = (Some <$> q) ++ rest) as [rest Er].
  { exists ((Some <$> zdrop p l) ++ junk). subst q. by rewrite app_assoc, <- fmap_app, ztake_zdrop. }
  assert (exists rest' cap, (if _size b <=? zlen t + p then resize b (zlen t + p) else Ok b) =
      Ok (mkBB (Some ((Some <$> q) ++ rest')) cap (zlen l) p) /\
      zlen ((Some <$> q) ++ rest') = cap /\ p + zlen t < cap < 2 ^ 31 + 32 /\ (16 | cap))
    as (rest' & cap & -> & Hz' & Hc & Hd').
  { destruct (Z.leb_spec (_size b) (zlen t + p)) as [Hle|Hgt].
    - destruct (bresize_spec b (Some <$> q) rest (zlen t + p)) as (rest' & cap & E & Hz' & Hc & Hd');
        [by rewrite Hb|by rewrite <- Er|rewrite zlen_fmap; lia|lia|].
      exists rest', cap. rewrite E, Hlen, Hpos. split; [done|]. split; [done|]. split; [lia|done].
    - exists rest, (_size b). rewrite <- Er. split; [|split; [done|split; [lia|done]]].
      rewrite <- Hb, <- Hlen. rewrite <- Hpos at 1. by destruct b. }
  rewrite zlen_app, zlen_fmap in Hz'. cbn [bind].
  destruct (split_len rest' (zlen t)) as (old & r & -> & Hold); [lia|]. rewrite zlen_app in Hz'.
  destruct r as [|x r]; [exfalso; change (zlen []) with 0 in Hz'; lia|]. rewrite zlen_cons in Hz'.
  rewrite (bwrite_app _ (Some <$> q) old (x :: r)); [|done|by rewrite zlen_fmap|by rewrite zlen_fmap].
  cbn [bind set_buffer set_pos setLength _pos]. rewrite wrapU_small by lia.
  rewrite (bwrite_app _ (Some <$> (q ++ t)) [x] r);
    [|simpl; by rewrite fmap_app, <- app_assoc|rewrite zlen_fmap, zlen_app; lia|done].
  cbn [bind]. eexists. split; [done|]. unfold brepr. cbn [set_pos setLength _length _pos _size _buffer set_buffer].
  rewrite zlen_app. split; [lia|]. split; [done|]. split; [lia|]. split; [lia|]. split; [done|].
  eexists. split; [done|]. rewrite !zlen_app, zlen_fmap, zlen_app. change (zlen [Some NUL]) with 1. lia.
Qed.

(** [read] gives the next bytes and moves past them, but only when at least one more byte
    follows them: the content cannot be read to its end. *)
Lemma readData_repr b l p n :
  brepr b l p -> 0 <= n < 2 ^ 30 ->
  readData b n =
    if p + n <? zlen l then Ok (zsub p n l, set_pos b (p + n), n) else Throw IndexOutOfBoundsException.
Proof.
  intros (Hlen & Hpos & Hp & Hsz & Hd & junk & Hb & Hz) Hn.
  cbn [readData ByteBuffer_reader]. unfold bb_read. rewrite Hlen, Hpos, !wrapU_small by lia.
  destruct (Z.ltb_spec (p + n) (zlen l)) as [Hlt|Hge].
  - replace (zlen l <=? n + p) with false by lia.
    destruct (split3 l p n) as (m & El & Hm & Hl1); [lia..|].
    rewrite (bread_app b (Some <$> ztake p l) (Some <$> m) ((Some <$> zdrop (p + n) l) ++ junk));
      [|rewrite Hb; rewrite El at 1; by rewrite !fmap_app, <- !app_assoc|by rewrite zlen_fmap|by rewrite zlen_fmap].
    cbn [bind]. rewrite bytes_of_Some. cbn [bind]. do 3 f_equal. clear - El Hm Hl1.
    set (a := ztake p l) in *. set (d := zdrop (p + n) l) in *. clearbody a d. subst l p n.
    by rewrite Str.zsub_app.
  - by replace (zlen l <=? n + p) with true by lia.
Qed.

(** [toggle] to writing gives up what was read and keeps the rest, with the position behind it;
    [toggle] to reading starts over. *)
Lemma toggle_repr b l p :
  brepr b l p ->
  (exists b', toggle b true = Ok b' /\ brepr b' (zdrop p l) (zlen l - p)) /\
  (exists b', toggle b false = Ok b' /\ brepr b' l 0).
Proof.
  intros Hr. pose proof Hr as (Hlen & Hpos & Hp & Hsz & Hd & junk & Hb & Hz). split.
  2:{ exists (set_pos b 0). split; [done|]. unfold brepr. cbn [set_pos _length _pos _size _buffer].
      do 2 (split; [done|]). split; [zlen_lia|]. split; [done|]. split; [done|]. by exists junk. }
  assert (zlen (zdrop p l) = zlen l - p) as Hdl by (rewrite zlen_drop; lia).
  unfold toggle. rewrite Hlen, Hpos. destruct (Z.eqb_spec p (zlen l)) as [->|Hne].
  - eexists. split; [done|]. rewrite zdrop_ge, Z.sub_diag by lia. unfold brepr.
    cbn [set_pos setLength _length _pos _size _buffer]. change (zlen []) with 0.
    do 2 (split; [done|]). split; [lia|]. split; [lia|]. split; [done|]. simpl. eauto.
  - unfold moveStart. rewrite Hlen, Hpos. replace (_ && _) with true by lia. rewrite wrapU_small by lia.
    set (u := zdrop p l) in *.
    assert ((Some <$> l) ++ junk = (Some <$> ztake p l) ++ (Some <$> u) ++ junk) as Esplit.
    { subst u. by rewrite app_assoc, <- fmap_app, ztake_zdrop. }
    rewrite (bread_app b (Some <$> ztake p l) (Some <$> u) junk);
      [|by rewrite Hb, Esplit|rewrite zlen_fmap, zlen_take; lia|rewrite zlen_fmap; lia].
    cbn [bind].
    destruct (split_len ((Some <$> l) ++ junk) (zlen l - p)) as (old & r & Eor & Hold); [lia|].
    assert (zlen old + zlen r = _size b) as Ez by (rewrite <- Hz, Eor; by rewrite zlen_app).
    destruct r as [|x r]; [exfalso; rewrite zlen_nil in Ez; lia|]. rewrite zlen_cons in Ez.
    rewrite (bwrite_app _ [] old (x :: r)); [|simpl; by rewrite Hb, Eor|done|rewrite zlen_fmap; lia].
    cbn [bind app]. rewrite (bwrite_app _ (Some <$> u) [x] r); [|done|rewrite zlen_fmap; lia|done].
    eexists. split; [done|]. unfold brepr. cbn [set_pos setLength set_buffer _length _pos _size _buffer].
    split; [lia|]. split; [done|]. split; [lia|]. split; [lia|]. split; [done|].
    eexists. split; [done|]. rewrite !zlen_app, zlen_fmap. change (zlen [Some NUL]) with 1. lia.
Qed.


(** [readUntil] takes everything up to and including the first occurrence of the character,
    and moves behind it. *)
Theorem readUntil_spec b pre l1 c l2 :
  brepr b (pre ++ l1 ++ c :: l2) (zlen pre) -> zlen (pre ++ l1 ++ c :: l2) < 2 ^ 31 - 1 -> c ∉ l1 ->
  readUntil_char b c = Ok (l1 ++ [c], set_pos b (zlen pre + zlen l1 + 1), zlen l1 + 1).
Proof.
  intros (Hlen & Hpos & Hp & Hsz & Hd & junk & Hb & Hz) Hl Hc.
  pose proof (zlen_nonneg pre). pose proof (zlen_nonneg l1). pose proof (zlen_nonneg l2).
  assert (zlen (pre ++ l1 ++ c :: l2) = zlen pre + zlen l1 + 1 + zlen l2) as El by zlen_lia.
  assert (forall p q n, p ++ q = l1 -> (length q < n)%nat ->
    find_loop b c (zlen pre + zlen p) n = Ok (zlen pre + zlen l1)) as Hfind.
  { intros p q. revert p. induction q as [|d q IH]; intros p n Epq Hn; destruct n as [|n]; simpl in Hn; try lia.
    - rewrite app_nil_r in Epq. subst p. cbn [find_loop]. unfold bload.
      rewrite (bread_app b (Some <$> (pre ++ l1)) [Some c] ((Some <$> l2) ++ junk));
        [|rewrite Hb, !fmap_app, <- !app_assoc; done|by rewrite zlen_fmap, zlen_app|done].
      cbn [bind]. rewrite decide_True by done. rewrite wrapS_small; [done|lia|lia].
    - cbn [find_loop]. unfold bload.
      rewrite (bread_app b (Some <$> (pre ++ p)) [Some d] ((Some <$> (q ++ c :: l2)) ++ junk)).
      2:{ rewrite Hb, <- Epq, !fmap_app, <- !app_assoc. reflexivity. }
      2:{ by rewrite zlen_fmap, zlen_app. } 2:{ done. }
      cbn [bind]. rewrite decide_False by (intros ->; apply Hc; rewrite <- Epq; set_solver).
      replace (zlen pre + zlen p + 1) with (zlen pre + zlen (p ++ [d])) by zlen_lia.
      apply IH; [by rewrite <- app_assoc|lia]. }
  unfold readUntil_char, find. rewrite Hpos, Hlen, El.
  replace (zlen pre + zlen l1 + 1 + zlen l2 - zlen pre) with (zlen l1 + 1 + zlen l2) by lia.
  pose proof (Hfind [] l1 (Z.to_nat (zlen l1 + 1 + zlen l2)) eq_refl) as E.
  change (zlen []) with 0 in E. rewrite Z.add_0_r in E. rewrite E by (unfold zlen in *; lia).
  cbn [bind]. unfold readUntil_at. rewrite Hpos. replace (0 <=? _) with true by lia.
  rewrite (wrapU_small 32 (zlen pre + zlen l1 + 1)), wrapU_small by lia.
  rewrite (bread_app b (Some <$> pre) (Some <$> (l1 ++ [c])) ((Some <$> l2) ++ junk)).
  2:{ rewrite Hb, !fmap_app, <- !app_assoc. done. }
  2:{ by rewrite zlen_fmap. } 2:{ rewrite zlen_fmap, zlen_app. change (zlen [c]) with 1. lia. }
  cbn [bind]. rewrite bytes_of_Some. cbn [bind]. do 3 f_equal. lia.
Qed.

Lemma bytes_roundtrip n z : 0 <= z < 2 ^ (8 * Z.of_nat n) -> of_bytes (to_bytes n z) = z.
Proof.
  revert z. induction n as [|n IH]; intros z Hz; simpl; [change (2 ^ (8 * Z.of_nat 0)) with 1 in Hz; lia|].
  replace (8 * Z.of_nat (S n)) with (8 + 8 * Z.of_nat n) in Hz by lia.
  rewrite Z.pow_add_r in Hz by lia. change (2 ^ 8) with 256 in Hz.
  rewrite Z.shiftr_div_pow2 by lia. change (2 ^ 8) with 256. rewrite IH.
  - rewrite ord_chr, Z.shiftl_mul_pow2 by lia. unfold wrapU. change (2 ^ 8) with 256.
    pose proof (Z.div_mod z 256). lia.
  - split; [apply Z.div_pos; lia|apply Z.div_lt_upper_bound; lia].
Qed.

(** ** Writing as appending *)

(** What a client of [BinaryWriter] relies on: [written w l] says that [l] was written so far; while
    there is room for more, writing appends. *)
Class AppendWriter (W : Type) `{BinaryWriter W} := {
  written : W -> str -> Prop;
  capacity_left : W -> Z;
  writeData_appends : forall w l t, written w l -> zlen t <= capacity_left w ->
    exists w', writeData w t = Ok (w', zlen t) /\ written w' (l ++ t) /\
      capacity_left w' = capacity_left w - zlen t
}.

(** [ByteBuffer] is such a writer while its position is at the end of its content. *)
#[export] Program Instance ByteBuffer_append : AppendWriter ByteBuffer := {|
  written b l := brepr b l (zlen l);
  capacity_left b := 2 ^ 31 - 1 - _pos b
|}.
Next Obligation.
  intros b l t Hr Ht. cbv beta in *. assert (_pos b = zlen l) as Hp by apply Hr. rewrite Hp in Ht.
  destruct (writeData_repr b l (zlen l) t Hr) as (b' & E & Hr'); [lia|].
  rewrite ztake_ge in Hr' by lia. exists b'. split; [exact E|]. rewrite zlen_app. split; [done|].
  destruct Hr' as (_ & -> & _). lia.
Qed.

(** A string written with its length and followed by at least one more byte is read back; the
    last thing written cannot be. *)
Theorem String_framing b s t :
  brepr b [] 0 -> nul_free s -> s <> [] -> zlen s < 2 ^ 28 -> zlen t < 2 ^ 28 ->
  exists b1 b2 b3,
    write_String b s true = Ok (b1, 4 + zlen s) /\ writeData b1 t = Ok (b2, zlen t) /\
    toggle b2 false = Ok b3 /\
    bb_read_String b3 0 =
      if decide (t = []) then Throw IndexOutOfBoundsException
      else Ok (s, set_pos b3 (4 + zlen s), 4 + zlen s).
Proof.
  intros Hr Hf Hne Hs Ht. pose proof (zlen_nonneg t).
  assert (0 < zlen s) by (destruct s; [done|zlen_lia]).
  unfold write_String, write_cstr. rewrite strlen_id, (wrapU_small 32 (zlen s)) by (done || lia).
  destruct (writeData_repr b [] 0 (to_bytes 4 (zlen s)) Hr) as (b0 & E0 & Hr0); [done|].
  change (zlen (to_bytes 4 (zlen s))) with 4 in *. rewrite E0. cbn [bind].
  rewrite (ztake_le 0), app_nil_l in Hr0 by lia. rewrite (ztake_ge (zlen s) s) by lia.
  destruct (writeData_repr b0 _ _ s Hr0) as (b1 & E1 & Hr1); [lia|]. rewrite E1. cbn [bind].
  rewrite (ztake_ge _ (to_bytes 4 _)) in Hr1 by (by change (zlen (to_bytes 4 (zlen s))) with 4).
  destruct (writeData_repr b1 _ _ t Hr1) as (b2 & E2 & Hr2); [lia|].
  rewrite ztake_ge in Hr2 by (rewrite zlen_app; change (zlen (to_bytes 4 (zlen s))) with 4; lia).
  destruct (toggle_repr b2 _ _ Hr2) as [_ (b3 & E3 & Hr3)].
  exists b1, b2, b3. split; [done|]. split; [done|]. split; [done|].
  set (all := (to_bytes 4 (zlen s) ++ s) ++ t) in *.
  assert (zlen all = 4 + zlen s + zlen t) as Hall
    by (subst all; rewrite !zlen_app; change (zlen (to_bytes 4 (zlen s))) with 4; done).
  unfold bb_read_String, read_String, read_int. change (0 =? 0) with true. cbv iota. change (Z.of_nat 4) with 4.
  rewrite (readData_repr b3 all 0 4) by (done || lia). rewrite Hall. replace (0 + 4 <? _) with true by lia.
  cbn [bind].
  assert (zsub 0 4 all = to_bytes 4 (zlen s)) as -> by (subst all; reflexivity).
  assert (of_bytes (to_bytes 4 (zlen s)) = zlen s) as -> by (apply bytes_roundtrip; lia).
  replace (0 <? zlen s) with true by lia.
  assert (brepr (set_pos b3 (0 + 4)) all 4) as Hr4.
  { destruct Hr3 as (H1 & H2 & H3 & H4). split; [done|]. split; [done|]. split; [lia|done]. }
  rewrite (readData_repr _ all 4 (zlen s)) by (done || lia). rewrite Hall. cbn [bind].
  destruct (decide (t = [])) as [->|Htne].
  - change (zlen []) with 0. by replace (_ <? _) with false by lia.
  - assert (0 < zlen t) by (destruct t; [done|zlen_lia]). replace (_ <? _) with true by lia. cbn [bind].
    assert (zsub 4 (zlen s) all = s) as ->
      by (subst all; rewrite <- app_assoc; apply (Str.zsub_app (to_bytes 4 (zlen s)) s t)).
    done.
Qed.

(** [writeData] puts the bytes at the position and ends the content there, growing the buffer
    when they do not fit. *)
Theorem writeData_spec b l p t :
  brepr b l p -> p + zlen t < 2 ^ 31 ->
  exists b', bb_writeData b t = Ok (b', zlen t) /\ brepr b' (ztake p l ++ t) (p + zlen t).
Proof. apply writeData_repr. Qed.

(** [read] gives the next bytes and moves past them, but only when at least one more byte
    follows them: the content cannot be read to its end. *)
Theorem read_spec b l p n :
  brepr b l p -> 0 <= n < 2 ^ 30 ->
  bb_read b n =
    if p + n <? zlen l then Ok (zsub p n l, set_pos b (p + n), n) else Throw IndexOutOfBoundsException.
Proof. apply readData_repr. Qed.

(** ** Witnesses *)

(** A buffer that holds [l], read up to [p]. *)
Definition buffer (l : str) (junk : nat) (p : Z) : ByteBuffer :=
  mkBB (Some ((Some <$> l) ++ replicate junk None)) (zlen l + Z.of_nat junk) (zlen l) p.

Lemma brepr_buffer l junk p :
  0 <= p <= zlen l -> 0 < Z.of_nat junk -> zlen l + Z.of_nat junk < 2 ^ 31 ->
  (16 | zlen l + Z.of_nat junk) -> brepr (buffer l junk p) l p.
Proof.
  intros Hp Hj Hs Hd. unfold brepr, buffer. cbn [_length _pos _size _buffer].
  split_and!; try done; try lia. eexists. split; [done|]. by rewrite zlen_app, zlen_fmap, zlen_replicate.
Qed.

Ltac holds_bytes := apply brepr_buffer; first [reflexivity | vm_compute; done | vm_compute; by eexists].

Lemma String_framing_witness :
  exists b1 b2 b3,
    write_String (buffer [] 16 0) (lit "hi") true = Ok (b1, 6) /\ writeData b1 (lit "!") = Ok (b2, 1) /\
    toggle b2 false = Ok b3 /\ bb_read_String b3 0 = Ok (lit "hi", set_pos b3 6, 6).
Proof.
  apply (String_framing (buffer [] 16 0) (lit "hi") (lit "!"));
    [holds_bytes|by repeat constructor|done|reflexivity|reflexivity].
Defined.

Lemma writeData_spec_witness :
  exists b', bb_writeData (buffer (lit "abcd") 12 2) (lit "xyz") = Ok (b', 3) /\ brepr b' (lit "abxyz") 5.
Proof. apply (writeData_spec (buffer (lit "abcd") 12 2) (lit "abcd") 2 (lit "xyz")); [holds_bytes|done]. Defined.

Lemma read_spec_witness :
  bb_read (buffer (lit "abcd") 12 1) 2 = Ok (lit "bc", set_pos (buffer (lit "abcd") 12 1) 3, 2) /\
  bb_read (buffer (lit "abcd") 12 1) 3 = Throw IndexOutOfBoundsException.
Proof.
  split; [apply (read_spec (buffer (lit "abcd") 12 1) (lit "abcd") 1 2)|
          apply (read_spec (buffer (lit "abcd") 12 1) (lit "abcd") 1 3)]; first [holds_bytes|done].
Defined.

Lemma readUntil_spec_witness :
  readUntil_char (buffer (lit "a,bc,d") 10 2) "," =
    Ok (lit "bc,", set_pos (buffer (lit "a,bc,d") 10 2) 5, 3).
Proof.
  apply (readUntil_spec (buffer (lit "a,bc,d") 10 2) (lit "a,") (lit "bc") "," (lit "d"));
    [holds_bytes|done|compute_done].
Defined.
