(* ===== verification/Base64.v ===== *)
(** * Base64 (src/cpp/src/util/Base64.cpp)

    [encode] turns three bytes into four characters; [decode] writes to any [BinaryWriter], and the
    theorems about it use only the [AppendWriter] interface.  The byte computations are done in
    [int] and truncated to [unsigned char], as in the code. *)

From S2P Require Import Prelude CString Str StrConv StrMem ByteBuffer.

(** ** One character *)

Definition encode_char (u : Z) : char :=
  if u <? 26 then chr (ord "A" + u)
  else if u <? 52 then chr (ord "a" + (u - 26))
  else if u <? 62 then chr (ord "0" + (u - 52))
  else if u =? 62 then "+"%char
  else "/"%char.

Definition decode_char (c : char) : Z :=
  if (sord "A" <=? sord c) && (sord c <=? sord "Z") then sord c - sord "A"
  else if (sord "a" <=? sord c) && (sord c <=? sord "z") then sord c - sord "a" + 26
  else if (sord "0" <=? sord c) && (sord c <=? sord "9") then sord c - sord "0" + 52
  else if bool_decide (c = "+"%char) then 62
  else 63.

Definition isBase64 (c : char) : bool :=
  ((sord "A" <=? sord c) && (sord c <=? sord "Z")) || ((sord "a" <=? sord c) && (sord c <=? sord "z")) ||
  ((sord "0" <=? sord c) && (sord c <=? sord "9")) || bool_decide (c = "+"%char) ||
  bool_decide (c = "/"%char) || bool_decide (c = "="%char).

(** ** Encoding *)

(** One round of the loop: [b2] and [b3] are absent behind the end of the bytes, and then 0. *)
Definition encode_group (b1 : Z) (b2 b3 : option Z) (encoded : str) : str :=
  let v2 := default 0 b2 in
  let v3 := default 0 b3 in
  let b4 := Z.shiftr b1 2 in
  let b5 := Z.lor (Z.shiftl (Z.land b1 3) 4) (Z.shiftr v2 4) in
  let b6 := Z.lor (Z.shiftl (Z.land v2 15) 2) (Z.shiftr v3 6) in
  let b7 := Z.land v3 63 in
  let encoded := push encoded (encode_char b4) in
  let encoded := push encoded (encode_char b5) in
  let encoded := match b2 with Some _ => push encoded (encode_char b6) | None => push encoded "=" end in
  match b3 with Some _ => push encoded (encode_char b7) | None => push encoded "=" end.

(** for(uint32 i=0; i<len; i+=3), on the bytes that are left *)
Fixpoint encode_bytes (bytes : str) (encoded : str) : str :=
  match bytes with
  | [] => encoded
  | [c1] => encode_group (ord c1) None None encoded
  | [c1; c2] => encode_group (ord c1) (Some (ord c2)) None encoded
  | c1 :: c2 :: c3 :: rest =>
      encode_bytes rest (encode_group (ord c1) (Some (ord c2)) (Some (ord c3)) encoded)
  end.

Definition encode (raw : str) : str := encode_bytes raw [].

(** ** Decoding *)

(** The bytes one round writes; [c2], [c3], [c4] are 'A' behind the end of [src]. *)
Definition decode_group (c1 c2 c3 c4 : char) : str :=
  let b1 := decode_char c1 in
  let b2 := decode_char c2 in
  let b3 := decode_char c3 in
  let b4 := decode_char c4 in
  [chr (Z.lor (Z.shiftl b1 2) (Z.shiftr b2 4))] ++
  (if bool_decide (c3 <> "="%char) then [chr (Z.lor (Z.shiftl (Z.land b2 15) 4) (Z.shiftr b3 2))] else []) ++
  (if bool_decide (c4 <> "="%char) then [chr (Z.lor (Z.shiftl (Z.land b3 3) 6) b4)] else []).

Section decode.
Context {W : Type} `{BinaryWriter W}.

(** One [decoded.write(byte)] after the other. *)
Fixpoint write_all (decoded : W) (bs : str) : res W :=
  match bs with
  | [] => Ok decoded
  | b :: bs' => let? (decoded, _) := write_byte decoded b in write_all decoded bs'
  end.

(** for(uint32 i = 0; i < src_len; i+=4), on the characters that are left.  The loop reads [src];
    the copy of it without foreign characters, which the code makes before, is not used. *)
Fixpoint decode_loop (buf : str) (decoded : W) : res W :=
  match buf with
  | [] => Ok decoded
  | [c1] => write_all decoded (decode_group c1 "A" "A" "A")
  | [c1; c2] => write_all decoded (decode_group c1 c2 "A" "A")
  | [c1; c2; c3] => write_all decoded (decode_group c1 c2 c3 "A")
  | c1 :: c2 :: c3 :: c4 :: rest =>
      let? decoded := write_all decoded (decode_group c1 c2 c3 c4) in decode_loop rest decoded
  end.

Definition decode (src : str) (decoded : W) : res W := decode_loop src decoded.
End decode.

(** [decode(const String&)]: through a [ByteBuffer], read back as a C string *)
Definition decode_String (src : str) : res str :=
  let? buf := BB_new (zlen src) in
  let? buf := decode src buf in
  let? (buf, _) := write_byte buf NUL in
  let? cs := bread buf 0 (_length buf) in
  let? bs := bytes_of cs in
  Ok (cstr bs).

(** ** Theorems *)

(** The three bytes of a group, by evaluation over the bits each output depends on. *)
Lemma range_check2 (P : Z -> Z -> bool) n m :
  forallb (fun i => forallb (P i) (seqZ 0 m)) (seqZ 0 n) = true ->
  forall i j, 0 <= i < n -> 0 <= j < m -> P i j = true.
Proof.
  intros H i j Hi Hj. apply (range_check (P i) m); [|done].
  by apply (range_check (fun i => forallb (P i) (seqZ 0 m)) n).
Qed.

Lemma char_roundtrip u : 0 <= u < 64 ->
  decode_char (encode_char u) = u /\ encode_char u <> NUL /\ encode_char u <> "="%char /\
  isBase64 (encode_char u) = true.
Proof.
  intros Hu.
  assert ((decode_char (encode_char u) =? u) && bool_decide (encode_char u <> NUL) &&
    bool_decide (encode_char u <> "="%char) && isBase64 (encode_char u) = true) as H.
  { revert u Hu. apply range_check. vm_compute. reflexivity. }
  rewrite !andb_true_iff, !bool_decide_eq_true, Z.eqb_eq in H. naive_solver.
Qed.

Definition group1 (b1 h : Z) : bool :=
  let b4 := Z.shiftr b1 2 in
  let b5 := Z.lor (Z.shiftl (Z.land b1 3) 4) h in
  (0 <=? b4) && (b4 <? 64) && (0 <=? b5) && (b5 <? 64) &&
  (u8 (Z.lor (Z.shiftl b4 2) (Z.shiftr b5 4)) =? b1).

(** [a] is the low half of [4 * 256] values: the two bits before [b2], and [b2]. *)
Definition group2 (ab g : Z) : bool :=
  let b2 := ab mod 256 in
  let b5 := Z.lor (Z.shiftl (ab / 256) 4) (Z.shiftr b2 4) in
  let b6 := Z.lor (Z.shiftl (Z.land b2 15) 2) g in
  (0 <=? b6) && (b6 <? 64) && (u8 (Z.lor (Z.shiftl (Z.land b5 15) 4) (Z.shiftr b6 2)) =? b2).

Definition group3 (d b3 : Z) : bool :=
  let b6 := Z.lor (Z.shiftl d 2) (Z.shiftr b3 6) in
  let b7 := Z.land b3 63 in
  (0 <=? b7) && (b7 <? 64) && (u8 (Z.lor (Z.shiftl (Z.land b6 3) 6) b7) =? b3).

Lemma group1_ok b1 h : 0 <= b1 < 256 -> 0 <= h < 16 -> group1 b1 h = true.
Proof. apply range_check2. vm_compute. reflexivity. Qed.
Lemma group2_ok ab g : 0 <= ab < 1024 -> 0 <= g < 4 -> group2 ab g = true.
Proof. apply range_check2. vm_compute. reflexivity. Qed.
Lemma group3_ok d b3 : 0 <= d < 16 -> 0 <= b3 < 256 -> group3 d b3 = true.
Proof. apply range_check2. vm_compute. reflexivity. Qed.

Lemma chr_value z b : u8 z = ord b -> chr z = b.
Proof. intros E. apply ord_inj. by rewrite ord_chr. Qed.

Lemma shiftr_bound b k n : 0 <= b < 256 -> 0 <= k -> 256 = n * 2 ^ k -> 0 <= Z.shiftr b k < n.
Proof.
  intros Hb Hk Hn. rewrite Z.shiftr_div_pow2 by done.
  assert (0 < 2 ^ k) by (apply Z.pow_pos_nonneg; lia).
  split; [apply Z.div_pos; lia|apply Z.div_lt_upper_bound; lia].
Qed.

Lemma land_bound b k : 0 <= k -> 0 <= Z.land b (Z.ones k) < 2 ^ k.
Proof. intros Hk. rewrite Z.land_ones by done. apply Z.mod_pos_bound. by apply Z.pow_pos_nonneg. Qed.

(** The four characters of a group, and what they decode to. *)
Lemma group_roundtrip b1 (o2 o3 : option char) :
  (o2 = None -> o3 = None) ->
  exists c1 c2 c3 c4,
    (forall e, encode_group (ord b1) (ord <$> o2) (ord <$> o3) e = e ++ [c1; c2; c3; c4]) /\
    decode_group c1 c2 c3 c4 = b1 :: option_list o2 ++ option_list o3 /\
    Forall (fun c => isBase64 c = true) [c1; c2; c3; c4].
Proof.
  intros Ho. set (v2 := default 0 (ord <$> o2)). set (v3 := default 0 (ord <$> o3)).
  assert (0 <= v2 < 256) as H2 by (subst v2; destruct o2; simpl; [apply ord_range|lia]).
  assert (0 <= v3 < 256) as H3 by (subst v3; destruct o3; simpl; [apply ord_range|lia]).
  pose proof (ord_range b1) as H1.
  pose proof (shiftr_bound v2 4 16 H2 ltac:(lia) eq_refl) as Hs2.
  pose proof (shiftr_bound v3 6 4 H3 ltac:(lia) eq_refl) as Hs3.
  pose proof (land_bound (ord b1) 2 ltac:(lia)) as Hl1. change (Z.ones 2) with 3 in Hl1. change (2 ^ 2) with 4 in Hl1.
  pose proof (land_bound v2 4 ltac:(lia)) as Hl2. change (Z.ones 4) with 15 in Hl2. change (2 ^ 4) with 16 in Hl2.
  pose proof (group1_ok (ord b1) (Z.shiftr v2 4) H1 Hs2) as G1.
  pose proof (group2_ok (Z.land (ord b1) 3 * 256 + v2) (Z.shiftr v3 6) ltac:(lia) Hs3) as G2.
  pose proof (group3_ok (Z.land v2 15) v3 Hl2 H3) as G3.
  unfold group1 in G1. unfold group2 in G2. unfold group3 in G3. cbv zeta in G1, G2, G3.
  rewrite Z.div_add_l, (Z.div_small v2), Z.add_0_r in G2 by lia.
  rewrite Z.add_comm, Z.mod_add, Z.mod_small in G2 by lia.
  rewrite !andb_true_iff, !Z.leb_le, !Z.ltb_lt, Z.eqb_eq in G1.
  rewrite !andb_true_iff, !Z.leb_le, !Z.ltb_lt, Z.eqb_eq in G2.
  rewrite !andb_true_iff, !Z.leb_le, !Z.ltb_lt, Z.eqb_eq in G3.
  destruct G1 as [[[[? ?] ?] ?] G1]. destruct G2 as [[? ?] G2]. destruct G3 as [[? ?] G3].
  set (b4 := Z.shiftr (ord b1) 2) in *.
  set (b5 := Z.lor (Z.shiftl (Z.land (ord b1) 3) 4) (Z.shiftr v2 4)) in *.
  set (b6 := Z.lor (Z.shiftl (Z.land v2 15) 2) (Z.shiftr v3 6)) in *.
  set (b7 := Z.land v3 63) in *.
  destruct (char_roundtrip b4) as (D4 & N4 & Q4 & I4); [lia|].
  destruct (char_roundtrip b5) as (D5 & N5 & Q5 & I5); [lia|].
  destruct (char_roundtrip b6) as (D6 & N6 & Q6 & I6); [lia|].
  destruct (char_roundtrip b7) as (D7 & N7 & Q7 & I7); [lia|].
  exists (encode_char b4), (encode_char b5),
    (match o2 with Some _ => encode_char b6 | None => "="%char end),
    (match o3 with Some _ => encode_char b7 | None => "="%char end).
  split; [|split].
  - intros e. unfold encode_group. fold v2 v3 b4 b5 b6 b7. rewrite !push_app.
    rewrite !decide_False by done. destruct o2, o3; simpl; rewrite ?push_app, ?decide_False by done;
      by rewrite <- !app_assoc.
  - unfold decode_group. rewrite D4, D5, (chr_value _ b1 G1).
    destruct o2 as [c2|]; simpl.
    + rewrite bool_decide_eq_true_2 by done. rewrite D6, (chr_value _ c2 G2). simpl.
      destruct o3 as [c3|]; simpl; [|done].
      rewrite bool_decide_eq_true_2 by done. by rewrite D7, (chr_value _ c3 G3).
    + by rewrite (Ho eq_refl).
  - repeat constructor; try done; [by destruct o2|by destruct o3].
Qed.

Lemma encode_bytes_app bytes : forall e, encode_bytes bytes e = e ++ encode_bytes bytes [].
Proof.
  induction bytes as [bytes IH] using (induction_ltof1 _ length). unfold ltof in IH. intros e.
  destruct bytes as [|c1 [|c2 [|c3 rest]]]; cbn [encode_bytes].
  - by rewrite app_nil_r.
  - destruct (group_roundtrip c1 None None) as (?&?&?&?& E & _); [done|]. cbn [fmap option_fmap option_map] in E. by rewrite !E.
  - destruct (group_roundtrip c1 (Some c2) None) as (?&?&?&?& E & _); [done|]. cbn [fmap option_fmap option_map] in E. by rewrite !E.
  - destruct (group_roundtrip c1 (Some c2) (Some c3)) as (?&?&?&?& E & _); [done|]. cbn [fmap option_fmap option_map] in E.
    pose proof (IH rest ltac:(simpl; lia)) as IHr.
    rewrite !E, (IHr (e ++ _)), (IHr ([] ++ _)). by rewrite <- app_assoc.
Qed.

(** The encoding of some bytes, with its group in front when there is one. *)
Lemma encode_cases bytes :
  bytes = [] /\ encode bytes = [] \/
  exists b1 o2 o3 rest c1 c2 c3 c4,
    bytes = (b1 :: option_list o2 ++ option_list o3) ++ rest /\
    (rest <> [] -> exists b2 b3, o2 = Some b2 /\ o3 = Some b3) /\
    encode bytes = [c1; c2; c3; c4] ++ encode rest /\
    decode_group c1 c2 c3 c4 = b1 :: option_list o2 ++ option_list o3 /\
    Forall (fun c => isBase64 c = true) [c1; c2; c3; c4].
Proof.
  destruct bytes as [|b1 [|b2 [|b3 rest]]]; [by left|right..].
  - destruct (group_roundtrip b1 None None) as (c1&c2&c3&c4& E & D & F); [done|]. cbn [fmap option_fmap option_map] in E.
    exists b1, None, None, [], c1, c2, c3, c4. split; [done|]. split; [done|]. split; [|done].
    unfold encode. cbn [encode_bytes]. by rewrite E.
  - destruct (group_roundtrip b1 (Some b2) None) as (c1&c2&c3&c4& E & D & F); [done|]. cbn [fmap option_fmap option_map] in E.
    exists b1, (Some b2), None, [], c1, c2, c3, c4. split; [done|]. split; [done|]. split; [|done].
    unfold encode. cbn [encode_bytes]. by rewrite E.
  - destruct (group_roundtrip b1 (Some b2) (Some b3)) as (c1&c2&c3&c4& E & D & F); [done|]. cbn [fmap option_fmap option_map] in E.
    exists b1, (Some b2), (Some b3), rest, c1, c2, c3, c4. split; [done|]. split; [eauto|]. split; [|done].
    unfold encode. cbn [encode_bytes]. rewrite encode_bytes_app, E. done.
Qed.

(** The encoding has four characters of the alphabet for every three bytes or part of them. *)
Lemma encode_shape bytes :
  zlen (encode bytes) = 4 * ((zlen bytes + 2) / 3) /\ Forall (fun c => isBase64 c = true) (encode bytes).
Proof.
  induction bytes as [bytes IH] using (induction_ltof1 _ length). unfold ltof in IH.
  destruct (encode_cases bytes) as [[-> ->]|(b1&o2&o3&rest&c1&c2&c3&c4&E&Hr&Ee&_&F)]; [by split|].
  rewrite Ee. destruct (IH rest) as [IH1 IH2]; [rewrite E, length_app; simpl; lia|]. split.
  - rewrite zlen_app, IH1, E. change (zlen [c1; c2; c3; c4]) with 4.
    rewrite zlen_app, zlen_cons, zlen_app.
    destruct (decide (rest = [])) as [->|Hne].
    + change ((zlen [] + 2) / 3) with 0. destruct o2, o3; reflexivity.
    + destruct (Hr Hne) as (b2 & b3 & -> & ->). simpl option_list. change (zlen [b2]) with 1.
      change (zlen [b3]) with 1. replace (1 + 1 + 1 + zlen rest + 2) with (zlen rest + 2 + 1 * 3) by lia.
      rewrite Z.div_add by lia. lia.
  - by apply Forall_app.
Qed.

Section decoding.
Context {W : Type} `{A : AppendWriter W}.

Lemma write_all_appends bs : forall w l,
  written w l -> zlen bs <= capacity_left w ->
  exists w', write_all w bs = Ok w' /\ written w' (l ++ bs) /\ capacity_left w' = capacity_left w - zlen bs.
Proof.
  induction bs as [|b bs IH]; intros w l Hw Hc; simpl.
  - exists w. rewrite app_nil_r. split; [done|]. split; [done|]. change (zlen []) with 0. lia.
  - rewrite zlen_cons in Hc. pose proof (zlen_nonneg bs).
    destruct (writeData_appends w l [b] Hw) as (w1 & E1 & Hw1 & Hc1); [change (zlen [b]) with 1; lia|].
    change (zlen [b]) with 1 in *. unfold write_byte. rewrite E1. cbn [bind].
    destruct (IH w1 (l ++ [b]) Hw1) as (w2 & E2 & Hw2 & Hc2); [lia|].
    exists w2. split; [done|]. rewrite <- app_assoc in Hw2. split; [done|]. rewrite zlen_cons. lia.
Qed.

(** [decode] undoes [encode], for any writer that appends. *)
Lemma decode_encode bytes : forall w l,
  written w l -> zlen bytes <= capacity_left w ->
  exists w', decode (encode bytes) w = Ok w' /\ written w' (l ++ bytes).
Proof.
  unfold decode. induction bytes as [bytes IH] using (induction_ltof1 _ length). unfold ltof in IH.
  intros w l Hw Hc.
  destruct (encode_cases bytes) as [[-> ->]|(b1&o2&o3&rest&c1&c2&c3&c4&E&_&Ee&Hd&_)].
  { exists w. by rewrite app_nil_r. }
  rewrite Ee. cbn [decode_loop app]. rewrite Hd. set (g := b1 :: option_list o2 ++ option_list o3) in *.
  assert (zlen bytes = zlen g + zlen rest) as El by (rewrite E; apply zlen_app).
  pose proof (zlen_nonneg rest).
  destruct (write_all_appends g w l Hw) as (w1 & -> & Hw1 & Hc1); [lia|]. cbn [bind].
  destruct (IH rest) with (w := w1) (l := l ++ g) as (w2 & E2 & Hw2); [|done|lia|].
  { rewrite E. subst g. simpl. rewrite length_app. lia. }
  exists w2. rewrite E. by rewrite <- app_assoc in Hw2.
Qed.
End decoding.

(** On strings, up to the first NUL of what was encoded. *)
Theorem base64_string_roundtrip s :
  s <> [] -> zlen s < 2 ^ 28 -> decode_String (encode s) = Ok (cstr s).
Proof.
  intros Hne Hl. unfold decode_String. pose proof (zlen_nonneg s).
  assert (0 < zlen s) by (destruct s; [done|zlen_lia]).
  destruct (encode_shape s) as [Hz _].
  assert (0 < zlen (encode s) < 2 ^ 31) as Hb.
  { rewrite Hz. pose proof (Z.div_mod (zlen s + 2) 3). pose proof (Z.mod_pos_bound (zlen s + 2) 3). lia. }
  destruct (brepr_new (zlen (encode s)) Hb) as (b0 & -> & Hr0). cbn [bind].
  assert (_pos b0 = 0) as Hp0 by apply Hr0.
  destruct (decode_encode s b0 []) as (b1 & -> & Hr1); [exact Hr0|simpl; rewrite Hp0; lia|]. cbn [bind].
  simpl in Hr1. destruct (writeData_repr b1 s (zlen s) [NUL] Hr1) as (b2 & E2 & Hr2);
    [change (zlen [NUL]) with 1; lia|].
  unfold write_byte. rewrite E2. cbn [bind]. rewrite ztake_ge in Hr2 by lia.
  destruct Hr2 as (Hlen & _ & _ & _ & _ & junk & Hb2 & _).
  rewrite (bread_app b2 [] (Some <$> (s ++ [NUL])) junk); [|done|done|by rewrite zlen_fmap].
  cbn [bind]. rewrite bytes_of_Some. cbn [bind]. f_equal.
  clear. induction s as [|c s IH]; simpl; [done|]. case_decide; [done|]. by f_equal.
Qed.

(** Characters outside the alphabet are not ignored: a line break changes the result. *)
Theorem decode_not_filtered :
  decode_String (lit "QUJD") = Ok (lit "ABC") /\
  decode_String (lit "QU" ++ [chr 10] ++ lit "JD") <> Ok (lit "ABC").
Proof. split; [vm_compute; reflexivity|vm_compute; discriminate]. Qed.

(** C13: [decode] undoes [encode], for any writer that appends. *)
Theorem base64_roundtrip {W} `{AppendWriter W} bytes (w : W) l :
  written w l -> zlen bytes <= capacity_left w ->
  exists w', decode (encode bytes) w = Ok w' /\ written w' (l ++ bytes).
Proof. apply decode_encode. Qed.

(** ** Witnesses *)

Lemma base64_roundtrip_witness :
  exists b', decode (encode (lit "any carnal pleas")) (buffer (lit ">") 15 1) = Ok b' /\
    written b' (lit ">any carnal pleas").
Proof.
  apply (base64_roundtrip (lit "any carnal pleas") (buffer (lit ">") 15 1) (lit ">")); [holds_bytes|by vm_compute].
Defined.

Lemma base64_string_roundtrip_witness : decode_String (encode (lit "abcde")) = Ok (lit "abcde").
Proof. apply (base64_string_roundtrip (lit "abcde")); done. Defined.
