(* ===== verification/URI.v ===== *)
(** * Uniform resource identifiers (src/cpp/src/net/URI.cpp)

    Percent encoding, parsing into components and regenerating the text.  [_str] also serves the
    code as a temporary, and does so here.  The replacement of blanks by [replace(' ', '+')] is the
    operation [OReplaceChar] of [StrMem], used through its specification.  The dictionary
    of the query fields ([getQueryMap], [addQueryField], and [asString] once that is not empty) is the
    subject of UriQuery. *)

From S2P Require Import Prelude CString Str StrConv StrMem.

Definition ENCODE_EXCLUDE_USER : str := lit "!$&'()*+,;=:".
Definition ENCODE_EXCLUDE_HOST : str := lit "[]:".
Definition ENCODE_EXCLUDE_PATH : str := lit "!$&'()*+,;=:@/".
Definition ENCODE_EXCLUDE_QUERY : str := lit "!$&'*+,;=:@/?".
Definition ENCODE_EXCLUDE_QUERYITEM : str := lit "!$'()*+,;:@/?".
Definition ENCODE_EXCLUDE_FRAG : str := lit "!$&'()*+,;=:@/?".

(** ** Percent encoding *)

Definition ShouldEncode (ch : char) (exclude_list : str) : res bool :=
  let? f := find_char exclude_list ch 0 in
  Ok (negb (((sord "a" <=? sord ch) && (sord ch <=? sord "z")) ||
            ((sord "A" <=? sord ch) && (sord ch <=? sord "Z")) ||
            ((sord "0" <=? sord ch) && (sord ch <=? sord "9")) ||
            bool_decide (ch = "-"%char) || bool_decide (ch = "."%char) ||
            bool_decide (ch = "_"%char) || bool_decide (ch = "~"%char) || negb (f =? -1))).

(** The loop appends to [output]. *)
Fixpoint Encode (input output exclude : str) : res str :=
  match input with
  | [] => Ok output
  | c :: input' =>
      let? b := ShouldEncode c exclude in
      if b : bool then Encode input' (Hex c (push output "%")) exclude
      else Encode input' (push output c) exclude
  end.

Fixpoint Decode_loop (input output : str) : str :=
  match input with
  | [] => output
  | c :: input1 =>
      match input1 with
      | h1 :: h2 :: input3 =>
          if decide (c = "%"%char) then Decode_loop input3 (push output (UnHex h1 h2))
          else Decode_loop input1 (push output c)
      | _ => Decode_loop input1 (push output c)
      end
  end.

Definition Decode (encoded output : str) : str :=
  Decode_loop (spec (OReplaceChar "+" " ") encoded) output.

(** ** Components *)

Record URI := mkURI {
  _str : str;
  _scheme : str;
  _user : str;
  _host : str;
  _path : str;
  _query : str;
  _fragment : str;
  _port : Z
}.

Definition _generateString (u : URI) : res URI :=
  let s := if bool_decide (_scheme u = []) then [] else _scheme u ++ lit ":" in
  let? s :=
    if bool_decide (_host u = []) then Ok s
    else
      let s := s ++ lit "//" in
      let s := if bool_decide (_user u = []) then s else s ++ _user u ++ lit "@" in
      let s := s ++ _host u in
      if 0 <? _port u then let? port := Val_uint32 (_port u) 10 in Ok (s ++ lit ":" ++ port)
      else Ok s in
  let s :=
    if bool_decide (_path u = []) then s
    else
      let s := s ++ _path u in
      let s := if bool_decide (_query u = []) then s else s ++ lit "?" ++ _query u in
      if bool_decide (_fragment u = []) then s else s ++ lit "#" ++ _fragment u in
  Ok (mkURI s (_scheme u) (_user u) (_host u) (_path u) (_query u) (_fragment u) (_port u)).

Definition _parseScheme (u : URI) (uri : str) (pos : Z) : res (URI * Z) :=
  let? scheme_epos := find_char uri ":" 0 in
  if scheme_epos =? -1 then Ok (u, pos)
  else
    let? auth_spos := find_char uri "/" 0 in
    if scheme_epos <? auth_spos then
      let? scheme := str_left uri (u32 scheme_epos) in
      Ok (mkURI (_str u) scheme (_user u) (_host u) (_path u) (_query u) (_fragment u) (_port u),
          scheme_epos + 1)
    else Ok (u, pos).

(** A part of the URI, stored as it is or encoded; [old] is what the component held. *)
Definition part (uri : str) (pos n : Z) (is_encoded : bool) (old exclude : str) : res (str * option str) :=
  let? s := substr uri (u32 pos) (u32 n) in
  if is_encoded then Ok (s, None) else let? e := Encode s old exclude in Ok (e, Some s).

(** [_str], which holds the raw part after an encoding *)
Definition set_temp (u : URI) (s : option str) : str := default (_str u) s.

Definition _parseAuthority (u : URI) (uri : str) (pos : Z) (is_encoded : bool) : res (URI * Z) :=
  let? spos := find_str uri (lit "//") 0 in
  if spos =? -1 then Ok (u, pos)
  else
    let spos := s32 (spos + 2) in
    let? epos := find_char uri "/" (u32 spos) in
    let epos := if epos =? -1 then s32 (zlen uri) else epos in
    let? part_epos := find_char uri "@" (u32 pos) in
    let? (u, spos) :=
      if negb (part_epos =? -1) && (part_epos <? epos) then
        let? (user, temp) := part uri spos (part_epos - spos) is_encoded (_user u) ENCODE_EXCLUDE_USER in
        Ok (mkURI (set_temp u temp) (_scheme u) user (_host u) (_path u) (_query u) (_fragment u) (_port u),
            part_epos + 1)
      else Ok (u, spos) in
    let? part_epos := find_char uri ":" (u32 spos) in
    let? (port, part_epos) :=
      if (part_epos =? -1) || (epos <? part_epos) then Ok (_port u, epos)
      else
        let? digits := substr uri (u32 (part_epos + 1)) (u32 (epos - (part_epos + 1))) in
        Ok (u32 (Int digits 10), part_epos) in
    let? (host, temp) := part uri spos (part_epos - spos) is_encoded (_host u) ENCODE_EXCLUDE_HOST in
    let u := mkURI (set_temp u temp) (_scheme u) (_user u) host (_path u) (_query u) (_fragment u) port in
    Ok (u, if u32 part_epos <? zlen uri then epos else -1).

Definition _parsePath (u : URI) (uri : str) (pos : Z) (is_encoded : bool) : res (URI * Z) :=
  let? query_pos := find_char uri "?" (u32 pos) in
  let? frag_pos := find_char uri "#" (u32 pos) in
  let epos := s32 (zlen uri) in
  let part_epos := epos in
  let? (u, epos, query_pos) :=
    if 0 <=? query_pos then
      let epos := if query_pos <? frag_pos then frag_pos else query_pos in
      let query_pos := query_pos + 1 in
      let? (query, temp) := part uri query_pos (part_epos - query_pos) is_encoded (_query u) (lit " =&") in
      let query := if is_encoded then query else spec (OReplaceChar " " "+") query in
      Ok (mkURI (set_temp u temp) (_scheme u) (_user u) (_host u) (_path u) query (_fragment u) (_port u),
          epos, query_pos)
    else Ok (u, (if 0 <? frag_pos then frag_pos else epos), query_pos) in
  let? (path, temp) := part uri pos (epos - pos) is_encoded (_path u) ENCODE_EXCLUDE_PATH in
  let u := mkURI (set_temp u temp) (_scheme u) (_user u) (_host u) path (_query u) (_fragment u) (_port u) in
  if 0 <=? frag_pos then
    let epos := if frag_pos <? query_pos then query_pos else s32 (zlen uri) in
    let frag_pos := frag_pos + 1 in
    let? (frag, temp) := part uri frag_pos (epos - frag_pos) is_encoded (_fragment u) ENCODE_EXCLUDE_FRAG in
    Ok (mkURI (set_temp u temp) (_scheme u) (_user u) (_host u) (_path u) (_query u) frag (_port u), epos)
  else Ok (u, epos).

(** [set(uri, is_encoded)]; every component is cleared first. *)
Definition URI_set (uri : str) (is_encoded : bool) : res URI :=
  let u := mkURI [] [] [] [] [] [] [] 0 in
  let? (u, pos) := _parseScheme u uri 0 in
  let? (u, pos) := _parseAuthority u uri pos is_encoded in
  let? (u, _) := if negb (pos =? -1) then _parsePath u uri pos is_encoded else Ok (u, pos) in
  _generateString u.

(** [asString()] without query fields in the dictionary *)
Definition asString (u : URI) : str := _str u.

Example uri_1 :
  (let? u := URI_set (lit "http://me@host:80/a/b?x=1") true in
   Ok (_scheme u, _user u, _host u, _port u, _path u, _query u, asString u)) =
  Ok (lit "http", lit "me", lit "host", 80, lit "/a/b", lit "x=1", lit "http://me@host:80/a/b?x=1").
Proof. vm_compute. reflexivity. Qed.

(** ** Theorems on the encoding *)

Lemma Hex_step c out rest :
  UnHex (HEX_at (Z.shiftr (ord c) 4)) (HEX_at (Z.land (ord c) 15)) = c /\
  Hex c out ++ rest = out ++ HEX_at (Z.shiftr (ord c) 4) :: HEX_at (Z.land (ord c) 15) :: rest.
Proof. split; [apply UnHex_Hex_chars|]. rewrite Hex_app. by rewrite <- app_assoc. Qed.

(** What [Encode] appends for one character. *)
Definition encoding (c : char) (exclude : str) : res str :=
  let? b := ShouldEncode c exclude in
  Ok (if b : bool then ["%"%char; HEX_at (Z.shiftr (ord c) 4); HEX_at (Z.land (ord c) 15)] else push [] c).

Lemma Encode_cons c input output exclude :
  Encode (c :: input) output exclude = let? e := encoding c exclude in Encode input (output ++ e) exclude.
Proof.
  simpl. unfold encoding. destruct (ShouldEncode c exclude) as [[]| | |]; simpl; [| |done..].
  - rewrite Hex_app. by rewrite push_app, <- app_assoc.
  - by rewrite push_push.
Qed.

Lemma encoding_ok c exclude :
  nul_free exclude -> exists e, encoding c exclude = Ok e /\
    (e = ["%"%char; HEX_at (Z.shiftr (ord c) 4); HEX_at (Z.land (ord c) 15)] \/
     e = push [] c /\ (c = "%"%char -> "%"%char ∈ exclude) /\ (c = "+"%char -> "+"%char ∈ exclude)).
Proof.
  intros Hf. unfold encoding, ShouldEncode. unfold find_char. replace (zlen exclude <? 0) with false by zlen_lia.
  rewrite zdrop_le by lia.
  destruct (strchr exclude c) as [k|] eqn:E; cbn [bind].
  - eexists. split; [done|]. case_match; [by left|right]. split; [done|].
    destruct (strchr_Some _ _ _ Hf E) as (Hk & Hg & _).
    destruct (decide (k < zlen exclude)) as [Hlt|Hge].
    + rewrite zget_app_l in Hg by done. rewrite zget_lookup in Hg by lia.
      apply list_elem_of_lookup_2 in Hg. by split; intros <-.
    + rewrite zget_app_r in Hg by lia. replace (k - zlen exclude) with 0 in Hg by lia.
      injection Hg as <-. by split.
  - eexists. split; [done|]. rewrite Z.eqb_refl. cbn [negb]. rewrite orb_false_r.
    case_match; [by left|right]. split; [done|]. split; intros ->; simpl in *; discriminate.
Qed.


Lemma Decode_loop_plain c rest output :
  c <> "%"%char -> c <> NUL -> Decode_loop (c :: rest) output = Decode_loop rest (output ++ [c]).
Proof.
  intros Hc Hn. assert (push output c = output ++ [c]) as E by (unfold push; by rewrite decide_False).
  destruct rest as [|h1 [|h2 r]]; simpl; rewrite ?(decide_False (P := c = "%"%char)) by done; by rewrite E.
Qed.

Lemma plus_spec s : spec (OReplaceChar "+" " ") s = (fun d => if decide (d = "+"%char) then " "%char else d) <$> s.
Proof. done. Qed.

Lemma HEX_not_plus i : 0 <= i < 16 -> HEX_at i <> "+"%char.
Proof.
  intros Hi. assert (bool_decide (HEX_at i <> "+"%char) = true) as H; [|by apply bool_decide_eq_true in H].
  revert i Hi. apply range_check. vm_compute. reflexivity.
Qed.

(** [Decode] undoes [Encode] for any excluded characters other than the two that are special in
    an encoded text. *)
Theorem uri_roundtrip s exclude :
  nul_free s -> nul_free exclude -> "%"%char ∉ exclude -> "+"%char ∉ exclude ->
  exists e, Encode s [] exclude = Ok e /\ Decode e [] = s.
Proof.
  intros Hs Hx Hp Hq.
  assert (forall pre, exists e, Encode s pre exclude = Ok (pre ++ e) /\
    forall output, Decode e output = output ++ s) as HG.
  2:{ destruct (HG []) as (e & E & D). exists e. by split. }
  induction Hs as [|c s Hc Hs IH]; intros pre.
  { exists []. rewrite app_nil_r. split; [done|]. intros. by rewrite app_nil_r. }
  rewrite Encode_cons. destruct (encoding_ok c exclude Hx) as (e & -> & He). cbn [bind].
  destruct (IH (pre ++ e)) as (e' & E' & D'). exists (e ++ e'). rewrite E', <- app_assoc.
  split; [done|]. intros output.
  replace (output ++ c :: s) with ((output ++ [c]) ++ s) by (by rewrite <- app_assoc).
  rewrite <- D'. unfold Decode in *. rewrite !plus_spec, fmap_app in *.
  destruct He as [-> |(-> & Hcp & Hcq)].
  - pose proof (ord_range c) as Ho.
    assert (0 <= Z.shiftr (ord c) 4 < 16 /\ 0 <= Z.land (ord c) 15 < 16) as [Hh Hl].
    { rewrite Z.shiftr_div_pow2 by lia. change 15 with (Z.ones 4). rewrite Z.land_ones by lia.
      change (2 ^ 4) with 16. pose proof (Z.mod_pos_bound (ord c) 16). pose proof (Z.div_mod (ord c) 16). lia. }
    simpl. rewrite !(decide_False (P := HEX_at _ = "+"%char)) by (by apply HEX_not_plus).
    simpl. rewrite UnHex_Hex_chars. unfold push. by rewrite decide_False.
  - unfold push. rewrite decide_False by done. simpl.
    rewrite decide_False by (intros ->; by apply Hq, Hcq).
    apply Decode_loop_plain; [intros ->; by apply Hp, Hcp|done].
Qed.

(** ** Theorems on the components *)

(** The optional parts, with their marks. *)
Definition before (s mark : str) : str := if decide (s = []) then [] else s ++ mark.
Definition after (mark s : str) : str := if decide (s = []) then [] else mark ++ s.

Definition port_text (port : Z) : str :=
  if 0 <? port then match Val_uint32 port 10 with Ok p => p | _ => [] end else [].

(** The text of a URI with its parts. *)
Definition authority (user host : str) (port : Z) : str :=
  before user (lit "@") ++ host ++ after (lit ":") (port_text port).
Definition uri_text (scheme user host : str) (port : Z) (path query fragment : str) : str :=
  scheme ++ lit "://" ++ authority user host port ++
  path ++ after (lit "?") query ++ after (lit "#") fragment.

(** The texts the grammar of the parts allows. *)
Definition well_formed (scheme user host : str) (port : Z) (path query fragment : str) : Prop :=
  scheme <> [] /\ free_of (lit ":/") scheme /\ free_of (lit "/@") user /\
  host <> [] /\ free_of (lit "/:@") host /\ 0 <= port < 2 ^ 31 /\
  head path = Some "/"%char /\ free_of (lit "?#") path /\
  free_of (lit "#") query /\ free_of (lit "?") fragment /\
  nul_free (uri_text scheme user host port path query fragment) /\
  zlen (uri_text scheme user host port path query fragment) < 2 ^ 31 - 1.

Lemma port_text_ok port :
  0 < port < 2 ^ 31 ->
  exists p, Val_uint32 port 10 = Ok p /\ p <> [] /\ u32 (Int p 10) = port /\ Forall hex_char p.
Proof.
  intros Hp. unfold Val_uint32. rewrite good_base by lia.
  destruct (val_text_ok false port 10) as (s & E & Ht); [lia|lia|].
  exists s. split; [done|]. pose proof (strto_val_text _ _ _ _ Ht) as Es.
  destruct Ht as (ds & -> & Hh & Hne & _). split_and!; [exact Hne| |exact Hh].
  unfold Int, strtol. rewrite Es.
  rewrite wrapS_small; [|lia|]; [|change (2 ^ (32 - 1)) with (2 ^ 31); lia].
  rewrite wrapU_small; lia.
Qed.

(** Digits are none of the marks. *)
Lemma hex_char_free c : hex_char c -> c ∉ lit "/:@".
Proof.
  intros (d & Hd & ->).
  assert (bool_decide (HEX_at d ∉ lit "/:@") = true) as H; [|by apply bool_decide_eq_true in H].
  revert d Hd. apply range_check. vm_compute. reflexivity.
Qed.

Lemma port_text_free port : 0 <= port < 2 ^ 31 -> free_of (lit "/:@") (port_text port).
Proof.
  intros Hp. unfold port_text, free_of. destruct (Z.ltb_spec 0 port); [|constructor].
  destruct (port_text_ok port) as (p & -> & _ & _ & H'); [lia|].
  eapply Forall_impl; [exact H'|]. apply hex_char_free.
Qed.

Ltac mark_lia :=
  autorewrite with zlen in *;
  change (zlen (lit "://")) with 3 in *; change (zlen (lit "//")) with 2 in *;
  change (zlen (lit "/")) with 1 in *; change (zlen (lit ":")) with 1 in *;
  change (zlen (lit "@")) with 1 in *; change (zlen (lit "?")) with 1 in *;
  change (zlen (lit "#")) with 1 in *; zlen_lia.
Ltac apps := rewrite <- ?app_assoc; reflexivity.

Lemma _parseScheme_ok u scheme t :
  let uri := scheme ++ lit "://" ++ t in
  nul_free uri -> zlen uri < 2 ^ 31 - 1 -> scheme <> [] -> free_of (lit ":/") scheme ->
  _parseScheme u uri 0 =
    Ok (mkURI (_str u) scheme (_user u) (_host u) (_path u) (_query u) (_fragment u) (_port u),
        zlen scheme + 1).
Proof.
  intros uri Hf Hl Hne Hs. pose proof (zlen_nonneg t). assert (0 < zlen scheme) by (destruct scheme; [done|zlen_lia]).
  assert (zlen uri = zlen scheme + 3 + zlen t) as El by (subst uri; mark_lia).
  unfold _parseScheme.
  rewrite (find_char_hit_at uri [] scheme ":" (lit "//" ++ t)); [|done|done|done|lia|marks].
  cbn [bind]. change (zlen []) with 0. replace (_ =? -1) with false by lia.
  rewrite (find_char_hit_at uri [] (scheme ++ [":"%char]) "/" (lit "/" ++ t)); [|subst uri; apps|done|done|lia|].
  2:{ rewrite not_elem_of_app. split; [marks|]. compute_done. }
  cbn [bind]. change (zlen []) with 0. replace (_ <? _) with true by zlen_lia.
  unfold str_left. rewrite wrapU_small by lia. replace (_ <? _) with false by lia.
  rewrite String_at_pos by lia. cbn [bind]. do 3 f_equal.
  apply (zsub_app [] scheme).
Qed.

(** The state after the authority was parsed *)
Definition with_authority (u : URI) (user host : str) (port : Z) : URI :=
  mkURI (_str u) (_scheme u) (if decide (user = []) then _user u else user) host
        (_path u) (_query u) (_fragment u) (if 0 <? port then port else _port u).

Lemma find_slashes_ok a t :
  nul_free (a ++ lit "//" ++ t) -> zlen (a ++ lit "//" ++ t) < 2 ^ 31 -> "/"%char ∉ a ->
  find_str (a ++ lit "//" ++ t) (lit "//") 0 = Ok (zlen a).
Proof.
  intros Hf Hl Ha. pose proof (zlen_nonneg a). pose proof (zlen_nonneg t).
  assert (zlen (a ++ lit "//" ++ t) = zlen a + 2 + zlen t) as El by mark_lia.
  unfold find_str. replace (_ <? 0) with false by lia. rewrite zdrop_le by lia.
  unfold strstr. rewrite (cstr_id (a ++ _)) by done. change (cstr (lit "//")) with (lit "//").
  rewrite (search_first "/" (lit "/")) by done. rewrite wrapS_small; [done|lia|].
  change (2 ^ (32 - 1)) with (2 ^ 31). lia.
Qed.

Lemma before_cases s mark : (s = [] /\ before s mark = []) \/ (s <> [] /\ before s mark = s ++ mark).
Proof. unfold before. case_decide; auto. Qed.

Lemma after_cases mark s : (s = [] /\ after mark s = []) \/ (s <> [] /\ after mark s = mark ++ s).
Proof. unfold after. case_decide; auto. Qed.

(** The user part: from [spos], up to an @ before [epos]. *)
Lemma user_part_ok u uri pre user rest t spos epos pos :
  uri = pre ++ before user (lit "@") ++ rest ++ t -> spos = zlen pre ->
  (exists pre1 pre2, pre = pre1 ++ pre2 /\ pos = zlen pre1 /\ "@"%char ∉ pre2) ->
  epos = zlen pre + zlen (before user (lit "@") ++ rest) ->
  nul_free uri -> zlen uri < 2 ^ 31 - 1 -> free_of (lit "/@") user -> "@"%char ∉ rest ->
  (let? part_epos := find_char uri "@" (u32 pos) in
   if negb (part_epos =? -1) && (part_epos <? epos) then
     let? (user, temp) := part uri spos (part_epos - spos) true (_user u) ENCODE_EXCLUDE_USER in
     Ok (mkURI (set_temp u temp) (_scheme u) user (_host u) (_path u) (_query u) (_fragment u) (_port u),
         part_epos + 1)
   else Ok (u, spos)) =
  Ok (mkURI (_str u) (_scheme u) (if decide (user = []) then _user u else user) (_host u)
        (_path u) (_query u) (_fragment u) (_port u), zlen pre + zlen (before user (lit "@"))).
Proof.
  intros Huri -> (pre1 & pre2 & Epre & -> & Hpre2) -> Hf Hl Hu Hr.
  assert (zlen uri = zlen pre + zlen (before user (lit "@")) + zlen rest + zlen t) as El by (subst uri; zlen_lia).
  assert (zlen pre = zlen pre1 + zlen pre2) as Elp by (subst pre; zlen_lia).
  pose proof (zlen_nonneg pre1). pose proof (zlen_nonneg pre2). pose proof (zlen_nonneg t).
  pose proof (zlen_nonneg rest). pose proof (zlen_nonneg (before user (lit "@"))).
  rewrite wrapU_small by lia.
  destruct (before_cases user (lit "@")) as [[Eu Eb]|[Hne Eb]]; rewrite Eb in *; clear Eb;
    [rewrite (decide_True (P := user = [])) by done|rewrite (decide_False (P := user = [])) by done].
  - destruct (find_char_past uri pre1 (pre2 ++ rest) "@" t (zlen pre1)) as (i & -> & Hi); [|done|done|lia|done| |].
    { rewrite Huri, Epre. apps. }
    { rewrite not_elem_of_app. done. }
    cbn [bind]. autorewrite with zlen in *.
    replace (negb _ && _) with false by lia.
    destruct u. by rewrite Z.add_0_r.
  - rewrite (find_char_hit_at uri pre1 (pre2 ++ user) "@" (rest ++ t)); [|rewrite Huri, Epre; apps|done|done|lia|].
    2:{ rewrite not_elem_of_app. split; [done|marks]. }
    change (zlen (lit "@")) with 1 in *. autorewrite with zlen in *. change (zlen (lit "@")) with 1 in *.
    pose proof (zlen_nonneg user).
    cbn [bind]. replace (negb _ && _) with true by lia. unfold part.
    rewrite (substr_at uri pre user (lit "@" ++ rest ++ t)); [|rewrite Huri; apps|done|lia|done|lia|done].
    cbn [bind]. unfold set_temp. cbn [default]. do 2 f_equal. lia.
Qed.

(** The host and the port: from [spos], with the authority ending at [epos]. *)
Lemma host_part_ok u uri pre host port path t spos epos :
  uri = pre ++ host ++ after (lit ":") (port_text port) ++ path ++ t -> head path = Some "/"%char ->
  spos = zlen pre -> epos = zlen pre + zlen (host ++ after (lit ":") (port_text port)) ->
  nul_free uri -> zlen uri < 2 ^ 31 - 1 -> host <> [] -> free_of (lit "/:@") host -> 0 <= port < 2 ^ 31 ->
  (let? part_epos := find_char uri ":" (u32 spos) in
   let? (port, part_epos) :=
     if (part_epos =? -1) || (epos <? part_epos) then Ok (_port u, epos)
     else
       let? digits := substr uri (u32 (part_epos + 1)) (u32 (epos - (part_epos + 1))) in
       Ok (u32 (Int digits 10), part_epos) in
   let? (host, temp) := part uri spos (part_epos - spos) true (_host u) ENCODE_EXCLUDE_HOST in
   let u := mkURI (set_temp u temp) (_scheme u) (_user u) host (_path u) (_query u) (_fragment u) port in
   Ok (u, if u32 part_epos <? zlen uri then epos else -1)) =
  Ok (mkURI (_str u) (_scheme u) (_user u) host (_path u) (_query u) (_fragment u)
        (if 0 <? port then port else _port u), epos).
Proof.
  intros Huri Hpath -> -> Hf Hl Hne Hh Hp. destruct path as [|c path]; [done|]. injection Hpath as ->.
  assert (zlen uri = zlen pre + zlen host + zlen (after (lit ":") (port_text port)) + 1 + zlen path + zlen t) as El
    by (subst uri; mark_lia).
  pose proof (zlen_nonneg pre). pose proof (zlen_nonneg host). pose proof (zlen_nonneg path).
  pose proof (zlen_nonneg t). pose proof (zlen_nonneg (after (lit ":") (port_text port))).
  assert (":"%char ∉ host) as Hc by marks. rewrite wrapU_small by lia.
  unfold port_text in *. destruct (Z.ltb_spec 0 port) as [Hpos|Hpos].
  - destruct (port_text_ok port) as (p & E & Hpne & Hpv & _); [lia|]. rewrite E in *.
    unfold after in *. rewrite decide_False in * by done.
    rewrite (find_char_hit_at uri pre host ":" (p ++ "/"%char :: path ++ t)); [|rewrite Huri; apps|done|done|lia|done].
    cbn [bind]. autorewrite with zlen in *. change (zlen (lit ":")) with 1 in *.
    pose proof (zlen_nonneg p).
    replace (_ || _) with false by lia.
    rewrite (substr_at uri (pre ++ host ++ lit ":") p ("/"%char :: path ++ t));
      [|rewrite Huri; apps|mark_lia|mark_lia|done|lia|done].
    cbn [bind]. rewrite Hpv. unfold part.
    rewrite (substr_at uri pre host (lit ":" ++ p ++ "/"%char :: path ++ t));
      [|rewrite Huri; apps|done|lia|done|lia|done].
    cbn [bind]. unfold set_temp. cbn [default]. rewrite (wrapU_small 32 (zlen pre + zlen host)) by lia.
    replace (_ <? _) with true by lia. done.
  - unfold after in *. rewrite decide_True in * by done.
    destruct (find_char_past uri pre (host ++ lit "/") ":" (path ++ t) (zlen pre)) as (i & -> & Hi);
      [rewrite Huri; apps|done|done|lia|done| |].
    { rewrite not_elem_of_app. split; [done|compute_done]. }
    cbn [bind]. autorewrite with zlen in *. change (zlen (lit "/")) with 1 in *.
    replace (_ || _) with true by lia. cbn [bind]. unfold part.
    rewrite (substr_at uri pre host (lit "/" ++ path ++ t)); [|rewrite Huri; apps|done|lia|done|lia|done].
    cbn [bind]. unfold set_temp. cbn [default].
    rewrite (wrapU_small 32 (zlen pre + _)) by lia. replace (_ <? _) with true by lia. done.
Qed.

Lemma free_of_authority user host port c :
  free_of (lit "/@") user -> free_of (lit "/:@") host -> 0 <= port < 2 ^ 31 -> c = "/"%char ->
  c ∉ authority user host port.
Proof.
  intros Hu Hh Hp ->. pose proof (port_text_free port Hp). unfold authority. rewrite !not_elem_of_app.
  split_and!.
  - destruct (before_cases user (lit "@")) as [[_ ->]|[_ ->]]; rewrite ?not_elem_of_app;
      [apply not_elem_of_nil|split; [marks|compute_done]].
  - marks.
  - destruct (after_cases (lit ":") (port_text port)) as [[_ ->]|[_ ->]]; rewrite ?not_elem_of_app;
      [apply not_elem_of_nil|split; [compute_done|marks]].
Qed.

Lemma _parseAuthority_ok u scheme user host port path t :
  let uri := scheme ++ lit "://" ++ authority user host port ++ path ++ t in
  nul_free uri -> zlen uri < 2 ^ 31 - 1 -> free_of (lit ":/") scheme -> free_of (lit "/@") user ->
  host <> [] -> free_of (lit "/:@") host -> 0 <= port < 2 ^ 31 -> head path = Some "/"%char ->
  _parseAuthority u uri (zlen scheme + 1) true =
    Ok (with_authority u user host port, zlen scheme + 3 + zlen (authority user host port)).
Proof.
  intros uri Hf Hl Hs Hu Hne Hh Hp Hpath. pose proof (port_text_free port Hp) as Hpt.
  destruct path as [|c path]; [done|]. injection Hpath as ->.
  assert (zlen uri = zlen scheme + 3 + zlen (authority user host port) + 1 + zlen path + zlen t) as El
    by (subst uri; mark_lia).
  pose proof (zlen_nonneg scheme). pose proof (zlen_nonneg path). pose proof (zlen_nonneg t).
  pose proof (zlen_nonneg (authority user host port)).
  assert (uri = (scheme ++ lit ":") ++ lit "//" ++ authority user host port ++ "/"%char :: path ++ t) as E1
    by (subst uri; apps).
  assert (uri = (scheme ++ lit "://") ++ authority user host port ++ "/"%char :: path ++ t) as E2
    by (subst uri; apps).
  clearbody uri. unfold _parseAuthority.
  replace (find_str uri (lit "//") 0) with (Ok (zlen scheme + 1)).
  2:{ rewrite E1, find_slashes_ok; [|by rewrite <- E1|rewrite <- E1; lia|].
      - f_equal. mark_lia.
      - rewrite not_elem_of_app. split; [marks|compute_done]. }
  cbn [bind]. replace (_ =? -1) with false by lia.
  rewrite (wrapS_small 32), (wrapU_small 32 (zlen scheme + 1 + 2)) by (change (2 ^ (32 - 1)) with (2 ^ 31); lia).
  assert (zlen (scheme ++ lit "://") = zlen scheme + 3) as Elp by mark_lia.
  rewrite (find_char_hit_at uri (scheme ++ lit "://") (authority user host port) "/" (path ++ t));
    [|exact E2|lia|done|lia|by apply free_of_authority].
  cbn [bind]. rewrite Elp. replace (_ =? -1) with false by lia.
  pose proof (user_part_ok u uri (scheme ++ lit "://") user (host ++ after (lit ":") (port_text port))
    ("/"%char :: path ++ t) (zlen scheme + 1 + 2) (zlen scheme + 3 + zlen (authority user host port))
    (zlen scheme + 1)) as HU.
  etransitivity; [symmetry; apply bind_assoc|]. rewrite HU; clear HU; [|rewrite E2; unfold authority; apps|lia| | |done|done|done| ].
  - cbn [bind]. unfold with_authority. etransitivity; [apply (host_part_ok _ _ (scheme ++ lit "://" ++ before user (lit "@"))
      host port ("/"%char :: path) t)|]; [rewrite E2; unfold authority; apps|done|mark_lia| |done|done|done|done|done|done].
    unfold authority. mark_lia.
  - exists (scheme ++ lit ":"), (lit "//"). split_and!; [apps|mark_lia|compute_done].
  - unfold authority. rewrite Elp. done.
  - rewrite not_elem_of_app. split; [marks|].
    destruct (after_cases (lit ":") (port_text port)) as [[_ ->]|[_ ->]]; rewrite ?not_elem_of_app;
      [apply not_elem_of_nil|split; [compute_done|marks]].
Qed.

(** What [_parsePath] makes of a path, a query and a fragment: with both a query and a fragment, the
    path runs to the # and the query to the end. *)
Definition parsed_path (path query fragment : str) : str :=
  if decide (query = []) then path
  else if decide (fragment = []) then path else path ++ lit "?" ++ query.
Definition parsed_query (query fragment : str) : str :=
  if decide (query = []) then [] else query ++ after (lit "#") fragment.

(** [_parsePath] on a path with or without a query and a fragment. *)
Section parsePath.
Context (u : URI) (uri pre path query fragment : str).
Hypothesis Hf : nul_free uri.
Hypothesis Hl : zlen uri < 2 ^ 31 - 1.
Hypothesis Hne : path <> [].
Hypothesis Hp : free_of (lit "?#") path.
Hypothesis Hq : free_of (lit "#") query.
Hypothesis Hg : free_of (lit "?") fragment.

Lemma path_marks :
  ("?"%char ∉ path) /\ ("#"%char ∉ path) /\ ("#"%char ∉ query) /\ ("?"%char ∉ fragment).
Proof. split_and!; marks. Qed.

Lemma find_char_from c rest : uri = pre ++ rest -> find_char uri c (u32 (zlen pre)) = find_char uri c (zlen pre).
Proof.
  intros ->. rewrite wrapU_small; [done|]. pose proof (zlen_nonneg pre). pose proof (zlen_nonneg rest). zlen_lia.
Qed.

Ltac lengths E :=
  pose proof (f_equal zlen E) as El; autorewrite with zlen in El;
  try change (zlen (lit "?")) with 1 in El; try change (zlen (lit "#")) with 1 in El;
  pose proof (zlen_nonneg pre); pose proof (zlen_nonneg query); pose proof (zlen_nonneg fragment);
  assert (0 < zlen path) by (destruct path; [done|zlen_lia]);
  destruct path_marks as (Hp1 & Hp2 & Hq1 & Hg1);
  unfold _parsePath, part; cbv zeta; rewrite !(find_char_from _ _ E);
  rewrite !(wrapS_small 32 (zlen uri)) by (change (2 ^ (32 - 1)) with (2 ^ 31); lia).

Lemma parsePath_plain :
  uri = pre ++ path ->
  exists e, _parsePath u uri (zlen pre) true =
    Ok (mkURI (_str u) (_scheme u) (_user u) (_host u) path (_query u) (_fragment u) (_port u), e).
Proof.
  intros E. lengths E.
  rewrite !(find_char_miss_at uri pre path) by (done || rewrite E, ?app_nil_r; done).
  cbn [bind]. replace (0 <=? -1) with false by lia. replace (0 <? -1) with false by lia. cbn [bind].
  rewrite (substr_at uri pre path []) by (done || lia || by rewrite app_nil_r).
  cbn [bind]. by eexists.
Qed.

Lemma parsePath_fragment :
  uri = pre ++ path ++ lit "#" ++ fragment -> fragment <> [] ->
  exists e, _parsePath u uri (zlen pre) true =
    Ok (mkURI (_str u) (_scheme u) (_user u) (_host u) path (_query u) fragment (_port u), e).
Proof.
  intros E Hn. lengths E.
  rewrite (find_char_miss_at uri pre (path ++ lit "#" ++ fragment) "?"); [|done..|].
  2:{ rewrite !not_elem_of_app. split_and!; [done|compute_done|done]. }
  rewrite (find_char_hit_at uri pre path "#" fragment) by (done || lia).
  cbn [bind]. replace (0 <=? -1) with false by lia. replace (0 <? _) with true by lia. cbn [bind].
  rewrite (substr_at uri pre path (lit "#" ++ fragment)) by (done || lia).
  cbn [bind]. replace (0 <=? _) with true by lia. replace (_ <? -1) with false by lia.
  rewrite (substr_at uri (pre ++ path ++ lit "#") fragment []) by first [done | mark_lia | rewrite E, ?app_nil_r; apps].
  cbn [bind]. by eexists.
Qed.

Lemma parsePath_query :
  uri = pre ++ path ++ lit "?" ++ query -> query <> [] -> _query u = [] ->
  exists e, _parsePath u uri (zlen pre) true =
    Ok (mkURI (_str u) (_scheme u) (_user u) (_host u) path query (_fragment u) (_port u), e).
Proof.
  intros E Hn Hu. lengths E.
  rewrite (find_char_hit_at uri pre path "?" query) by (done || lia).
  rewrite (find_char_miss_at uri pre (path ++ lit "?" ++ query) "#"); [|done..|].
  2:{ rewrite !not_elem_of_app. split_and!; [done|compute_done|done]. }
  cbn [bind]. replace (0 <=? zlen pre + zlen path) with true by lia. replace (_ <? -1) with false by lia.
  rewrite (substr_at uri (pre ++ path ++ lit "?") query []) by first [done | mark_lia | rewrite E, ?app_nil_r; apps].
  cbn [bind]. rewrite (substr_at uri pre path (lit "?" ++ query)) by (done || lia).
  cbn [bind]. by eexists.
Qed.

Lemma parsePath_query_fragment :
  uri = pre ++ path ++ lit "?" ++ query ++ lit "#" ++ fragment -> fragment <> [] ->
  exists e, _parsePath u uri (zlen pre) true =
    Ok (mkURI (_str u) (_scheme u) (_user u) (_host u) (path ++ lit "?" ++ query)
          (query ++ lit "#" ++ fragment) fragment (_port u), e).
Proof.
  intros E Hn. lengths E.
  rewrite (find_char_hit_at uri pre path "?" (query ++ lit "#" ++ fragment)) by (done || lia).
  rewrite (find_char_hit_at uri pre (path ++ lit "?" ++ query) "#" fragment); [|rewrite E; apps|done..|lia|].
  2:{ rewrite !not_elem_of_app. split_and!; [done|compute_done|done]. }
  cbn [bind]. autorewrite with zlen. change (zlen (lit "?")) with 1.
  replace (0 <=? zlen pre + zlen path) with true by lia. replace (_ <? zlen pre + _) with true by lia.
  rewrite (substr_at uri (pre ++ path ++ lit "?") (query ++ lit "#" ++ fragment) [])
    by first [done | mark_lia | destruct query; done | rewrite E, ?app_nil_r; apps].
  cbn [bind]. rewrite (substr_at uri pre (path ++ lit "?" ++ query) (lit "#" ++ fragment))
    by first [done | mark_lia | destruct path; done | rewrite E; apps].
  cbn [bind]. replace (0 <=? _) with true by lia. replace (_ <? zlen pre + zlen path + 1) with false by lia.
  rewrite (substr_at uri (pre ++ path ++ lit "?" ++ query ++ lit "#") fragment [])
    by first [done | mark_lia | rewrite E, ?app_nil_r; apps].
  cbn [bind]. by eexists.
Qed.
End parsePath.

Lemma _parsePath_ok u pre path query fragment :
  let uri := pre ++ path ++ after (lit "?") query ++ after (lit "#") fragment in
  nul_free uri -> zlen uri < 2 ^ 31 - 1 -> path <> [] -> free_of (lit "?#") path ->
  free_of (lit "#") query -> free_of (lit "?") fragment -> _query u = [] -> _fragment u = [] ->
  exists e, _parsePath u uri (zlen pre) true =
    Ok (mkURI (_str u) (_scheme u) (_user u) (_host u) (parsed_path path query fragment)
          (parsed_query query fragment) fragment (_port u), e).
Proof.
  intros uri Hf Hl Hne Hp Hq Hg Hu1 Hu2. unfold parsed_path, parsed_query.
  assert (uri = pre ++ path ++ after (lit "?") query ++ after (lit "#") fragment) as E by done.
  clearbody uri.
  destruct (after_cases (lit "?") query) as [[Hqe Eq]|[Hqn Eq]],
    (after_cases (lit "#") fragment) as [[Hfe Ef]|[Hfn Ef]]; rewrite Eq, Ef in E; rewrite ?Ef; clear Eq Ef;
    repeat (case_decide; try done); rewrite ?app_nil_r in E.
  - subst query fragment. destruct (parsePath_plain u uri pre path [] []) as [e ->]; try done.
    eexists. by rewrite Hu1, Hu2.
  - subst query. destruct (parsePath_fragment u uri pre path [] fragment) as [e ->]; try done.
    eexists. by rewrite Hu1.
  - subst fragment. destruct (parsePath_query u uri pre path query []) as [e ->]; try done.
    eexists. by rewrite Hu2, app_nil_r.
  - destruct (parsePath_query_fragment u uri pre path query fragment) as [e ->]; try done.
    by eexists.
Qed.

Lemma _generateString_ok u :
  _scheme u <> [] -> _host u <> [] -> _path u <> [] -> 0 <= _port u < 2 ^ 31 ->
  _generateString u =
    Ok (mkURI (uri_text (_scheme u) (_user u) (_host u) (_port u) (_path u) (_query u) (_fragment u))
          (_scheme u) (_user u) (_host u) (_path u) (_query u) (_fragment u) (_port u)).
Proof.
  intros Hs Hh Hp Hport. unfold _generateString, uri_text, authority, before, after, port_text. cbv zeta.
  rewrite !(bool_decide_eq_false_2 (_scheme u = [])), !(bool_decide_eq_false_2 (_host u = [])),
    !(bool_decide_eq_false_2 (_path u = [])) by done.
  destruct (Z.ltb_spec 0 (_port u)) as [Hpos|Hpos];
    [destruct (port_text_ok (_port u)) as (p & -> & Hpne & _); [lia|]; cbn [bind];
     rewrite (decide_False (P := p = [])) by done|rewrite (decide_True (P := [] = [])) by done; cbn [bind]].
  all: do 2 f_equal; rewrite !bool_decide_decide;
    destruct (decide (_user u = [])), (decide (_query u = [])), (decide (_fragment u = []));
    rewrite <- ?app_assoc, ?app_nil_r; reflexivity.
Qed.

(** [set] on the text of a URI: every part is found, and [asString] gives the text of those. *)
Lemma URI_set_ok scheme user host port path query fragment :
  well_formed scheme user host port path query fragment ->
  let path' := parsed_path path query fragment in
  let query' := parsed_query query fragment in
  URI_set (uri_text scheme user host port path query fragment) true =
    Ok (mkURI (uri_text scheme user host port path' query' fragment)
          scheme user host path' query' fragment port).
Proof.
  intros (Hs & Hs' & Hu & Hh & Hh' & Hp & Hpath & Hpath' & Hq & Hg & Hf & Hl) path' query'.
  unfold URI_set. unfold uri_text in Hf, Hl |- * at 1 2 3.
  set (t := path ++ after (lit "?") query ++ after (lit "#") fragment) in *.
  rewrite _parseScheme_ok by done. cbn [bind _str _scheme _user _host _path _query _fragment _port].
  unfold t in *. rewrite _parseAuthority_ok by done. cbn [bind].
  pose proof (zlen_nonneg scheme). pose proof (zlen_nonneg (authority user host port)).
  replace (negb _) with true by lia.
  edestruct (_parsePath_ok (with_authority (mkURI [] scheme [] [] [] [] [] 0) user host port)
    (scheme ++ lit "://" ++ authority user host port) path query fragment) as [e E]; try done.
  { by rewrite <- !app_assoc. }
  { by rewrite <- !app_assoc. }
  { by destruct path. }
  replace (zlen scheme + 3 + _) with (zlen (scheme ++ lit "://" ++ authority user host port)) by mark_lia.
  rewrite <- !app_assoc in E. rewrite E. cbn [bind with_authority _str _scheme _user _host _path _query _fragment _port].
  assert ((if 0 <? port then port else 0) = port) as -> by (destruct (Z.ltb_spec 0 port); lia).
  replace (if decide (user = []) then [] else user) with user by (by case_decide).
  rewrite _generateString_ok; try done. unfold path', parsed_path. simpl. repeat case_decide; by destruct path.
Qed.

(** C14: parsing finds every part of a URI that has a query or a fragment but not both, and
    [asString] gives the text back. *)
Theorem uri_parse scheme user host port path query fragment :
  well_formed scheme user host port path query fragment -> query = [] \/ fragment = [] ->
  let text := uri_text scheme user host port path query fragment in
  URI_set text true = Ok (mkURI text scheme user host path query fragment port).
Proof.
  intros Hw Hqf text. subst text. rewrite URI_set_ok by done.
  unfold parsed_path, parsed_query.
  destruct Hqf as [-> | ->]; [done|]. repeat case_decide; subst; try done. by rewrite app_nil_r.
Qed.

(** With both a query and a fragment, the path takes the query in, the query takes the fragment
    in, and [asString] repeats both. *)
Theorem uri_query_and_fragment scheme user host port path query fragment :
  well_formed scheme user host port path query fragment -> query <> [] -> fragment <> [] ->
  exists u, URI_set (uri_text scheme user host port path query fragment) true = Ok u /\
    _path u = path ++ lit "?" ++ query /\ _query u = query ++ lit "#" ++ fragment /\
    _fragment u = fragment /\
    asString u = uri_text scheme user host port path query [] ++
                 lit "?" ++ query ++ lit "#" ++ fragment ++ lit "#" ++ fragment.
Proof.
  intros Hw Hq Hg. eexists. split; [by apply URI_set_ok|].
  unfold asString, parsed_path, parsed_query, after. cbn [_path _query _fragment _str].
  split_and!; unfold uri_text, after; repeat case_decide; try done; [by destruct query|].
  rewrite <- !app_assoc. reflexivity.
Qed.

(** ** Witnesses *)

Lemma uri_roundtrip_witness :
  exists e, Encode (lit "a b+c%/d") [] ENCODE_EXCLUDE_HOST = Ok e /\ Decode e [] = lit "a b+c%/d".
Proof. apply uri_roundtrip; [by repeat constructor|by repeat constructor|compute_done|compute_done]. Defined.

Ltac well_formed :=
  unfold well_formed; split_and!; first [done | lia | by repeat constructor | repeat constructor; compute_done].

Lemma uri_parse_witness :
  URI_set (lit "http://me:pw@srl.org:8080/a/b?x=1&y=@:") true =
    Ok (mkURI (lit "http://me:pw@srl.org:8080/a/b?x=1&y=@:") (lit "http") (lit "me:pw") (lit "srl.org")
          (lit "/a/b") (lit "x=1&y=@:") [] 8080).
Proof.
  apply (uri_parse (lit "http") (lit "me:pw") (lit "srl.org") 8080 (lit "/a/b") (lit "x=1&y=@:") []);
    [well_formed|by right].
Defined.

Lemma uri_query_and_fragment_witness :
  exists u, URI_set (lit "http://srl.org/p?q#f") true = Ok u /\
    _path u = lit "/p?q" /\ _query u = lit "q#f" /\ _fragment u = lit "f" /\
    asString u = lit "http://srl.org/p?q?q#f#f".
Proof.
  apply (uri_query_and_fragment (lit "http") [] (lit "srl.org") 0 (lit "/p") (lit "q") (lit "f"));
    [well_formed|done|done].
Defined.
