(* ===== verification/UriQuery.v ===== *)
(** * The query fields of a URI (src/cpp/src/net/URI.cpp)

    [getQueryMap] parses the query into a dictionary when that is empty, [addQueryField] adds to it,
    and [asString] writes the query again when the number of fields differs.  Several values of one key
    are kept in one string, joined by ['&'].  The dictionary is any [Mapping]. *)

From S2P Require Import Prelude CString Str StrConv StrMem URI Dictionary DictTree DictSpec Mapping.

Section query.
Context {D : Type} `{MapOps D str str}.

(** The members [_query_map] and the others. *)
Record UriQ := mkUriQ { parts : URI; _query_map : D }.

Definition UriQ_set (u : UriQ) (uri : str) (is_encoded : bool) : res UriQ :=
  let? d := map_clear (_query_map u) in
  let? p := URI_set uri is_encoded in
  Ok (mkUriQ p d).

(** [_query_map[key] += '&'; _query_map[key] += value;] *)
Definition append_value (key value : str) (d : D) : res D :=
  let? (v, d) := map_at key d in
  let? d := map_put key (push v "&") d in
  let? (v, d) := map_at key d in
  map_put key (v ++ value) d.

Fixpoint query_loop (_query : str) (d : D) (spos : Z) (n : nat) : res D :=
  match n with
  | O => Ok d
  | S n =>
      let? epos := find_char _query "=" (u32 spos) in
      if epos =? -1 then Ok d
      else
        let? field := substr _query (u32 spos) (u32 (epos - spos)) in
        let spos := epos + 1 in
        let? epos := find_char _query "&" (u32 spos) in
        let epos := if epos =? -1 then s32 (zlen _query) else epos in
        let? has := map_hasKey field d in
        let? value := substr _query (u32 spos) (u32 (epos - spos)) in
        let? d := if has : bool then append_value field value d else map_put field value d in
        query_loop _query d (epos + 1) n
  end.

Definition getQueryMap (u : UriQ) : res UriQ :=
  let? n := map_size (_query_map u) in
  if (n =? 0) && (0 <? zlen (_query (parts u))) then
    let? c := count_char (_query (parts u)) "&" in
    let fields := u32 (c + 1) in
    let? d := query_loop (_query (parts u)) (_query_map u) 0 (Z.to_nat fields) in
    Ok (mkUriQ (parts u) d)
  else Ok u.

Definition addQueryField (u : UriQ) (key value : str) : res UriQ :=
  let? u := getQueryMap u in
  let? encoded_value := Encode value [] (lit " .~_-") in
  let encoded_value := spec (OReplaceChar " " "+") encoded_value in
  let? has := map_hasKey key (_query_map u) in
  let? d := if has : bool then append_value key encoded_value (_query_map u)
            else map_put key encoded_value (_query_map u) in
  Ok (mkUriQ (parts u) d).

(** The values from the [v]-th on of the field [key]. *)
Fixpoint more_values (_query key value : str) (v : Z) (n : nat) : res str :=
  match n with
  | O => Ok _query
  | S n =>
      let? s := section_char value "&" v true in
      more_values (push (push _query "&" ++ key) "=" ++ s) key value (v + 1) n
  end.

(** The loop over the dictionary that writes the query. *)
Fixpoint regenerate (_query : str) (first : bool) (kvs : list (str * str)) : res str :=
  match kvs with
  | [] => Ok _query
  | (key, value) :: kvs =>
      let _query := if first then _query else push _query "&" in
      let _query := push (_query ++ key) "=" in
      let? value_count := count_char value "&" in
      let? _query :=
        if 0 <? value_count then
          let? s := section_char value "&" 0 true in
          more_values (_query ++ s) key value 1 (Z.to_nat value_count)
        else Ok (_query ++ value) in
      regenerate _query false kvs
  end.

Definition with_query (u : URI) (q : str) : URI :=
  mkURI (_str u) (_scheme u) (_user u) (_host u) (_path u) q (_fragment u) (_port u).

Definition asString (u : UriQ) : res (str * UriQ) :=
  let? n := map_size (_query_map u) in
  if n =? 0 then Ok (_str (parts u), u)
  else
    let? c := count_char (_query (parts u)) "&" in
    if u32 (c + 1) =? n then Ok (_str (parts u), u)
    else
      let? kvs := map_items (_query_map u) in
      let? q := regenerate [] true kvs in
      let? p := _generateString (with_query (parts u) q) in
      Ok (_str p, mkUriQ p (_query_map u)).
End query.
Arguments UriQ D : clear implicits.
Arguments mkUriQ {D} _ _.
Arguments parts {D} _.
Arguments _query_map {D} _.

Abbreviation Strings := (Dictionary str str).

Example query_1 :
  (let? p := URI_set (lit "http://h/p?a=1&b=2&a=3") true in
   let? u := getQueryMap (mkUriQ p (map_new : Strings)) in
   let? u := addQueryField u (lit "c") (lit "x y") in
   let? kvs := map_items (_query_map u) in
   let? (s, u) := asString u in
   Ok (kvs, s)) =
  Ok ([(lit "a", lit "1&3"); (lit "b", lit "2"); (lit "c", lit "x+y")], lit "http://h/p?a=1&b=2&a=3").
Proof. vm_compute. reflexivity. Qed.

(** ** Parsing a query *)

(** A field of a query and the query with some fields. *)
Definition field_text (kv : str * str) : str := kv.1 ++ "="%char :: kv.2.
Definition query_text (fields : list (str * str)) : str := join "&" (field_text <$> fields).

Ltac q_lia :=
  autorewrite with zlen in *; change (zlen (lit "=")) with 1 in *; change (zlen (lit "&")) with 1 in *; zlen_lia.

Lemma substr_sub s a b t pos n :
  s = a ++ b ++ t -> pos = zlen a -> n = zlen b -> nul_free s -> zlen s < 2 ^ 31 -> b <> [] ->
  substr s pos n = Ok b.
Proof.
  intros E Ep En Hf Hl Hb. pose proof (f_equal zlen E) as El. rewrite !zlen_app in El.
  pose proof (zlen_nonneg a). pose proof (zlen_nonneg b). pose proof (zlen_nonneg t).
  rewrite <- (substr_at s a b t pos n) by done. rewrite !wrapU_small by lia. done.
Qed.

(** What the parser can tell apart. *)
Definition good_field (kv : str * str) : Prop :=
  kv.1 <> [] /\ free_of (lit "=&") kv.1 /\ kv.2 <> [] /\ free_of (lit "&") kv.2.

(** The value of a key that comes again goes behind the first, after an ['&']. *)
Definition merge (kvs : list (str * str)) (kv : str * str) : list (str * str) :=
  match lookup kv.1 kvs with
  | Some v => update kv.1 (v ++ "&"%char :: kv.2) kvs
  | None => kvs ++ [kv]
  end.

Lemma query_text_cons kv fields :
  query_text (kv :: fields) = kv.1 ++ "="%char :: kv.2 ++ (if decide (fields = []) then [] else "&"%char :: query_text fields).
Proof.
  unfold query_text. destruct fields as [|kv' fields]; cbn [fmap list_fmap join].
  - unfold field_text. by rewrite app_nil_r.
  - rewrite decide_False by done. unfold field_text at 1. by rewrite <- app_assoc.
Qed.

Section laws.
Context {D : Type} `{MapOps D str str, !Mapping D str str}.
Implicit Types (d : D) (kvs : list (str * str)).

Lemma append_value_ok key value d kvs v :
  stands_for d kvs -> lookup key kvs = Some v ->
  exists d', append_value key value d = Ok d' /\ stands_for d' (update key (v ++ "&"%char :: value) kvs).
Proof.
  intros Hd Hv. unfold append_value.
  destruct (at_law key d kvs Hd) as (d1 & -> & Hd1). rewrite Hv in *. cbn [bind].
  destruct (put_law key (push v "&") d1 kvs Hd1) as (d2 & -> & Hd2). cbn [bind].
  destruct (at_law key d2 _ Hd2) as (d3 & -> & Hd3). rewrite lookup_update in *. cbn [bind].
  destruct (put_law key (push v "&" ++ value) d3 _ Hd3) as (d4 & -> & Hd4). exists d4. split; [done|].
  rewrite update_update in Hd4. unfold push in Hd4. rewrite decide_False in Hd4 by done.
  by rewrite <- app_assoc in Hd4.
Qed.

Lemma merge_ok key value d kvs :
  stands_for d kvs ->
  exists d', (let? has := map_hasKey key d in
              if has : bool then append_value key value d else map_put key value d) = Ok d' /\
             stands_for d' (merge kvs (key, value)).
Proof.
  intros Hd. rewrite (hasKey_law key d kvs Hd). unfold mem, merge. cbn [bind fst snd].
  destruct (lookup key kvs) as [v|] eqn:Ev; [by apply append_value_ok|].
  destruct (put_law key value d kvs Hd) as (d' & -> & Hd'). exists d'. split; [done|]. by rewrite update_none in Hd'.
Qed.

Lemma query_loop_ok fields : forall pre d kvs,
  nul_free (pre ++ query_text fields) -> zlen (pre ++ query_text fields) < 2 ^ 31 - 1 ->
  Forall good_field fields -> stands_for d kvs ->
  exists d', query_loop (pre ++ query_text fields) d (zlen pre) (length fields) = Ok d' /\
    stands_for d' (foldl merge kvs fields).
Proof.
  induction fields as [|[k v] fields IH]; intros pre d kvs Hf Hl Hg Hd; [by exists d|].
  apply Forall_cons_iff in Hg as [(Hk0 & Hk & Hv0 & Hv) Hg]. cbn [fst snd] in *.
  rewrite query_text_cons in *. cbn [fst snd] in *. cbn [query_loop length].
  set (rest := if decide (fields = []) then [] else _) in *. set (q := pre ++ k ++ _) in *.
  pose proof (zlen_nonneg pre). pose proof (zlen_nonneg k). pose proof (zlen_nonneg v). pose proof (zlen_nonneg rest).
  assert (zlen q = zlen pre + zlen k + 1 + zlen v + zlen rest) as El by (subst q; zlen_lia).
  rewrite wrapU_small by lia.
  rewrite (find_char_hit_at q pre k "=" (v ++ rest)); [|done|done|done|lia|marks]. cbn [bind].
  replace (_ =? -1) with false by lia.
  rewrite (wrapU_small 32 (_ - _)) by lia.
  rewrite (substr_sub q pre k ("="%char :: v ++ rest)) by (done || lia). cbn [bind].
  rewrite (wrapU_small 32 (_ + 1)) by lia.
  assert (exists e, find_char q "&" (zlen pre + zlen k + 1) = Ok e /\
    (if e =? -1 then s32 (zlen q) else e) = zlen pre + zlen k + 1 + zlen v) as (e & -> & Ee).
  { subst rest q. case_decide as Hr.
    - exists (-1). split; [|change (-1 =? -1) with true; cbv iota; change (zlen (@nil char)) with 0 in *;
        rewrite wrapS_small; change (2 ^ (32 - 1)) with (2 ^ 31); lia].
      apply (find_char_miss_at _ (pre ++ k ++ lit "=") v); [by rewrite app_nil_r, <- !app_assoc|q_lia|done|done|marks].
    - eexists. split.
      + apply (find_char_hit_at _ (pre ++ k ++ lit "=") v "&" (query_text fields));
          [by rewrite <- !app_assoc|q_lia|done|lia|marks].
      + replace (_ =? -1) with false by zlen_lia. q_lia. }
  cbn [bind]. rewrite Ee.
  rewrite (wrapU_small 32 (_ - _)) by lia.
  rewrite (substr_sub q (pre ++ k ++ lit "=") v rest); [|subst q; by rewrite <- !app_assoc|q_lia|lia|done|lia|done].
  cbn [bind]. destruct (merge_ok k v d kvs Hd) as (d' & E & Hd'). 
  destruct (map_hasKey k d) as [has| | |] eqn:Eh; try done. cbn [bind] in E |- *. rewrite E. cbn [bind foldl].
  destruct (decide (fields = [])) as [->|Hr]; [by exists d'|].
  subst rest q. replace (pre ++ k ++ _) with ((pre ++ k ++ lit "=" ++ v ++ lit "&") ++ query_text fields) in *
    by (by rewrite <- !app_assoc).
  replace (_ + 1 + zlen v + 1) with (zlen (pre ++ k ++ lit "=" ++ v ++ lit "&")) by q_lia.
  by apply IH.
Qed.
End laws.

(** ** Writing a query *)

(** The fields of a key with its values, and the entry of the dictionary. *)
Definition expand (g : str * list str) : list (str * str) := (fun v => (g.1, v)) <$> g.2.
Definition entry_of (g : str * list str) : str * str := (g.1, join "&" g.2).
Definition good_group (g : str * list str) : Prop :=
  g.2 <> [] /\ Forall (fun v => good_field (g.1, v)) g.2 /\ nul_free (join "&" g.2) /\ zlen (join "&" g.2) < 2 ^ 31 - 1.

Lemma query_text_app f1 f2 :
  f1 <> [] -> f2 <> [] -> query_text (f1 ++ f2) = query_text f1 ++ "&"%char :: query_text f2.
Proof.
  intros H1 H2. induction f1 as [|kv f1 IH]; [done|]. cbn [app]. rewrite !query_text_cons.
  rewrite (decide_False (P := f1 ++ f2 = [])) by by destruct f1.
  destruct (decide (f1 = [])) as [->|Hn]; [cbn; rewrite <- ?app_assoc; cbn; rewrite ?app_nil_r; done|].
  rewrite IH by done. cbn. rewrite <- ?app_assoc. cbn. by rewrite <- ?app_assoc.
Qed.

Lemma push_char s c : c <> NUL -> push s c = s ++ [c].
Proof. intros Hc. unfold push. by rewrite decide_False. Qed.

Lemma good_values k vs : Forall (fun v => good_field (k, v)) vs -> Forall (fun v => "&"%char ∉ v) vs.
Proof. intros H. rewrite Forall_forall in *. intros v Hin. destruct (H v Hin) as (_ & _ & _ & Hv). apply (free_of_not_in (lit "&") v); [exact Hv|compute_done]. Qed.

Lemma section_value k vs i v :
  good_group (k, vs) -> vs !! i = Some v -> Z.of_nat i < 2 ^ 31 ->
  section_char (join "&" vs) "&" (Z.of_nat i) true = Ok v.
Proof.
  intros (Hne & Hg & Hf & Hl) Hi Hb. cbn [fst snd] in *.
  rewrite section_char_join; [|done|done|by eapply good_values|done|done|done].
  rewrite Hi. rewrite Forall_lookup in Hg. destruct (Hg i v Hi) as (_ & _ & Hv & _). by rewrite decide_False.
Qed.

Lemma more_values_ok k vs n : forall q i,
  good_group (k, vs) -> (i + n = length vs)%nat -> q <> [] \/ (0 < i)%nat ->
  more_values q k (join "&" vs) (Z.of_nat i) n =
  Ok (q ++ flat_map (fun v => "&"%char :: field_text (k, v)) (drop i vs)).
Proof.
  induction n as [|n IH]; intros q i Hg Hn Hq; cbn [more_values].
  { rewrite drop_ge by lia. by rewrite app_nil_r. }
  destruct (lookup_lt_is_Some_2 vs i) as [v Hv]; [lia|].
  assert (Z.of_nat i < 2 ^ 31).
  { destruct Hg as (_ & _ & _ & Hl). cbn [snd] in Hl. pose proof (length_join "&" vs). unfold zlen in Hl. lia. }
  rewrite (section_value k vs i v) by done. cbn [bind].
  replace (Z.of_nat i + 1) with (Z.of_nat (S i)) by lia.
  rewrite IH by (done || lia). f_equal. rewrite (drop_S _ _ _ Hv). cbn [flat_map].
  rewrite !push_char by done. unfold field_text. rewrite <- !app_assoc. cbn. by rewrite <- !app_assoc.
Qed.

Lemma flat_map_values k v vs :
  field_text (k, v) ++ flat_map (fun v => "&"%char :: field_text (k, v)) vs = query_text (expand (k, v :: vs)).
Proof.
  revert v. induction vs as [|v' vs IH]; intros v.
  - unfold query_text. cbn. by rewrite app_nil_r.
  - cbn [flat_map]. unfold expand, query_text in *. cbn [fmap list_fmap join fst snd] in *. rewrite <- IH.
    cbn. done.
Qed.

Lemma regenerate_group q k vs :
  good_group (k, vs) ->
  (let? value_count := count_char (join "&" vs) "&" in
   if 0 <? value_count then
     let? s := section_char (join "&" vs) "&" 0 true in
     more_values (push (q ++ k) "=" ++ s) k (join "&" vs) 1 (Z.to_nat value_count)
   else Ok (push (q ++ k) "=" ++ join "&" vs)) = Ok (q ++ query_text (expand (k, vs))).
Proof.
  intros Hg. pose proof Hg as (Hne & Hgo & Hf & Hl). cbn [fst snd] in *.
  rewrite count_char_spec, occurrences_join by (done || lia || by eapply good_values). cbn [bind].
  destruct vs as [|v vs]; [done|]. rewrite <- flat_map_values.
  assert (push (q ++ k) "=" ++ v = q ++ field_text (k, v)) as E.
  { rewrite push_char by done. unfold field_text. by rewrite <- !app_assoc. }
  destruct vs as [|v' vs].
  - cbn. by rewrite E, app_nil_r.
  - replace (0 <? _) with true by zlen_lia.
    rewrite (section_value k _ 0 v) by done. cbn [bind].
    replace (Z.to_nat _) with (S (length vs)) by (unfold zlen; simpl; lia).
    rewrite (more_values_ok k _ _ _ 1) by (done || simpl; lia). cbn [drop]. by rewrite E, <- app_assoc.
Qed.

Lemma regenerate_ok groups : forall q,
  Forall good_group groups ->
  regenerate q false (entry_of <$> groups) =
    Ok (q ++ if decide (groups = []) then [] else "&"%char :: query_text (flat_map expand groups)).
Proof.
  induction groups as [|[k vs] groups IH]; intros q Hg; [by cbn; rewrite app_nil_r|].
  apply Forall_cons_iff in Hg as [Hkv Hg]. cbn [fmap list_fmap regenerate entry_of fst snd].
  pose proof (regenerate_group (push q "&") k vs Hkv) as E. 
  destruct (count_char (join "&" vs) "&") as [c| | |]; try done. cbn [bind] in E |- *. rewrite E. cbn [bind].
  rewrite IH by done. f_equal. rewrite push_char by done. cbn [flat_map].
  assert (expand (k, vs) <> []) by (destruct Hkv as (? & _); by destruct vs).
  rewrite <- !app_assoc. f_equal. destruct (decide (groups = [])) as [->|Hn]; cbn [app flat_map]; [by rewrite !app_nil_r|].
  rewrite query_text_app; [done|done|].
  destruct groups as [|[k' vs'] groups]; [done|]. apply Forall_cons_iff in Hg as [(? & _) _]. by destruct vs'.
Qed.

(** What [asString] writes for the dictionary. *)
Lemma regenerate_all groups :
  Forall good_group groups -> groups <> [] ->
  regenerate [] true (entry_of <$> groups) = Ok (query_text (flat_map expand groups)).
Proof.
  intros Hg Hn. destruct groups as [|[k vs] groups]; [done|].
  apply Forall_cons_iff in Hg as [Hkv Hg]. cbn [fmap list_fmap regenerate entry_of fst snd].
  pose proof (regenerate_group [] k vs Hkv) as E.
  destruct (count_char (join "&" vs) "&") as [c| | |]; try done. cbn [bind] in E |- *. rewrite E. cbn [bind].
  rewrite regenerate_ok by done. cbn [app flat_map].
  assert (expand (k, vs) <> []) by (destruct Hkv as (? & _); by destruct vs).
  destruct (decide (groups = [])) as [->|Hn']; [by rewrite !app_nil_r|].
  rewrite query_text_app; [done|done|].
  destruct groups as [|[k' vs'] groups]; [done|]. apply Forall_cons_iff in Hg as [(? & _) _]. by destruct vs'.
Qed.

(** Parsing what was written gives the dictionary back, when no two keys collide. *)
Lemma update_last (k v w : str) kvs : lookup k kvs = None -> update k w (kvs ++ [(k, v)]) = kvs ++ [(k, w)].
Proof.
  induction kvs as [|kv kvs IH]; cbn.
  - intros _. unfold same_hash. cbn. by rewrite Z.eqb_refl.
  - destruct (same_hash k kv); [done|]. intros E. by rewrite IH.
Qed.

Lemma lookup_last (k v : str) kvs : lookup k kvs = None -> lookup k (kvs ++ [(k, v)]) = Some v.
Proof. intros E. rewrite lookup_app, E. cbn. unfold same_hash. cbn. by rewrite Z.eqb_refl. Qed.

Lemma merge_values k vs : forall w kvs,
  lookup k kvs = None -> foldl merge (kvs ++ [(k, w)]) (expand (k, vs)) = kvs ++ [(k, join "&" (w :: vs))].
Proof.
  induction vs as [|v vs IH]; intros w kvs Hk; [done|].
  unfold expand in *. cbn [fmap list_fmap foldl fst snd]. unfold merge at 2. cbn [fst snd].
  rewrite lookup_last, update_last, IH by done. do 3 f_equal. destruct vs; cbn; by rewrite <- ?app_assoc.
Qed.

Lemma merge_group kvs k vs :
  lookup k kvs = None -> vs <> [] -> foldl merge kvs (expand (k, vs)) = kvs ++ [entry_of (k, vs)].
Proof.
  intros Hk Hn. destruct vs as [|v vs]; [done|]. unfold expand, entry_of. cbn [fmap list_fmap foldl fst snd].
  unfold merge at 2. cbn [fst snd]. rewrite Hk. by apply (merge_values k vs v).
Qed.

Definition distinct (groups : list (str * list str)) : Prop := NoDup (Hasher_String <$> groups.*1).

Lemma merge_all groups : forall kvs,
  Forall (fun g => g.2 <> []) groups ->
  (forall k g, k ∈ kvs.*1 -> g ∈ groups -> Hasher_String k <> Hasher_String g.1) -> distinct groups ->
  foldl merge kvs (flat_map expand groups) = kvs ++ (entry_of <$> groups).
Proof.
  induction groups as [|[k vs] groups IH]; intros kvs Hn Hk Hd; [by rewrite app_nil_r|].
  apply Forall_cons_iff in Hn as [Hv Hn]. cbn [flat_map]. rewrite foldl_app, merge_group; [|by apply lookup_fresh; intros k' Hk'; apply (Hk k' (k, vs)); [|left]|done].
  apply NoDup_cons in Hd as [Hkd Hd]. rewrite IH; [by rewrite <- app_assoc|done| |done].
  intros k' g Hk' Hg. rewrite fmap_app, elem_of_app in Hk'. destruct Hk' as [Hk'|Hk'].
  - apply Hk; [done|by right].
  - cbn in Hk'. apply list_elem_of_singleton in Hk' as ->. intros E. apply Hkd.
    apply list_elem_of_fmap. exists g.1. split; [exact E|]. apply list_elem_of_fmap. by exists g.
Qed.

(** ** The theorems *)

Section theorems.
Context {D : Type} `{MapOps D str str, !Mapping D str str}.
Implicit Types (u : UriQ D).

(** A query of fields [key=value] is parsed into one entry for each key, in order, with the values of
    a repeated key joined by ['&']. *)
Theorem getQueryMap_spec u fields :
  stands_for (_query_map u) [] -> _query (parts u) = query_text fields -> fields <> [] ->
  Forall good_field fields -> nul_free (query_text fields) -> zlen (query_text fields) < 2 ^ 31 - 1 ->
  exists u', getQueryMap u = Ok u' /\ parts u' = parts u /\ stands_for (_query_map u') (foldl merge [] fields).
Proof.
  intros Hd Eq Hne Hg Hf Hl. unfold getQueryMap. rewrite (size_law _ _ Hd), Eq. cbn [bind].
  replace (_ && _) with true.
  2:{ destruct fields as [|kv fields]; [done|]. rewrite query_text_cons. symmetry. apply andb_true_intro.
      split; [done|]. apply Z.ltb_lt. zlen_lia. }
  assert (occurrences "&" (query_text fields) = zlen fields - 1) as Eo.
  { unfold query_text. rewrite occurrences_join.
    - by rewrite zlen_fmap.
    - rewrite Forall_fmap. apply Forall_forall. intros [k v] Hin. rewrite Forall_forall in Hg.
      destruct (Hg _ Hin) as (_ & Hk & _ & Hv). unfold field_text. cbn in *.
      rewrite not_elem_of_app, not_elem_of_cons. split_and!; [marks|done|marks].
    - by destruct fields. }
  rewrite count_char_spec by (done || lia). cbn [bind].
  pose proof (occurrences_le "&" (query_text fields)).
  replace (u32 (_ + 1)) with (zlen fields) by (rewrite wrapU_small; lia).
  unfold zlen at 1. rewrite Nat2Z.id.
  destruct (query_loop_ok fields [] (_query_map u) [] Hf Hl Hg Hd) as (d' & E & Hd').
  cbn [app] in E. change (zlen []) with 0 in E. rewrite E. cbn [bind]. by eexists.
Qed.

Lemma regenerated_ok (p : URI) :
  0 <= _port p < 2 ^ 31 -> exists p', _generateString p = Ok p' /\ _query p' = _query p.
Proof.
  intros Hp. unfold _generateString. destruct (bool_decide (_host p = [])); [by eexists|].
  destruct (Z.ltb_spec 0 (_port p)); [|by eexists].
  destruct (port_text_ok (_port p)) as (s & -> & _); [lia|]. by eexists.
Qed.

(** C37: The text that [asString] writes for the fields, with several values for some keys, is parsed to
    the same fields again. *)
Theorem query_roundtrip u groups :
  stands_for (_query_map u) (entry_of <$> groups) -> groups <> [] -> Forall good_group groups -> distinct groups ->
  nul_free (query_text (flat_map expand groups)) -> zlen (query_text (flat_map expand groups)) < 2 ^ 31 - 1 ->
  zlen groups < 2 ^ 32 ->
  nul_free (_query (parts u)) -> zlen (_query (parts u)) < 2 ^ 31 - 1 -> 0 <= _port (parts u) < 2 ^ 31 ->
  occurrences "&" (_query (parts u)) + 1 <> zlen groups ->
  exists s u', asString u = Ok (s, u') /\ _query (parts u') = query_text (flat_map expand groups) /\
    forall u2, _query (parts u2) = _query (parts u') -> stands_for (_query_map u2) [] ->
    exists u3, getQueryMap u2 = Ok u3 /\ stands_for (_query_map u3) (entry_of <$> groups).
Proof.
  intros Hd Hne Hg Hdis Hf Hl Hlg Hfq Hlq Hport Hn. unfold asString. rewrite (size_law _ _ Hd). cbn [bind].
  rewrite zlen_fmap, (wrapU_small 32 (zlen groups)) by (unfold zlen in *; lia).
  assert (0 < zlen groups) by (destruct groups; [done|zlen_lia]).
  replace (zlen groups =? 0) with false by lia. rewrite count_char_spec by (done || lia). cbn [bind].
  pose proof (occurrences_le "&" (_query (parts u))). rewrite wrapU_small by lia.
  replace (_ + 1 =? _) with false by lia. rewrite (items_law _ _ Hd). cbn [bind].
  rewrite regenerate_all by done. cbn [bind].
  destruct (regenerated_ok (with_query (parts u) (query_text (flat_map expand groups))) Hport) as (p & -> & Ep).
  cbn [bind]. eexists _, _. split; [done|]. cbn [parts]. split; [done|]. intros u2 E2 Hd2. rewrite Ep in E2.
  destruct (getQueryMap_spec u2 (flat_map expand groups)) as (u3 & E3 & _ & Hd3); [done|done| | |done|done|].
  - destruct groups as [|[k vs] groups]; [done|]. apply Forall_cons_iff in Hg as [(? & _) _]. by destruct vs.
  - clear -Hg. induction Hg as [|[k vs] groups (_ & Hv & _) _ IH]; [constructor|]. cbn [flat_map].
    apply Forall_app. split; [|done]. unfold expand. by rewrite Forall_fmap.
  - exists u3. split; [done|]. rewrite merge_all in Hd3; [done| |intros ? ? ?%elem_of_nil; done|done].
    eapply Forall_impl; [exact Hg|]. by intros ? (? & _).
Qed.

(** [addQueryField] adds the encoded value under a new key, or behind the values of a known one. *)
Theorem addQueryField_spec u key value kvs :
  stands_for (_query_map u) kvs -> 0 < zlen kvs < 2 ^ 32 -> nul_free value ->
  exists encoded u', Encode value [] (lit " .~_-") = Ok encoded /\ addQueryField u key value = Ok u' /\
    parts u' = parts u /\
    stands_for (_query_map u') (merge kvs (key, (fun d => if decide (d = " "%char) then "+"%char else d) <$> encoded)).
Proof.
  intros Hd Hn Hf.
  assert (forall out, exists e, Encode value out (lit " .~_-") = Ok e) as He.
  { clear -Hf. induction Hf as [|c s Hc Hs IH]; intros out; [by eexists|]. cbn [Encode].
    destruct (encoding_ok c (lit " .~_-")) as (e & E & _); [by repeat constructor|]. unfold encoding in E.
    destruct (ShouldEncode c _) as [[]| | |]; try done; cbn [bind]; apply IH. }
  destruct (He []) as (e & Ee). exists e. unfold addQueryField, getQueryMap.
  rewrite (size_law _ _ Hd), wrapU_small by (unfold zlen in *; lia). cbn [bind].
  replace (zlen kvs =? 0) with false by lia. cbn [andb bind]. rewrite Ee. cbn [bind].
  destruct (merge_ok key (spec (OReplaceChar " " "+") e) _ _ Hd) as (d' & E & Hd').
  destruct (map_hasKey key (_query_map u)) as [has| | |]; try done. cbn [bind] in E |- *. rewrite E. cbn [bind].
  by eexists.
Qed.
End theorems.

(** ** What goes wrong *)

Definition query_of (q : string) : res (list (str * str)) :=
  let u := mkUriQ (mkURI [] [] [] [] [] (lit q) [] 0) (map_new : Strings) in
  let? u := getQueryMap u in map_items (_query_map u).

(** An empty value takes the rest of the query, a field without [=] makes the parser read outside the
    text, keys with one hash are merged, and an added field is not written when the counts agree. *)
Theorem query_defects :
  query_of "a=&b=2" = Ok [(lit "a", lit "&b=2"); (lit "b", lit "2")] /\
  query_of "a&b=1" = UB /\
  query_of "-s-=1&-qo=2" = Ok [(lit "-s-", lit "1&2")] /\
  (let? p := URI_set (lit "http://h/p?a=1&b=2&a=3") true in
   let? u := getQueryMap (mkUriQ p (map_new : Strings)) in
   let? u := addQueryField u (lit "c") (lit "4") in
   let? kvs := map_items (_query_map u) in
   let? (s, u) := asString u in
   Ok (kvs, s)) =
  Ok ([(lit "a", lit "1&3"); (lit "b", lit "2"); (lit "c", lit "4")], lit "http://h/p?a=1&b=2&a=3").
Proof. vm_compute. repeat split. Qed.

(** ** Witnesses *)

Lemma getQueryMap_spec_witness :
  exists u', getQueryMap (mkUriQ (mkURI [] [] [] [] [] (lit "a=1&b=2&a=3") [] 0) (map_new : Strings)) = Ok u' /\
    models (_query_map u') [(lit "a", lit "1&3"); (lit "b", lit "2")].
Proof.
  destruct (getQueryMap_spec (mkUriQ (mkURI [] [] [] [] [] (lit "a=1&b=2&a=3") [] 0) (map_new : Strings))
    [(lit "a", lit "1"); (lit "b", lit "2"); (lit "a", lit "3")]) as (u' & E & _ & Hd).
  - apply new_models.
  - reflexivity.
  - discriminate.
  - repeat constructor; compute_done.
  - repeat constructor; discriminate.
  - reflexivity.
  - exists u'. split; [exact E|exact Hd].
Defined.

Lemma query_roundtrip_witness :
  exists (d : Strings) s u', asString (mkUriQ (mkURI [] [] [] [] [] (lit "x") [] 0) d) = Ok (s, u') /\
    _query (parts u') = lit "a=1&a=3&b=2".
Proof.
  destruct (exec_spec (fun _ _ => false) [OAdd (lit "a") (lit "1&3"); OAdd (lit "b") (lit "2")] Dictionary_new []
    (new_models (K := str) (V := str))) as [_ Hd].
  destruct (query_roundtrip (mkUriQ (mkURI [] [] [] [] [] (lit "x") [] 0)
     (exec (run_op (fun _ _ => false)) [OAdd (lit "a") (lit "1&3"); OAdd (lit "b") (lit "2")] Dictionary_new).2)
    [(lit "a", [lit "1"; lit "3"]); (lit "b", [lit "2"])]) as (s & u' & E & Eq & _).
  - exact Hd.
  - discriminate.
  - repeat constructor; compute_done.
  - apply (bool_decide_unpack _). vm_compute. exact I.
  - repeat constructor; discriminate.
  - reflexivity.
  - reflexivity.
  - repeat constructor; discriminate.
  - reflexivity.
  - split; [discriminate|reflexivity].
  - discriminate.
  - eexists _, s, u'. split; [exact E|exact Eq].
Defined.

Lemma addQueryField_spec_witness :
  exists (u' : UriQ Strings), models (_query_map u') [(lit "a", lit "1"); (lit "b", lit "x+%26")].
Proof.
  destruct (exec_spec (fun _ _ => false) [OAdd (lit "a") (lit "1")] Dictionary_new []
    (new_models (K := str) (V := str))) as [_ Hd].
  destruct (addQueryField_spec (mkUriQ (mkURI [] [] [] [] [] (lit "a=1") [] 0)
     (exec (run_op (fun _ _ => false)) [OAdd (lit "a") (lit "1")] Dictionary_new).2)
    (lit "b") (lit "x &") [(lit "a", lit "1")]) as (e & u' & E & _ & _ & Hd').
  - exact Hd.
  - split; reflexivity.
  - repeat constructor; discriminate.
  - exists u'. vm_compute in E. injection E as <-. exact Hd'.
Defined.
