(* ===== verification/XML.v ===== *)
(** * The XML pull parser and the XML text functions (src/cpp/src/xml/XML.cpp)

    The parser reads tags out of a buffer that a text file refills, or out of one string.  The text
    file is an interface ([TextFile]): its operations are those of [FS::TextFile] the parser calls.
    A [String] member is kept as its characters; where the code changes one in place, the operation
    of [StrMem] runs on a [String] object that holds them ([on_chars]).  The error message of an
    exception is not kept. *)

From S2P Require Import Prelude CString Str StrConv StrMem.

(** Run an operation on the [String] object, of [reserve] bytes at least, that holds [l]. *)
Definition on_chars (reserve : Z) (f : String -> res String) (l : str) : res str :=
  let? s := String_reserve reserve in
  let? s := assign_String s l in
  let? s := f s in
  chars s.

(** ** Elements and their attributes *)

Record Element := mkElement {
  _name : str;
  _attributes : str;
  _content : str;
  _is_closing : bool;
  _has_attributes : bool;
  _apos : Z;
  _attribute : str * str     (* the name and the value of the attribute iterator *)
}.

Definition Element_new : Element := mkElement [] [] [] false false 0 ([], []).

(** [clear()] leaves the flags and the iterator's texts. *)
Definition clear (e : Element) : Element :=
  mkElement [] [] [] (_is_closing e) (_has_attributes e) 0 (_attribute e).

Definition set_apos (e : Element) (p : Z) : Element :=
  mkElement (_name e) (_attributes e) (_content e) (_is_closing e) (_has_attributes e) p (_attribute e).
Definition set_attribute (e : Element) (a : str * str) (p : Z) : Element :=
  mkElement (_name e) (_attributes e) (_content e) (_is_closing e) (_has_attributes e) p a.
Definition set_content (e : Element) (c : str) : Element :=
  mkElement (_name e) (_attributes e) c (_is_closing e) (_has_attributes e) (_apos e) (_attribute e).
Definition set_name (e : Element) (n : str) : Element :=
  mkElement n (_attributes e) (_content e) (_is_closing e) (_has_attributes e) (_apos e) (_attribute e).

(** while ((_apos < length) && isspace(_attributes[_apos])) ++_apos; *)
Fixpoint skip_spaces (s : str) (p : Z) : Z :=
  match s with
  | [] => p
  | c :: s' => if isspace c then skip_spaces s' (p + 1) else p
  end.

(** The search for [end_char] from [_apos]: its position, or 0. *)
Definition value_end (attributes : str) (end_char : char) (apos : Z) : Z :=
  match list_find (fun c => c = end_char) (zdrop apos attributes) with
  | Some (k, _) => s32 (apos + Z.of_nat k)
  | None => 0
  end.

Definition is_quote (c : char) : bool := bool_decide (c = "'"%char) || bool_decide (c = chr 34).

(** [None] is the NULL attribute. *)
Definition getNextAttribute (e : Element) : res (option (str * str) * Element) :=
  let attributes := _attributes e in
  if _has_attributes e && (_apos e <? zlen attributes) then
    let? spos := find_char attributes "=" (_apos e) in
    if spos =? -1 then Ok (None, e)
    else
      let? name := substr attributes (_apos e) (u32 (spos - _apos e)) in
      let apos := skip_spaces (zdrop (spos + 1) attributes) (spos + 1) in
      if zlen attributes <=? apos then Throw InvalidXML
      else
        let? first := of_option (zget attributes apos) in
        let end_char := if is_quote first then first else " "%char in
        let apos := if is_quote first then apos + 1 else apos in
        let epos := value_end attributes end_char apos in
        if 0 <? epos then
          let? value := substr attributes (u32 apos) (u32 (epos - apos)) in
          let apos := if is_quote end_char then epos + 2 else epos + 1 in
          Ok (Some (name, value), set_attribute e (name, value) apos)
        else if negb (bool_decide (end_char = " "%char)) then Throw InvalidXML
        else
          let? value := substr_from attributes (u32 apos) in
          Ok (Some (name, value), set_attribute e (name, value) (zlen attributes))
  else Ok (None, e).

(** The loop of [findAttribute], with the attribute at hand. *)
Fixpoint findAttribute_loop (e : Element) (attr : option (str * str)) (name : str) (start_pos : Z)
    (fuel : nat) : res (option (str * str) * Element) :=
  match attr, fuel with
  | None, _ => Ok (None, e)
  | _, O => NoFuel
  | Some a, S fuel' =>
      if op_eq a.1 name then Ok (Some a, e)
      else
        let? (attr, e) := getNextAttribute e in
        if 0 <? start_pos then
          match attr with
          | None =>
              let? (attr, e) := getNextAttribute (set_apos e 0) in
              findAttribute_loop e attr name start_pos fuel'
          | Some _ =>
              if start_pos =? _apos e then Ok (None, e)
              else findAttribute_loop e attr name start_pos fuel'
          end
        else findAttribute_loop e attr name start_pos fuel'
  end.

Definition findAttribute (e : Element) (name : str) (fuel : nat) : res (option (str * str) * Element) :=
  let start_pos := _apos e in
  let? (attr, e) := getNextAttribute e in
  findAttribute_loop e attr name start_pos fuel.

(** ** The parser *)

(** What the parser uses of [FS::TextFile]; [read_text f n] appends at most [n] characters to an
    empty string and returns how many. *)
Class TextFile (F : Type) := {
  eof : F -> bool;
  atBeginning : F -> bool;
  position : F -> Z;
  seek : F -> Z -> F;
  read_text : F -> Z -> res (str * F * Z)
}.

Section parser.
Context {F : Type} `{TextFile F}.

Record Parser := mkParser {
  _element : Element;
  _xml_file : option F;
  _xml : str;
  _pos : Z
}.

(** The two constructors *)
Definition Parser_file (f : F) : Parser := mkParser Element_new (Some f) [] 0.
Definition Parser_text (xml : str) : Parser := mkParser Element_new None xml 0.

Definition set_element (p : Parser) (e : Element) : Parser :=
  mkParser e (_xml_file p) (_xml p) (_pos p).
Definition set_pos (p : Parser) (n : Z) : Parser :=
  mkParser (_element p) (_xml_file p) (_xml p) n.

Definition fill_buffer (p : Parser) (f : F) : res (bool * Parser) :=
  let? (text, f, n) := read_text f 1024 in
  Ok (0 <? n, mkParser (_element p) (Some f) text 0).

(** [_getXML(reverse)]: the buffer is lost whatever the result. *)
Definition _getXML (p : Parser) (reverse : bool) : res (bool * Parser) :=
  let empty := mkParser (_element p) (_xml_file p) [] 0 in
  match _xml_file p with
  | None => Ok (false, empty)
  | Some f =>
      if reverse then
        if negb (atBeginning f) then
          let pos := position f in
          if 2048 <=? pos then fill_buffer p (seek f (pos - 2048))
          else if 1024 <? pos then fill_buffer p (seek f 0)
          else Ok (false, empty)
        else Ok (false, empty)
      else if negb (eof f) then fill_buffer p f
      else Ok (false, empty)
  end.

(** What the loop of [_parseElement] does until the buffer holds the end of the tag *)
Fixpoint find_tag_end (p : Parser) (fuel : nat) : res (Z * Parser) :=
  match fuel with
  | O => NoFuel
  | S fuel' =>
      let? epos := find_char (_xml p) ">" (_pos p) in
      if epos =? -1 then
        let? more := substr_from (_xml p) (_pos p) in
        let p := set_element p (set_name (_element p) (_name (_element p) ++ more)) in
        if 124 <? zlen (_name (_element p)) then Throw InvalidXML
        else
          let? (got, p) := _getXML p false in
          if got : bool then find_tag_end p fuel' else Throw InvalidXML
      else Ok (epos, p)
  end.

(** The name between the brackets, and whether it closes; [closing] is what the element had. *)
Definition tag_kind (name : str) (closing : bool) : res (str * bool) :=
  let? first := of_option (zget (text name) 0) in
  if decide (first = "/"%char) then
    let? name := on_chars 64 (run_op (ORemove 0 1)) name in Ok (name, true)
  else
    let? last := of_option (zget (text name) (u32 (zlen name - 1))) in
    if decide (last = "/"%char) then
      let? name := on_chars 64 (run_op (OTruncate (u32 (zlen name - 1)))) name in Ok (name, true)
    else if decide (first = "?"%char) then
      let? name := on_chars 64 (run_op (ORemove 0 1)) name in
      let? name := on_chars 64 (run_op (OTruncate (u32 (zlen name - 1)))) name in
      Ok (name, closing)
    else Ok (name, false).

(** The attributes of a name that has some: the line ends in them become blanks.  The [' '] of
    [replace("\r\n", ' ')] converts to an empty [String] with 32 bytes reserved. *)
Definition CRLF : str := [chr 13; chr 10].
Definition split_attributes (name : str) : res (str * str) :=
  let? pos := find_char name " " 0 in
  if pos =? -1 then Throw InvalidXML
  else
    let? a := substr_from name (u32 (pos + 1)) in
    let? a := on_chars 128 (fun s => replace_ss s CRLF [] 0 true (S (length a))) a in
    let? a := on_chars 128 (run_op (OReplaceChar (chr 10) " ")) a in
    let? a := on_chars 128 (run_op (OReplaceChar (chr 13) " ")) a in
    let? name := on_chars 64 (run_op (OTruncate (u32 pos))) name in
    Ok (name, a).

Definition _parseElement (p : Parser) (fuel : nat) : res Parser :=
  let? (epos, p) := find_tag_end p fuel in
  let? part := substr (_xml p) (_pos p) (u32 (epos - _pos p)) in
  let e := _element p in
  let? (name, closing) := tag_kind (_name e ++ part) (_is_closing e) in
  let? eq := find_char name "=" 0 in
  let? e :=
    if 0 <? eq then
      let? (name, attributes) := split_attributes name in
      Ok (mkElement name attributes (_content e) closing true (_apos e) (_attribute e))
    else Ok (mkElement name (_attributes e) (_content e) closing false (_apos e) (_attribute e)) in
  Ok (set_pos (set_element p e) (epos + 1)).

(** The loop of [getNextElement]; [None] is the end of the data. *)
Fixpoint find_tag_start (p : Parser) (fuel : nat) : res (option Z * Parser) :=
  match fuel with
  | O => NoFuel
  | S fuel' =>
      let? pos := find_char (_xml p) "<" (_pos p) in
      if pos =? -1 then
        let? (got, p) := _getXML p false in
        if got : bool then find_tag_start p fuel' else Ok (None, p)
      else Ok (Some pos, p)
  end.

(** [getNextElement()]; [false] is the NULL element. *)
Definition getNextElement (p : Parser) (fuel : nat) : res (bool * Parser) :=
  let p := set_element p (clear (_element p)) in
  let? (more, p) :=
    if zlen (_xml p) <=? _pos p then _getXML p false else Ok (true, p) in
  if negb more then Ok (false, p)
  else
    let? (pos, p) := find_tag_start p fuel in
    match pos with
    | None => Ok (false, p)
    | Some pos => let? p := _parseElement (set_pos p (pos + 1)) fuel in Ok (true, p)
    end.

(** The loop of [getPreviousElement] *)
Fixpoint find_previous (p : Parser) (pos count : Z) (fuel : nat) : res (option Z * Parser) :=
  match fuel with
  | O => NoFuel
  | S fuel' =>
      if count <? 2 then
        let? pos := rfind_char (_xml p) "<" (u32 (pos - 1)) in
        if pos <? 0 then
          let? (got, p) := _getXML p true in
          if got : bool then find_previous p (s32 (zlen (_xml p))) count fuel' else Ok (None, p)
        else find_previous p pos (count + 1) fuel'
      else Ok (Some pos, p)
  end.

Definition getPreviousElement (p : Parser) (fuel : nat) : res (bool * Parser) :=
  let? (pos, p) := find_previous p (s32 (_pos p)) 0 fuel in
  match pos with
  | None => Ok (false, p)
  | Some pos =>
      if pos <? 0 then Ok (false, p)
      else
        let p := set_element p (clear (_element p)) in
        let? p := _parseElement (set_pos p (pos + 1)) fuel in Ok (true, p)
  end.

(** [findNextElement] and [findPreviousElement], with the step that is their difference *)
Fixpoint find_element (next : Parser -> res (bool * Parser)) (p : Parser) (name : str)
    (is_closing : bool) (fuel : nat) : res (bool * Parser) :=
  match fuel with
  | O => NoFuel
  | S fuel' =>
      let? (got, p) := next p in
      if negb got then Ok (false, p)
      else if op_eq (_name (_element p)) name && Bool.eqb (_is_closing (_element p)) is_closing
      then Ok (true, p)
      else find_element next p name is_closing fuel'
  end.
Definition findNextElement (p : Parser) (name : str) (is_closing : bool) (fuel : nat) :=
  find_element (fun p => getNextElement p fuel) p name is_closing fuel.
Definition findPreviousElement (p : Parser) (name : str) (is_closing : bool) (fuel : nat) :=
  find_element (fun p => getPreviousElement p fuel) p name is_closing fuel.

(** The first character of a text that is not white space *)
Fixpoint first_nonspace (s : str) : option char :=
  match s with
  | [] => None
  | c :: s' => if isspace c then first_nonspace s' else Some c
  end.

Fixpoint hasContent_loop (p : Parser) (fuel : nat) : res (bool * Parser) :=
  match fuel with
  | O => NoFuel
  | S fuel' =>
      if 0 <? zlen (_xml p) then
        match first_nonspace (zdrop (_pos p) (_xml p)) with
        | Some c => Ok (negb (bool_decide (c = "<"%char)), p)
        | None =>
            let? (got, p) := _getXML p false in
            if got : bool then hasContent_loop p fuel' else Throw InvalidXML
        end
      else Ok (false, p)
  end.
Definition hasContent (p : Parser) (fuel : nat) : res (bool * Parser) :=
  if 0 <? zlen (_content (_element p)) then Ok (true, p)
  else if _is_closing (_element p) then Ok (false, p)
  else hasContent_loop p fuel.

Fixpoint parseContent (p : Parser) (fuel : nat) : res Parser :=
  match fuel with
  | O => NoFuel
  | S fuel' =>
      let add (p : Parser) (t : str) := set_element p (set_content (_element p) (_content (_element p) ++ t)) in
      let? epos := find_char (_xml p) "<" (_pos p) in
      if epos =? -1 then
        let? more := substr_from (_xml p) (_pos p) in
        let? (got, p) := _getXML (add p more) false in
        if got : bool then parseContent p fuel' else Throw InvalidXML
      else
        let? more := substr (_xml p) (_pos p) (u32 (epos - _pos p)) in
        Ok (add p more)
  end.

(** [Element::getContent()] *)
Definition getContent (p : Parser) (fuel : nat) : res (str * Parser) :=
  if 0 <? zlen (_content (_element p)) then Ok (_content (_element p), p)
  else let? p := parseContent p fuel in Ok (_content (_element p), p).
End parser.
Arguments Parser F : clear implicits.

(** ** The functions on tags; [offset] is passed and returned *)

Definition parseTag (tag xml : str) (offset : Z) : res (str * Z) :=
  if s32 (zlen xml) <=? offset then Ok ([], offset)
  else
    let? istart := find_str xml tag (u32 offset) in
    if istart <? 0 then Ok ([], offset)
    else
      let istart := s32 (istart + strlen tag) in
      assume (negb (strlen tag =? 0));;?       (* [tag + 1] *)
      let etag := lit "</" ++ tail (cstr tag) in
      let? iend := find_str xml etag (u32 istart) in
      if iend <? 0 then Ok ([], offset)
      else
        let? inner := substr xml (u32 istart) (u32 (iend - istart)) in
        Ok (tolower <$> inner, s32 (iend + zlen etag)).

Definition findTag (tag xml : str) (offset : Z) : res (bool * Z) :=
  if s32 (zlen xml) <=? offset then Ok (false, offset)
  else
    let? istart := find_str xml tag (u32 offset) in
    if istart <? 0 then Ok (false, offset) else Ok (true, s32 (istart + strlen tag)).

(** What [cp] sees, after the white space it skips; reading before the text is undefined. *)
Definition skip_to (xml : str) (offset : Z) : res (str * Z) :=
  if offset <? 0 then UB
  else
    let cp := cstr (zdrop offset xml) in
    let nc := skip_spaces cp 0 in
    Ok (zdrop nc cp, nc).

Definition nextTagIs (tag xml : str) (offset : Z) : res (bool * Z) :=
  if s32 (zlen xml) <=? offset then Ok (false, offset)
  else
    let? (cp, nc) := skip_to xml offset in
    if negb (bool_decide (cp = [])) && strncmp_eq cp tag (Z.to_nat (strlen tag))
    then Ok (true, s32 (offset + nc + strlen tag))
    else Ok (false, offset).

(** do { s += *cp; ++pos; } while ( *cp++ != '>' && *cp != 0); *)
Fixpoint take_tag (cp : str) : str :=
  match cp with
  | [] => []
  | c :: cp' => if decide (c = ">"%char) then [c] else c :: take_tag cp'
  end.

Definition getNextTag (xml : str) (offset : Z) : res (str * Z) :=
  if s32 (zlen xml) <=? offset then Ok ([], offset)
  else
    let? (cp, nc) := skip_to xml offset in
    match cp with
    | c :: _ =>
        if decide (c = "<"%char)
        then let s := take_tag cp in Ok (s, s32 (offset + nc + zlen s))
        else Ok ([], offset)
    | [] => Ok ([], offset)
    end.

(** ** Entities *)

Definition AMP : char := "&".
(** [RAW_ENTITY] with [XML_ENTITY] *)
Definition ENTITY : list (char * str) :=
  [("<"%char, lit "lt;"); (">"%char, lit "gt;"); ("&"%char, lit "amp;"); ("'"%char, lit "apos;");
   (chr 34, lit "quot;")].

(** The first entity that [ens+i+1] shows. *)
Fixpoint entity_at (ens : str) (es : list (char * str)) : option (char * str) :=
  match es with
  | [] => None
  | (raw, e) :: es' =>
      if strncmp_eq ens e (length e) then Some (raw, e) else entity_at ens es'
  end.

(** The loop of [decode], on what is left from [i]. *)
Fixpoint decode_loop (ens decoded : str) (fuel : nat) : res str :=
  match fuel with
  | O => NoFuel
  | S fuel' =>
      match ens with
      | [] => Ok decoded
      | c :: ens' =>
          if bool_decide (c = AMP) && (0 <? zlen ens') then
            match entity_at ens' ENTITY with
            | Some (raw, e) => decode_loop (drop (length e) ens') (push decoded raw) fuel'
            | None => decode_loop ens' (push decoded c) fuel'
            end
          else decode_loop ens' (push decoded c) fuel'
      end
  end.

Definition decode (encoded : str) : res str :=
  let? i := find_char encoded AMP 0 in
  if i <? 0 then Ok encoded
  else
    let? decoded := String_ctor encoded (u32 i) in
    decode_loop (zdrop i encoded) decoded (S (length encoded)).

Fixpoint entity_of (c : char) (es : list (char * str)) : option str :=
  match es with
  | [] => None
  | (raw, e) :: es' => if decide (c = raw) then Some e else entity_of c es'
  end.

(** [((c < 9) || ((c < 32) && (c > 13)))] on a signed [char] *)
Definition dropped (c : char) : bool := (sord c <? 9) || ((sord c <? 32) && (13 <? sord c)).

Definition encode_char (encoded : str) (c : char) : str :=
  match entity_of c ENTITY with
  | Some e => push encoded AMP ++ e
  | None => if dropped c then encoded else push encoded c
  end.

Definition encode (raw : str) : str := foldl encode_char [] raw.

(** ** Theorems on the entities *)

Lemma encode_char_app encoded c : encode_char encoded c = encoded ++ encode_char [] c.
Proof.
  unfold encode_char. destruct (entity_of c ENTITY); [|destruct (dropped c)];
    rewrite ?(push_push encoded), <- ?app_assoc, ?app_nil_r; done.
Qed.

Lemma encode_app s t : encode (s ++ t) = encode s ++ encode t.
Proof.
  unfold encode. rewrite foldl_app. generalize (foldl encode_char [] s) as r. clear s.
  induction t as [|c t IH]; intros r; simpl; [by rewrite app_nil_r|].
  rewrite IH, encode_char_app, (IH (encode_char [] c)), app_assoc. done.
Qed.

Lemma encode_cons c s : encode (c :: s) = encode_char [] c ++ encode s.
Proof. apply (encode_app [c] s). Qed.

(** What [encode] keeps of a text. *)
Definition kept (s : str) : str := filter (fun c => dropped c = false) s.

Lemma kept_cons c s : kept (c :: s) = (if dropped c then [] else [c]) ++ kept s.
Proof. unfold kept. rewrite filter_cons. destruct (dropped c); by case_decide. Qed.

Lemma dropped_nul_free s : nul_free (kept s).
Proof.
  apply Forall_forall. intros c Hc. unfold kept in Hc. apply list_elem_of_filter in Hc as [Hc _].
  by intros ->.
Qed.

Lemma entity_of_elem c es e : entity_of c es = Some e -> (c, e) ∈ es.
Proof.
  induction es as [|[raw e'] es IH]; simpl; [done|]. case_decide as E.
  - intros [= ->]. subst. apply list_elem_of_here.
  - intros H%IH. by apply list_elem_of_further.
Qed.

Lemma entity_kept c : negb (dropped c) || bool_decide (entity_of c ENTITY = None) = true.
Proof. all_chars c; reflexivity. Qed.

(** The three cases of a character. *)
Lemma encode_char_cases c :
  (entity_of c ENTITY = None /\ dropped c = true /\ encode_char [] c = []) \/
  (entity_of c ENTITY = None /\ dropped c = false /\ encode_char [] c = [c] /\ c <> AMP) \/
  (exists e, entity_of c ENTITY = Some e /\ dropped c = false /\ (c, e) ∈ ENTITY /\ encode_char [] c = AMP :: e).
Proof.
  pose proof (entity_kept c) as Hk. unfold encode_char. destruct (entity_of c ENTITY) as [e|] eqn:E.
  - right; right. exists e. destruct (dropped c); [done|].
    split_and!; [done|done|by apply entity_of_elem|done].
  - destruct (dropped c) eqn:D; [by left|right; left]. split_and!; [done|done| |by intros ->].
    unfold push. by rewrite decide_False by (by intros ->).
Qed.

(** One round of the loop of [decode] on the encoding of a character that is kept. *)
Lemma decode_loop_char c rest decoded fuel :
  dropped c = false ->
  decode_loop (encode_char [] c ++ rest) decoded (S fuel) = decode_loop rest (decoded ++ [c]) fuel.
Proof.
  intros Hd. assert (push decoded c = decoded ++ [c]) as Hp.
  { unfold push. by rewrite decide_False by (by intros ->). }
  destruct (encode_char_cases c) as [(_ & ? & _)|[(_ & _ & -> & Hc)|(e & _ & _ & He & ->)]]; [congruence| |].
  - simpl. rewrite bool_decide_eq_false_2 by done. simpl. by rewrite Hp.
  - rewrite <- Hp. unfold ENTITY in He. rewrite !elem_of_cons in He.
    pose proof (zlen_nonneg rest).
    destruct He as [[= -> ->]|[[= -> ->]|[[= -> ->]|[[= -> ->]|[[= -> ->]|He]]]]];
      [..|by apply elem_of_nil in He].
    all: cbn [app decode_loop lit String.list_ascii_of_string]; rewrite !zlen_cons;
      replace (0 <? _) with true by lia; reflexivity.
Qed.

Lemma decode_loop_encode s : forall decoded fuel,
  (length (kept s) < fuel)%nat -> decode_loop (encode s) decoded fuel = Ok (decoded ++ kept s).
Proof.
  induction s as [|c s IH]; intros decoded fuel Hf.
  - destruct fuel; [simpl in Hf; lia|]. simpl. by rewrite app_nil_r.
  - rewrite kept_cons in Hf. rewrite encode_cons, kept_cons. destruct (dropped c) eqn:D.
    + destruct (encode_char_cases c) as [(_ & _ & ->)|[(_ & ? & _)|(e & _ & ? & _)]]; [|congruence..].
      by apply IH.
    + destruct fuel as [|fuel]; [simpl in Hf; lia|]. rewrite decode_loop_char by done.
      rewrite IH by (simpl in Hf; lia). by rewrite <- app_assoc.
Qed.

Definition plain (s : str) : Prop := Forall (fun c => entity_of c ENTITY = None) s.

Lemma plain_no_amp s : plain s -> AMP ∉ s.
Proof. intros H Hin. unfold plain in H. rewrite Forall_forall in H. by specialize (H _ Hin). Qed.

Lemma kept_shorter s : (length (kept s) <= length (encode s))%nat.
Proof.
  induction s as [|c s IH]; [done|]. rewrite kept_cons, encode_cons, !length_app.
  destruct (encode_char_cases c) as [(_ & -> & _)|[(_ & -> & -> & _)|(e & _ & -> & _ & ->)]]; simpl; lia.
Qed.

(** The text up to its first entity. *)
Lemma encode_split s :
  (encode s = kept s /\ plain (kept s)) \/
  exists s1 c s2, s = s1 ++ c :: s2 /\ encode s1 = kept s1 /\ plain (kept s1) /\ entity_of c ENTITY <> None.
Proof.
  induction s as [|c s IH]; [left; split; [done|constructor]|].
  destruct (encode_char_cases c) as [(Hn & Hd & E)|[(Hn & Hd & E & Hc)|(e & He & _ & _ & E)]].
  3:{ right. exists [], c, s. rewrite He. split_and!; [done|done|constructor|done]. }
  all: destruct IH as [[IH IH']|(s1 & c' & s2 & -> & H1 & H2 & H3)];
    [left; rewrite encode_cons, kept_cons, E, Hd, IH; simpl|
     right; exists (c :: s1), c', s2; rewrite encode_cons, kept_cons, E, Hd, H1; simpl];
    split_and!; try done; by constructor.
Qed.

Lemma encode_nul_free s : nul_free (encode s).
Proof.
  induction s as [|c s IH]; [constructor|]. rewrite encode_cons. apply nul_free_app. split; [|done].
  destruct (encode_char_cases c) as [(_ & _ & ->)|[(_ & Hd & -> & _)|(e & _ & _ & He & ->)]].
  - constructor.
  - repeat constructor. by intros ->.
  - constructor; [done|]. unfold ENTITY in He. rewrite !elem_of_cons in He.
    destruct He as [[= -> ->]|[[= -> ->]|[[= -> ->]|[[= -> ->]|[[= -> ->]|He]]]]];
      [..|by apply elem_of_nil in He]; by repeat constructor.
Qed.

(** Does the text start with a character that has an entity? *)
Definition starts_with_entity (s : str) : bool :=
  match head s with Some c => bool_decide (entity_of c ENTITY <> None) | None => false end.

Lemma plain_start s t : plain s -> s <> [] -> starts_with_entity (s ++ t) = false.
Proof.
  intros H Hne. destruct s as [|c s]; [done|]. apply Forall_inv in H. apply bool_decide_eq_false_2. intros Hx. by apply Hx.
Qed.

Lemma decode_encoded s :
  zlen (encode s) < 2 ^ 31 ->
  decode (encode s) = Ok ((if starts_with_entity (kept s) then encode s else []) ++ kept s).
Proof.
  intros Hl. pose proof (encode_nul_free s) as Hf. unfold decode.
  destruct (encode_split s) as [[E Ha]|(s1 & c & s2 & -> & E1 & Ha & Hc)].
  - pose proof (find_char_miss [] (encode s) AMP) as Hm. simpl in Hm. change (zlen []) with 0 in Hm.
    rewrite Hm; [|done|done|rewrite E; by apply plain_no_amp]. cbn [bind]. change (-1 <? 0) with true. cbn [bind].
    destruct (decide (kept s = [])) as [Ek|Ek]; [by rewrite E, Ek|].
    rewrite <- (app_nil_r (kept s)) at 1. rewrite plain_start by done. by rewrite E.
  - destruct (encode_char_cases c) as [(? & _)|[(? & _)|(e & He & Hd & _ & Ee)]]; [done..|].
    assert (encode (s1 ++ c :: s2) = kept s1 ++ encode (c :: s2)) as Es by (by rewrite encode_app, E1).
    assert (kept (s1 ++ c :: s2) = kept s1 ++ kept (c :: s2)) as Ek by apply filter_app.
    pose proof (kept_shorter (c :: s2)) as Hk.
    pose proof (zlen_nonneg (kept s1)). pose proof (zlen_nonneg (encode (c :: s2))).
    assert (zlen (encode (s1 ++ c :: s2)) = zlen (kept s1) + zlen (encode (c :: s2))) as El by (rewrite Es; zlen_lia).
    pose proof (find_char_hit [] (kept s1) AMP (e ++ encode s2)) as Hh. change (zlen []) with 0 in Hh.
    simpl app in Hh. assert (kept s1 ++ AMP :: e ++ encode s2 = encode (s1 ++ c :: s2)) as Es'
      by (rewrite Es, encode_cons, Ee; done).
    rewrite Es' in Hh. rewrite Hh; [|apply dropped_nul_free|by apply plain_no_amp|done].
    cbn [bind]. replace (0 + zlen (kept s1) <? 0) with false by lia. rewrite Z.add_0_l, wrapU_small by lia.
    assert (zdrop (zlen (kept s1)) (encode (s1 ++ c :: s2)) = encode (c :: s2)) as ->
      by (rewrite Es; apply zdrop_app_zlen).
    destruct (decide (kept s1 = [])) as [E0|Hne].
    + rewrite E0 in *. change (zlen []) with 0. unfold String_ctor. rewrite Z.eqb_refl, strlen_id by done.
      unfold text. replace (_ <=? _) with true by zlen_lia. cbn [bind].
      rewrite decode_loop_encode by (rewrite Es; simpl app; lia).
      rewrite Ek, kept_cons, Hd. cbn [app].
      assert (starts_with_entity (c :: kept s2) = true) as -> by (by apply bool_decide_eq_true_2).
      do 2 f_equal.
      unfold ztake. rewrite take_app_le by (unfold zlen; lia). apply take_ge. unfold zlen. lia.
    + unfold String_ctor, text. replace (zlen (kept s1) =? 0) with false by (destruct (kept s1); [done|zlen_lia]).
      replace (_ <=? _) with true by (rewrite Es; zlen_lia). cbn [bind].
      rewrite decode_loop_encode by (rewrite Es, length_app; lia).
      rewrite Ek, plain_start by done. rewrite Es, <- app_assoc, app_nil_l. do 2 f_equal.
      unfold ztake, zlen. rewrite Nat2Z.id. apply take_app_length.
Qed.

(** [decode] undoes [encode] on what [encode] keeps, unless that starts with a character that
    has an entity: then the whole encoded text stands in front of it. *)
Theorem xml_roundtrip s :
  zlen (encode s) < 2 ^ 31 ->
  decode (encode s) = Ok ((if starts_with_entity (kept s) then encode s else []) ++ kept s).
Proof. apply decode_encoded. Qed.

(** ** Theorems on the parser *)

Lemma reserve_repr n : 0 <= n < 2 ^ 31 -> returns (String_reserve n) (fun s => repr s []).
Proof.
  intros Hn. unfold String_reserve. destruct (decide (n = 0)) as [->|Hne].
  { apply returns_Ok, repr_new. }
  destruct (resize_spec (mkString None 0 0 n 0) 0 [] [])
    as (mid & junk & cap & E & Hmid & Hcap & Hd & Hm); [done|done|done|right; simpl; lia|].
  rewrite E. apply returns_Ok. simpl in *.
  assert (mid = []) as -> by (destruct mid; [done|exfalso; revert Hmid; zlen_lia]).
  apply (repr_intro [] junk); try done; lia.
Qed.

Lemma on_chars_repr reserve f l l' :
  0 <= reserve < 2 ^ 31 -> zlen l < 2 ^ 31 ->
  (forall s, repr s l -> _string_length s = zlen l -> returns (f s) (fun s' => repr s' l')) ->
  on_chars reserve f l = Ok l'.
Proof.
  intros Hres Hl Hf. unfold on_chars.
  destruct (reserve_repr reserve Hres) as (s0 & -> & H0). cbn [bind].
  destruct (copy_repr s0 [] l (zlen l) H0) as (s1 & E1 & H1 & _); [zlen_lia|done|].
  unfold assign_String. rewrite E1. cbn [bind]. rewrite ztake_ge in H1 by lia.
  destruct (Hf s1 H1 (repr_length _ _ H1)) as (s2 & -> & H2). cbn [bind]. by apply chars_repr.
Qed.

(** An operation of [StrMem] on the characters of a member. *)
Lemma on_chars_op reserve o l :
  0 <= reserve < 2 ^ 31 -> zlen l < 2 ^ 31 -> allowed o l ->
  on_chars reserve (run_op o) l = Ok (spec o l).
Proof.
  intros Hres Hl Ha. apply on_chars_repr; [done|done|]. intros s Hr _.
  eapply returns_mono; [apply (run_op_inv False o s l); [by split|done|done]|]. by intros ? [? _].
Qed.

(** The kinds of tags, the text between the brackets, and whether the element counts as closing;
    a processing instruction keeps what the parser had. *)
Inductive kind := Open | Close | SelfClose | Instruction.

Record tag := mkTag { tag_of : kind; tag_name : str; tag_attributes : str }.

Definition tag_body (t : tag) : str :=
  tag_name t ++ if decide (tag_attributes t = []) then [] else lit " " ++ tag_attributes t.
Definition tag_text (t : tag) : str :=
  match tag_of t with
  | Open => tag_body t
  | Close => lit "/" ++ tag_body t
  | SelfClose => tag_body t ++ lit "/"
  | Instruction => lit "?" ++ tag_body t ++ lit "?"
  end.
Definition tag_closing (t : tag) (before : bool) : bool :=
  match tag_of t with Open => false | Close | SelfClose => true | Instruction => before end.

(** Line ends in the attributes become blanks. *)
Definition blank_line_ends (a : str) : str :=
  spec (OReplaceChar (chr 13) " ") (spec (OReplaceChar (chr 10) " ") a).

Definition tag_element (t : tag) (e : Element) : Element :=
  mkElement (tag_name t) (blank_line_ends (tag_attributes t)) [] (tag_closing t (_is_closing e))
    (bool_decide (tag_attributes t <> [])) 0 (_attribute e).

(** A tag as the parser expects it. *)
Definition good_tag (t : tag) : Prop :=
  nul_free (tag_text t) /\ (">"%char ∉ tag_text t) /\ zlen (tag_text t) < 2 ^ 30 - 1 /\
  tag_name t <> [] /\ (" "%char ∉ tag_name t) /\ ("="%char ∉ tag_name t) /\
  head (tag_body t) <> Some "/"%char /\ head (tag_body t) <> Some "?"%char /\
  last (tag_body t) <> Some "/"%char /\
  (tag_attributes t <> [] -> "="%char ∈ tag_attributes t) /\
  search CRLF (tag_attributes t) = None.

Lemma zget_last_text l : l <> [] -> zget (text l) (u32 (zlen l - 1)) = last l \/ 2 ^ 32 <= zlen l.
Proof.
  intros Hne. destruct (Z.ltb_spec (zlen l) (2 ^ 32)); [left|by right].
  destruct l as [|c l _] using rev_ind; [done|]. rewrite zlen_app, zlen_cons, zlen_nil in *.
  pose proof (zlen_nonneg l). rewrite wrapU_small by lia. rewrite last_snoc. unfold text.
  rewrite <- app_assoc, zget_app_r by lia. by replace (zlen l + (0 + 1) - 1 - zlen l) with 0 by lia.
Qed.

Lemma zget_head_text l c : head l = Some c -> zget (text l) 0 = Some c.
Proof. destruct l; simpl; [done|]. by intros [= ->]. Qed.

(** [tag_kind] takes the marks of the kind off. *)
Lemma tag_kind_ok t closing :
  good_tag t -> tag_kind (tag_text t) closing = Ok (tag_body t, tag_closing t closing).
Proof.
  intros (Hf & _ & Hl & Hn & _ & _ & H1 & H2 & H3 & _).
  assert (tag_body t <> []) as Hb by (unfold tag_body; by destruct (tag_name t)).
  destruct (tag_body t) as [|c b] eqn:Eb; [done|]. rewrite <- Eb in *. clear Hn.
  assert (head (tag_body t) = Some c) as Ec by (by rewrite Eb).
  rewrite Ec in H1, H2. pose proof (zlen_nonneg (tag_body t)).
  unfold tag_kind, tag_text, tag_closing in *. destruct (tag_of t).
  - rewrite (zget_head_text _ c Ec). cbn [of_option bind]. rewrite decide_False by congruence.
    destruct (zget_last_text (tag_body t) Hb) as [-> |]; [|lia].
    destruct (last (tag_body t)) as [d|] eqn:Ed; [|by apply last_None in Ed].
    cbn [of_option bind]. rewrite !decide_False by congruence. done.
  - rewrite (zget_head_text _ "/"); [|done]. cbn [of_option bind]. rewrite decide_True by done.
    rewrite on_chars_op; [done|lia|lia|]. simpl. zlen_lia.
  - rewrite (zget_head_text _ c) by (by rewrite Eb). cbn [of_option bind]. rewrite decide_False by congruence.
    destruct (zget_last_text (tag_body t ++ lit "/")) as [-> |]; [by rewrite Eb| |lia].
    replace (last (tag_body t ++ lit "/")) with (Some "/"%char) by (symmetry; apply last_snoc).
    cbn [of_option bind]. rewrite decide_True by done.
    change (zlen (lit "/")) with 1. rewrite zlen_app in *. change (zlen (lit "/")) with 1 in *.
    rewrite wrapU_small by lia. rewrite on_chars_op; [|lia|rewrite zlen_app; change (zlen (lit "/")) with 1; lia|].
    + simpl. rewrite Z.add_simpl_r. unfold ztake, zlen. by rewrite Nat2Z.id, take_app_length.
    + cbn [allowed]. rewrite zlen_app. change (zlen (lit "/")) with 1. lia.
  - rewrite (zget_head_text _ "?"); [|done]. cbn [of_option bind]. rewrite decide_False by done.
    destruct (zget_last_text (lit "?" ++ tag_body t ++ lit "?")) as [-> |]; [done| |lia].
    replace (last (lit "?" ++ tag_body t ++ lit "?")) with (Some "?"%char)
      by (symmetry; rewrite app_assoc; apply last_snoc).
    cbn [of_option bind]. rewrite decide_False by done. rewrite decide_True by done.
    rewrite !zlen_app in Hl. change (zlen (lit "?")) with 1 in Hl.
    rewrite on_chars_op; [|lia|rewrite !zlen_app; change (zlen (lit "?")) with 1; lia|simpl; zlen_lia].
    cbn [bind].
    change (spec (ORemove 0 1) (lit "?" ++ tag_body t ++ lit "?")) with (tag_body t ++ lit "?").
    rewrite zlen_app. change (zlen (lit "?")) with 1. rewrite wrapU_small by lia.
    rewrite on_chars_op; [|lia|rewrite zlen_app; change (zlen (lit "?")) with 1; lia|].
    + simpl. rewrite Z.add_simpl_r. unfold ztake, zlen. by rewrite Nat2Z.id, take_app_length.
    + cbn [allowed]. rewrite zlen_app. change (zlen (lit "?")) with 1. lia.
Qed.

(** The first line end of two characters is never found: the loop stops at once. *)
Lemma no_crlf a : nul_free a -> zlen a < 2 ^ 30 -> search CRLF a = None ->
  on_chars 128 (fun s => replace_ss s CRLF [] 0 true (S (length a))) a = Ok a.
Proof.
  intros Hf Hl Hs. apply on_chars_repr; [lia|lia|]. intros s Hr _. unfold replace_ss. cbn [search_loop].
  rewrite (chars_repr _ _ Hr). cbn [bind]. unfold find_str. rewrite zdrop_le by done.
  pose proof (zlen_nonneg a). replace (zlen a <? u32 0) with false by (change (u32 0) with 0; lia).
  unfold strstr. rewrite (cstr_id a) by done. change (cstr CRLF) with CRLF. rewrite Hs. cbn [bind].
  change (0 <=? -1) with false. by apply returns_Ok.
Qed.

Lemma replace_char_nul_free c1 c2 a : c2 <> NUL -> nul_free a -> nul_free (spec (OReplaceChar c1 c2) a).
Proof. intros Hc Hf. simpl. apply Forall_fmap. eapply Forall_impl; [exact Hf|]. intros d Hd. simpl. by case_decide. Qed.

Lemma replace_char_zlen c1 c2 a : zlen (spec (OReplaceChar c1 c2) a) = zlen a.
Proof. apply zlen_fmap. Qed.

Lemma split_attributes_ok n a :
  nul_free (n ++ lit " " ++ a) -> zlen (n ++ lit " " ++ a) < 2 ^ 30 - 1 -> " "%char ∉ n -> a <> [] ->
  search CRLF a = None ->
  split_attributes (n ++ lit " " ++ a) = Ok (n, blank_line_ends a).
Proof.
  intros Hf Hl Hn Hne Hs. assert (nul_free a) as Hfa by (by apply nul_free_app in Hf as [_ [_ ?]%nul_free_app]).
  pose proof (zlen_nonneg n). assert (0 < zlen a) by (destruct a; [done|zlen_lia]).
  assert (zlen (n ++ lit " " ++ a) = zlen n + 1 + zlen a) as El
    by (rewrite !zlen_app; change (zlen (lit " ")) with 1; lia).
  unfold split_attributes.
  rewrite (find_char_hit_at _ [] n " " a); [|done|done|done|lia|done]. cbn [bind]. change (zlen []) with 0.
  rewrite Z.add_0_l. replace (zlen n =? -1) with false by lia.
  assert (substr_from (n ++ lit " " ++ a) (u32 (zlen n + 1)) = Ok a) as ->.
  { unfold substr_from. rewrite (wrapU_small 32 (zlen n + 1)) by lia.
    pose proof (substr_at (n ++ lit " " ++ a) (n ++ lit " ") a [] (zlen n + 1) (zlen a)) as Hat.
    unfold substr in Hat. rewrite !wrapU_small in Hat by lia. rewrite wrapU_small by lia.
    replace (zlen (n ++ lit " " ++ a) - (zlen n + 1)) with (zlen a) by lia.
    apply Hat; [by rewrite app_nil_r, <- app_assoc| |done|done|lia|done].
    rewrite zlen_app. by change (zlen (lit " ")) with 1. }
  cbn [bind]. rewrite no_crlf by (done || lia). cbn [bind].
  rewrite on_chars_op; [|lia|lia|split_and!; [done..|lia]]. cbn [bind].
  rewrite on_chars_op; [|lia|rewrite replace_char_zlen; lia|split_and!; [by apply replace_char_nul_free|done..|]].
  2:{ rewrite replace_char_zlen. lia. }
  cbn [bind]. rewrite wrapU_small by lia.
  rewrite on_chars_op; [|lia|lia|cbn [allowed]; lia]. cbn [bind spec].
  do 2 f_equal. unfold ztake, zlen. rewrite Nat2Z.id. by rewrite take_app_length.
Qed.

(** The body of a good tag *)
Lemma good_body t : good_tag t -> nul_free (tag_body t) /\ zlen (tag_body t) < 2 ^ 30 - 1.
Proof.
  intros (Hf & _ & Hl & _). unfold tag_text in *. destruct (tag_of t); [done|..].
  all: rewrite ?nul_free_app in Hf; rewrite ?zlen_app in Hl; change (zlen (lit "/")) with 1 in Hl;
    change (zlen (lit "?")) with 1 in Hl; (split; [naive_solver|lia]).
Qed.

(** The end of the tag and the element it makes *)
Section parsing.
Context {F : Type} `{TextFile F}.
Implicit Types p : Parser F.

Lemma _parseElement_ok p pre t rest fuel :
  good_tag t -> _xml p = pre ++ tag_text t ++ lit ">" ++ rest -> _pos p = zlen pre ->
  nul_free (_xml p) -> zlen (_xml p) < 2 ^ 31 - 1 ->
  _name (_element p) = [] -> _attributes (_element p) = [] -> _content (_element p) = [] ->
  _apos (_element p) = 0 ->
  _parseElement p (S fuel) =
    Ok (set_pos (set_element p (tag_element t (_element p))) (zlen pre + zlen (tag_text t) + 1)).
Proof.
  intros Ht Hx Hp Hf Hl Hn Ha Hc Hap. pose proof Ht as (Hft & Hgt & Hlt & Hne & Hsp & Heq & _ & _ & _ & Hattr & Hcr).
  assert (tag_text t <> []) as Htt.
  { unfold tag_text, tag_body. destruct (tag_of t); try done; by destruct (tag_name t). }
  pose proof (zlen_nonneg pre). pose proof (zlen_nonneg rest). pose proof (zlen_nonneg (tag_text t)).
  assert (zlen (_xml p) = zlen pre + zlen (tag_text t) + 1 + zlen rest) as El
    by (rewrite Hx, !zlen_app; change (zlen (lit ">")) with 1; lia).
  unfold _parseElement. cbn [find_tag_end].
  rewrite (find_char_hit_at (_xml p) pre (tag_text t) ">" rest); [|done|done|done|lia|done].
  cbn [bind]. replace (zlen pre + zlen (tag_text t) =? -1) with false by lia. cbn [bind].
  assert (substr (_xml p) (_pos p) (u32 (zlen pre + zlen (tag_text t) - _pos p)) = Ok (tag_text t)) as ->.
  { rewrite Hp. rewrite <- (wrapU_small 32 (zlen pre)) at 1 by lia.
    apply (substr_at (_xml p) pre (tag_text t) (lit ">" ++ rest)); [done|done|lia|done|lia|done]. }
  cbn [bind]. rewrite Hn, app_nil_l, tag_kind_ok by done. cbn [bind].
  destruct (good_body t Ht) as [Hfb Hlb]. pose proof (zlen_nonneg (tag_name t)).
  unfold tag_element. unfold tag_body in *. destruct (decide (tag_attributes t = [])) as [E|E].
  - rewrite app_nil_r in *. rewrite (find_char_miss_at (tag_name t) [] (tag_name t) "=" 0) by done.
    cbn [bind]. change (0 <? -1) with false. cbn [bind].
    rewrite Ha, Hc, Hap, E. by rewrite bool_decide_eq_false_2 by auto.
  - destruct (list_elem_of_split_l _ _ (Hattr E)) as (a1 & a2 & Ea & Ha1).
    rewrite (find_char_hit_at _ [] (tag_name t ++ lit " " ++ a1) "=" a2); [|rewrite Ea, <- !app_assoc; done|done|done|lia|].
    2:{ rewrite !not_elem_of_app. split_and!; [done|compute_done|done]. }
    cbn [bind]. change (zlen []) with 0. rewrite !zlen_app. change (zlen (lit " ")) with 1.
    pose proof (zlen_nonneg a1). replace (0 <? _) with true by lia.
    rewrite split_attributes_ok by done. cbn [bind].
    rewrite Hc, Hap. by rewrite bool_decide_eq_true_2.
Qed.

(** The next element is the next tag, whatever text stands before it. *)
Lemma getNextElement_ok p pre text t rest fuel :
  good_tag t -> "<"%char ∉ text -> _xml p = pre ++ text ++ lit "<" ++ tag_text t ++ lit ">" ++ rest ->
  _pos p = zlen pre -> nul_free (_xml p) -> zlen (_xml p) < 2 ^ 31 - 1 ->
  getNextElement p (S fuel) =
    Ok (true, mkParser (tag_element t (_element p)) (_xml_file p) (_xml p)
                (zlen pre + zlen text + zlen (tag_text t) + 2)).
Proof.
  intros Ht Htext Hx Hp Hf Hl. unfold getNextElement.
  assert (zlen (_xml p) = zlen pre + zlen text + 1 + zlen (tag_text t) + 1 + zlen rest) as El
    by (rewrite Hx, !zlen_app; change (zlen (lit ">")) with 1; change (zlen (lit "<")) with 1; lia).
  pose proof (zlen_nonneg pre). pose proof (zlen_nonneg rest). pose proof (zlen_nonneg (tag_text t)).
  pose proof (zlen_nonneg text). cbn [set_element _xml _pos]. replace (_ <=? _) with false by lia.
  cbn [bind negb find_tag_start set_element _xml _pos].
  rewrite (find_char_hit_at (_xml p) pre text "<" (tag_text t ++ lit ">" ++ rest)); [|done|done|done|lia|done].
  cbn [bind]. replace (_ =? -1) with false by lia. cbn [bind].
  rewrite (_parseElement_ok _ (pre ++ text ++ lit "<") t rest); try done.
  - cbn [bind]. unfold set_pos, set_element. cbn [_element _xml_file _xml _pos]. do 2 f_equal. f_equal.
    rewrite !zlen_app. change (zlen (lit "<")) with 1. lia.
  - cbn [set_pos set_element _xml]. by rewrite Hx, <- !app_assoc.
  - cbn [set_pos _pos]. rewrite !zlen_app. change (zlen (lit "<")) with 1. lia.
Qed.
End parsing.

(** A document: tags with the text before each, and the text after the last *)
Fixpoint doc_text (doc : list (str * tag)) (tail : str) : str :=
  match doc with
  | [] => tail
  | (text, t) :: doc' => text ++ lit "<" ++ tag_text t ++ lit ">" ++ doc_text doc' tail
  end.

(** What a client sees that asks for elements until there is none. *)
Fixpoint elements {F} `{TextFile F} (p : Parser F) (fuel : nat) : res (list (str * str * bool)) :=
  match fuel with
  | O => NoFuel
  | S fuel' =>
      let? (got, p) := getNextElement p fuel in
      if negb got then Ok []
      else
        let e := _element p in
        let? es := elements p fuel' in Ok ((_name e, _attributes e, _is_closing e) :: es)
  end.

Fixpoint seen (doc : list (str * tag)) (before : bool) : list (str * str * bool) :=
  match doc with
  | [] => []
  | (_, t) :: doc' =>
      (tag_name t, blank_line_ends (tag_attributes t), tag_closing t before) ::
      seen doc' (tag_closing t before)
  end.

Section documents.
Context {F : Type} `{TextFile F}.
Implicit Types p : Parser F.

Lemma getNextElement_end p pre text fuel :
  "<"%char ∉ text -> _xml p = pre ++ text -> _pos p = zlen pre -> _xml_file p = None ->
  nul_free (_xml p) -> exists p', getNextElement p (S fuel) = Ok (false, p').
Proof.
  intros Ht Hx Hp Hfile Hf. unfold getNextElement. cbn [set_element _xml _pos].
  destruct (zlen (_xml p) <=? _pos p); cbn [find_tag_start].
  - unfold _getXML. cbn [set_element _xml_file]. rewrite Hfile. by eexists.
  - cbn [bind negb set_element _xml _pos].
    rewrite (find_char_miss_at (_xml p) pre text "<") by done. cbn [bind].
    change (-1 =? -1) with true. unfold _getXML. cbn [set_element _xml_file]. rewrite Hfile. by eexists.
Qed.

Lemma elements_from doc tail : forall p pre fuel,
  Forall (fun x => ("<"%char ∉ x.1) /\ good_tag x.2) doc -> "<"%char ∉ tail ->
  _xml p = pre ++ doc_text doc tail -> _pos p = zlen pre -> _xml_file p = None ->
  nul_free (_xml p) -> zlen (_xml p) < 2 ^ 31 - 1 -> (length doc < fuel)%nat ->
  elements p fuel = Ok (seen doc (_is_closing (_element p))).
Proof.
  induction doc as [|[text t] doc IH]; intros p pre fuel Hd Ht Hx Hp Hfile Hf Hl Hfuel;
    (destruct fuel as [|fuel]; [simpl in Hfuel; lia|]); cbn [elements].
  - by destruct (getNextElement_end p pre tail fuel) as [p' ->].
  - apply Forall_cons_iff in Hd as [[Htext Hgood] Hd]. cbn [fst snd doc_text] in *.
    rewrite (getNextElement_ok p pre text t (doc_text doc tail)) by done. cbn [bind negb _element].
    rewrite (IH _ (pre ++ text ++ lit "<" ++ tag_text t ++ lit ">")); try done; [..|simpl in Hfuel; lia].
    + cbn [_xml]. rewrite Hx, <- !app_assoc. done.
    + cbn [_pos]. rewrite !zlen_app. change (zlen (lit "<")) with 1. change (zlen (lit ">")) with 1. lia.
Qed.

Lemma getContent_ok p pre text rest fuel :
  "<"%char ∉ text -> _xml p = pre ++ text ++ lit "<" ++ rest -> _pos p = zlen pre ->
  nul_free (_xml p) -> zlen (_xml p) < 2 ^ 31 - 1 -> _content (_element p) = [] ->
  let value := if decide (text = []) then lit "<" ++ rest else text in
  getContent p (S fuel) = Ok (value, set_element p (set_content (_element p) value)).
Proof.
  intros Ht Hx Hp Hf Hl Hc. cbv zeta. unfold getContent. rewrite Hc. change (0 <? zlen []) with false. cbn [parseContent].
  pose proof (zlen_nonneg pre). pose proof (zlen_nonneg text). pose proof (zlen_nonneg rest).
  assert (zlen (_xml p) = zlen pre + zlen text + 1 + zlen rest) as El
    by (rewrite Hx, !zlen_app; change (zlen (lit "<")) with 1; lia).
  rewrite (find_char_hit_at (_xml p) pre text "<" rest); [|done|done|done|lia|done].
  cbn [bind]. replace (_ =? -1) with false by lia. rewrite Hp.
  replace (zlen pre + zlen text - zlen pre) with (zlen text) by lia. rewrite wrapU_small by lia.
  unfold substr. rewrite mid_spec by (done || lia). cbn [bind set_element set_content _element _content]. rewrite Hc, app_nil_l.
  assert ((if zlen text =? 0 then zdrop (zlen pre) (_xml p) else zsub (zlen pre) (zlen text) (_xml p)) =
          if decide (text = []) then lit "<" ++ rest else text) as ->; [|done].
  rewrite Hx. destruct (decide (text = [])) as [->|Hne]; [by rewrite zdrop_app_zlen|].
  replace (zlen text =? 0) with false by (destruct text; [done|zlen_lia]). by rewrite zsub_app.
Qed.

(** The content of an element is the text up to the next tag; when there is none, it is
    everything up to the end of the buffer. *)
Theorem getContent_spec p pre text rest fuel :
  "<"%char ∉ text -> _xml p = pre ++ text ++ lit "<" ++ rest -> _pos p = zlen pre ->
  nul_free (_xml p) -> zlen (_xml p) < 2 ^ 31 - 1 -> _content (_element p) = [] ->
  exists p', getContent p (S fuel) = Ok (if decide (text = []) then lit "<" ++ rest else text, p') /\
    _pos p' = _pos p /\ _xml p' = _xml p.
Proof. intros. eexists. split; [by eapply getContent_ok|done]. Qed.
End documents.

(** C11: over a whole document held in one string, the parser stops at every tag in turn and then
    ends. *)
Theorem elements_spec {F} `{TextFile F} doc tail :
  Forall (fun x => ("<"%char ∉ x.1) /\ good_tag x.2) doc -> "<"%char ∉ tail ->
  nul_free (doc_text doc tail) -> zlen (doc_text doc tail) < 2 ^ 31 - 1 ->
  elements (Parser_text (F := F) (doc_text doc tail)) (S (length doc)) = Ok (seen doc false).
Proof.
  intros Hd Ht Hf Hl. rewrite (elements_from doc tail _ []); try done. lia.
Qed.

(** ** Theorems on the attributes *)

Definition attribute_text (q : char) (a : str * str) : str := a.1 ++ lit "=" ++ q :: a.2 ++ [q].

(** What a client sees that asks for attributes until there is none. *)
Fixpoint attributes (e : Element) (fuel : nat) : res (list (str * str)) :=
  match fuel with
  | O => NoFuel
  | S fuel' =>
      let? (a, e) := getNextAttribute e in
      match a with
      | None => Ok []
      | Some a => let? l := attributes e fuel' in Ok (a :: l)
      end
  end.

Lemma list_find_hit (c : char) v t : c ∉ v -> list_find (fun d => d = c) (v ++ c :: t) = Some (length v, c).
Proof.
  induction v as [|d v IH]; intros Hv; simpl.
  - by rewrite decide_True by done.
  - apply not_elem_of_cons in Hv as [Hd Hv]. rewrite decide_False by congruence. by rewrite IH.
Qed.

(** One attribute: its name, and its value or, when that is empty, all that follows. *)
Lemma getNextAttribute_ok e pre q n v rest :
  _has_attributes e = true -> _attributes e = pre ++ attribute_text q (n, v) ++ rest ->
  _apos e = zlen pre -> nul_free (_attributes e) -> zlen (_attributes e) < 2 ^ 31 - 1 ->
  is_quote q = true -> n <> [] -> "="%char ∉ n -> q ∉ v ->
  getNextAttribute e =
    let value := if decide (v = []) then q :: rest else v in
    Ok (Some (n, value), set_attribute e (n, value) (zlen (pre ++ attribute_text q (n, v)) + 1)).
Proof.
  intros Hh Ha Hp Hf Hl Hq Hn Heq Hv. cbv zeta. set (value := if decide (v = []) then _ else v). unfold attribute_text in *. cbn [fst snd] in *.
  pose proof (zlen_nonneg pre). pose proof (zlen_nonneg v). pose proof (zlen_nonneg rest).
  assert (0 < zlen n) by (destruct n; [done|zlen_lia]).
  assert (zlen (_attributes e) = zlen pre + zlen n + 1 + 1 + zlen v + 1 + zlen rest) as El
    by (rewrite Ha; change (lit "=") with ["="%char]; zlen_lia).
  assert (_attributes e = (pre ++ n ++ lit "=") ++ q :: v ++ q :: rest) as E2
    by (rewrite Ha; rewrite <- !app_assoc; simpl; by rewrite <- app_assoc).
  assert (_attributes e = (pre ++ n ++ lit "=" ++ [q]) ++ v ++ q :: rest) as E3
    by (rewrite E2; rewrite <- !app_assoc; done).
  assert (zlen (pre ++ n ++ lit "=") = zlen pre + zlen n + 1) as L2 by (change (lit "=") with ["="%char]; zlen_lia).
  assert (zlen (pre ++ n ++ lit "=" ++ [q]) = zlen pre + zlen n + 2) as L3 by (change (lit "=") with ["="%char]; zlen_lia).
  unfold getNextAttribute. rewrite Hh, Hp. replace (_ && _) with true by (cbn [andb]; lia).
  rewrite (find_char_hit_at (_attributes e) pre n "=" (q :: v ++ q :: rest));
    [|rewrite E2, <- !app_assoc; done|done|done|lia|done].
  cbn [bind]. replace (_ =? -1) with false by lia.
  assert (substr (_attributes e) (zlen pre) (u32 (zlen pre + zlen n - zlen pre)) = Ok n) as ->.
  { rewrite <- (wrapU_small 32 (zlen pre)) at 1 by lia.
    apply (substr_at _ pre n (lit "=" ++ q :: v ++ q :: rest)); [rewrite E2, <- !app_assoc; done|done|lia|done|lia|done]. }
  cbn [bind].
  assert (skip_spaces (zdrop (zlen pre + zlen n + 1) (_attributes e)) (zlen pre + zlen n + 1) = zlen pre + zlen n + 1) as ->.
  { rewrite E2, <- L2, zdrop_app_zlen. cbn [skip_spaces].
    replace (isspace q) with false; [done|]. unfold is_quote in Hq. apply orb_true_iff in Hq.
    rewrite !bool_decide_eq_true in Hq. by destruct Hq as [-> | ->]. }
  replace (zlen (_attributes e) <=? _) with false by lia.
  assert (zget (_attributes e) (zlen pre + zlen n + 1) = Some q) as ->.
  { rewrite E2, <- L2, zget_app_r by lia. by rewrite Z.sub_diag. }
  cbn [of_option bind]. rewrite Hq. replace (zlen pre + zlen n + 1 + 1) with (zlen pre + zlen n + 2) by lia.
  assert (value_end (_attributes e) q (zlen pre + zlen n + 2) = zlen pre + zlen n + 2 + zlen v) as ->.
  { unfold value_end. rewrite E3, <- L3 at 1. rewrite zdrop_app_zlen, list_find_hit by done.
    apply wrapS_small; [lia|]. change (2 ^ (32 - 1)) with (2 ^ 31). fold (zlen v). lia. }
  replace (0 <? _) with true by lia.
  assert (substr (_attributes e) (u32 (zlen pre + zlen n + 2)) (u32 (zlen pre + zlen n + 2 + zlen v - (zlen pre + zlen n + 2))) = Ok value) as ->.
  { rewrite !wrapU_small by lia. unfold substr. rewrite mid_spec by (done || lia).
    replace (zlen pre + zlen n + 2 + zlen v - (zlen pre + zlen n + 2)) with (zlen v) by lia.
    rewrite E3, <- L3, zdrop_app_zlen, zsub_app. unfold value. destruct (decide (v = [])) as [->|Hne]; [done|].
    by replace (zlen v =? 0) with false by (destruct v; [done|zlen_lia]). }
  cbn [bind]. rewrite Hq. do 3 f_equal. change (lit "=") with ["="%char]. zlen_lia.
Qed.

Lemma attributes_from q l : forall e pre fuel,
  _has_attributes e = true -> _attributes e = pre ++ join " " (attribute_text q <$> l) ->
  (_apos e = zlen pre \/ (l = [] /\ zlen (_attributes e) <= _apos e)) ->
  nul_free (_attributes e) -> zlen (_attributes e) < 2 ^ 31 - 1 -> is_quote q = true ->
  Forall (fun a => a.1 <> [] /\ ("="%char ∉ a.1) /\ a.2 <> [] /\ (q ∉ a.2)) l -> (length l < fuel)%nat ->
  attributes e fuel = Ok l.
Proof.
  induction l as [|[n v] l IH]; intros e pre fuel Hh Ha Hp Hf Hl Hq Hall Hfuel;
    (destruct fuel as [|fuel]; [simpl in Hfuel; lia|]); cbn [attributes].
  - unfold getNextAttribute. rewrite Hh. simpl in Ha. rewrite app_nil_r in Ha. subst pre.
    by replace (_apos e <? zlen (_attributes e)) with false by (destruct Hp as [-> |[_ ?]]; lia).
  - apply Forall_cons_iff in Hall as [(Hn & Heq & Hv & Hqv) Hall]. cbn [fst snd] in *.
    destruct Hp as [Hp|[? _]]; [|done].
    set (rest := match l with [] => [] | _ => lit " " ++ join " " (attribute_text q <$> l) end).
    assert (_attributes e = pre ++ attribute_text q (n, v) ++ rest) as E.
    { rewrite Ha. subst rest. destruct l; simpl; by rewrite ?app_nil_r. }
    rewrite (getNextAttribute_ok e pre q n v rest) by done. cbv zeta.
    rewrite (decide_False (P := v = [])) by done. cbn [bind].
    rewrite (IH _ (if decide (l = []) then _attributes e else pre ++ attribute_text q (n, v) ++ lit " ")); try done.
    + cbn [set_attribute _attributes]. subst rest. destruct l as [|a l]; simpl.
      * by rewrite app_nil_r.
      * rewrite E. by rewrite <- !app_assoc.
    + cbn [set_attribute _attributes _apos]. subst rest. destruct l as [|a l]; simpl.
      * right. rewrite E, app_nil_r. split; [done|lia].
      * left. rewrite (app_assoc pre), (zlen_app _ (lit " ")). done.
    + simpl in Hfuel. lia.
Qed.

(** The attributes of an element come in order, each with its name and value, when they are
    quoted, separated by one blank and have a value. *)
Theorem attributes_spec q l e :
  _has_attributes e = true -> _attributes e = join " " (attribute_text q <$> l) -> _apos e = 0 ->
  nul_free (_attributes e) -> zlen (_attributes e) < 2 ^ 31 - 1 -> is_quote q = true ->
  Forall (fun a => a.1 <> [] /\ ("="%char ∉ a.1) /\ a.2 <> [] /\ (q ∉ a.2)) l ->
  attributes e (S (length l)) = Ok l.
Proof. intros. apply (attributes_from q l e []); try done; [by left|lia]. Qed.

(** The value of an attribute with the empty value [q q] is all that follows the first quote. *)
Theorem empty_attribute_value e pre q n rest :
  _has_attributes e = true -> _attributes e = pre ++ n ++ lit "=" ++ q :: q :: rest ->
  _apos e = zlen pre -> nul_free (_attributes e) -> zlen (_attributes e) < 2 ^ 31 - 1 ->
  is_quote q = true -> n <> [] -> "="%char ∉ n ->
  exists e', getNextAttribute e = Ok (Some (n, q :: rest), e').
Proof.
  intros Hh Ha Hp Hf Hl Hq Hn Heq. eexists.
  rewrite (getNextAttribute_ok e pre q n [] rest); try done; [|apply not_elem_of_nil].
  unfold attribute_text. simpl. by rewrite <- app_assoc.
Qed.

(** ** A line end of two characters between attributes *)

Lemma replaceFrom_nothing s l n pos :
  repr s l -> 0 < n <= zlen l -> 0 <= pos <= zlen l ->
  returns (replaceFrom s pos n []) (fun s' => repr s' (ztake (zlen l - n) l ++ NUL :: zdrop (zlen l - n + 1) l)).
Proof.
  intros Hr Hn Hpos. pose proof (repr_bound _ _ Hr) as Hl. unfold replaceFrom.
  rewrite (repr_length _ _ Hr), u32_add_sub. change (u32 (strlen [])) with 0.
  rewrite wrapU_small by lia. replace (zlen l =? 0) with false by lia. cbn [negb bind Z.ltb Z.compare].
  unfold memcpy. change ((0 <=? 0) && (0 <=? zlen (text []))) with true. cbn [bind].
  destruct (split3 l (zlen l - n) 1) as (m & El & Hm & Hp); [lia..|].
  destruct m as [|c [|]]; [done| |exfalso; revert Hm; zlen_lia].
  destruct (replace_cc_step s c NUL (ztake (zlen l - n) l) (zdrop (zlen l - n + 1) l)) as (s' & E & H').
  { by rewrite El in Hr. }
  exists s'. rewrite Hp in E. split; [|done].
  replace (zlen l + 0 - n) with (zlen l - n) by lia. by rewrite <- E.
Qed.

Lemma find_crlf a b npos :
  nul_free a -> chr 13 ∉ a -> zlen (a ++ CRLF ++ b) < 2 ^ 31 -> npos = 0 \/ npos = zlen a ->
  find_str (a ++ CRLF ++ b) CRLF npos = Ok (zlen a).
Proof.
  intros Hf Ha Hl Hpos. unfold find_str. pose proof (zlen_nonneg a). pose proof (zlen_nonneg b).
  assert (zlen (a ++ CRLF ++ b) = zlen a + 2 + zlen b) as El
    by (rewrite !zlen_app; change (zlen CRLF) with 2; lia).
  replace (_ <? npos) with false by lia. unfold strstr. change (cstr CRLF) with CRLF.
  assert (exists a', zdrop npos (a ++ CRLF ++ b) = a' ++ CRLF ++ b /\ nul_free a' /\ (chr 13 ∉ a') /\
    npos + zlen a' = zlen a) as (a' & -> & Hf' & Ha' & Hz).
  { destruct Hpos as [-> | ->].
    - exists a. rewrite zdrop_le by lia. by split_and!.
    - exists []. rewrite zdrop_app_zlen, zlen_nil. split_and!; [done|constructor|apply not_elem_of_nil|lia]. }
  rewrite cstr_app by done. rewrite (cstr_app CRLF) by (by repeat constructor).
  pose proof (search_first (chr 13) [chr 10] a' (cstr b) Ha') as Hs. fold CRLF in Hs. rewrite Hs.
  rewrite wrapS_small; [|lia|].
  - by rewrite Hz.
  - change (2 ^ (32 - 1)) with (2 ^ 31). lia.
Qed.

(** Attributes that hold a line end of two characters with text behind it are never read: the
    replacement of the line end by the [String] that [' '] converts to does not end. *)
Theorem attributes_line_end_hangs a b fuel :
  nul_free a -> chr 13 ∉ a -> 2 <= zlen b -> zlen (a ++ CRLF ++ b) < 2 ^ 31 ->
  on_chars 128 (fun s => replace_ss s CRLF [] 0 true fuel) (a ++ CRLF ++ b) = NoFuel.
Proof.
  intros Hf Ha Hb Hl. unfold on_chars.
  destruct (reserve_repr 128) as (s0 & -> & H0); [lia|]. cbn [bind].
  destruct (copy_repr s0 [] (a ++ CRLF ++ b) (zlen (a ++ CRLF ++ b)) H0) as (s1 & E1 & H1 & _); [zlen_lia|done|].
  unfold assign_String. rewrite E1. cbn [bind]. rewrite ztake_ge in H1 by lia. clear E1 H0 s0.
  assert (0 = 0 \/ 0 = zlen a) as Hpos by (by left). unfold replace_ss. revert Hpos.
  enough (forall npos, npos = 0 \/ npos = zlen a -> search_loop (fun t => find_str t CRLF)
    (fun s npos => replaceFrom s npos (u32 (strlen CRLF)) []) s1 npos true fuel = NoFuel) as HN.
  { intros Hpos. by rewrite HN. }
  change (u32 (strlen CRLF)) with 2. pose proof (zlen_nonneg a).
  induction fuel as [|fuel IH] in s1, b, H1, Hb, Hl |- *; intros npos Hpos; [done|].
  cbn [search_loop]. rewrite (chars_repr _ _ H1). cbn [bind].
  assert (zlen (a ++ CRLF ++ b) = zlen a + 2 + zlen b) as El
    by (rewrite !zlen_app; change (zlen CRLF) with 2; lia).
  rewrite wrapU_small by lia. rewrite find_crlf by done. cbn [bind].
  replace (0 <=? zlen a) with true by lia. cbn [negb].
  destruct (replaceFrom_nothing s1 _ 2 (zlen a) H1) as (s2 & -> & H2); [lia|lia|]. cbn [bind].
  destruct (split_len b (zlen b - 2)) as (b1 & b2 & -> & Hb1); [lia|].
  rewrite zlen_app in Hb1.
  destruct b2 as [|x [|y [|z b2]]]; rewrite ?zlen_cons, ?zlen_nil in Hb1; try (pose proof (zlen_nonneg b2)); try lia.
  assert (a ++ CRLF ++ b1 ++ [x; y] = (a ++ CRLF ++ b1) ++ [x; y]) as E by (by rewrite <- !app_assoc).
  assert (zlen (a ++ CRLF ++ b1 ++ [x; y]) = zlen (a ++ CRLF ++ b1) + 2) as El2
    by (rewrite E, zlen_app; done).
  rewrite El2, E in H2. replace (_ + 2 - 2) with (zlen (a ++ CRLF ++ b1)) in H2 by lia.
  replace (ztake _ _) with (a ++ CRLF ++ b1) in H2
    by (unfold ztake, zlen; by rewrite Nat2Z.id, take_app_length).
  replace (zdrop _ _) with [y] in H2.
  2:{ change [x; y] with ([x] ++ [y]). rewrite (app_assoc _ [x] [y]).
      replace (zlen (a ++ CRLF ++ b1) + 1) with (zlen ((a ++ CRLF ++ b1) ++ [x])) by (rewrite zlen_app; done).
      by rewrite zdrop_app_zlen. }
  assert (zlen (b1 ++ [NUL; y]) = zlen (b1 ++ [x; y])) as Eb by (rewrite !zlen_app; done).
  apply (IH (b1 ++ [NUL; y])); [lia| | |by right].
  - rewrite 2!zlen_app, Eb, <- !zlen_app. lia.
  - by rewrite <- !app_assoc in H2.
Qed.

(** ** Witnesses *)

(** No text file *)
Definition no_file : TextFile unit :=
  {| eof _ := true; atBeginning _ := true; position _ := 0; seek f _ := f; read_text f _ := Ok ([], f, 0) |}.

Definition sample_doc : list (str * tag) :=
  [(lit "", mkTag Instruction (lit "xml") (lit "version='1.0'"));
   ([chr 10], mkTag Open (lit "list") (lit "size='2' kind='x'"));
   (lit " ", mkTag SelfClose (lit "item") []); (lit "text", mkTag Close (lit "list") [])].

Ltac good_tag :=
  unfold good_tag; split_and!; first [intros _; compute_done | unfold nul_free; compute_done | by intros []].

Lemma elements_spec_witness :
  @elements unit no_file (Parser_text (doc_text (tail sample_doc) (lit " end"))) 4 =
    Ok [(lit "list", lit "size='2' kind='x'", false); (lit "item", [], true); (lit "list", [], true)].
Proof.
  apply (@elements_spec unit no_file (tail sample_doc) (lit " end"));
    [|compute_done|unfold nul_free; compute_done|reflexivity].
  repeat apply Forall_cons_2; try apply Forall_nil_2; (split; [compute_done|good_tag]).
Defined.

Lemma getContent_spec_witness :
  (exists p, @getContent unit no_file (mkParser Element_new None (lit "<a>x y</a>") 3) 1 = Ok (lit "x y", p) /\
     _pos p = 3 /\ _xml p = lit "<a>x y</a>") /\
  (exists p, @getContent unit no_file (mkParser Element_new None (lit "<a></a>") 3) 1 = Ok (lit "</a>", p) /\
     _pos p = 3 /\ _xml p = lit "<a></a>").
Proof.
  split; [apply (@getContent_spec unit no_file (mkParser Element_new None (lit "<a>x y</a>") 3) (lit "<a>") (lit "x y") (lit "/a>") 0)|
          apply (@getContent_spec unit no_file (mkParser Element_new None (lit "<a></a>") 3) (lit "<a>") [] (lit "/a>") 0)];
    first [compute_done | unfold nul_free; compute_done | reflexivity].
Defined.

Lemma xml_roundtrip_witness :
  decode (encode (lit "if (a<b && c>d)")) = Ok (lit "if (a<b && c>d)") /\
  decode (encode (lit "<b>")) = Ok (lit "&lt;b&gt;<b>").
Proof. split; [apply (xml_roundtrip (lit "if (a<b && c>d)"))|apply (xml_roundtrip (lit "<b>"))]; reflexivity. Defined.

Definition sample_element : Element :=
  mkElement (lit "a") (lit "x='1' long='some text'") [] false true 0 ([], []).

Lemma attributes_spec_witness :
  attributes sample_element 3 = Ok [(lit "x", lit "1"); (lit "long", lit "some text")].
Proof.
  apply (attributes_spec "'" [(lit "x", lit "1"); (lit "long", lit "some text")]);
    first [reflexivity | unfold nul_free; compute_done].
Defined.

Lemma attributes_line_end_hangs_witness :
  on_chars 128 (fun s => replace_ss s CRLF [] 0 true 500) (lit "x='1'" ++ CRLF ++ lit "y='2'") = NoFuel.
Proof.
  apply (attributes_line_end_hangs (lit "x='1'") (lit "y='2'"));
    first [unfold nul_free; compute_done | compute_done].
Defined.
