(* ===== verification/RpcValue.v ===== *)
(** * RPC values (src/cpp/src/rpc/RpcValue.cpp, include/srl/rpc/RpcValue.h)

    A value is an object of RpcValue or of one of its three subclasses.  The objects form a tree that
    its owner deletes, so a value is kept as that tree; a pointer that may be NULL is an option.  The
    dictionary of a struct is kept as the association list it stands for ([Dictionary_refines]), the
    vector of an array as its list ([Vector_refines]).  [_xml], which every method rewrites before it
    is read, is left out; what an exception leaks is not counted.  Reading and printing a [double] are
    operations of the C library ([Doubles]).  Times are those of [Time]. *)

From S2P Require Import Prelude Dictionary DictTree DictSpec Mapping CString Str StrConv StrMem ByteBuffer Base64 Date Time XML.

(** ** The objects *)

Inductive Type_ :=
  | TypeInvalid
  | TypeBoolean
  | TypeInt
  | TypeDouble
  | TypeString
  | TypeDateTime
  | TypeBase64
  | TypeNull
  | TypeArray
  | TypeStruct.

(** The union [_value]: its eight bytes, the pointer NULL being 0, or a pointer to a time *)
Inductive union :=
  | Word (bits : Z)
  | Pointer (asDateTime : DateTime).

(** What a subclass adds *)
Inductive Members (V : Type) :=
  | Plain
  | Struct (_struct : list (str * option V))
  | Array (_array : list (option V))
  | Binary (_bytes : ByteBuffer).
Arguments Plain {V}.
Arguments Struct {V} _struct.
Arguments Array {V} _array.
Arguments Binary {V} _bytes.

Inductive RpcValue := mkRpcValue (_type : Type_) (_str : str) (_value : union) (_members : Members RpcValue).

Definition getType (v : RpcValue) : Type_ := let 'mkRpcValue t _ _ _ := v in t.
Definition asString (v : RpcValue) : str := let 'mkRpcValue _ s _ _ := v in s.
Definition _value (v : RpcValue) : union := let 'mkRpcValue _ _ u _ := v in u.
Definition members (v : RpcValue) : Members RpcValue := let 'mkRpcValue _ _ _ m := v in m.

(** What the code uses of the C library on floating point numbers: [sprintf] in [String::Val],
    [strtod] in [String::Double], and the conversion to [int]. *)
Class Doubles := {
  double : Type;
  Val_double : double -> str;
  Double : str -> double;
  to_int : double -> res Z
}.

(** ** Clearing and setting *)

(** [RpcValue::clear()], and the virtual [clear()] of the object's class *)
Definition clear_base (v : RpcValue) : RpcValue := mkRpcValue TypeInvalid [] (Word 0) (members v).
Definition clear (v : RpcValue) : RpcValue :=
  match members v with
  | Struct _ => clear_base (mkRpcValue (getType v) (asString v) (_value v) (Struct []))
  | Array _ => clear_base (mkRpcValue (getType v) (asString v) (_value v) (Array []))
  | Plain | Binary _ => clear_base v
  end.

Definition set_bool (value : bool) (v : RpcValue) : RpcValue :=
  mkRpcValue TypeBoolean (if value then lit "1" else lit "0") (Word (if value then 1 else 0)) (members (clear v)).
Definition set_int (value : Z) (v : RpcValue) : res RpcValue :=
  let? s := Val_int32 value 10 in
  Ok (mkRpcValue TypeInt s (Word (u32 value)) (members (clear v))).
Definition set_double {D : Doubles} (value : double) (v : RpcValue) : res RpcValue :=
  let? n := to_int value in
  Ok (mkRpcValue TypeDouble (Val_double value) (Word (u32 n)) (members (clear v))).
Definition set_String (value : str) (v : RpcValue) : RpcValue :=
  mkRpcValue TypeString value (Word 0) (members (clear v)).
Definition set_cstr (value : str) (v : RpcValue) : RpcValue := set_String (cstr value) v.

(** [strftime] with the format %Y%m%dT%H:%M:%S, for a year of four digits *)
Definition two (n : Z) : str := [chr (48 + n / 10 mod 10); chr (48 + n mod 10)].
Definition iso8601 (dt : tm) (ck : clock) : str :=
  let year := tm_year dt + 1900 in
  two (year / 100) ++ two (year mod 100) ++ two (tm_mon dt + 1) ++ two (tm_mday dt) ++
  lit "T" ++ two (tm_hour ck) ++ lit ":" ++ two (tm_min ck) ++ lit ":" ++ two (tm_sec ck).

Definition set_DateTime (value : DateTime) (v : RpcValue) : res RpcValue :=
  let? s := formatString iso8601 value in
  Ok (mkRpcValue TypeDateTime s (Pointer (DateTime_assign value)) (members (clear v))).

(** The constructors *)
Definition RpcValue_new : RpcValue := mkRpcValue TypeInvalid [] (Word 0) Plain.
Definition RpcValue_bool (value : bool) : RpcValue := set_bool value RpcValue_new.
Definition RpcValue_int (value : Z) : res RpcValue := set_int value RpcValue_new.
Definition RpcValue_double {D : Doubles} (value : double) : res RpcValue := set_double value RpcValue_new.
Definition RpcValue_String (value : str) : RpcValue := set_String value RpcValue_new.
Definition RpcValue_DateTime (value : DateTime) : res RpcValue := set_DateTime value RpcValue_new.
Definition RpcStructValue_new : RpcValue := mkRpcValue TypeStruct [] (Word 0) (Struct []).
Definition RpcArrayValue_new : RpcValue := mkRpcValue TypeArray [] (Word 0) (Array []).
Definition RpcBinaryValue_new : res RpcValue :=
  let? bytes := BB_new 1024 in Ok (mkRpcValue TypeBase64 [] (Word 0) (Binary bytes)).

(** ** Reading the union *)

(** A [bool] whose byte is neither 0 nor 1 has no value. *)
Definition asBool (v : RpcValue) : res bool :=
  match _value v with
  | Word w => if u8 w =? 0 then Ok false else if u8 w =? 1 then Ok true else UB
  | Pointer _ => UB
  end.
Definition asInt (v : RpcValue) : res Z :=
  match _value v with Word w => Ok (s32 w) | Pointer _ => UB end.
Definition asDateTime (v : RpcValue) : res DateTime :=
  match _value v with Pointer d => Ok d | Word _ => UB end.

(** ** Structs and arrays *)

Definition struct_size (ms : list (str * option RpcValue)) : Z := u32 (zlen ms).
Definition hasMember (name : str) (ms : list (str * option RpcValue)) : bool := mem name ms.
Definition struct_get (name : str) (ms : list (str * option RpcValue)) : option RpcValue :=
  match DictSpec.lookup name ms with Some v => v | None => None end.
(** [set(name, RpcValue* )] *)
Definition struct_add (name : str) (v : option RpcValue) (ms : list (str * option RpcValue)) :
    res (list (str * option RpcValue)) :=
  if mem name ms then Throw InvalidArgumentException else Ok (ms ++ [(name, v)]).
(** The methods [set(name, value)], with the [set] of the member, which a new one gets as well *)
Definition struct_set (name : str) (set : RpcValue -> res RpcValue) (ms : list (str * option RpcValue)) :
    res (list (str * option RpcValue)) :=
  match DictSpec.lookup name ms with
  | Some (Some v) => let? v := set v in Ok (update name (Some v) ms)
  | Some None => UB
  | None => let? v := set RpcValue_new in struct_add name (Some v) ms
  end.
Definition array_add (v : option RpcValue) (vs : list (option RpcValue)) : list (option RpcValue) := vs ++ [v].
Definition array_get (index : Z) (vs : list (option RpcValue)) : res (option RpcValue) :=
  match zget vs index with Some v => Ok v | None => Throw IndexOutOfBoundsException end.

(** ** Writing XML *)

Definition VALUE_TAG : str := lit "value".
Definition BOOLEAN_TAG : str := lit "boolean".
Definition DOUBLE_TAG : str := lit "double".
Definition INT_TAG : str := lit "int".
Definition I4_TAG : str := lit "i4".
Definition STRING_TAG : str := lit "string".
Definition DATETIME_TAG : str := lit "dateTime.iso8601".
Definition BASE64_TAG : str := lit "base64".
Definition ARRAY_TAG : str := lit "array".
Definition DATA_TAG : str := lit "data".
Definition STRUCT_TAG : str := lit "struct".
Definition MEMBER_TAG : str := lit "member".
Definition NAME_TAG : str := lit "name".

(** [None] is the NULL that the default case returns. *)
Definition GetTag (value_type : Type_) : option str :=
  match value_type with
  | TypeInt => Some INT_TAG
  | TypeDouble => Some DOUBLE_TAG
  | TypeBoolean => Some BOOLEAN_TAG
  | TypeString => Some STRING_TAG
  | TypeDateTime => Some DATETIME_TAG
  | TypeArray => Some ARRAY_TAG
  | TypeStruct => Some STRUCT_TAG
  | TypeBase64 => Some BASE64_TAG
  | TypeInvalid | TypeNull => None
  end.

(** A literal of C: its line ends and tabs *)
Fixpoint c_chars (s : str) : str :=
  match s with
  | [] => []
  | c :: s' =>
      match s' with
      | d :: s'' =>
          if decide (c = "\"%char) then (if decide (d = "n"%char) then chr 10 else if decide (d = "t"%char) then chr 9 else d) :: c_chars s''
          else c :: c_chars s'
      | [] => [c]
      end
  end.
Definition c_lit (s : string) : str := c_chars (lit s).

(** What a struct writes for the text of a member *)
Definition member_text (k x : str) : str :=
  c_lit "\t\t<member>\n\t\t\t<name>" ++ encode k ++ c_lit "</name>\n\t\t\t" ++ x ++ c_lit "\t\t</member>\n".

(** The members of a struct and the items of an array, for the [asXml()] of a value *)
Section texts.
Variable as_xml : RpcValue -> res (str * RpcValue).

Fixpoint struct_texts (l : list (str * option RpcValue)) : res (str * list (str * option RpcValue)) :=
  match l with
  | [] => Ok ([], [])
  | (k, Some m) :: l =>
      let? (x, m) := as_xml m in
      let? (xs, l) := struct_texts l in Ok (member_text k x ++ xs, (k, Some m) :: l)
  | (_, None) :: _ => UB
  end.
Fixpoint array_texts (l : list (option RpcValue)) : res (str * list (option RpcValue)) :=
  match l with
  | [] => Ok ([], [])
  | Some m :: l =>
      let? (x, m) := as_xml m in
      let? (xs, l) := array_texts l in Ok (x ++ xs, Some m :: l)
  | None :: _ => UB
  end.
End texts.

(** [asXml()] of the object's class: the text, and the object, whose [_str] a binary value changes.  Its
    own text is appended there to what an earlier call has left. *)
Fixpoint asXml (v : RpcValue) : res (str * RpcValue) :=
  let 'mkRpcValue type s u data := v in
  match data with
  | Plain =>
      let? tag := of_option (GetTag type) in
      Ok (c_lit "<value><" ++ tag ++ c_lit ">" ++ encode s ++ c_lit "</" ++ tag ++ c_lit "></value>\n", v)
  | Struct ms =>
      let? (text, ms) := struct_texts asXml ms in
      Ok (c_lit "<value>\n\t<struct>\n" ++ text ++ c_lit "\t</struct>\n</value>\n", mkRpcValue type s u (Struct ms))
  | Array vs =>
      let? (text, vs) := array_texts asXml vs in
      Ok (c_lit "<value>\n\t<array>\n\t\t<data>\n" ++ text ++ c_lit "\t\t</data>\n\t\t</array>\n</value>\n",
          mkRpcValue type s u (Array vs))
  | Binary b =>
      let? cs := bread b 0 (_length b) in
      let? bytes := bytes_of cs in
      let s := Base64.encode_bytes bytes s in
      Ok (c_lit "<value><base64>" ++ s ++ c_lit "</base64></value>\n", mkRpcValue type s u data)
  end.

(** ** Reading XML *)

(** [sscanf] of the C library: one [%<width>d], and a character of the format *)
Fixpoint digits_up_to (width : nat) (s : str) (n : Z) : Z * str :=
  match width, s with
  | S width, c :: s' => if isdigit c then digits_up_to width s' (n * 10 + (ord c - 48)) else (n, s)
  | _, _ => (n, s)
  end.
Fixpoint drop_space (s : str) : str := match s with c :: s' => if isspace c then drop_space s' else s | [] => [] end.
Definition scan_int (width : nat) (s : str) : option (Z * str) :=
  let s := drop_space s in
  let '(sign, width, s) :=
    match s with
    | c :: s' => if decide (c = "-"%char) then (-1, pred width, s') else if decide (c = "+"%char) then (1, pred width, s') else (1, width, s)
    | [] => (1, width, s)
    end in
  match s, width with
  | c :: _, S _ => if isdigit c then let '(n, s) := digits_up_to width s 0 in Some (sign * n, s) else None
  | _, _ => None
  end.
Definition scan_char (c : char) (s : str) : option str :=
  match s with d :: s' => if decide (d = c) then Some s' else None | [] => None end.

(** sscanf(text, "%4d%2d%2dT%2d:%2d:%2d", ...), when it is 6 *)
Definition scan_time (s : str) : option (tm * clock) :=
  '(year, s) ← scan_int 4 (cstr s);
  '(mon, s) ← scan_int 2 s;
  '(mday, s) ← scan_int 2 s;
  s ← scan_char "T" s;
  '(hour, s) ← scan_int 2 s;
  s ← scan_char ":" s;
  '(min, s) ← scan_int 2 s;
  s ← scan_char ":" s;
  '(sec, _) ← scan_int 2 s;
  Some (mkTm mday mon year 0 0 0, mkClock hour min sec).

Section reading.
Context {F : Type} `{TextFile F} {D : Doubles}.
Implicit Types p : Parser F.

(** The current element has the name, the name and not the flag, the name and the flag. *)
Definition named (name : str) p : bool := op_eq (_name (_element p)) name.
Definition opens (name : str) p : bool := named name p && negb (_is_closing (_element p)).
Definition closes (name : str) p : bool := named name p && _is_closing (_element p).

(** A scalar element: its content, when it has one, makes the value; then comes the closing tag.  A
    NULL that [make] returns is returned at once, before that tag ([inl]).  The content is asked for
    again to read a number. *)
Definition scalar (again : bool) (make : str -> res (option RpcValue)) p (fuel : nat) :
    res (option RpcValue * Parser F + option RpcValue * Parser F) :=
  let? (has, p) := hasContent p fuel in
  if has : bool then
    let? (text, p) := getContent p fuel in
    let? (text, p) := if again then getContent p fuel else Ok (text, p) in
    let? v := make text in
    match v with
    | None => Ok (inl (None, p))
    | Some v => let? (_, p) := getNextElement p fuel in Ok (inr (Some v, p))
    end
  else let? (_, p) := getNextElement p fuel in Ok (inr (None, p)).

Definition make_int (type : Type_) (text : str) : res (option RpcValue) :=
  Ok (Some (mkRpcValue type text (Word (u32 (Int text 10))) Plain)).
Definition make_double (text : str) : res (option RpcValue) :=
  let? n := to_int (Double text) in Ok (Some (mkRpcValue TypeDouble text (Word (u32 n)) Plain)).
Definition make_DateTime (text : str) : res (option RpcValue) :=
  match scan_time text with
  | None => Ok None
  | Some (t, ck) =>
      let t := mkTm (tm_mday t) (tm_mon t) (tm_year t - 1900) 0 0 (-1) in
      let? d := DateTime_tm t ck in Ok (Some (mkRpcValue TypeDateTime text (Pointer d) Plain))
  end.

(** The loop of [RpcStructValue(XML::Parser& )] for the function that reads a member's value *)
Fixpoint struct_loop (from_xml : Parser F -> res (option RpcValue * Parser F)) p (ms : list (str * option RpcValue)) (fuel : nat) :
    res (list (str * option RpcValue) * Parser F) :=
  match fuel with
  | O => NoFuel
  | S fuel' =>
      let? (got, p) := getNextElement p fuel in
      if got && opens MEMBER_TAG p then
        let? (got, p) := getNextElement p fuel in
        if negb (got && opens NAME_TAG p) then Throw IOException
        else
          let? (has, p) := hasContent p fuel in
          if negb has then Throw IOException
          else
            let? (mname, p) := getContent p fuel in
            let? (got, p) := getNextElement p fuel in
            if negb (got && closes NAME_TAG p) then Throw IOException
            else
              let? (got, p) := getNextElement p fuel in
              if negb (got && named VALUE_TAG p) then Throw IOException
              else
                let? (v, p) := from_xml p in
                let? ms := struct_add mname v ms in
                let? (_, p) := getNextElement p fuel in
                struct_loop from_xml p ms fuel'
      else Ok (ms, p)
  end.
Definition RpcStructValue_xml (from_xml : Parser F -> res (option RpcValue * Parser F)) p (fuel : nat) :
    res (RpcValue * Parser F) :=
  let? (ms, p) := struct_loop from_xml p [] fuel in
  Ok (mkRpcValue TypeStruct [] (Word 0) (Struct ms), p).

Fixpoint array_loop (from_xml : Parser F -> res (option RpcValue * Parser F)) p (vs : list (option RpcValue)) (fuel : nat) :
    res (list (option RpcValue) * Parser F) :=
  match fuel with
  | O => NoFuel
  | S fuel' =>
      let? (got, p) := getNextElement p fuel in
      if got && opens VALUE_TAG p then
        let? (v, p) := from_xml p in array_loop from_xml p (array_add v vs) fuel'
      else Ok (vs, p)
  end.
Definition RpcArrayValue_xml (from_xml : Parser F -> res (option RpcValue * Parser F)) p (fuel : nat) :
    res (RpcValue * Parser F) :=
  let? (got, p) := getNextElement p fuel in
  if negb (got && named DATA_TAG p) then Throw IOException
  else
    let? (vs, p) := array_loop from_xml p [] fuel in
    if negb (closes DATA_TAG p) then Throw IOException
    else
      let? (got, p) := getNextElement p fuel in
      if negb (got && closes ARRAY_TAG p) then Throw IOException
      else Ok (mkRpcValue TypeArray [] (Word 0) (Array vs), p).

Definition RpcBinaryValue_xml p (fuel : nat) : res (RpcValue * Parser F) :=
  let? (has, p) := hasContent p fuel in
  if negb has then Throw IOException
  else
    let? (text, p) := getContent p fuel in
    let? bytes := BB_new 1024 in
    let? bytes := Base64.decode text bytes in
    if negb (closes BASE64_TAG p) then Throw IOException
    else Ok (mkRpcValue TypeBase64 [] (Word 0) (Binary bytes), p).

(** The object that the tag behind the value tag asks for; a tag of another name makes none. *)
Definition typed_value (from_xml : Parser F -> res (option RpcValue * Parser F)) p (fuel : nat) :
    res (option RpcValue * Parser F + option RpcValue * Parser F) :=
  let object (m : res (RpcValue * Parser F)) := let? (v, p) := m in Ok (inr (Some v, p)) in
  if named STRING_TAG p then
    let? (has, p) := hasContent p fuel in
    let? (text, p) := if has : bool then let? (t, p) := getContent p fuel in let? t := decode t in Ok (t, p) else Ok ([], p) in
    let? (_, p) := getNextElement p fuel in
    Ok (inr (Some (RpcValue_String text), p))
  else if named INT_TAG p || named I4_TAG p then scalar true (make_int TypeInt) p fuel
  else if named DOUBLE_TAG p then scalar true make_double p fuel
  else if named BOOLEAN_TAG p then scalar true (make_int TypeBoolean) p fuel
  else if named DATETIME_TAG p then scalar false make_DateTime p fuel
  else if named ARRAY_TAG p then object (RpcArrayValue_xml from_xml p fuel)
  else if named STRUCT_TAG p then object (RpcStructValue_xml from_xml p fuel)
  else if named BASE64_TAG p then object (RpcBinaryValue_xml p fuel)
  else Ok (inr (None, p)).

Fixpoint FromXml p (fuel : nat) : res (option RpcValue * Parser F) :=
  match fuel with
  | O => NoFuel
  | S fuel' =>
      if negb (named VALUE_TAG p) then Ok (None, p)
      else
        let? (has, p) := hasContent p fuel in
        if has : bool then
          let? (text, p) := getContent p fuel in
          let? text := decode text in
          Ok (Some (RpcValue_String text), p)
        else
          let? (got, p) := getNextElement p fuel in
          if negb got then Throw IOException
          else
            let? r := typed_value (fun p => FromXml p fuel') p fuel' in
            match r with
            | inl r => Ok r
            | inr (v, p) => let? (_, p) := getNextElement p fuel in Ok (v, p)
            end
  end.
End reading.

(** ** Lemmas on the text of the tags *)

Definition LF : char := chr 10.

(** Names that a tag can have without attributes *)
Definition word (name : str) : bool :=
  negb (bool_decide (name = [])) && forallb (fun c => isupper c || islower c || isdigit c || bool_decide (c = "."%char)) name && (zlen name <? 1000).

Lemma word_char c : isupper c || islower c || isdigit c || bool_decide (c = "."%char) = true ->
  c <> NUL /\ c <> ">"%char /\ c <> " "%char /\ c <> "="%char /\ c <> "/"%char /\ c <> "?"%char.
Proof. all_chars c; try done; by repeat split. Qed.

Lemma word_good k name : word name = true -> k <> Instruction -> k <> SelfClose -> good_tag (mkTag k name []).
Proof.
  unfold word. rewrite !andb_true_iff, negb_true_iff, bool_decide_eq_false. intros [[Hne Hw] Hl] Hk1 Hk2.
  assert (Forall (fun c => c <> NUL /\ c <> ">"%char /\ c <> " "%char /\ c <> "="%char /\ c <> "/"%char /\ c <> "?"%char) name) as Hc.
  { apply Forall_forall. intros c Hin%list_elem_of_In. rewrite forallb_forall in Hw. by apply word_char, Hw. }
  rewrite Forall_forall in Hc. assert (tag_body (mkTag k name []) = name) as Hb by (unfold tag_body; cbn; by rewrite app_nil_r).
  assert (nul_free name) as Hf by (apply Forall_forall; intros c Hin; by apply Hc).
  assert (tag_text (mkTag k name []) = (match k with Close => lit "/" | _ => [] end) ++ name) as Et
    by (unfold tag_text; cbn [tag_of]; destruct k; rewrite ?Hb; done).
  unfold good_tag. rewrite Et, Hb. cbn [tag_name tag_attributes]. split_and!; try done.
  - apply nul_free_app. split; [destruct k; repeat constructor; done|done].
  - rewrite not_elem_of_app. split; [destruct k; first [apply not_elem_of_nil | compute_done]|]. intros Hin. by apply Hc in Hin as (_ & ? & _).
  - rewrite zlen_app. assert (zlen (match k with Close => lit "/" | _ => [] end) <= 1) by (by destruct k). lia.
  - intros Hin. by apply Hc in Hin as (_ & _ & ? & _).
  - intros Hin. by apply Hc in Hin as (_ & _ & _ & ? & _).
  - destruct name as [|c name]; [done|]. intros [= ->]. by destruct (Hc "/"%char ltac:(left)) as (_ & _ & _ & _ & ? & _).
  - destruct name as [|c name]; [done|]. intros [= ->]. by destruct (Hc "?"%char ltac:(left)) as (_ & _ & _ & _ & _ & ?).
  - intros Hlast%last_Some_elem_of. by apply Hc in Hlast as (_ & _ & _ & _ & ? & _).
Qed.

(** Is the text white space? *)
Definition blank (s : str) : bool := forallb isspace s.

Lemma first_nonspace_text text rest : "<"%char ∉ text ->
  exists c, first_nonspace (text ++ lit "<" ++ rest) = Some c /\ negb (bool_decide (c = "<"%char)) = negb (blank text).
Proof.
  induction text as [|c text IH]; intros Ht; [by exists "<"%char|]. apply not_elem_of_cons in Ht as [Hc Ht]. cbn.
  destruct (isspace c); [by apply IH|]. exists c. split; [done|]. by rewrite bool_decide_false.
Qed.

(** What [encode] writes has no tag in it, and is blank when its text is. *)
Lemma encode_no_tag s : "<"%char ∉ encode s.
Proof.
  induction s as [|c s IH]; [apply not_elem_of_nil|]. rewrite encode_cons, not_elem_of_app. split; [|done].
  destruct (encode_char_cases c) as [(_ & _ & ->)|[(Hc & _ & -> & _)|(e & _ & _ & He & ->)]].
  - apply not_elem_of_nil.
  - rewrite list_elem_of_singleton. by intros <-.
  - unfold ENTITY in He. rewrite !elem_of_cons in He.
    destruct He as [[= -> ->]|[[= -> ->]|[[= -> ->]|[[= -> ->]|[[= -> ->]|He]]]]]; [..|by apply elem_of_nil in He]; compute_done.
Qed.

Lemma encode_blank s : blank (encode s) = blank (kept s).
Proof.
  induction s as [|c s IH]; [done|]. unfold blank in *. rewrite encode_cons, kept_cons, !forallb_app, IH. f_equal.
  destruct (encode_char_cases c) as [(_ & -> & ->)|[(_ & -> & -> & _)|(e & _ & -> & He & ->)]]; [done..|].
  unfold ENTITY in He. rewrite !elem_of_cons in He.
  destruct He as [[= -> ->]|[[= -> ->]|[[= -> ->]|[[= -> ->]|[[= -> ->]|He]]]]]; [..|by apply elem_of_nil in He]; done.
Qed.

(** ** Lemmas on the parser *)

Section steps.
Context {F : Type} `{TextFile F}.
Implicit Types p : Parser F.

(** The parser is in the text [xml], with [rest] before it. *)
Definition stands (xml : str) p (rest : str) : Prop :=
  _xml p = xml /\ nul_free xml /\ zlen xml < 2 ^ 31 - 1 /\ exists pre, xml = pre ++ rest /\ _pos p = zlen pre.

Definition at_tag p (name : str) (closing : bool) : Prop :=
  _name (_element p) = name /\ _is_closing (_element p) = closing /\ _content (_element p) = [].

Lemma next_tag k xml p text name rest fuel :
  stands xml p (text ++ lit "<" ++ (match k with Close => lit "/" | _ => [] end) ++ name ++ lit ">" ++ rest) ->
  word name = true -> k <> Instruction -> k <> SelfClose -> "<"%char ∉ text ->
  exists p', getNextElement p (S fuel) = Ok (true, p') /\ at_tag p' name (match k with Close => true | _ => false end) /\ stands xml p' rest.
Proof.
  intros (Ex & Hf & Hl & pre & Ep & Epos) Hw Hk1 Hk2 Ht. pose proof (word_good k name Hw Hk1 Hk2) as Hg.
  set (t := mkTag k name []) in *.
  assert (tag_text t = (match k with Close => lit "/" | _ => [] end) ++ name) as Et
    by (unfold tag_text, tag_body, t; cbn; rewrite app_nil_r; by destruct k).
  rewrite (getNextElement_ok p pre text t rest); [|done|done| |done|congruence|congruence].
  2:{ by rewrite Ex, Ep, Et, <- !app_assoc. }
  eexists. split; [done|]. split; [by destruct k|]. split; [done|]. do 2 (split; [done|]).
  exists (pre ++ text ++ lit "<" ++ tag_text t ++ lit ">"). split; [by rewrite Ep, Et, <- !app_assoc|].
  cbn [_pos]. rewrite !zlen_app. change (zlen (lit "<")) with 1. change (zlen (lit ">")) with 1. lia.
Qed.

Lemma next_open xml p text name rest fuel :
  stands xml p (text ++ lit "<" ++ name ++ lit ">" ++ rest) -> word name = true -> "<"%char ∉ text ->
  exists p', getNextElement p (S fuel) = Ok (true, p') /\ at_tag p' name false /\ stands xml p' rest.
Proof. intros. by apply (next_tag Open xml p text). Qed.

Lemma next_close xml p text name rest fuel :
  stands xml p (text ++ lit "</" ++ name ++ lit ">" ++ rest) -> word name = true -> "<"%char ∉ text ->
  exists p', getNextElement p (S fuel) = Ok (true, p') /\ at_tag p' name true /\ stands xml p' rest.
Proof. intros. by apply (next_tag Close xml p text). Qed.

Lemma hasContent_text xml p text name rest fuel :
  stands xml p (text ++ lit "<" ++ rest) -> at_tag p name false -> "<"%char ∉ text ->
  hasContent p (S fuel) = Ok (negb (blank text), p).
Proof.
  intros (Ex & Hf & Hl & pre & Ep & Epos) (_ & Hc & Hcon) Ht. unfold hasContent. rewrite Hcon, Hc. cbn [zlen length Z.of_nat Z.ltb Z.compare hasContent_loop].
  rewrite Ex. replace (0 <? zlen xml) with true.
  2:{ rewrite Ep, !zlen_app. change (zlen (lit "<")) with 1. pose proof (zlen_nonneg pre). pose proof (zlen_nonneg text). pose proof (zlen_nonneg rest). lia. }
  rewrite Ep, Epos, zdrop_app_zlen. by destruct (first_nonspace_text text rest Ht) as (c & -> & ->).
Qed.

Definition with_content (text : str) p : Parser F := set_element p (set_content (_element p) text).

Lemma getContent_text xml p text name rest fuel :
  stands xml p (text ++ lit "<" ++ rest) -> at_tag p name false -> "<"%char ∉ text -> text <> [] ->
  getContent p (S fuel) = Ok (text, with_content text p).
Proof.
  intros (Ex & Hf & Hl & pre & Ep & Epos) (_ & _ & Hcon) Ht Hne.
  rewrite (getContent_ok p pre text rest); [|done|congruence|done|congruence|congruence|done]. by rewrite decide_False.
Qed.

Lemma getContent_again text p fuel : text <> [] -> getContent (with_content text p) fuel = Ok (text, with_content text p).
Proof.
  intros Hne. unfold getContent. cbn [with_content set_element set_content _element _content].
  replace (0 <? zlen text) with true; [done|]. destruct text; [done|]. rewrite zlen_cons. pose proof (zlen_nonneg text). lia.
Qed.

Lemma stands_content xml text p rest : stands xml p rest -> stands xml (with_content text p) rest.
Proof. done. Qed.

Lemma named_at p name closing n : at_tag p name closing -> named n p = op_eq name n.
Proof. by intros (<- & _). Qed.
End steps.

(** ** Values that are read back *)

Section induction.
Variable P : RpcValue -> Prop.
Hypothesis P_plain : forall t s u, P (mkRpcValue t s u Plain).
Hypothesis P_binary : forall t s u b, P (mkRpcValue t s u (Binary b)).
Hypothesis P_struct : forall t s u ms, Forall (fun km => forall v, km.2 = Some v -> P v) ms -> P (mkRpcValue t s u (Struct ms)).
Hypothesis P_array : forall t s u vs, Forall (fun x => forall v, x = Some v -> P v) vs -> P (mkRpcValue t s u (Array vs)).

Fixpoint RpcValue_ind' (v : RpcValue) : P v :=
  match v with
  | mkRpcValue t s u Plain => P_plain t s u
  | mkRpcValue t s u (Binary b) => P_binary t s u b
  | mkRpcValue t s u (Struct ms) => P_struct t s u ms
      ((fix each (l : list (str * option RpcValue)) : Forall (fun km => forall v, km.2 = Some v -> P v) l :=
        match l with
        | [] => Forall_nil_2 _
        | (k, x) :: l => Forall_cons_2 _ (k, x) l
            (match x return forall v, x = Some v -> P v with
             | Some w => fun v E => eq_ind w P (RpcValue_ind' w) v (f_equal (default w) E)
             | None => fun v E => False_ind _ (eq_ind None (fun o => match o with None => True | Some _ => False end) I _ E)
             end) (each l)
        end) ms)
  | mkRpcValue t s u (Array vs) => P_array t s u vs
      ((fix each (l : list (option RpcValue)) : Forall (fun x => forall v, x = Some v -> P v) l :=
        match l with
        | [] => Forall_nil_2 _
        | x :: l => Forall_cons_2 _ x l
            (match x return forall v, x = Some v -> P v with
             | Some w => fun v E => eq_ind w P (RpcValue_ind' w) v (f_equal (default w) E)
             | None => fun v E => False_ind _ (eq_ind None (fun o => match o with None => True | Some _ => False end) I _ E)
             end) (each l)
        end) vs)
  end.
End induction.

(** The fuel that reading the value takes *)
Definition struct_size_with (size : RpcValue -> nat) (l : list (str * option RpcValue)) : nat :=
  foldr (fun km n => S (match km.2 with Some m => size m | None => O end + n)) O l.
Definition array_size_with (size : RpcValue -> nat) (l : list (option RpcValue)) : nat :=
  foldr (fun x n => S (match x with Some m => size m | None => O end + n)) O l.
Fixpoint size (v : RpcValue) : nat :=
  let 'mkRpcValue _ _ _ data := v in
  match data with
  | Plain | Binary _ => 2
  | Struct ms => 3 + struct_size_with size ms
  | Array vs => 3 + array_size_with size vs
  end.

(** A text that [encode] leaves as it is, and one that [decode] gives back *)
Definition clear_text (s : str) : Prop := encode s = s /\ blank s = false.
Definition good_text (s : str) : Prop := kept s = s /\ starts_with_entity s = false /\ (s = [] \/ blank s = false) /\ zlen (encode s) < 2 ^ 31.

Section readable.
Context {D : Doubles}.

Inductive readable : RpcValue -> Prop :=
  | readable_bool b : readable (RpcValue_bool b)
  | readable_int n v : - 2 ^ 31 <= n < 2 ^ 31 -> RpcValue_int n = Ok v -> readable v
  | readable_double d v : to_int (Double (Val_double d)) = to_int d -> clear_text (Val_double d) ->
      RpcValue_double d = Ok v -> readable v
  | readable_string s : good_text s -> readable (RpcValue_String s)
  | readable_struct ms : NoDup ((fun km => Hash km.1) <$> ms) ->
      Forall (fun km => clear_text km.1 /\ exists v, km.2 = Some v /\ readable v) ms ->
      readable (mkRpcValue TypeStruct [] (Word 0) (Struct ms))
  | readable_array vs : Forall (fun x => exists v, x = Some v /\ readable v) vs ->
      readable (mkRpcValue TypeArray [] (Word 0) (Array vs)).

Context {F : Type} `{TextFile F}.
Implicit Types p : Parser F.

(** The value is written as a value element, which is read back. *)
Definition reads (v : RpcValue) : Prop :=
  exists body, asXml v = Ok (lit "<value>" ++ body ++ [LF], v) /\
    forall xml p rest fuel, (size v <= fuel)%nat -> at_tag p VALUE_TAG false -> stands xml p (body ++ rest) ->
      exists p', FromXml p fuel = Ok (Some v, p') /\ at_tag p' VALUE_TAG true /\ stands xml p' rest.

Lemma to_value xml p sp name rest fuel : at_tag p VALUE_TAG false -> word name = true -> blank sp = true -> ("<"%char ∉ sp) ->
  stands xml p (sp ++ lit "<" ++ name ++ lit ">" ++ rest) ->
  exists p1, at_tag p1 name false /\ stands xml p1 rest /\
    FromXml p (S fuel) =
      let? r := typed_value (fun p => FromXml p fuel) p1 fuel in
      match r with inl r => Ok r | inr (v, p) => let? (_, p) := getNextElement p (S fuel) in Ok (v, p) end.
Proof.
  intros Hp Hw Hb Ht Hs. destruct (next_open xml p sp name rest fuel Hs Hw Ht) as (p1 & E & Hp1 & Hs1).
  exists p1. do 2 (split; [done|]). cbn [FromXml]. rewrite (named_at _ _ _ _ Hp). change (negb (op_eq VALUE_TAG VALUE_TAG)) with false.
  cbv iota. rewrite (hasContent_text xml p sp VALUE_TAG (name ++ lit ">" ++ rest)), Hb by done. cbn [bind negb]. by rewrite E.
Qed.

Lemma scalar_ok again make xml p name text rest fuel v :
  at_tag p name false -> word name = true -> ("<"%char ∉ text) -> blank text = false -> make text = Ok (Some v) ->
  stands xml p (text ++ lit "</" ++ name ++ lit ">" ++ rest) ->
  exists p', scalar again make p (S fuel) = Ok (inr (Some v, p')) /\ stands xml p' rest.
Proof.
  intros Hp Hw Ht Hb Hm Hs. assert (text <> []) as Hne by (by intros ->).
  unfold scalar. rewrite (hasContent_text xml p text name (lit "/" ++ name ++ lit ">" ++ rest)), Hb by done. cbn [bind negb].
  rewrite (getContent_text xml p text name (lit "/" ++ name ++ lit ">" ++ rest)) by done. cbn [bind].
  replace (if again then _ else _) with (Ok (text, with_content text p) : res (str * Parser F))
    by (destruct again; [by rewrite getContent_again|done]).
  cbn [bind]. rewrite Hm. cbn [bind].
  destruct (next_close xml (with_content text p) text name rest fuel) as (p1 & -> & _ & Hs1); [by apply stands_content|done..|].
  exists p1. by split.
Qed.

(** A value of one scalar element *)
Lemma reads_scalar again make name v :
  (forall p fuel, at_tag p name false -> typed_value (F := F) (fun p => FromXml p fuel) p fuel = scalar again make p fuel) ->
  word name = true -> clear_text (asString v) -> members v = Plain -> GetTag (getType v) = Some name ->
  make (asString v) = Ok (Some v) -> reads v.
Proof.
  intros Htv Hw [He Hb] Hm Hg Hmake. destruct v as [t s u data]. cbn [members getType asString] in Hm, Hg, He, Hb, Hmake. subst data.
  exists (lit "<" ++ name ++ lit ">" ++ s ++ lit "</" ++ name ++ lit "></value>"). split.
  { cbn [asXml]. rewrite Hg, He. cbn [of_option bind]. do 2 f_equal. by rewrite <- !app_assoc. }
  intros xml p rest fuel Hf Hp Hs. cbn [size] in Hf. destruct fuel as [|[|fuel]]; [lia..|].
  assert ("<"%char ∉ s) as Ht by (rewrite <- He; apply encode_no_tag).
  rewrite <- !app_assoc in Hs. destruct (to_value xml p [] name _ (S fuel) Hp Hw eq_refl ltac:(apply not_elem_of_nil) Hs) as (p1 & Hp1 & Hs1 & ->).
  rewrite Htv by done. destruct (scalar_ok again make xml p1 name s (lit "</value>" ++ rest) fuel _ Hp1 Hw Ht Hb Hmake Hs1) as (p2 & -> & Hs2).
  cbn [bind]. destruct (next_close xml p2 [] VALUE_TAG rest (S fuel) Hs2) as (p3 & -> & Hp3 & Hs3); [done|apply not_elem_of_nil|].
  exists p3. by split_and!.
Qed.

Lemma value_reads_bool b : reads (RpcValue_bool b).
Proof.
  apply (reads_scalar true (make_int TypeBoolean) BOOLEAN_TAG); try done; [|by destruct b..].
  intros p fuel Hp. unfold typed_value. by rewrite !(named_at _ _ _ _ Hp).
Qed.

Lemma clear_chars s : s <> [] -> Forall (fun c => encode_char [] c = [c] /\ isspace c = false) s -> clear_text s.
Proof.
  intros Hne Hs. split.
  - clear Hne. induction Hs as [|c s [Hc _] _ IH]; [done|]. by rewrite encode_cons, Hc, IH.
  - destruct Hs as [|c s [_ Hc] _]; [done|]. cbn. by rewrite Hc.
Qed.

Lemma int_text n s : - 2 ^ 31 <= n < 2 ^ 31 -> Val_int32 n 10 = Ok s -> clear_text s /\ Int s 10 = n.
Proof.
  intros Hn E. split.
  - destruct (Val_int32_chars n 10 Hn) as (s' & E' & ds & -> & Hds & Hne & _); [lia|]. rewrite E in E'. injection E' as ->.
    apply clear_chars; [by destruct (n <? 0), ds|]. apply Forall_app. split; [by destruct (n <? 0); repeat constructor|].
    eapply Forall_impl; [exact Hds|]. intros c (d & Hd & ->).
    assert (bool_decide (encode_char [] (HEX_at d) = [HEX_at d] /\ isspace (HEX_at d) = false) = true) as Hc%bool_decide_eq_true; [|done].
    revert d Hd. apply (range_check (fun d => bool_decide (encode_char [] (HEX_at d) = [HEX_at d] /\ isspace (HEX_at d) = false)) 16).
    vm_compute. reflexivity.
  - destruct (Val_int32_ok n 10 Hn) as (s' & E' & Ei & _); [lia|]. rewrite E in E'. injection E' as ->. done.
Qed.

Lemma reads_int n v : - 2 ^ 31 <= n < 2 ^ 31 -> RpcValue_int n = Ok v -> reads v.
Proof.
  intros Hn Ev. unfold RpcValue_int, set_int in Ev. destruct (Val_int32 n 10) as [s| | |] eqn:Es; try done. injection Ev as <-.
  destruct (int_text n s Hn Es) as [Hc Hi].
  apply (reads_scalar true (make_int TypeInt) INT_TAG); try done; [|cbn; unfold make_int; by rewrite Hi].
  intros p fuel Hp. unfold typed_value. by rewrite !(named_at _ _ _ _ Hp).
Qed.

Lemma reads_double d v : to_int (Double (Val_double d)) = to_int d -> clear_text (Val_double d) ->
  RpcValue_double d = Ok v -> reads v.
Proof.
  intros Hd Hc Ev. unfold RpcValue_double, set_double in Ev. destruct (to_int d) as [n| | |] eqn:En; try done. injection Ev as <-.
  apply (reads_scalar true make_double DOUBLE_TAG); try done; [|cbn; unfold make_double; by rewrite Hd].
  intros p fuel Hp. unfold typed_value. by rewrite !(named_at _ _ _ _ Hp).
Qed.

Lemma value_reads_string s : good_text s -> reads (RpcValue_String s).
Proof.
  intros (Hk & Hst & Hb & Hl). exists (lit "<string>" ++ encode s ++ lit "</string></value>"). split.
  { cbn [asXml RpcValue_String set_String RpcValue_new members clear GetTag of_option bind]. do 2 f_equal. by rewrite <- !app_assoc. }
  intros xml p rest fuel Hf Hp Hs. change (size (RpcValue_String s)) with 2%nat in Hf. destruct fuel as [|[|fuel]]; [lia..|].
  pose proof (encode_no_tag s) as Ht. rewrite <- !app_assoc in Hs.
  destruct (to_value xml p [] STRING_TAG _ (S fuel) Hp eq_refl eq_refl ltac:(apply not_elem_of_nil) Hs) as (p1 & Hp1 & Hs1 & ->).
  unfold typed_value. rewrite (named_at _ _ _ _ Hp1). change (op_eq STRING_TAG STRING_TAG) with true. cbv iota.
  rewrite (hasContent_text xml p1 (encode s) STRING_TAG (lit "/string></value>" ++ rest)) by done. rewrite encode_blank, Hk. cbn [bind].
  assert (exists p2, (let? (text, p) := if negb (blank s) then let? (t, p) := getContent p1 (S fuel) in let? t := decode t in Ok (t, p) else Ok ([], p1) in
    Ok (text, p)) = Ok (s, p2) /\ stands xml p2 (encode s ++ lit "</" ++ STRING_TAG ++ lit ">" ++ lit "</value>" ++ rest)) as (p2 & E2 & Hs2).
  { destruct Hb as [-> | Hb]; [by exists p1|]. rewrite Hb. cbn [negb]. assert (encode s <> []) as Hne.
    { intros E. pose proof (encode_blank s) as Hx. rewrite E, Hk, Hb in Hx. done. }
    rewrite (getContent_text xml p1 (encode s) STRING_TAG (lit "/string></value>" ++ rest)) by done. cbn [bind].
    rewrite decode_encoded by done. rewrite Hk, Hst. cbn [bind app]. exists (with_content (encode s) p1). split; [done|by apply stands_content]. }
  destruct (if negb (blank s) then _ else _) as [[text p2']| | |]; try done. cbn [bind] in E2 |- *. injection E2 as -> ->.
  destruct (next_close xml p2 (encode s) STRING_TAG (lit "</value>" ++ rest) fuel Hs2) as (p3 & -> & _ & Hs3); [done|done|]. cbn [bind].
  destruct (next_close xml p3 [] VALUE_TAG rest (S fuel) Hs3) as (p4 & -> & Hp4 & Hs4); [done|apply not_elem_of_nil|].
  exists p4. by split_and!.
Qed.


(** *** Structs *)

(** The members, what is written for them, and their fuel *)
Inductive member_texts : list (str * option RpcValue) -> str -> nat -> Prop :=
  | member_texts_nil : member_texts [] [] 0
  | member_texts_cons k m body l text n :
      clear_text k -> asXml m = Ok (lit "<value>" ++ body ++ [LF], m) ->
      (forall xml p rest fuel, (size m <= fuel)%nat -> at_tag p VALUE_TAG false -> stands xml p (body ++ rest) ->
        exists p', FromXml p fuel = Ok (Some m, p') /\ at_tag p' VALUE_TAG true /\ stands xml p' rest) ->
      member_texts l text n ->
      member_texts ((k, Some m) :: l) (member_text k (lit "<value>" ++ body ++ [LF]) ++ text) (S (size m + n)).

Lemma struct_members ms :
  Forall (fun km => clear_text km.1 /\ exists v, km.2 = Some v /\ reads v) ms ->
  exists text, member_texts ms text (struct_size_with size ms) /\ struct_texts asXml ms = Ok (text, ms).
Proof.
  induction 1 as [|[k x] ms (Hk & v & E & body & Ev & Hr) _ (text & Hms & Ex)]; [by exists []; split; [constructor|]|].
  cbn in E. subst x. eexists. split; [by constructor|]. cbn [struct_texts]. rewrite Ev. cbn [bind]. by rewrite Ex.
Qed.

Lemma mem_absent k (ms : list (str * option RpcValue)) : Hash k ∉ ((fun km => Hash km.1) <$> ms) -> mem k ms = false.
Proof.
  intros Hk. unfold mem. rewrite lookup_fresh; [done|]. intros k' (km & -> & Hin)%list_elem_of_fmap E. apply Hk.
  rewrite <- E. apply list_elem_of_fmap. by exists km.
Qed.

Lemma struct_loop_ok (f : nat) rest l text n : member_texts l text n -> forall xml p sp acc fuel,
  ("<"%char ∉ sp) -> stands xml p (sp ++ text ++ c_lit "\t</struct>" ++ rest) ->
  NoDup ((fun km => Hash km.1) <$> acc ++ l) -> (n < fuel)%nat -> (n <= f)%nat ->
  exists p', struct_loop (fun p => FromXml p f) p acc fuel = Ok (acc ++ l, p') /\ at_tag p' STRUCT_TAG true /\ stands xml p' rest.
Proof.
  induction 1 as [|k m body l text n [Hk Hb] Em Hr Hms IH]; intros xml p sp acc fuel Hsp Hs Hnd Hf Hf2;
    (destruct fuel as [|fuel]; [lia|]); cbn [struct_loop].
  - destruct (next_close xml p (sp ++ c_lit "\t") STRUCT_TAG rest fuel) as (p1 & -> & Hp1 & Hs1).
    { by rewrite <- app_assoc. } { done. } { rewrite not_elem_of_app. split; [done|compute_done]. }
    cbn [bind andb]. unfold opens. rewrite (named_at _ _ _ _ Hp1). change (op_eq STRUCT_TAG MEMBER_TAG) with false. cbn [andb].
    rewrite app_nil_r. exists p1. by split_and!.
  - assert (k <> []) as Hne by (by intros ->). assert ("<"%char ∉ k) as Hkt by (rewrite <- Hk; apply encode_no_tag).
    unfold member_text in Hs. rewrite Hk, <- !app_assoc in Hs.
    destruct (next_open xml p (sp ++ c_lit "\t\t") MEMBER_TAG
      (c_lit "\n\t\t\t" ++ lit "<" ++ NAME_TAG ++ lit ">" ++ k ++ lit "</" ++ NAME_TAG ++ lit ">" ++ c_lit "\n\t\t\t" ++
       lit "<" ++ VALUE_TAG ++ lit ">" ++ body ++ [LF] ++ c_lit "\t\t</member>\n" ++ text ++ c_lit "\t</struct>" ++ rest) fuel)
      as (p1 & -> & Hp1 & Hs1).
    { by rewrite <- app_assoc. } { done. } { rewrite not_elem_of_app. split; [done|compute_done]. }
    cbn [bind andb]. unfold opens at 1. rewrite (named_at _ _ _ _ Hp1). destruct (Hp1) as (_ & -> & _).
    change (op_eq MEMBER_TAG MEMBER_TAG) with true. cbn [andb negb].
    destruct (next_open xml p1 (c_lit "\n\t\t\t") NAME_TAG _ fuel Hs1) as (p2 & -> & Hp2 & Hs2); [done|compute_done|].
    cbn [bind]. unfold opens at 1. rewrite (named_at _ _ _ _ Hp2). destruct (Hp2) as (_ & -> & _).
    change (op_eq NAME_TAG NAME_TAG) with true. cbn [andb negb].
    rewrite (hasContent_text xml p2 k NAME_TAG _ fuel Hs2 Hp2 Hkt), Hb. cbn [bind negb].
    rewrite (getContent_text xml p2 k NAME_TAG _ fuel Hs2 Hp2 Hkt Hne). cbn [bind].
    destruct (next_close xml (with_content k p2) k NAME_TAG _ fuel Hs2) as (p3 & -> & Hp3 & Hs3); [done|done|].
    cbn [bind]. unfold closes. rewrite (named_at _ _ _ _ Hp3). destruct (Hp3) as (_ & -> & _).
    change (op_eq NAME_TAG NAME_TAG) with true. cbn [andb negb].
    destruct (next_open xml p3 (c_lit "\n\t\t\t") VALUE_TAG _ fuel Hs3) as (p4 & -> & Hp4 & Hs4); [done|compute_done|].
    cbn [bind]. rewrite (named_at _ _ _ _ Hp4). change (op_eq VALUE_TAG VALUE_TAG) with true. cbn [andb negb].
    destruct (Hr xml p4 _ f ltac:(lia) Hp4 Hs4) as (p5 & -> & Hp5 & Hs5). cbn [bind].
    rewrite fmap_app, fmap_cons in Hnd. pose proof Hnd as Hnd2. apply NoDup_app in Hnd2 as (_ & Hnd2 & _).
    unfold struct_add. rewrite mem_absent.
    2:{ intros Hin. by apply (Hnd2 _ Hin); left. }
    cbn [bind]. destruct (next_close xml p5 ([LF] ++ c_lit "\t\t") MEMBER_TAG (c_lit "\n" ++ text ++ c_lit "\t</struct>" ++ rest) fuel) as (p6 & -> & Hp6 & Hs6);
      [exact Hs5|done|compute_done|]. cbn [bind].
    destruct (IH xml p6 (c_lit "\n") (acc ++ [(k, Some m)]) fuel) as (p7 & -> & Hp7 & Hs7); [compute_done|done| |lia|lia|].
    { rewrite <- app_assoc, fmap_app. exact Hnd. }
    exists p7. by rewrite <- app_assoc.
Qed.

Lemma reads_struct ms : NoDup ((fun km => Hash km.1) <$> ms) ->
  Forall (fun km => clear_text km.1 /\ exists v, km.2 = Some v /\ reads v) ms ->
  reads (mkRpcValue TypeStruct [] (Word 0) (Struct ms)).
Proof.
  intros Hnd Hms. destruct (struct_members ms Hms) as (text & Ht & Ex).
  exists (c_lit "\n\t" ++ lit "<" ++ STRUCT_TAG ++ lit ">" ++ c_lit "\n" ++ text ++ c_lit "\t</struct>\n</value>"). split.
  { cbn [asXml]. rewrite Ex. cbn [bind]. do 2 f_equal. by rewrite <- !app_assoc. }
  intros xml p rest fuel Hf Hp Hs. cbn [size] in Hf. destruct fuel as [|[|fuel]]; [lia..|]. rewrite <- !app_assoc in Hs.
  destruct (to_value xml p (c_lit "\n\t") STRUCT_TAG _ (S fuel) Hp eq_refl eq_refl ltac:(compute_done) Hs) as (p1 & Hp1 & Hs1 & ->).
  unfold typed_value. rewrite !(named_at _ _ _ _ Hp1).
  change (op_eq STRUCT_TAG STRING_TAG) with false. change (op_eq STRUCT_TAG INT_TAG || op_eq STRUCT_TAG I4_TAG) with false.
  change (op_eq STRUCT_TAG DOUBLE_TAG) with false. change (op_eq STRUCT_TAG BOOLEAN_TAG) with false.
  change (op_eq STRUCT_TAG DATETIME_TAG) with false. change (op_eq STRUCT_TAG ARRAY_TAG) with false.
  change (op_eq STRUCT_TAG STRUCT_TAG) with true. cbv iota zeta. unfold RpcStructValue_xml.
  destruct (struct_loop_ok (S fuel) (c_lit "\n</value>" ++ rest) ms text _ Ht xml p1 (c_lit "\n") [] (S fuel)) as (p2 & -> & Hp2 & Hs2);
    [compute_done|done|done|lia|lia|].
  cbn [bind app]. destruct (next_close xml p2 (c_lit "\n") VALUE_TAG rest (S fuel) Hs2) as (p3 & -> & Hp3 & Hs3); [done|compute_done|].
  exists p3. by split_and!.
Qed.


(** *** Arrays *)

Inductive item_texts : list (option RpcValue) -> str -> nat -> Prop :=
  | item_texts_nil : item_texts [] [] 0
  | item_texts_cons m body l text n :
      asXml m = Ok (lit "<value>" ++ body ++ [LF], m) ->
      (forall xml p rest fuel, (size m <= fuel)%nat -> at_tag p VALUE_TAG false -> stands xml p (body ++ rest) ->
        exists p', FromXml p fuel = Ok (Some m, p') /\ at_tag p' VALUE_TAG true /\ stands xml p' rest) ->
      item_texts l text n ->
      item_texts (Some m :: l) ((lit "<value>" ++ body ++ [LF]) ++ text) (S (size m + n)).

Lemma array_items vs : Forall (fun x => exists v, x = Some v /\ reads v) vs ->
  exists text, item_texts vs text (array_size_with size vs) /\ array_texts asXml vs = Ok (text, vs).
Proof.
  induction 1 as [|x vs (v & -> & body & Ev & Hr) _ (text & Hvs & Ex)]; [by exists []; split; [constructor|]|].
  eexists. split; [by constructor|]. cbn [array_texts]. rewrite Ev. cbn [bind]. by rewrite Ex.
Qed.

Lemma array_loop_ok (f : nat) rest l text n : item_texts l text n -> forall xml p sp acc fuel,
  ("<"%char ∉ sp) -> stands xml p (sp ++ text ++ c_lit "\t\t</data>" ++ rest) -> (n < fuel)%nat -> (n <= f)%nat ->
  exists p', array_loop (fun p => FromXml p f) p acc fuel = Ok (acc ++ l, p') /\ at_tag p' DATA_TAG true /\ stands xml p' rest.
Proof.
  induction 1 as [|m body l text n Em Hr Hms IH]; intros xml p sp acc fuel Hsp Hs Hf Hf2;
    (destruct fuel as [|fuel]; [lia|]); cbn [array_loop].
  - destruct (next_close xml p (sp ++ c_lit "\t\t") DATA_TAG rest fuel) as (p1 & -> & Hp1 & Hs1).
    { by rewrite <- app_assoc. } { done. } { rewrite not_elem_of_app. split; [done|compute_done]. }
    cbn [bind andb]. unfold opens. rewrite (named_at _ _ _ _ Hp1). change (op_eq DATA_TAG VALUE_TAG) with false. cbn [andb].
    rewrite app_nil_r. exists p1. by split_and!.
  - rewrite <- !app_assoc in Hs. destruct (next_open xml p sp VALUE_TAG _ fuel Hs) as (p1 & -> & Hp1 & Hs1); [done|done|].
    cbn [bind andb]. unfold opens at 1. rewrite (named_at _ _ _ _ Hp1). destruct (Hp1) as (_ & -> & _).
    change (op_eq VALUE_TAG VALUE_TAG) with true. cbn [andb negb].
    destruct (Hr xml p1 _ f ltac:(lia) Hp1 Hs1) as (p2 & -> & Hp2 & Hs2). cbn [bind].
    destruct (IH xml p2 [LF] (array_add (Some m) acc) fuel) as (p3 & -> & Hp3 & Hs3); [compute_done|done|lia|lia|].
    exists p3. unfold array_add. by rewrite <- app_assoc.
Qed.

Lemma value_reads_array vs : Forall (fun x => exists v, x = Some v /\ reads v) vs ->
  reads (mkRpcValue TypeArray [] (Word 0) (Array vs)).
Proof.
  intros Hvs. destruct (array_items vs Hvs) as (text & Ht & Ex).
  exists (c_lit "\n\t" ++ lit "<" ++ ARRAY_TAG ++ lit ">" ++ c_lit "\n\t\t<data>\n" ++ text ++ c_lit "\t\t</data>\n\t\t</array>\n</value>"). split.
  { cbn [asXml]. rewrite Ex. cbn [bind]. do 2 f_equal. by rewrite <- !app_assoc. }
  intros xml p rest fuel Hf Hp Hs. cbn [size] in Hf. destruct fuel as [|[|fuel]]; [lia..|]. rewrite <- !app_assoc in Hs.
  destruct (to_value xml p (c_lit "\n\t") ARRAY_TAG _ (S fuel) Hp eq_refl eq_refl ltac:(compute_done) Hs) as (p1 & Hp1 & Hs1 & ->).
  unfold typed_value. rewrite !(named_at _ _ _ _ Hp1).
  change (op_eq ARRAY_TAG STRING_TAG) with false. change (op_eq ARRAY_TAG INT_TAG || op_eq ARRAY_TAG I4_TAG) with false.
  change (op_eq ARRAY_TAG DOUBLE_TAG) with false. change (op_eq ARRAY_TAG BOOLEAN_TAG) with false.
  change (op_eq ARRAY_TAG DATETIME_TAG) with false. change (op_eq ARRAY_TAG ARRAY_TAG) with true. cbv iota zeta.
  unfold RpcArrayValue_xml.
  destruct (next_open xml p1 (c_lit "\n\t\t") DATA_TAG (c_lit "\n" ++ text ++ c_lit "\t\t</data>\n\t\t</array>\n</value>" ++ rest) fuel)
    as (p2 & -> & Hp2 & Hs2); [exact Hs1|done|compute_done|].
  cbn [bind andb]. rewrite (named_at _ _ _ _ Hp2). change (op_eq DATA_TAG DATA_TAG) with true. cbn [negb].
  destruct (array_loop_ok (S fuel) (c_lit "\n\t\t</array>\n</value>" ++ rest) vs text _ Ht xml p2 (c_lit "\n") [] (S fuel)) as (p3 & -> & Hp3 & Hs3);
    [compute_done|exact Hs2|lia|lia|].
  cbn [bind app]. unfold closes at 1. rewrite (named_at _ _ _ _ Hp3). destruct (Hp3) as (_ & -> & _).
  change (op_eq DATA_TAG DATA_TAG) with true. cbn [andb negb].
  destruct (next_close xml p3 (c_lit "\n\t\t") ARRAY_TAG (c_lit "\n</value>" ++ rest) fuel) as (p4 & -> & Hp4 & Hs4); [exact Hs3|done|compute_done|].
  cbn [bind andb]. unfold closes at 1. rewrite (named_at _ _ _ _ Hp4). destruct (Hp4) as (_ & -> & _).
  change (op_eq ARRAY_TAG ARRAY_TAG) with true. cbn [andb negb bind].
  destruct (next_close xml p4 (c_lit "\n") VALUE_TAG rest (S fuel) Hs4) as (p5 & -> & Hp5 & Hs5); [done|compute_done|].
  exists p5. by split_and!.
Qed.

Lemma readable_reads v : readable v -> reads v.
Proof.
  induction v as [t s u|t s u b|t s u ms IH|t s u vs IH] using RpcValue_ind'; intros Hv; inversion Hv; subst.
  all: try solve [apply value_reads_bool | by eapply reads_int | by eapply reads_double | by apply value_reads_string].
  all: try (by unfold RpcValue_int, set_int, bind in *; case_match; simplify_eq).
  all: try (by unfold RpcValue_double, set_double, bind in *; case_match; simplify_eq).
  - apply reads_struct; [done|]. rewrite !Forall_forall in *. intros km Hin.
    match goal with Ha : forall x, x ∈ ms -> clear_text _ /\ _ |- _ => destruct (Ha km Hin) as (Hk & v & Ek & Hr) end.
    split; [done|]. exists v. split; [done|]. by apply (IH km Hin v Ek).
  - apply value_reads_array. rewrite !Forall_forall in *. intros x Hin.
    match goal with Ha : forall x, x ∈ vs -> exists v, _ |- _ => destruct (Ha x Hin) as (v & Ek & Hr) end.
    exists v. split; [done|]. by apply (IH x Hin v Ek).
Qed.
End readable.

(** C17: [FromXml] reads the text that [asXml] writes for a readable value back to the same value, whatever
    comes behind it, and stops after its closing tag. *)
Theorem rpc_roundtrip {D : Doubles} {F : Type} `{TextFile F} v : readable v ->
  exists t, asXml v = Ok (t, v) /\
    forall xml (p : Parser F) sp rest fuel,
      ("<"%char ∉ sp) -> stands xml p (sp ++ t ++ rest) -> (size v < fuel)%nat ->
      exists p', (let? (_, p) := getNextElement p fuel in FromXml p fuel) = Ok (Some v, p') /\ stands xml p' (LF :: rest).
Proof.
  intros (body & Ev & Hr)%(readable_reads (F := F)). exists (lit "<value>" ++ body ++ [LF]). split; [done|].
  intros xml p sp rest [|fuel] Hsp Hs Hf; [lia|]. rewrite <- !app_assoc in Hs.
  destruct (next_open xml p sp VALUE_TAG _ fuel Hs) as (p1 & -> & Hp1 & Hs1); [done|done|]. cbn [bind].
  destruct (Hr xml p1 _ (S fuel) ltac:(lia) Hp1 Hs1) as (p2 & -> & _ & Hs2). by exists p2.
Qed.

(** ** Members of a struct *)

(** Setting a member makes it, or changes the one with the same hash; the others stay. *)
Lemma struct_set_spec name set ms v :
  (match DictSpec.lookup name ms with Some (Some w) => set w | Some None => UB | None => set RpcValue_new end) = Ok v ->
  exists ms', struct_set name set ms = Ok ms' /\ struct_get name ms' = Some v /\
    forall k, Hash k <> Hash name -> struct_get k ms' = struct_get k ms.
Proof.
  intros Ev. exists (update name (Some v) ms). unfold struct_set, struct_get. split; [|split].
  - destruct (DictSpec.lookup name ms) as [[w|]|] eqn:El; [by rewrite Ev|done|]. rewrite Ev. cbn [bind].
    unfold struct_add, mem. by rewrite El, update_none.
  - by rewrite lookup_update.
  - intros k Hk. assert (DictSpec.lookup k (update name (Some v) ms) = DictSpec.lookup k ms) as ->; [|done].
    clear Ev. induction ms as [|km ms IH]; cbn; unfold same_hash; cbn.
    + by rewrite (proj2 (Z.eqb_neq _ _)) by congruence.
    + destruct (Z.eqb_spec (Hash km.1) (Hash name)) as [E|E]; cbn; unfold same_hash; cbn; [|by rewrite IH].
      by rewrite (proj2 (Z.eqb_neq _ _)) by congruence.
Qed.

(** ** What goes wrong *)

#[local] Existing Instance no_file.
(** Doubles that are whole numbers *)
#[local] Instance whole_doubles : Doubles := {
  double := Z;
  Val_double n := match Val_int32 n 10 with Ok s => s | _ => [] end;
  Double s := Int s 10;
  to_int := to_int32
}.

(** What a program reads that expects one value in a text. *)
Definition read_value (text : str) : res (option RpcValue) :=
  let? (_, p) := getNextElement (Parser_text text) 40 in
  let? (v, _) := FromXml p 40 in Ok v.

(** ... and one that sends it on. *)
Definition echo (text : str) : res str :=
  let? v := read_value text in
  let? v := of_option v in
  let? (t, _) := asXml v in Ok t.

Definition sample_bytes : RpcValue := mkRpcValue TypeBase64 [] (Word 0) (Binary (buffer (lit "abc") 1 3)).
Definition member_xml (name value : string) : str :=
  lit "<member><name>" ++ lit name ++ lit "</name>" ++ lit value ++ lit "</member>".

(** A base64 value is written, twice as long the second time, and never read; a value without a type
    breaks the array and ends the struct it is in; the name of a member is not decoded; an empty int is a
    NULL that cannot be written; a name that comes twice is refused; a month is one too late; a blank
    text is empty; a boolean of 2 has no value; a value that was cleared cannot be written. *)
Theorem rpc_defects :
  (let? (t, v) := asXml sample_bytes in let? (t2, _) := asXml v in Ok (t, t2)) =
    Ok (c_lit "<value><base64>YWJj</base64></value>\n", c_lit "<value><base64>YWJjYWJj</base64></value>\n") /\
  read_value (lit "<value><base64>YWJj</base64></value>") = Throw IOException /\
  read_value (lit "<value><array><data><value>x</value></data></array></value>") = Throw IOException /\
  read_value (lit "<value><struct>" ++ member_xml "a" "<value>x</value>" ++ member_xml "b" "<value><int>1</int></value>" ++ lit "</struct></value>") =
    Ok (Some (mkRpcValue TypeStruct [] (Word 0) (Struct [(lit "a", Some (RpcValue_String (lit "x")))]))) /\
  read_value (lit "<value><struct>" ++ member_xml "a&amp;b" "<value><int>1</int></value>" ++ lit "</struct></value>") =
    Ok (Some (mkRpcValue TypeStruct [] (Word 0) (Struct [(lit "a&amp;b", Some (mkRpcValue TypeInt (lit "1") (Word 1) Plain))]))) /\
  echo (lit "<value><struct>" ++ member_xml "a" "<value><int></int></value>" ++ lit "</struct></value>") = UB /\
  read_value (lit "<value><struct>" ++ member_xml "a" "<value><int>1</int></value>" ++ member_xml "a" "<value><int>2</int></value>" ++ lit "</struct></value>")
    = Throw InvalidArgumentException /\
  read_value (lit "<value><dateTime.iso8601>20240115T12:30:00</dateTime.iso8601></value>") =
    Ok (Some (mkRpcValue TypeDateTime (lit "20240115T12:30:00") (Pointer (DateTime_ymd 15 2 2024 12 30 0)) Plain)) /\
  (let? v := RpcValue_DateTime (DateTime_ymd 15 1 2024 12 30 0) in Ok (asString v)) = Ok (lit "20240115T12:30:00") /\
  read_value (lit "<value><string>  </string></value>") = Ok (Some (RpcValue_String [])) /\
  (let? v := read_value (lit "<value><boolean>2</boolean></value>") in let? v := of_option v in asBool v) = UB /\
  asXml (clear (RpcValue_bool true)) = UB.
Proof. vm_compute. repeat split. Qed.

(** ** Witness *)

Definition sample_value : RpcValue :=
  mkRpcValue TypeStruct [] (Word 0) (Struct
    [(lit "n", Some (mkRpcValue TypeInt (lit "-12") (Word 4294967284) Plain));
     (lit "s", Some (RpcValue_String (lit "x & y")));
     (lit "l", Some (mkRpcValue TypeArray [] (Word 0) (Array [Some (RpcValue_bool true); Some (RpcValue_String [])])))]).

Lemma sample_readable : readable sample_value.
Proof.
  apply readable_struct; [vm_compute; repeat (apply NoDup_cons_2; [set_solver|]); apply NoDup_nil_2|].
  repeat apply Forall_cons_2; [| | |by apply Forall_nil_2]; (split; [by vm_compute|]); eexists; (split; [done|]).
  - by apply (readable_int (-12)).
  - apply readable_string. split_and!; [by vm_compute|by vm_compute|by right|by vm_compute].
  - apply readable_array. repeat apply Forall_cons_2; [| |by apply Forall_nil_2]; eexists; (split; [done|]).
    + apply readable_bool.
    + apply readable_string. split_and!; [by vm_compute|by vm_compute|by left|by vm_compute].
Qed.

Definition sample_text : str :=
  Eval vm_compute in match asXml sample_value with Ok (t, _) => t | _ => [] end.

Lemma sample_text_ok : asXml sample_value = Ok (sample_text, sample_value) /\ nul_free sample_text /\
  zlen sample_text < 2 ^ 31 - 1 /\ echo sample_text = Ok sample_text.
Proof. split_and!; [by vm_compute|unfold nul_free; compute_done|by vm_compute|by vm_compute]. Qed.

Lemma rpc_roundtrip_witness :
  exists t, asXml sample_value = Ok (t, sample_value) /\ echo t = Ok t /\
    exists p', (let? (_, p) := getNextElement (Parser_text t) 40 in FromXml p 40) = Ok (Some sample_value, p').
Proof.
  destruct (rpc_roundtrip (F := unit) sample_value sample_readable) as (t & E & Hr). exists t. split; [exact E|].
  destruct sample_text_ok as (Et & Hf & Hl & He). rewrite Et in E. assert (t = sample_text) as -> by congruence. split; [exact He|].
  destruct (Hr sample_text (Parser_text sample_text) [] [] 40%nat) as (p' & Ep & _).
  - apply not_elem_of_nil.
  - split; [done|]. do 2 (split; [done|]). exists []. split; [symmetry; exact (app_nil_r sample_text)|done].
  - vm_compute. lia.
  - by exists p'.
Defined.
