(* ===== verification/RpcProtocol.v ===== *)
(** * RPC methods, services and protocols (src/cpp/src/rpc/RpcProtocol.cpp, include/srl/rpc/RpcProtocol.h)

    A method is an object of the program that the library only calls: its name, its help, and what
    [execute] does on the state [W] of the program.  A service is a dictionary of pointers to methods; a
    protocol is a dictionary of pointers to services, which go on being changed behind them, so that
    the services live in a store and a pointer is a number of it.  The dictionaries are used through the
    interface of [Mapping]. *)

From S2P Require Import Prelude State Dictionary DictTree DictSpec Mapping CString Str StrConv RpcValue.

Section rpc.
Context {W : Type}.

Record RpcMethod := mkMethod {
  method_name : str;
  help : str;
  method_execute : option RpcValue -> ST W (option RpcValue)
}.
#[export] Instance DefaultValue_method : DefaultValue (option RpcMethod) := None.

Context {MD : Type} `{MapOps MD str (option RpcMethod)}.

Record RpcService := mkService {
  service_name : str;
  methods : MD
}.
Definition RpcService_new (name : str) : RpcService := mkService name map_new.

Definition hasMethod (name : str) (s : RpcService) : res bool := map_hasKey name (methods s).
(** [get(method_name)] of the dictionary *)
Definition get_method (name : str) (s : RpcService) : res (option RpcMethod) := map_get name (methods s).

(** The pointer that [get] gives is used without a test. *)
Definition service_execute (name : str) (args : option RpcValue) (s : RpcService) : ST W (option RpcValue) :=
  let! has := lift (hasMethod name s) in
  if has : bool then
    let! m := lift (get_method name s) in
    let! m := lift (of_option m) in
    method_execute m args
  else sret None.

Definition addMethod (m : RpcMethod) (s : RpcService) : res RpcService :=
  let? has := hasMethod (method_name m) s in
  if negb has then let? d := map_add (method_name m) (Some m) (methods s) in Ok (mkService (service_name s) d)
  else Throw IOException.

Definition removeMethod (name : str) (s : RpcService) : res RpcService :=
  let? has := hasMethod name s in
  if negb has then let? d := map_remove name (methods s) in Ok (mkService (service_name s) d)
  else Ok s.

Definition NAME_FORMAT : str := lit "%s.%s".
Definition full_name (service method : str) : str := cstr service ++ lit "." ++ cstr method.

Fixpoint list_loop (service : str) (ms : list (str * option RpcMethod)) (acc : list (option RpcValue)) :
    res (list (option RpcValue)) :=
  match ms with
  | [] => Ok acc
  | (k, _) :: ms =>
      let? s := Format NAME_FORMAT (full_name service k) in
      list_loop service ms (array_add (Some (RpcValue_String s)) acc)
  end.
(** [RpcService::listMethods(list)], on the elements of the array *)
Definition service_listMethods (s : RpcService) (acc : list (option RpcValue)) : res (list (option RpcValue)) :=
  let? ms := map_items (methods s) in list_loop (service_name s) ms acc.

(** ** The protocol *)

Context {SD : Type} `{MapOps SD str ref}.

Record RpcProtocol := mkProtocol {
  protocol_name : str;
  _services : SD
}.
Definition RpcProtocol_new (name : str) : RpcProtocol := mkProtocol name map_new.

(** The services of the program *)
Abbreviation store := (list RpcService).
Definition service_at (st : store) (p : ref) : res RpcService := let? i := of_option p in of_option (st !! i).

Definition hasService (name : str) (p : RpcProtocol) : res bool := map_hasKey name (_services p).
Definition get_service (st : store) (name : str) (p : RpcProtocol) : res RpcService :=
  let? s := map_get name (_services p) in service_at st s.

(** [addService(service)] for the service number [i] *)
Definition addService (st : store) (i : nat) (p : RpcProtocol) : res RpcProtocol :=
  let? s := service_at st (Some i) in
  let? has := hasService (service_name s) p in
  if negb has then let? d := map_add (service_name s) (Some i : ref) (_services p) in Ok (mkProtocol (protocol_name p) d)
  else Throw IOException.

Definition removeService (name : str) (p : RpcProtocol) : res RpcProtocol :=
  let? has := hasService name p in
  if negb has then let? d := map_remove name (_services p) in Ok (mkProtocol (protocol_name p) d)
  else Ok p.

Fixpoint services_loop (st : store) (ss : list (str * ref)) (acc : list (option RpcValue)) :
    res (list (option RpcValue)) :=
  match ss with
  | [] => Ok acc
  | (_, s) :: ss =>
      let? s := service_at st s in
      let? acc := service_listMethods s acc in
      services_loop st ss acc
  end.
Definition listMethods (st : store) (p : RpcProtocol) : res RpcValue :=
  let? ss := map_items (_services p) in
  let? l := services_loop st ss [] in
  Ok (mkRpcValue TypeArray [] (Word 0) (Array l)).

Definition getMethod (st : store) (service method : str) (p : RpcProtocol) : res (option RpcMethod) :=
  let? has := hasService service p in
  if has : bool then
    let? s := get_service st service p in
    let? has := hasMethod method s in
    if has : bool then get_method method s else Ok None
  else Ok None.

Definition execute (st : store) (service method : str) (args : option RpcValue) (p : RpcProtocol) : ST W (option RpcValue) :=
  let! has := lift (hasService service p) in
  if has : bool then
    let! s := lift (get_service st service p) in
    service_execute method args s
  else sret None.
End rpc.
Arguments RpcMethod W : clear implicits.
Arguments RpcService MD : clear implicits.

(** ** What a registry of services promises

    The specification keeps the services as lists of methods, in the order in which they were added,
    and the numbers of those that the protocol knows.  Names are compared by their hash, as everywhere
    in a dictionary. *)

Definition same_name {A} (name_of : A -> str) (name : str) (a : A) : bool := Hash (name_of a) =? Hash name.
Definition find_named {A} (name_of : A -> str) (name : str) (l : list A) : option A := List.find (same_name name_of name) l.

Section registry.
Context {W MD SD : Type} `{MapOps MD str (option (RpcMethod W)), !Mapping MD str (option (RpcMethod W))}
  `{MapOps SD str ref, !Mapping SD str ref}.
Implicit Types (m : RpcMethod W) (name : str).

Record registry := mkRegistry {
  offered : list (str * list (RpcMethod W));
  known : list nat
}.
Definition offer (g : registry) (i : nat) : str * list (RpcMethod W) := default ([], []) (offered g !! i).

Inductive rpc_op :=
  | NewService (name : str)
  | AddMethod (i : nat) (m : RpcMethod W)
  | RemoveMethod (i : nat) (name : str)
  | AddService (i : nat)
  | RemoveService (name : str).

(** A service is there before it is used. *)
Definition rpc_allowed (g : registry) (o : rpc_op) : bool :=
  match o with
  | NewService _ | RemoveService _ => true
  | AddMethod i _ | RemoveMethod i _ | AddService i => (i <? length (offered g))%nat
  end.

(** Names are added once.  What is removed must not be there, and then there is nothing to remove. *)
Definition rpc_spec (g : registry) (o : rpc_op) : res registry :=
  match o with
  | NewService name => Ok (mkRegistry (offered g ++ [(name, [])]) (known g))
  | AddMethod i m =>
      let '(name, ms) := offer g i in
      match find_named method_name (method_name m) ms with
      | Some _ => Throw IOException
      | None => Ok (mkRegistry (<[i := (name, ms ++ [m])]> (offered g)) (known g))
      end
  | RemoveMethod i name =>
      match find_named method_name name (offer g i).2 with Some _ => Ok g | None => Throw NullPointerException end
  | AddService i =>
      match find_named (fun j => (offer g j).1) (offer g i).1 (known g) with
      | Some _ => Throw IOException
      | None => Ok (mkRegistry (offered g) (known g ++ [i]))
      end
  | RemoveService name =>
      match find_named (fun j => (offer g j).1) name (known g) with Some _ => Ok g | None => Throw NullPointerException end
  end.

(** The program: its services, and one protocol *)
Definition program : Type := list (RpcService MD) * RpcProtocol (SD := SD).

Definition on_service (i : nat) (f : RpcService MD -> res (RpcService MD)) (p : program) : res program :=
  let? s := of_option (p.1 !! i) in
  let? s := f s in Ok (<[i := s]> p.1, p.2).
Definition rpc_step (p : program) (o : rpc_op) : res program :=
  match o with
  | NewService name => Ok (p.1 ++ [RpcService_new name], p.2)
  | AddMethod i m => on_service i (addMethod m) p
  | RemoveMethod i name => on_service i (removeMethod name) p
  | AddService i => let? q := addService p.1 i p.2 in Ok (p.1, q)
  | RemoveService name => let? q := removeService name p.2 in Ok (p.1, q)
  end.

(** An exception leaves the program as it was, which goes on. *)
Fixpoint rpc_run (p : program) (os : list rpc_op) : list (res unit) * program :=
  match os with
  | [] => ([], p)
  | o :: os =>
      match rpc_step p o with
      | Ok q => let '(rs, q) := rpc_run q os in (Ok tt :: rs, q)
      | Throw e => let '(rs, q) := rpc_run p os in (Throw e :: rs, q)
      | UB => ([UB], p)
      | NoFuel => ([NoFuel], p)
      end
  end.
Fixpoint rpc_spec_run (g : registry) (os : list rpc_op) : list (res unit) * registry :=
  match os with
  | [] => ([], g)
  | o :: os =>
      match rpc_spec g o with
      | Ok g' => let '(rs, g'') := rpc_spec_run g' os in (Ok tt :: rs, g'')
      | Throw e => let '(rs, g'') := rpc_spec_run g os in (Throw e :: rs, g'')
      | UB => ([UB], g)
      | NoFuel => ([NoFuel], g)
      end
  end.
Fixpoint all_allowed (g : registry) (os : list rpc_op) : bool :=
  match os with
  | [] => true
  | o :: os => rpc_allowed g o && all_allowed (match rpc_spec g o with Ok g' => g' | _ => g end) os
  end.

(** What a call finds: the method of the service, if both are known *)
Definition spec_method (g : registry) (service method : str) : option (RpcMethod W) :=
  i ← find_named (fun j => (offer g j).1) service (known g);
  find_named method_name method (offer g i).2.
Definition spec_execute (g : registry) (service method : str) (args : option RpcValue) : ST W (option RpcValue) :=
  match spec_method g service method with Some m => method_execute m args | None => sret None end.

(** The full names, in order *)
Definition spec_names (g : registry) : list str :=
  i ← known g; (fun m => full_name (offer g i).1 (method_name m)) <$> (offer g i).2.

(** ** The implementation keeps it *)

Definition entry m : str * option (RpcMethod W) := (method_name m, Some m).
Definition pointer (g : registry) (i : nat) : str * ref := ((offer g i).1, Some i).

Definition offers (s : RpcService MD) (o : str * list (RpcMethod W)) : Prop :=
  service_name s = o.1 /\ stands_for (methods s) (entry <$> o.2).

Definition keeps (p : program) (g : registry) : Prop :=
  Forall2 offers p.1 (offered g) /\ Forall (fun i => (i < length (offered g))%nat) (known g) /\
  stands_for (_services p.2) (pointer g <$> known g).

Lemma lookup_named {A V} (name_of : A -> str) (v : A -> V) name l :
  DictSpec.lookup name ((fun a => (name_of a, v a)) <$> l) = v <$> find_named name_of name l.
Proof.
  induction l as [|a l IH]; [done|]. cbn. unfold DictSpec.same_hash, same_name. cbn. by destruct (_ =? _).
Qed.

Lemma mem_named {A V} (name_of : A -> str) (v : A -> V) name l :
  mem name ((fun a => (name_of a, v a)) <$> l) = match find_named name_of name l with Some _ => true | None => false end.
Proof. unfold mem. rewrite lookup_named. by destruct (find_named _ _ _). Qed.

Lemma hasMethod_ok name s o : offers s o ->
  hasMethod name s = Ok (match find_named method_name name o.2 with Some _ => true | None => false end).
Proof. intros [_ Hs]. unfold hasMethod. rewrite (hasKey_law _ _ _ Hs). unfold entry. by rewrite mem_named. Qed.

Lemma get_method_ok name s o m : offers s o -> find_named method_name name o.2 = Some m -> get_method name s = Ok (Some m).
Proof. intros [_ Hs] Hm. unfold get_method. rewrite (get_law _ _ _ Hs). unfold entry. by rewrite lookup_named, Hm. Qed.

Lemma keeps_offer p g i : keeps p g -> (i < length (offered g))%nat ->
  exists s, p.1 !! i = Some s /\ offers s (offer g i).
Proof.
  intros (Hs & _) Hi. destruct (lookup_lt_is_Some_2 _ _ Hi) as [o Eo].
  destruct (Forall2_lookup_r _ _ _ _ _ Hs Eo) as (s & Es & Ho). exists s. unfold offer. by rewrite Eo.
Qed.

(** Changing the methods of a service changes neither its name nor the other services. *)
Lemma offer_insert g i ms j : (i < length (offered g))%nat ->
  offer (mkRegistry (<[i := ((offer g i).1, ms)]> (offered g)) (known g)) j = if decide (j = i) then ((offer g i).1, ms) else offer g j.
Proof.
  intros Hi. unfold offer. cbn [offered]. case_decide as E; [by subst j; rewrite list_lookup_insert_eq|].
  by rewrite list_lookup_insert_ne.
Qed.

Lemma keeps_known st q g offered' : keeps (st, q) g ->
  (length (offered g) <= length offered')%nat ->
  (forall j, (j < length (offered g))%nat -> (offer (mkRegistry offered' (known g)) j).1 = (offer g j).1) ->
  forall st', Forall2 offers st' offered' -> keeps (st', q) (mkRegistry offered' (known g)).
Proof.
  intros (_ & Hk & Hq) Hl Ho st' Hst. split; [done|]. cbn [known fst snd] in *. rewrite Forall_forall in Hk. split.
  - apply Forall_forall. intros i Hi. cbn. specialize (Hk i Hi). lia.
  - replace (pointer _ <$> known g) with (pointer g <$> known g); [done|].
    apply list_fmap_ext. intros k i Ei. unfold pointer. f_equal. symmetry. apply Ho, Hk, list_elem_of_lookup. by exists k.
Qed.

Lemma hasService_ok name p g : keeps p g ->
  hasService name p.2 = Ok (match find_named (fun j => (offer g j).1) name (known g) with Some _ => true | None => false end).
Proof. intros (_ & _ & Hq). unfold hasService. rewrite (hasKey_law _ _ _ Hq); unfold pointer. by rewrite mem_named. Qed.

Lemma get_service_ok name p g i : keeps p g -> find_named (fun j => (offer g j).1) name (known g) = Some i ->
  exists s, get_service p.1 name p.2 = Ok s /\ offers s (offer g i).
Proof.
  intros Hk Hi. pose proof Hk as (_ & Hn & Hq). assert (i < length (offered g))%nat as Hl.
  { rewrite Forall_forall in Hn. apply Hn, list_elem_of_In. by apply find_some in Hi as [? _]. }
  destruct (keeps_offer p g i Hk Hl) as (s & Es & Ho). exists s. split; [|done].
  unfold get_service. rewrite (get_law _ _ _ Hq). unfold pointer. rewrite lookup_named, Hi. cbn. by rewrite Es.
Qed.

(** One operation *)
Lemma rpc_step_ok p g o : keeps p g -> rpc_allowed g o = true ->
  match rpc_spec g o with
  | Ok g' => exists p', rpc_step p o = Ok p' /\ keeps p' g'
  | Throw e => rpc_step p o = Throw e
  | _ => False
  end.
Proof.
  intros Hk Ha. destruct p as [st q]. pose proof Hk as (Hst & Hn & Hq). cbn [fst snd] in Hst, Hq.
  destruct o as [name|i m|i name|i|name]; cbn [rpc_spec rpc_step rpc_allowed fst snd] in *; try apply Nat.ltb_lt in Ha.
  - eexists. split; [done|]. apply (keeps_known st q g (offered g ++ [(name, [])])); [done|rewrite length_app; lia| |].
    + intros j Hj. unfold offer. cbn. by rewrite lookup_app_l.
    + apply Forall2_app; [done|]. apply Forall2_cons. split; [|done]. split; [done|]. apply new_law.
  - destruct (keeps_offer _ _ _ Hk Ha) as (s & Es & Ho). cbn [fst] in Es. unfold on_service. cbn [fst snd]. rewrite Es. cbn [of_option bind].
    unfold addMethod. rewrite (hasMethod_ok _ _ _ Ho). cbn [bind]. destruct (offer g i) as [name ms] eqn:Eo. cbn [fst snd] in *.
    pose proof Ho as [Hname Hms]. cbn [fst snd] in Hname, Hms.
    pose proof (add_law (method_name m) (Some m) _ _ Hms) as Hadd. unfold entry in Hadd at 1. rewrite mem_named in Hadd.
    destruct (find_named method_name (method_name m) ms) as [m'|]; [done|]. cbn [negb]. destruct Hadd as (d & -> & Hd). cbn [bind].
    eexists. split; [done|]. pose proof (offer_insert g i (ms ++ [m])) as Hins. rewrite Eo in Hins. cbn [fst] in Hins.
    apply (keeps_known st q g (<[i := (name, ms ++ [m])]> (offered g))); [done|by rewrite length_insert| |].
    + intros j Hj. rewrite Hins by done. case_decide as E; [subst j; by rewrite Eo|done].
    + apply Forall2_insert; [done|]. split; [done|]. cbn [methods snd]. by rewrite fmap_app.
  - destruct (keeps_offer _ _ _ Hk Ha) as (s & Es & Ho). cbn [fst] in Es. unfold on_service. cbn [fst snd]. rewrite Es. cbn [of_option bind].
    unfold removeMethod. rewrite (hasMethod_ok _ _ _ Ho). cbn [bind]. destruct Ho as [_ Hms].
    pose proof (remove_law name _ _ Hms) as Hrm. unfold entry in Hrm at 1. rewrite mem_named in Hrm.
    destruct (find_named _ name _) as [m'|]; cbn [negb]; [|by rewrite Hrm].
    eexists. split; [done|]. by rewrite list_insert_id.
  - destruct (keeps_offer _ _ _ Hk Ha) as (s & Es & Ho). cbn [fst] in Es. unfold addService, service_at. cbn [of_option bind]. rewrite Es. cbn [of_option bind].
    destruct Ho as [-> _]. pose proof (hasService_ok (offer g i).1 _ _ Hk) as Eh. cbn [snd] in Eh. rewrite Eh. cbn [bind].
    pose proof (add_law (offer g i).1 (Some i : ref) _ _ Hq) as Hadd. unfold pointer in Hadd at 1. rewrite mem_named in Hadd.
    destruct (find_named _ _ (known g)) as [j|]; [done|]. cbn [negb]. destruct Hadd as (d & -> & Hd). cbn [bind].
    eexists. split; [done|]. split; [done|]. split; [by apply Forall_app; split; [|apply Forall_singleton]|].
    cbn [known snd _services]. by rewrite fmap_app.
  - unfold removeService. pose proof (hasService_ok name _ _ Hk) as Eh. cbn [snd] in Eh. rewrite Eh. cbn [bind].
    pose proof (remove_law name _ _ Hq) as Hrm. unfold pointer in Hrm at 1. rewrite mem_named in Hrm.
    destruct (find_named _ name _) as [j|]; cbn [negb]; [by eexists|]. by rewrite Hrm.
Qed.

Lemma rpc_run_ok os : forall p g, keeps p g -> all_allowed g os = true ->
  (rpc_run p os).1 = (rpc_spec_run g os).1 /\ keeps (rpc_run p os).2 (rpc_spec_run g os).2.
Proof.
  induction os as [|o os IH]; intros p g Hk Ha; [done|]. cbn [all_allowed] in Ha. apply andb_true_iff in Ha as [Ho Ha].
  pose proof (rpc_step_ok p g o Hk Ho) as Hs. cbn [rpc_run rpc_spec_run]. destruct (rpc_spec g o) as [g'|e| |]; try done.
  - destruct Hs as (p' & -> & Hk'). destruct (IH p' g' Hk' Ha) as [E Hr]. destruct (rpc_run p' os), (rpc_spec_run g' os). cbn in *. by rewrite E.
  - rewrite Hs. destruct (IH p g Hk Ha) as [E Hr]. destruct (rpc_run p os), (rpc_spec_run g os). cbn in *. by rewrite E.
Qed.

Lemma find_method_ok service method p g : keeps p g ->
  (forall args, execute p.1 service method args p.2 = spec_execute g service method args) /\
  getMethod p.1 service method p.2 = Ok (spec_method g service method).
Proof.
  intros Hk. unfold execute, getMethod, spec_execute, spec_method. pose proof (hasService_ok service p g Hk) as Eh.
  destruct (find_named _ service (known g)) as [i|] eqn:Ei; cbn [mbind option_bind].
  - destruct (get_service_ok service p g i Hk Ei) as (s & Es & Ho). rewrite Eh, Es. cbn [bind]. rewrite (hasMethod_ok _ _ _ Ho). cbn [bind].
    split.
    + intros args. unfold sbind, lift. unfold service_execute, sbind, lift. rewrite (hasMethod_ok _ _ _ Ho).
      destruct (find_named method_name method _) as [m|] eqn:Em; [|done]. by rewrite (get_method_ok _ _ _ _ Ho Em).
    + destruct (find_named method_name method _) as [m|] eqn:Em; [|done]. by rewrite (get_method_ok _ _ _ _ Ho Em).
  - split; [|by rewrite Eh]. intros args. unfold sbind, lift. by rewrite Eh.
Qed.

(** The array of the names *)
Definition names_value (names : list str) : RpcValue := mkRpcValue TypeArray [] (Word 0) (Array ((fun s => Some (RpcValue_String s)) <$> names)).

Lemma list_loop_ok name ms : forall acc, Forall (fun m => fits NAME_FORMAT (full_name name (method_name m)) = true) ms ->
  list_loop name (entry <$> ms) acc = Ok (acc ++ ((fun m => Some (RpcValue_String (full_name name (method_name m)))) <$> ms)).
Proof.
  induction ms as [|m ms IH]; intros acc Hm; [cbn; by rewrite app_nil_r|]. apply Forall_cons in Hm as [Hm Hms].
  cbn [fmap list_fmap list_loop entry]. unfold Format. rewrite Hm. cbn [bind]. rewrite IH by done. unfold array_add. by rewrite <- app_assoc.
Qed.

Lemma listMethods_ok p g : keeps p g -> Forall (fun s => fits NAME_FORMAT s = true) (spec_names g) ->
  listMethods p.1 p.2 = Ok (names_value (spec_names g)).
Proof.
  intros Hk. pose proof Hk as (_ & Hn & Hq). unfold listMethods. rewrite (items_law _ _ Hq). cbn [bind].
  unfold spec_names. intros Hf.
  assert (forall l acc, Forall (fun i => (i < length (offered g))%nat) l ->
    Forall (fun s => fits NAME_FORMAT s = true) (i ← l; (fun m => full_name (offer g i).1 (method_name m)) <$> (offer g i).2) ->
    services_loop p.1 (pointer g <$> l) acc = Ok (acc ++ ((fun s => Some (RpcValue_String s)) <$>
      (i ← l; (fun m => full_name (offer g i).1 (method_name m)) <$> (offer g i).2)))) as Hl.
  { induction l as [|i l IH]; intros acc Hl Hs; [cbn; by rewrite app_nil_r|]. apply Forall_cons in Hl as [Hi Hl].
    rewrite bind_cons in Hs |- *. apply Forall_app in Hs as [Hs1 Hs2]. destruct (keeps_offer p g i Hk Hi) as (s & Es & Ename & Hms).
    cbn [fmap list_fmap services_loop pointer]. unfold service_at. cbn [of_option bind]. rewrite Es. cbn [of_option bind].
    unfold service_listMethods. rewrite (items_law _ _ Hms), Ename. cbn [bind]. rewrite list_loop_ok by (by rewrite Forall_fmap in Hs1).
    cbn [bind]. rewrite IH by done. by rewrite <- app_assoc, fmap_app, <- list_fmap_compose. }
  rewrite (Hl _ []) by done. done.
Qed.
End registry.

(** C18: refinement. Whatever services and methods are made, added and removed, the exceptions are those of the
    specification, and a call, a search and the list of the names find what it holds. *)
Theorem registry_refines {W MD SD : Type} `{MapOps MD str (option (RpcMethod W)), !Mapping MD str (option (RpcMethod W))}
    `{MapOps SD str ref, !Mapping SD str ref} (name : str) (os : list (rpc_op (W := W))) :
  all_allowed (mkRegistry [] []) os = true ->
  let '(rs, (st, p)) := rpc_run (MD := MD) (SD := SD) ([], RpcProtocol_new name) os in
  let '(rs', g) := rpc_spec_run (mkRegistry [] []) os in
  rs = rs' /\
  (forall service method args, execute st service method args p = spec_execute g service method args) /\
  (forall service method, getMethod st service method p = Ok (spec_method g service method)) /\
  (Forall (fun s => fits NAME_FORMAT s = true) (spec_names g) -> listMethods st p = Ok (names_value (spec_names g))).
Proof.
  intros Ha. assert (keeps (W := W) (MD := MD) (SD := SD) ([], RpcProtocol_new name) (mkRegistry [] [])) as Hk.
  { split; [done|]. split; [done|]. apply new_law. }
  destruct (rpc_run_ok os _ _ Hk Ha) as [E Hr]. destruct (rpc_run _ os) as [rs [st p]], (rpc_spec_run _ os) as [rs' g]. cbn in E, Hr.
  split; [done|]. split_and!.
  - intros service method args. by apply (find_method_ok service method (st, p)).
  - intros service method. by apply (find_method_ok service method (st, p)).
  - by apply (listMethods_ok (st, p)).
Qed.

(** ** What goes wrong, and the witness *)

Definition constant (name : string) (v : option RpcValue) : RpcMethod unit := mkMethod (lit name) [] (fun _ => sret v).
Abbreviation Methods := (Dictionary str (option (RpcMethod unit))).
Abbreviation Services := (Dictionary str ref).
#[local] Existing Instance DefaultValue_method.

Definition sample_ops : list (rpc_op (W := unit)) :=
  [NewService (lit "math"); AddMethod 0 (constant "one" (Some (RpcValue_bool true))); AddService 0;
   AddMethod 0 (constant "two" None); AddMethod 0 (constant "one" None); RemoveMethod 0 (lit "one");
   RemoveMethod 0 (lit "three"); RemoveService (lit "math"); RemoveService (lit "other"); AddService 0].

(** What is there is not removed, and removing what is not there throws; a name is added once; a method
    that was added to a service that is known already is found; long names break the list. *)
Theorem registry_defects :
  let '(rs, (st, p)) := rpc_run (MD := Methods) (SD := Services) ([], RpcProtocol_new []) sample_ops in
  rs = [Ok tt; Ok tt; Ok tt; Ok tt; Throw IOException; Ok tt; Throw NullPointerException; Ok tt; Throw NullPointerException;
    Throw IOException] /\
  execute st (lit "math") (lit "one") None p tt = (Ok (Some (RpcValue_bool true)), tt) /\
  execute st (lit "math") (lit "three") None p tt = (Ok None, tt) /\
  listMethods st p = Ok (names_value [lit "math.one"; lit "math.two"]) /\
  (let? s := addMethod (constant "x" None) (RpcService_new (replicate 132 "a"%char) : RpcService Methods) in service_listMethods s []) = UB.
Proof. vm_compute. repeat split. Qed.

Definition sample_registry := rpc_spec_run (mkRegistry [] []) sample_ops.

Lemma registry_refines_witness :
  let '(_, (st, p)) := rpc_run (MD := Methods) (SD := Services) ([], RpcProtocol_new []) sample_ops in
  execute st (lit "math") (lit "one") None p = sret (Some (RpcValue_bool true)) /\
  listMethods st p = Ok (names_value [lit "math.one"; lit "math.two"]).
Proof.
  pose proof (registry_refines (MD := Methods) (SD := Services) [] sample_ops ltac:(vm_compute; reflexivity)) as Hr.
  assert (spec_execute sample_registry.2 (lit "math") (lit "one") None = sret (Some (RpcValue_bool true)) /\
    spec_names sample_registry.2 = [lit "math.one"; lit "math.two"]) as [E1 E2] by (vm_compute; by split).
  change (rpc_spec_run (mkRegistry [] []) sample_ops) with sample_registry in Hr. destruct sample_registry as [rs' g].
  destruct (rpc_run _ sample_ops) as [rs [st p]]. destruct Hr as (_ & He & _ & Hl). cbn [snd] in E1, E2. rewrite He, E1. split; [done|].
  rewrite E2 in Hl. apply Hl. by repeat constructor.
Defined.
