(* ===== verification/TextFile.v ===== *)
(** * Text files (src/cpp/src/fs/TextFile.cpp, FileStream.cpp, File.cpp)

    An open regular file is what the C library keeps of it ([FILE]: the bytes, the offset, the end
    flag); nobody else changes it.  The methods run on the object ([File]) and take the [String] they
    read into as it is in memory, so that what they write beside its length is seen.  The file is an
    instance of the interface that the XML parser reads from. *)

From S2P Require Import Prelude State CString Str StrConv StrMem XML.

(** ** The C library on a regular file *)

Record FILE := mkFILE { data : str; offset : Z; end_flag : bool; appending : bool }.

Definition LF : char := chr 10.
Definition CR : char := chr 13.

Definition unread (f : FILE) : str := zdrop (offset f) (data f).
Definition moved (f : FILE) (pos : Z) (e : bool) : FILE := mkFILE (data f) pos e (appending f).

Definition fgetc (f : FILE) : option char * FILE :=
  match unread f with
  | c :: _ => (Some c, moved f (offset f + 1) (end_flag f))
  | [] => (None, moved f (offset f) true)
  end.

(** At most [n] characters, up to a line feed. *)
Fixpoint take_line (n : nat) (l : str) : str :=
  match n, l with
  | S n, c :: l => if decide (c = LF) then [c] else c :: take_line n l
  | _, _ => []
  end.

(** [fgets(buf, size, f)] gives the characters it stores before the terminator; the end is noticed
    when the file ends before the line and the space do. *)
Definition fgets (size : Z) (f : FILE) : option str * FILE :=
  let l := take_line (Z.to_nat (size - 1)) (unread f) in
  let short := (zlen l <? size - 1) && negb (bool_decide (last l = Some LF)) in
  (match l with [] => None | _ => Some l end, moved f (offset f + zlen l) (end_flag f || short)).

Definition fread (n : Z) (f : FILE) : str * FILE :=
  let l := ztake n (unread f) in
  (l, moved f (offset f + zlen l) (end_flag f || (zlen l <? n))).

Definition fseek (pos : Z) (f : FILE) : FILE := if pos <? 0 then f else moved f pos false.

(** [fwrite]: at the offset, or at the end of a file opened for appending; a gap reads as zeros. *)
Definition fwrite (l : str) (f : FILE) : FILE :=
  let pos := if appending f then zlen (data f) else offset f in
  let gap := replicate (Z.to_nat (pos - zlen (data f))) NUL in
  mkFILE (ztake pos (data f) ++ gap ++ l ++ zdrop (pos + zlen l) (data f)) (pos + zlen l) (end_flag f) (appending f).

(** ** The object *)

Record File := mkFile { _file : option FILE; _file_data_size : Z }.
Abbreviation M := (ST File).

(** A call on [_file]; on NULL it is undefined. *)
Definition stdio {A} (op : FILE -> A * FILE) : M A := fun s =>
  match _file s with
  | None => (UB, s)
  | Some f => let '(a, f) := op f in (Ok a, mkFile (Some f) (_file_data_size s))
  end.

Definition position : M Z := stdio (fun f => (u32 (offset f), f)).
Definition tell : M Z := stdio (fun f => (u32 (offset f), f)).
Definition atBeginning : M bool := let! p := tell in sret (p =? 0).
Definition atEnd : M bool := stdio (fun f => (end_flag f, f)).
Definition setPosition (pos : Z) : M unit := stdio (fun f => (tt, fseek pos f)).
Definition SEEK_SET : Z := 0.
Definition SEEK_CUR : Z := 1.
Definition SEEK_END : Z := 2.
Definition seek (off origin : Z) : M unit := stdio (fun f => (tt,
  if origin =? SEEK_SET then fseek off f
  else if origin =? SEEK_CUR then fseek (offset f + off) f
  else if origin =? SEEK_END then fseek (zlen (data f) + off) f else f)).
Definition rewind : M unit := stdio (fun f => (tt, fseek 0 f)).
Definition gotoBeginning : M unit := rewind.
Definition gotoEnd : M unit := stdio (fun f => (tt, fseek (zlen (data f)) f)).

(** [size()]: asked once, and kept unless it was 0. *)
Definition size : M Z :=
  let! n := get _file_data_size in
  if n =? 0 then
    let! pos := stdio (fun f => (offset f, f)) in
    rewind ;;!
    stdio (fun f => (tt, fseek (zlen (data f)) f)) ;;!
    let! stop := stdio (fun f => (offset f, f)) in
    stdio (fun f => (tt, fseek pos f)) ;;!
    modify (fun s => mkFile (_file s) stop) ;;!
    sret stop
  else sret n.

Definition close : M unit := fun s =>
  match _file s with None => (Ok tt, s) | Some _ => (Ok tt, mkFile None (_file_data_size s)) end.

Definition write (d : str) : M Z := stdio (fun f => (zlen d, fwrite d f)).

(** ** Reading *)

(** [read()] *)
Definition read_byte : M char :=
  let! car := stdio fgetc in
  let! e := stdio (fun f => (end_flag f, f)) in
  sret (if e : bool then NUL else match car with Some c => c | None => chr 255 end).

(** What [fread] and [fgets] store in the buffer, from index [i] on. *)
Definition put (s : String) (i : Z) (l : str) : res String := StrMem.write s i (Some <$> l).

(** [read(String &buf, int len)] *)
Definition read_String (buf : String) (len : Z) : M (Z * String) :=
  let! buf := lift (resize buf (u32 len)) in
  let! l := stdio (fread len) in
  let! buf := lift (put buf 0 l) in
  let! buf := lift (resize buf (zlen l)) in
  sret (zlen l, buf).

(** [strlen] in the buffer of a [String]. *)
Fixpoint cells_strlen (b : list (option char)) : res Z :=
  match b with
  | Some c :: b => if decide (c = NUL) then Ok 0 else let? n := cells_strlen b in Ok (n + 1)
  | _ => UB
  end.
Definition buf_strlen (s : String) : res Z :=
  match _str s with Some b => cells_strlen b | None => Ok 0 end.

(** Whether [result[len-1]] is [c]; [len] one less then. *)
Definition strip_last (result : String) (len : Z) (c : char) : res Z :=
  if 0 <? len then let? d := load result (len - 1) in Ok (if decide (d = c) then len - 1 else len) else Ok len.

Fixpoint readLine (result : String) (strip_eol : bool) (fuel : nat) : M String :=
  match fuel with
  | O => sfail
  | S fuel =>
      let! result := lift (resize result 1024) in
      let! got := stdio (fgets (_array_size result - 1)) in
      match got with
      | Some l =>
          let! result := lift (put result 0 (l ++ [NUL])) in
          let! len := lift (buf_strlen result) in
          if len <? 1023 then
            let! len := lift (if strip_eol
              then let? len := strip_last result len LF in strip_last result len CR else Ok len) in
            lift (resize result len)
          else
            let! result := lift (resize result len) in
            let! tmp := readLine String_new strip_eol fuel in
            let! more := lift (chars tmp) in
            lift (plus_String result more)
      | None => lift (assign_cstr result [])
      end
  end.

Fixpoint readAll_loop (in_ : String) (fuel : nat) : M String :=
  match fuel with
  | O => sfail
  | S fuel =>
      let! e := atEnd in
      if e : bool then sret in_
      else
        let current_size := _string_length in_ in
        let! in_ := lift (resize in_ (_array_size in_ + 256)) in
        let! l := stdio (fread (_array_size in_ - current_size)) in
        let! in_ := lift (put in_ current_size l) in
        let! in_ := lift (resize in_ (zlen l + current_size)) in
        readAll_loop in_ fuel
  end.

Definition readAll (in_ : String) (fuel : nat) : M String :=
  rewind ;;!
  let! n := size in
  if 0 <? n then
    let! n := size in
    let! in_ := lift (resize in_ (u32 n)) in
    let! l := stdio (fread (_array_size in_)) in
    let! in_ := lift (put in_ 0 l) in
    lift (resize in_ (zlen l))
  else
    let! in_ := lift (resize in_ 256) in
    let! l := stdio (fread (_array_size in_)) in
    let! in_ := lift (put in_ 0 l) in
    let! in_ := lift (resize in_ (zlen l)) in
    readAll_loop in_ fuel.

(** ** The same methods of [FileStream] *)

Module FileStream.
Definition atEnd : M bool := atEnd.
Definition read_byte : M char := read_byte.
Definition readLine (result : String) (strip_eol : bool) (fuel : nat) : M String := readLine result strip_eol fuel.
(** [readAll] returns NULL at the end, and reads from where it is. *)
Definition readAll (in_ : String) (fuel : nat) : M (option String) :=
  let! e := atEnd in
  if e : bool then sret None
  else
    let! in_ := lift (resize in_ 256) in
    let! l := stdio (fread (_array_size in_)) in
    let! in_ := lift (put in_ 0 l) in
    let! in_ := lift (resize in_ (zlen l)) in
    let! in_ := readAll_loop in_ fuel in
    sret (Some in_).
Definition write (d : str) : M Z := write d.
Definition close : M unit := fun s => (Ok tt, mkFile None (_file_data_size s)).
End FileStream.

(** ** The lines of a text *)

Fixpoint full_line (l : str) : str :=
  match l with [] => [] | c :: l => if decide (c = LF) then [c] else c :: full_line l end.

Definition drop_last (c : char) (l : str) : str :=
  match last l with Some d => if decide (d = c) then removelast l else l | None => l end.
Definition strip_line (l : str) : str := drop_last CR (drop_last LF l).

Lemma take_line_take n l : take_line n l = take n (full_line l).
Proof.
  revert l. induction n as [|n IH]; intros [|c l]; try done. cbn. case_decide; [by destruct n|].
  cbn. by rewrite IH.
Qed.

Lemma full_line_drop n l : (n < length (full_line l))%nat -> full_line (drop n l) = drop n (full_line l).
Proof.
  revert l. induction n as [|n IH]; intros [|c l] Hn; try done. cbn in *. case_decide; cbn in *; [lia|]. apply IH. lia.
Qed.

Lemma full_line_prefix l : exists r, l = full_line l ++ r.
Proof.
  induction l as [|c l [r IH]]; [by exists []|]. cbn. case_decide; [by exists l|]. exists r. cbn. by rewrite <- IH.
Qed.

(** The line feed of a line is its last character; a line without one is all that is left. *)
Lemma full_line_end l : last (full_line l) = Some LF \/ full_line l = l /\ (LF ∉ l).
Proof.
  induction l as [|c l IH]; [right; split; [done|apply not_elem_of_nil]|]. cbn. case_decide as Hc; [by left; subst|].
  destruct IH as [IH|[-> Hl]]; [|right; split; [done|]; by rewrite elem_of_cons; naive_solver].
  left. by destruct (full_line l).
Qed.

Lemma drop_last_app c a b : b <> [] -> drop_last c (a ++ b) = a ++ drop_last c b.
Proof.
  intros Hb. unfold drop_last. destruct (last b) as [d|] eqn:E; [|by apply last_None in E].
  rewrite last_app, E. case_decide; [|done]. by apply removelast_app.
Qed.

Lemma drop_last_prefix c l : exists r, l = drop_last c l ++ r.
Proof.
  unfold drop_last. destruct (last l) as [d|] eqn:E; [|exists []; by rewrite app_nil_r].
  case_decide; [|exists []; by rewrite app_nil_r]. apply last_Some in E as [l' ->].
  rewrite removelast_last. by exists [d].
Qed.

Lemma drop_last_absent c l : (c ∉ l) -> drop_last c l = l.
Proof.
  intros Hc. unfold drop_last. destruct (last l) as [d|] eqn:E; [|done]. case_decide; [|done]. subst.
  apply last_Some in E as [l' ->]. exfalso. apply Hc. rewrite elem_of_app. right. by left.
Qed.

Lemma strip_no_cr l : (CR ∉ l) -> strip_line l = drop_last LF l.
Proof.
  intros Hc. apply drop_last_absent. destruct (drop_last_prefix LF l) as [r E]. rewrite E in Hc.
  rewrite elem_of_app in Hc. tauto.
Qed.

(** ** What the buffer holds *)

Lemma write_size s i cs s' : StrMem.write s i cs = Ok s' -> _array_size s' = _array_size s.
Proof. unfold StrMem.write. repeat case_match; by intros [= <-]. Qed.

Lemma resize_capacity s n s' : resize s n = Ok s' -> 0 < n ->
  _array_size s' = ROUNDUP (u32 (Z.max n (_min_size s) + 1)) ROUNDVAL.
Proof.
  intros H Hn. unfold resize in H. cbn [set_string_length set_hash_value _string_length _min_size _array_size] in H.
  replace (0 <? n) with true in H by lia. cbn [orb] in H. cbv zeta in H.
  replace (if n <? _min_size s then _min_size s else n) with (Z.max n (_min_size s)) in H
    by (destruct (Z.ltb_spec n (_min_size s)); lia).
  destruct (Z.eqb_spec (ROUNDUP (u32 (Z.max n (_min_size s) + 1)) ROUNDVAL) (_array_size s)) as [E|E].
  - unfold store in H. apply write_size in H. by rewrite H, E.
  - apply bind_Ok in H as (s1 & _ & [= <-]). done.
Qed.

(** A [String] that gets room for [n] characters. *)
Lemma resize_buffer s n : sized s -> 0 < n < 2 ^ 31 -> _min_size s <= n -> exists b,
  resize s n = Ok (mkString (Some b) (ROUNDUP (n + 1) 16) n (_min_size s) 0) /\ zlen b = ROUNDUP (n + 1) 16 /\
  n < ROUNDUP (n + 1) 16.
Proof.
  intros Hs Hn Hm. destruct (resize_spec s n [] (default [] (_str s)) Hs) as (mid & junk & cap & E & Hmid & Hcap & _); [done|change (zlen []) with 0; lia|lia|].
  pose proof (resize_capacity _ _ _ E ltac:(lia)) as Ec. cbn in Ec.
  rewrite Z.max_l, wrapU_small in Ec by lia. change ROUNDVAL with 16 in Ec. rewrite Ec in E, Hcap.
  eexists. split; [exact E|]. split; [exact Hcap|]. pose proof (ROUNDUP_bounds (n + 1) 4) as HR. change (2 ^ 4) with 16 in HR. lia.
Qed.

Lemma put_ok s b l : _str s = Some b -> zlen l <= zlen b ->
  put s 0 l = Ok (set_str s (Some ((Some <$> l) ++ zdrop (zlen l) b))).
Proof.
  intros Hs Hl. unfold put. apply (write_app s [] (ztake (zlen l) b)); [by rewrite Hs; cbn; rewrite ztake_zdrop|done|].
  rewrite zlen_take, zlen_fmap. pose proof (zlen_nonneg l). lia.
Qed.

Lemma cells_strlen_ok l b : nul_free l -> cells_strlen ((Some <$> l) ++ Some NUL :: b) = Ok (zlen l).
Proof.
  induction 1 as [|c l Hc _ IH]; [done|]. cbn [fmap list_fmap app cells_strlen]. rewrite decide_False by done.
  rewrite IH. cbn. by rewrite zlen_cons.
Qed.

Lemma strip_last_ok s l rest c : _str s = Some ((Some <$> l) ++ rest) ->
  strip_last s (zlen l) c = Ok (zlen (drop_last c l)).
Proof.
  intros Hs. unfold strip_last, drop_last. destruct (last l) as [d|] eqn:E.
  - apply last_Some in E as [l' ->]. rewrite zlen_app. change (zlen [d]) with 1.
    pose proof (zlen_nonneg l'). replace (0 <? _) with true by lia.
    rewrite (load_app s (Some <$> l') d rest); [|by rewrite Hs, fmap_app, <- app_assoc|rewrite zlen_fmap; lia].
    cbn. case_decide; [rewrite removelast_last; f_equal; lia|]. rewrite zlen_app. done.
  - apply last_None in E. by subst.
Qed.

(** ** Reading a line *)

Lemma line_buffer result l : sized result -> _min_size result <= 1024 -> nul_free l -> zlen l <= 1038 ->
  exists s1 s2 q, resize result 1024 = Ok s1 /\ _array_size s1 = 1040 /\ put s1 0 (l ++ [NUL]) = Ok s2 /\
    buf_strlen s2 = Ok (zlen l) /\ _str s2 = Some ((Some <$> l) ++ Some NUL :: q) /\ sized s1 /\ sized s2.
Proof.
  intros Hs Hm Hf Hl. destruct (resize_buffer result 1024 Hs) as (b & E & Hb & _); [lia|done|].
  change (ROUNDUP (1024 + 1) 16) with 1040 in *.
  assert (zlen (l ++ [NUL]) <= zlen b) as Hfit by (rewrite zlen_app; change (zlen [NUL]) with 1; lia).
  pose proof (put_ok (mkString (Some b) 1040 1024 (_min_size result) 0) b (l ++ [NUL]) eq_refl Hfit) as Ep.
  eexists _, _, (zdrop (zlen (l ++ [NUL])) b). split; [exact E|]. split; [done|]. split; [exact Ep|].
  assert ((Some <$> l ++ [NUL]) ++ zdrop (zlen (l ++ [NUL])) b = (Some <$> l) ++ Some NUL :: zdrop (zlen (l ++ [NUL])) b) as Eb
    by (by rewrite fmap_app, <- app_assoc).
  split; [|split; [|split]].
  - unfold buf_strlen. cbn [set_str _str]. rewrite Eb. by apply cells_strlen_ok.
  - cbn [set_str _str]. by rewrite Eb.
  - split; [apply Hs|]. exact Hb.
  - split; [apply Hs|]. cbn [set_str _str _array_size]. rewrite zlen_app, zlen_fmap, zlen_drop. pose proof (zlen_nonneg (l ++ [NUL])). lia.
Qed.

(** The characters of [result] cut to the length that is left of [l]. *)
Lemma cut_line s l n (strip : bool) q : sized s -> _str s = Some ((Some <$> l) ++ q) -> zlen l < 2 ^ 31 -> n = zlen l ->
  exists s', (let? len := (if strip then let? len := strip_last s n LF in strip_last s len CR else Ok n) in resize s len) = Ok s' /\
    repr s' (if strip then strip_line l else l).
Proof.
  intros Hs Hb Hl ->. assert (forall p r, l = p ++ r -> exists s', resize s (zlen p) = Ok s' /\ repr s' p) as Hcut.
  { intros p r ->. rewrite fmap_app, <- app_assoc in Hb. rewrite zlen_app in Hl. pose proof (zlen_nonneg r).
    destruct (resize_fresh s p (zlen p) ((Some <$> r) ++ q) Hs) as (s' & E & Hr & _); [by rewrite Hb|lia|done|]. by exists s'. }
  destruct strip; [|apply (Hcut l []); by rewrite app_nil_r].
  rewrite (strip_last_ok s l q) by done. cbn [bind]. destruct (drop_last_prefix LF l) as [r1 E1].
  destruct (drop_last_prefix CR (drop_last LF l)) as [r2 E2].
  rewrite (strip_last_ok s (drop_last LF l) ((Some <$> r1) ++ q)); [|by rewrite app_assoc, <- fmap_app, <- E1].
  cbn [bind]. apply (Hcut (strip_line l) (r2 ++ r1)). unfold strip_line. by rewrite app_assoc, <- E2.
Qed.

(** The lines that [readLine] reads whole: its buffer takes 1038 characters, but 1023 of them count as
    the beginning of a longer line.  A carriage return may be left in front of such an end. *)
Definition readable (line : str) : Prop :=
  nul_free line /\ zlen line < 2 ^ 31 /\ (last line = Some LF -> 0 < zlen line mod 1038 < 1023) /\
  (1023 <= zlen line -> (CR ∉ line)).

Definition without_end (strip : bool) (line : str) : str := if strip then strip_line line else line.

Lemma assign_nothing s : sized s -> exists s', assign_cstr s [] = Ok s' /\ repr s' [].
Proof.
  intros Hs. destruct (resize_fresh s [] 0 (default [] (_str s)) Hs) as (s' & E & Hr & _); [done..|]. exists s'.
  split; [|done]. unfold assign_cstr, copy. change (u32 (s32 (strlen []))) with 0. cbn [Z.ltb Z.compare]. by rewrite E.
Qed.

Lemma plus_repr s l t : repr s l -> zlen l + zlen t < 2 ^ 31 -> exists s', plus_String s t = Ok s' /\ repr s' (l ++ t).
Proof.
  intros Hr Hl. unfold plus_String. pose proof (zlen_nonneg l). pose proof (zlen_nonneg t).
  rewrite wrapS_small by lia. destruct (Z.eqb_spec (zlen t) 0) as [E|E].
  - assert (t = []) as -> by (destruct t; [done|exfalso; revert E; zlen_lia]). exists s. by rewrite app_nil_r.
  - destruct (append_n_repr s l t Hr) as (s' & E' & Hs' & _); [lia|lia|]. by exists s'.
Qed.

(** The part of the line that is in the buffer, and what is left of it in the file. *)
Lemma rest_of_line l n : 0 <= n -> readable (full_line l) -> 1023 <= zlen (full_line l) -> n = zlen (take 1038 (full_line l)) ->
  full_line (zdrop n l) = drop 1038 (full_line l) /\ readable (drop 1038 (full_line l)) /\ 1023 <= n /\
  (n < 1038 -> last (full_line l) <> Some LF /\ drop 1038 (full_line l) = []) /\
  (last (full_line l) = Some LF -> drop 1038 (full_line l) <> [] /\ last (drop 1038 (full_line l)) = Some LF).
Proof.
  intros Hn (Hf & Hl & Hmod & Hcr) Hlong ->. set (line := full_line l) in *. unfold zlen in Hlong, Hl |- *. rewrite length_take.
  assert (last line = Some LF -> (1038 < length line)%nat) as Hterm.
  { intros Ht%Hmod. unfold zlen in Ht. destruct (decide (Z.of_nat (length line) < 1038)).
    - rewrite Z.mod_small in Ht by lia. lia.
    - destruct (decide (length line = 1038)%nat) as [E|]; [|lia]. rewrite E in Ht. change (Z.of_nat 1038 mod 1038) with 0 in Ht. lia. }
  assert (forall x, last line = Some x -> (1038 < length line)%nat -> last (drop 1038 line) = Some x) as Hlast.
  { intros x Hx Hlen. rewrite <- (take_drop 1038 line), last_app in Hx.
    destruct (last (drop 1038 line)) eqn:E; [done|]. apply last_None, (f_equal length) in E. rewrite length_drop in E. cbn in E. lia. }
  split; [|split; [|split; [lia|split]]].
  - unfold zdrop. rewrite Nat2Z.id. destruct (decide (1038 < length line)%nat).
    + rewrite Nat.min_l by lia. by apply full_line_drop.
    + rewrite Nat.min_r by lia. rewrite (drop_ge line) by lia. destruct (full_line_end l) as [H|[E _]]; [|fold line in E; rewrite E; by rewrite drop_all].
      specialize (Hterm H). lia.
  - split; [unfold nul_free in *; by apply Forall_drop|]. unfold zlen. rewrite length_drop. split; [lia|]. split.
    + intros H. destruct (decide (1038 < length line)%nat); [|rewrite drop_ge in H by lia; done].
      assert (last line = Some LF) as Ht by (rewrite <- (take_drop 1038 line), last_app, H; done).
      specialize (Hmod Ht). unfold zlen in Hmod. rewrite Nat2Z.inj_sub by lia. change (Z.of_nat 1038) with 1038.
      replace (Z.of_nat (length line) - 1038) with (Z.of_nat (length line) + (-1) * 1038) by lia. by rewrite Z_mod_plus_full.
    + intros _ Hin. apply Hcr; [unfold zlen; lia|]. rewrite <- (take_drop 1038 line), elem_of_app. by right.
  - intros Hs. assert (length line < 1038)%nat by lia. split; [intros Ht%Hterm; lia|]. apply drop_ge. lia.
  - intros Ht. specialize (Hterm Ht). split; [|by apply Hlast]. intros E%(f_equal length). rewrite length_drop in E. cbn in E. lia.
Qed.

Lemma without_end_app strip a b : (CR ∉ a ++ b) -> (b = [] -> last a <> Some LF) ->
  without_end strip (a ++ b) = a ++ without_end strip b.
Proof.
  intros Hc Ha. destruct strip; [|done]. unfold without_end. rewrite !strip_no_cr; [|rewrite elem_of_app in Hc; tauto|done].
  destruct (decide (b = [])) as [->|Hb]; [|by apply drop_last_app]. rewrite app_nil_r. specialize (Ha eq_refl).
  unfold drop_last. destruct (last a) as [d|] eqn:E; cbn; [|by rewrite app_nil_r]. rewrite decide_False by congruence.
  by rewrite app_nil_r.
Qed.

Lemma readLine_text fuel result strip f n : sized result -> _min_size result <= 1024 -> 0 <= offset f ->
  readable (full_line (unread f)) -> zlen (full_line (unread f)) < 1023 * Z.of_nat fuel ->
  exists s' e, readLine result strip fuel (mkFile (Some f) n) =
    (Ok s', mkFile (Some (moved f (offset f + zlen (full_line (unread f))) e)) n) /\
    repr s' (without_end strip (full_line (unread f))) /\
    e = end_flag f || negb (bool_decide (last (full_line (unread f)) = Some LF)).
Proof.
  revert result f. induction fuel as [|fuel IH]; intros result f Hs Hm Ho Hread Hfuel.
  { pose proof (zlen_nonneg (full_line (unread f))). lia. }
  pose proof Hread as (Hf & Hl & Hmod & Hcr).
  pose proof (rest_of_line (unread f) (zlen (take 1038 (full_line (unread f)))) (zlen_nonneg _) Hread) as Hrest.
  set (line := full_line (unread f)) in *. cbn [readLine]. unfold sbind, lift, stdio. cbn [_file].
  destruct (line_buffer result (take 1038 line) Hs Hm) as (s1 & s2 & q & -> & Ea & Ep & El & Eb & Hs1 & Hs2).
  { unfold nul_free in *. by apply Forall_take. }
  { unfold zlen. rewrite length_take. lia. }
  rewrite Ea. unfold fgets. change (Z.to_nat (1040 - 1 - 1)) with 1038%nat. rewrite take_line_take. fold line.
  change (1040 - 1 - 1) with 1038. destruct (take 1038 line) as [|c0 l0] eqn:Echunk.
  { assert (line = []) as E0 by (by destruct line). rewrite E0.
    destruct (assign_nothing s1 Hs1) as (s' & E & Hr). rewrite E. exists s'. eexists. split; [reflexivity|].
    split; [by destruct strip|done]. }
  rewrite <- Echunk in *. clear Echunk c0 l0. cbn [_file_data_size]. rewrite Ep, El.
  destruct (Z.ltb_spec (zlen (take 1038 line)) 1023) as [Hshort|Hlong].
  - assert (take 1038 line = line) as Et by (apply take_ge; unfold zlen in Hshort; rewrite length_take in Hshort; lia).
    rewrite Et in *. destruct (cut_line s2 line (zlen line) strip (Some NUL :: q) Hs2 Eb Hl eq_refl) as (s' & E & Hr).
    exists s'. eexists. split; [|split; [exact Hr|reflexivity]].
    replace (zlen line <? 1038) with true by lia. cbn [andb].
    apply bind_Ok in E as (len & E1 & E2). rewrite E1. by rewrite E2.
  - destruct Hrest as (Eline & Hread' & _ & Hend & Hlast); [|done|].
    { unfold zlen in Hlong |- *. rewrite length_take in Hlong. lia. }
    set (chunk := take 1038 line) in *. set (more := drop 1038 line) in *.
    assert (line = chunk ++ more) as Ecm by (by unfold chunk, more; rewrite take_drop).
    destruct (cut_line s2 chunk (zlen chunk) false (Some NUL :: q) Hs2 Eb) as (s3 & E3 & Hr3); [rewrite Ecm, zlen_app in Hl; pose proof (zlen_nonneg more); lia|done|].
    cbn [bind] in E3. rewrite E3.
    set (e1 := end_flag f || ((zlen chunk <? 1038) && negb (bool_decide (last chunk = Some LF)))).
    assert (unread (moved f (offset f + zlen chunk) e1) = zdrop (zlen chunk) (unread f)) as Eun.
    { unfold unread. cbn [moved offset data]. unfold zdrop. rewrite drop_drop. f_equal. pose proof (zlen_nonneg chunk). lia. }
    destruct (IH String_new (moved f (offset f + zlen chunk) e1)) as (tmp & e & E & Hr & He).
    { apply (repr_sized _ _ repr_new). }
    { cbn. lia. }
    { cbn [moved offset]. lia. }
    { by rewrite Eun, Eline. }
    { rewrite Eun, Eline. rewrite Ecm, zlen_app in Hfuel. lia. }
    rewrite E. rewrite Eun, Eline in Hr, He |- *. rewrite (chars_repr _ _ Hr).
    assert (without_end strip line = chunk ++ without_end strip more) as Ew.
    { rewrite Ecm at 1. apply without_end_app; [rewrite <- Ecm; apply Hcr|].
      - rewrite Ecm, zlen_app. pose proof (zlen_nonneg more). lia.
      - intros Em Ht. apply Hlast in Em; [done|]. rewrite Ecm, Em, app_nil_r. done. }
    destruct (plus_repr s3 chunk (without_end strip more) Hr3) as (s' & E' & Hr').
    { rewrite <- zlen_app, <- Ew. destruct strip; [|done]. unfold without_end, strip_line.
      destruct (drop_last_prefix LF line) as [r1 E1], (drop_last_prefix CR (drop_last LF line)) as [r2 E2].
      rewrite E1, E2, !zlen_app in Hl. pose proof (zlen_nonneg r1). pose proof (zlen_nonneg r2). lia. }
    exists s', e. rewrite E'. split; [|split; [by rewrite Ew|]].
    + rewrite Ecm, zlen_app, Z.add_assoc. done.
    + rewrite He. cbn [moved end_flag]. unfold e1. destruct (decide (last line = Some LF)) as [Ht|Ht].
      * rewrite (bool_decide_true _ Ht), (bool_decide_true _ (proj2 (Hlast Ht))).
        destruct (Z.ltb_spec (zlen chunk) 1038) as [Hc|Hc]; [by destruct (Hend Hc)|]. by rewrite !orb_false_r.
      * rewrite (bool_decide_false _ Ht). rewrite (bool_decide_false (last more = Some LF)); [by rewrite !orb_true_r|].
        intros Hm'. apply Ht. by rewrite Ecm, last_app, Hm'.
Qed.

(** ** Reading a file line by line *)

(** [while (!file->eof()) { String line = file->readLine(); ... }] *)
Fixpoint read_lines (strip : bool) (fuel : nat) : M (list str) :=
  match fuel with
  | O => sfail
  | S fuel' =>
      let! e := atEnd in
      if e : bool then sret []
      else
        let! line := readLine String_new strip fuel in
        let! l := lift (chars line) in
        let! ls := read_lines strip fuel' in
        sret (l :: ls)
  end.

Lemma full_line_app body rest : (LF ∉ body) -> full_line (body ++ LF :: rest) = body ++ [LF].
Proof.
  induction body as [|c body IH]; intros Hb; cbn; [by rewrite decide_True|]. rewrite not_elem_of_cons in Hb.
  rewrite decide_False by naive_solver. rewrite IH; naive_solver.
Qed.

Lemma full_line_all body : (LF ∉ body) -> full_line body = body.
Proof.
  induction body as [|c body IH]; intros Hb; cbn; [done|]. rewrite not_elem_of_cons in Hb.
  rewrite decide_False by naive_solver. rewrite IH; naive_solver.
Qed.

Lemma last_not_LF body : (LF ∉ body) -> last body <> Some LF.
Proof. intros Hb [l ->]%last_Some. apply Hb. rewrite elem_of_app. right. by left. Qed.

Lemma unread_app p l e a : unread (mkFILE (p ++ l) (zlen p) e a) = l.
Proof. unfold unread. cbn. apply zdrop_app_zlen. Qed.

Definition text_of (lines : list str) (tail : str) : str := concat (map (fun b => b ++ [LF]) lines) ++ tail.

Lemma read_lines_ok strip p lines tail a n fuel :
  Forall (fun b => (LF ∉ b) /\ readable (b ++ [LF])) lines -> (LF ∉ tail) -> readable tail ->
  (length (text_of lines tail) + 1 < fuel)%nat ->
  exists f, read_lines strip fuel (mkFile (Some (mkFILE (p ++ text_of lines tail) (zlen p) false a)) n) =
    (Ok (map (fun b => without_end strip (b ++ [LF])) lines ++ [without_end strip tail]), mkFile (Some f) n) /\
    end_flag f = true.
Proof.
  intros Hlines Ht Hrt. revert p fuel. induction Hlines as [|b lines [Hb Hrb] Hlines IH]; intros p [|fuel] Hf; try lia.
  - cbn [read_lines]. unfold sbind, atEnd, stdio, lift. cbn [_file end_flag _file_data_size].
    change (text_of [] tail) with tail in *. destruct (readLine_text (S fuel) String_new strip (mkFILE (p ++ tail) (zlen p) false a) n)
      as (s & e & E & Hr & He); rewrite ?unread_app, ?(full_line_all tail Ht); try done.
    { apply zlen_nonneg. }
    { unfold zlen. lia. }
    rewrite unread_app, (full_line_all tail Ht) in E, Hr, He. rewrite bool_decide_false in He by (by apply last_not_LF). cbn in He.
    rewrite E, (chars_repr _ _ Hr). destruct fuel as [|fuel]; [lia|]. subst e.
    eexists. split; [reflexivity|done].
  - cbn [read_lines]. unfold sbind, atEnd, stdio, lift. cbn [_file end_flag _file_data_size].
    assert (text_of (b :: lines) tail = b ++ LF :: text_of lines tail) as Et by (unfold text_of; cbn; by rewrite <- !app_assoc).
    rewrite Et in *. rewrite length_app in Hf. cbn [length] in Hf.
    destruct (readLine_text (S fuel) String_new strip (mkFILE (p ++ b ++ LF :: text_of lines tail) (zlen p) false a) n)
      as (s & e & E & Hr & He); rewrite ?unread_app, ?(full_line_app b _ Hb); try done.
    { apply zlen_nonneg. }
    { unfold zlen. rewrite length_app. cbn. lia. }
    rewrite unread_app, (full_line_app b _ Hb) in E, Hr, He. rewrite last_snoc, bool_decide_true in He by done. cbn in He.
    rewrite E, (chars_repr _ _ Hr). subst e. unfold moved. cbn [data offset appending].
    destruct (IH (p ++ b ++ [LF]) fuel ltac:(lia)) as (f & E' & Hf').
    assert (p ++ b ++ LF :: text_of lines tail = (p ++ b ++ [LF]) ++ text_of lines tail) as -> by (by rewrite <- !app_assoc).
    rewrite !(zlen_app p) in E'. rewrite E'. exists f. split; [done|done].
Qed.

Lemma without_end_lines lines : Forall (fun b => CR ∉ b) lines ->
  map (fun b => without_end true (b ++ [LF])) lines = lines.
Proof.
  induction 1 as [|b lines Hb _ IH]; [done|]. cbn [map]. rewrite IH. f_equal. cbn. unfold strip_line, drop_last at 2.
  rewrite last_snoc, decide_True, removelast_last by done. by apply drop_last_absent.
Qed.

Lemma without_end_tail tail : (CR ∉ tail) -> (LF ∉ tail) -> without_end true tail = tail.
Proof. intros Hc Hl. cbn. rewrite strip_no_cr by done. by apply drop_last_absent. Qed.

(** Todo *)
Theorem read_lines_spec lines tail n fuel :
  Forall (fun b => (LF ∉ b) /\ (CR ∉ b) /\ readable (b ++ [LF])) lines -> (LF ∉ tail) -> (CR ∉ tail) -> readable tail ->
  (length (text_of lines tail) + 1 < fuel)%nat ->
  exists f, read_lines true fuel (mkFile (Some (mkFILE (text_of lines tail) 0 false false)) n) =
    (Ok (lines ++ [tail]), mkFile (Some f) n) /\ end_flag f = true.
Proof.
  intros Hlines Ht Hct Hrt Hf.
  destruct (read_lines_ok true [] lines tail false n fuel) as (f & E & Hend); [|done..|].
  { eapply Forall_impl; [exact Hlines|]. naive_solver. }
  cbn [app] in E. change (zlen []) with 0 in E. exists f. split; [|done]. rewrite E, without_end_tail by done.
  rewrite without_end_lines; [done|]. eapply Forall_impl; [exact Hlines|]. naive_solver.
Qed.

(** ** Reading a whole file *)

Lemma fill_buffer s n l : sized s -> 0 < n < 2 ^ 31 -> _min_size s <= n -> zlen l <= ROUNDUP (n + 1) 16 -> zlen l < 2 ^ 31 ->
  exists s1 s2 s3, resize s n = Ok s1 /\ _array_size s1 = ROUNDUP (n + 1) 16 /\ put s1 0 l = Ok s2 /\
    resize s2 (zlen l) = Ok s3 /\ repr s3 l.
Proof.
  intros Hs Hn Hm Hl Hl2. destruct (resize_buffer s n Hs Hn Hm) as (b & E & Hb & _).
  assert (zlen l <= zlen b) as Hfit by lia.
  pose proof (put_ok (mkString (Some b) (ROUNDUP (n + 1) 16) n (_min_size s) 0) b l eq_refl Hfit) as Ep.
  edestruct (resize_fresh (set_str (mkString (Some b) (ROUNDUP (n + 1) 16) n (_min_size s) 0)
    (Some ((Some <$> l) ++ zdrop (zlen l) b))) l (zlen l) (zdrop (zlen l) b)) as (s3 & E3 & Hr & _); [|done|done|done|].
  { split; [apply Hs|]. cbn [set_str _str _array_size]. rewrite zlen_app, zlen_fmap, zlen_drop. pose proof (zlen_nonneg l). lia. }
  eexists _, _, s3. split; [exact E|]. split; [done|]. split; [exact Ep|]. by split.
Qed.

(** The size that [size()] keeps: the one it kept before, or that of the file now. *)
Definition kept_size (f : FILE) (n : Z) : Z := if n =? 0 then zlen (data f) else n.

Lemma fseek_ok pos f : 0 <= pos -> fseek pos f = moved f pos false.
Proof. intros. unfold fseek. by replace (pos <? 0) with false by lia. Qed.

Lemma kept_again f n : 0 < n -> kept_size f n = n.
Proof. intros. unfold kept_size. by replace (n =? 0) with false by lia. Qed.

Lemma size_ok f n : 0 <= offset f -> exists e,
  size (mkFile (Some f) n) = (Ok (kept_size f n), mkFile (Some (moved f (offset f) e)) (kept_size f n)).
Proof.
  intros Ho. unfold size, kept_size, sbind, get. cbn [_file_data_size]. destruct (Z.eqb_spec n 0) as [->|Hn].
  - unfold stdio, rewind, stdio, modify. cbn [_file _file_data_size]. pose proof (zlen_nonneg (data f)).
    rewrite !(fseek_ok _ f), fseek_ok, !fseek_ok by (done || (cbn; lia)). by exists false.
  - exists (end_flag f). by destruct f.
Qed.

(** [readAll] gives the whole file, or, with a size that was asked before, only as much as its buffer
    has room for. *)
Lemma readAll_ok in_ f n fuel : sized in_ -> _min_size in_ = 0 -> 0 <= n < 2 ^ 30 -> zlen (data f) < 2 ^ 30 -> (1 < fuel)%nat ->
  exists s' f', readAll in_ fuel (mkFile (Some f) n) = (Ok s', mkFile (Some f') (kept_size f n)) /\
    repr s' (if n =? 0 then data f else ztake (ROUNDUP (n + 1) 16) (data f)).
Proof.
  intros Hs Hm Hn Hd Hfuel. pose proof (zlen_nonneg (data f)).
  assert (0 <= kept_size f n < 2 ^ 30) as Hk by (unfold kept_size; destruct (n =? 0); lia).
  unfold readAll. unfold sbind at 1, rewind, stdio. cbn [_file]. cbn [fseek Z.ltb Z.compare].
  destruct (size_ok (moved f 0 false) n) as [e1 E1]; [cbn; lia|]. unfold sbind at 1. cbn [_file_data_size].
  rewrite E1. cbn [moved offset data]. change (kept_size (moved f 0 false) n) with (kept_size f n).
  pose proof (ROUNDUP_bounds (kept_size f n + 1) 4) as HR. change (2 ^ 4) with 16 in HR.
  destruct (Z.ltb_spec 0 (kept_size f n)) as [Hpos|Hzero].
  - destruct (size_ok (mkFILE (data f) 0 e1 (appending f)) (kept_size f n)) as [e2 E2]; [cbn; lia|].
    unfold sbind at 1. unfold moved in E2 |- *. cbn [data offset appending] in E2 |- *. rewrite E2.
    rewrite (kept_again _ (kept_size f n)) by done.
    set (cap := ROUNDUP (kept_size f n + 1) 16) in *.
    destruct (fill_buffer in_ (kept_size f n) (ztake cap (data f)) Hs) as (s1 & s2 & s3 & F1 & F2 & F3 & F4 & F5);
      [lia|lia|rewrite zlen_take; fold cap; lia|rewrite zlen_take; lia|].
    fold cap in F2. unfold sbind, lift. rewrite wrapU_small by lia. rewrite F1, F2. unfold stdio, fread, unread.
    cbn [_file _file_data_size data offset]. change (zdrop 0 (data f)) with (data f). rewrite F3. exists s3. eexists. split; [exact (f_equal (fun r => (r, _)) F4)|].
    destruct (Z.eqb_spec n 0) as [->|]; [|by unfold cap, kept_size in F5; replace (n =? 0) with false in F5 by lia].
    rewrite ztake_ge in F5; [done|]. unfold cap, kept_size in *. cbn [Z.eqb] in *. lia.
  - assert (data f = []) as Ed.
    { unfold kept_size in *. destruct (Z.eqb_spec n 0); [|lia]. destruct (data f); [done|]. exfalso. rewrite zlen_cons in *.
      pose proof (zlen_nonneg l). lia. }
    assert (n = 0) as -> by (unfold kept_size in *; destruct (Z.eqb_spec n 0); lia).
    destruct (fill_buffer in_ 256 [] Hs) as (s1 & s2 & s3 & F1 & F2 & F3 & F4 & F5); [lia|lia|done|done|].
    unfold sbind, lift. rewrite F1, F2. unfold stdio, fread, unread. cbn [_file _file_data_size moved data offset]. rewrite Ed.
    change (ztake (ROUNDUP (256 + 1) 16) (zdrop 0 [])) with (@nil char). rewrite F3. change (zlen []) with 0 in F4 |- *.
    rewrite F4. destruct fuel as [|fuel]; [lia|]. cbn [readAll_loop]. unfold sbind, atEnd, stdio. cbn [_file end_flag _file_data_size].
    change (0 <? ROUNDUP (256 + 1) 16) with true. rewrite orb_true_r.
    exists s3. eexists. split; [reflexivity|]. done.
Qed.

(** A line of 1022 characters, which fills the buffer with its end, is joined with the next line; one of
    1021 is not. *)
Theorem readLine_joins :
  let long := replicate 1022 "x"%char in
  (exists f, read_lines true 9 (mkFile (Some (mkFILE (long ++ [LF] ++ lit "next" ++ [LF]) 0 false false)) 0)
     = (Ok [long ++ [LF] ++ lit "next"; []], f)) /\
  (exists f, read_lines true 9 (mkFile (Some (mkFILE (ztake 1021 long ++ [LF] ++ lit "next" ++ [LF]) 0 false false)) 0)
     = (Ok [ztake 1021 long; lit "next"; []], f)).
Proof. split; eexists; vm_compute; reflexivity. Qed.

(** ** What the XML parser reads from *)

#[export] Instance FILE_TextFile : XML.TextFile FILE := {|
  XML.eof := end_flag;
  XML.atBeginning f := u32 (offset f) =? 0;
  XML.position f := u32 (offset f);
  XML.seek f pos := fseek pos f;
  XML.read_text f n := let '(l, f) := fread n f in Ok (l, f, zlen l)
|}.

Lemma read_text_ok buf f n len : sized buf -> 0 < len < 2 ^ 31 -> _min_size buf <= len -> 0 <= offset f ->
  exists l s' f', XML.read_text f len = Ok (l, f', zlen l) /\
    read_String buf len (mkFile (Some f) n) = (Ok (zlen l, s'), mkFile (Some f') n) /\ repr s' l.
Proof.
  intros Hs Hlen Hm Ho. cbn. unfold fread. pose proof (ROUNDUP_bounds (len + 1) 4) as HR. change (2 ^ 4) with 16 in HR.
  destruct (fill_buffer buf len (ztake len (unread f)) Hs Hlen Hm) as (s1 & s2 & s3 & F1 & _ & F3 & F4 & F5);
    [rewrite zlen_take; lia|rewrite zlen_take; lia|].
  eexists _, s3, _. split; [reflexivity|]. split; [|done]. unfold read_String, sbind, lift, stdio.
  rewrite wrapU_small by lia. rewrite F1. cbn [_file]. unfold fread. by rewrite F3, F4.
Qed.

(** *** The theorems at concrete files *)

Definition two_lines : list str := [lit "first"; []].

Lemma readable_short l : nul_free l -> zlen l < 1023 -> readable l.
Proof.
  intros Hf Hl. pose proof (zlen_nonneg l). split; [done|]. split; [lia|]. split; [|lia]. intros He.
  rewrite Z.mod_small by lia. split; [|lia]. destruct l; [done|]. rewrite zlen_cons. pose proof (zlen_nonneg l). lia.
Qed.

Lemma read_lines_spec_witness :
  let f0 := mkFile (Some (mkFILE (text_of two_lines (lit "last")) 0 false false)) 0 in
  exists f, read_lines true 20 f0 = (Ok (two_lines ++ [lit "last"]), mkFile (Some f) 0) /\ end_flag f = true.
Proof.
  apply (read_lines_spec two_lines (lit "last") 0 20).
  - repeat apply Forall_cons_2; [..|by apply Forall_nil_2].
    all: split; [vm_compute; set_solver|]; split; [vm_compute; set_solver|]; apply readable_short; [by repeat constructor|reflexivity].
  - vm_compute. set_solver.
  - vm_compute. set_solver.
  - apply readable_short; [by repeat constructor|reflexivity].
  - vm_compute. lia.
Defined.

Example readAll_stale :
  let f := mkFILE (replicate 40 "y"%char) 3 false false in
  zlen (data f) = 40 /\ exists s' f', readAll String_new 2 (mkFile (Some f) 5) = (Ok s', mkFile (Some f') 5) /\
    repr s' (replicate 16 "y"%char).
Proof.
  intros f. split; [reflexivity|].
  apply (readAll_ok String_new f 5 2); [apply (repr_sized _ _ repr_new)|done|lia|reflexivity|lia].
Qed.
