(* ===== verification/FS.v ===== *)
(** * The file system (src/cpp/src/fs/FS.cpp, and the functions on whole files of TextFile.cpp)

    Paths and permissions are functions on texts and numbers.  What changes files runs on the
    hierarchy of a POSIX system ([OS]): a tree of directories and regular files, of which the
    process sees what the C library's calls show, with the rights of the superuser.  There are no
    links; the names [.] and [..] occur in the listings only. *)

From S2P Require Import Prelude State CString Str StrConv StrMem XML TextFile.

(** ** Paths *)

Definition BACKSLASH_SEP : char := chr 92.
Definition GetSysSeperator : char := "/"%char.

Definition GetFileName (path : str) : res str :=
  let? n := count_char path BACKSLASH_SEP in
  if negb (n =? 0) then
    let? p := rfind_char path BACKSLASH_SEP 0 in substr_from path (u32 (p + 1))
  else
    let? n := count_char path "/" in
    if negb (n =? 0) then
      let? p := rfind_char path "/" 0 in substr_from path (u32 (p + 1))
    else Ok path.

Definition GetExt (path : str) : res str :=
  let? n := count_char path "." in
  if negb (n =? 0) then
    let? p := rfind_char path "." 0 in substr_from path (u32 (p + 1))
  else Ok null.

Definition GetDirName (path : str) : res str :=
  let? n := count_char path BACKSLASH_SEP in
  if negb (n =? 0) then
    let? p := rfind_char path BACKSLASH_SEP 0 in substr path 0 (u32 p)
  else
    let? n := count_char path "/" in
    if negb (n =? 0) then
      let? p := rfind_char path "/" 0 in substr path 0 (u32 p)
    else Ok path.

(** ** Permissions *)

(** [AccessModes] *)
Definition NONE : Z := 0.
Definition EXECUTE : Z := 1.
Definition WRITE : Z := 2.
Definition READ : Z := 4.
Definition READ_WRITE_EXECUTE : Z := 7.

(** <sys/stat.h> *)
Definition S_IRUSR : Z := 256.
Definition S_IWUSR : Z := 128.
Definition S_IXUSR : Z := 64.
Definition S_IRGRP : Z := 32.
Definition S_IWGRP : Z := 16.
Definition S_IXGRP : Z := 8.
Definition S_IROTH : Z := 4.
Definition S_IWOTH : Z := 2.
Definition S_IXOTH : Z := 1.

Record Permissions := mkPerms { owners : Z; groups : Z; others : Z }.
#[export] Instance Permissions_eq_dec : EqDecision Permissions.
Proof. solve_decision. Defined.

(** [if (v & bit)] and [x |= flag]. *)
Definition has (v bit : Z) : bool := negb (Z.land v bit =? 0).
Definition flag (c : bool) (x f : Z) : Z := if c then Z.lor x f else x.

Definition ModesToPermissions (modes : Z) : Permissions :=
  let owners := flag (has modes S_IRUSR) 0 READ in
  let owners := flag (has modes S_IWUSR) owners WRITE in
  let owners := flag (has modes EXECUTE) owners EXECUTE in
  let groups := flag (has modes S_IRGRP) 0 READ in
  let groups := flag (has modes S_IWGRP) groups WRITE in
  let groups := flag (has modes S_IXGRP) groups EXECUTE in
  let others := flag (has modes S_IROTH) 0 READ in
  let others := flag (has modes S_IWOTH) others WRITE in
  let others := flag (has modes S_IXOTH) others EXECUTE in
  mkPerms owners groups others.

Definition PermissionsToModes (p : Permissions) : Z :=
  let modes := flag (has (owners p) READ) 0 S_IRUSR in
  let modes := flag (has (owners p) WRITE) modes S_IWUSR in
  let modes := flag (has (owners p) EXECUTE) modes S_IXUSR in
  let modes := flag (has (groups p) READ) modes S_IRGRP in
  let modes := flag (has (groups p) WRITE) modes S_IWGRP in
  let modes := flag (has (groups p) EXECUTE) modes S_IXGRP in
  let modes := flag (has (others p) READ) modes S_IROTH in
  let modes := flag (has (owners p) WRITE) modes S_IWOTH in
  flag (has (owners p) EXECUTE) modes S_IXOTH.

Definition rwx (v : Z) (res : str) : str :=
  let res := push res (if has v READ then "r"%char else "-"%char) in
  let res := push res (if has v WRITE then "w"%char else "-"%char) in
  push res (if has v EXECUTE then "x"%char else "-"%char).
Definition asString (p : Permissions) : str := rwx (others p) (rwx (groups p) (rwx (owners p) [])).

(** ** The hierarchy *)

#[warnings="-register-all"]
Inductive node :=
  | Reg (mode : Z) (data : str)
  | Dir (mode : Z) (kids : list (str * node)).

Definition mode_of (n : node) : Z := match n with Reg m _ => m | Dir m _ => m end.
Definition is_dir (n : node) : bool := match n with Dir _ _ => true | Reg _ _ => false end.

(** The names of a path. *)
Fixpoint split_path (path name : str) : list str :=
  match path with
  | [] => [rev name]
  | c :: path => if decide (c = "/"%char) then rev name :: split_path path [] else split_path path (c :: name)
  end.
Definition is_name (name : str) : bool := negb (bool_decide (name = [])) && negb (bool_decide (name = lit ".")).
Definition components (path : str) : list str := List.filter is_name (split_path path []).

Fixpoint kid (name : str) (kids : list (str * node)) : option node :=
  match kids with
  | [] => None
  | (k, n) :: kids => if decide (k = name) then Some n else kid name kids
  end.
Fixpoint set_kid (name : str) (n : node) (kids : list (str * node)) : list (str * node) :=
  match kids with
  | [] => [(name, n)]
  | (k, m) :: kids => if decide (k = name) then (k, n) :: kids else (k, m) :: set_kid name n kids
  end.
Definition del_kid (name : str) (kids : list (str * node)) : list (str * node) :=
  List.filter (fun kn => negb (bool_decide (kn.1 = name))) kids.

Fixpoint find (cs : list str) (n : node) : option node :=
  match cs with
  | [] => Some n
  | c :: cs => match n with Dir _ kids => match kid c kids with Some k => find cs k | None => None end | Reg _ _ => None end
  end.

(** The tree with [x] at the end of the path, which must lead through directories. *)
Fixpoint put_at (cs : list str) (x : option node) (n : node) : node :=
  match cs with
  | [] => default n x
  | c :: cs' =>
      match n with
      | Reg _ _ => n
      | Dir m kids =>
          match cs' with
          | [] => Dir m (match x with Some y => set_kid c y kids | None => del_kid c kids end)
          | _ => match kid c kids with Some k => Dir m (set_kid c (put_at cs' x k) kids) | None => n end
          end
      end
  end.

(** ** The calls of the C library *)

Record OS := mkOS { root : node; mask : Z }.
Abbreviation M := (ST OS).

Definition look (path : str) (s : OS) : option node :=
  match path with [] => None | _ => find (components path) (root s) end.
Definition parent_ok (cs : list str) (s : OS) : bool :=
  match find (removelast cs) (root s) with Some (Dir _ _) => true | _ => false end.
Definition set_root (t : node) (s : OS) : OS := mkOS t (mask s).

(** [stat]: the mode, when the file is there. *)
Definition stat (path : str) : M (option node) := fun s => (Ok (look path s), s).
Definition umask (m : Z) : M unit := modify (fun s => mkOS (root s) m).

(** The calls that answer whether they succeeded. *)
Definition mkdir (path : str) (mode : Z) : M bool := fun s =>
  let cs := components path in
  match look path s with
  | None => if negb (bool_decide (cs = [])) && parent_ok cs s
      then (Ok true, set_root (put_at cs (Some (Dir (Z.land mode (Z.lnot (mask s))) [])) (root s)) s) else (Ok false, s)
  | Some _ => (Ok false, s)
  end.
Definition remove (path : str) : M bool := fun s =>
  let cs := components path in
  match look path s with
  | Some (Reg _ _) | Some (Dir _ []) =>
      if bool_decide (cs = []) then (Ok false, s) else (Ok true, set_root (put_at cs None (root s)) s)
  | _ => (Ok false, s)
  end.
(** The entries as [readdir] gives them. *)
Definition opendir (path : str) : M (option (list str)) := fun s =>
  (Ok match look path s with Some (Dir _ kids) => Some (lit "." :: lit ".." :: kids.*1) | _ => None end, s).

Fixpoint is_prefix (cs ds : list str) : bool :=
  match cs, ds with
  | [], _ => true
  | c :: cs, d :: ds => bool_decide (c = d) && is_prefix cs ds
  | _, [] => false
  end.

Definition rename (from to : str) : M bool := fun s =>
  let cs := components from in
  let ds := components to in
  match look from s with
  | None => (Ok false, s)
  | Some n =>
      let fits := match look to s with
        | None => true
        | Some (Reg _ _) => negb (is_dir n)
        | Some (Dir _ kids) => is_dir n && match kids with [] => true | _ => false end
        end in
      if bool_decide (cs = ds) then (Ok true, s)
      else if fits && negb (is_prefix cs ds) && negb (bool_decide (to = [])) && parent_ok ds s
      then (Ok true, set_root (put_at ds (Some n) (put_at cs None (root s))) s)
      else (Ok false, s)
  end.

(** [fopen] for reading and for writing; [fclose] of a file that was written. *)
Definition fopen_r (path : str) : M (option FILE) := fun s =>
  (Ok match look path s with Some (Reg _ d) => Some (mkFILE d 0 false false) | _ => None end, s).
Definition fopen_w (path : str) : M (option FILE) := fun s =>
  let cs := components path in
  let file d := mkFILE d 0 false false in
  match look path s with
  | Some (Reg m _) => (Ok (Some (file [])), set_root (put_at cs (Some (Reg m [])) (root s)) s)
  | Some (Dir _ _) => (Ok None, s)
  | None => if negb (bool_decide (cs = [])) && parent_ok cs s
      then (Ok (Some (file [])), set_root (put_at cs (Some (Reg (Z.land 438 (Z.lnot (mask s))) [])) (root s)) s)
      else (Ok None, s)
  end.
Definition fclose (path : str) (f : FILE) : M unit := fun s =>
  match look path s with
  | Some (Reg m _) => (Ok tt, set_root (put_at (components path) (Some (Reg m (data f))) (root s)) s)
  | _ => (Ok tt, s)
  end.

(** ** The operations *)

Definition Exists (path : str) : M bool := let! n := stat path in sret (bool_decide (is_Some n)).
Definition IsDir (path : str) : M bool :=
  let! n := stat path in sret match n with Some n => is_dir n | None => false end.
Definition IsFile (path : str) : M bool :=
  let! n := stat path in sret match n with Some n => negb (is_dir n) | None => false end.

Definition GetPermissions (path : str) : M Permissions :=
  let! e := Exists path in
  if negb e then sthrow FileNotFoundException
  else
    let! n := stat path in
    match n with
    | Some n => sret (ModesToPermissions (mode_of n))
    | None => sthrow IOException
    end.

(** [MakeDir] of one directory. *)
Definition make_one (path : str) (permissions : option Permissions) : M unit :=
  umask 0 ;;!
  let modes := match permissions with
    | None => PermissionsToModes (mkPerms READ_WRITE_EXECUTE READ_WRITE_EXECUTE NONE)
    | Some p => PermissionsToModes p
    end in
  let! ok := mkdir path modes in
  if ok : bool then sret tt else sthrow IOException.

Fixpoint make_loop (path : str) (permissions : option Permissions) (new_path : str) (i : Z) (n : nat) : M unit :=
  match n with
  | O => sret tt
  | S n =>
      let! part := lift (section_char path GetSysSeperator i true) in
      let new_path := new_path ++ part in
      let! e := Exists new_path in
      (if negb e then make_one new_path permissions else sret tt) ;;!
      make_loop path permissions (push new_path GetSysSeperator) (i + 1) n
  end.

Definition MakeDir (path : str) (permissions : option Permissions) (recursive : bool) : M unit :=
  if recursive then
    let absolute := bool_decide (deref path = GetSysSeperator) in
    let i := if absolute then 1 else 0 in
    let new_path := if absolute then push [] GetSysSeperator else [] in
    let! sections := lift (count_char path GetSysSeperator) in
    make_loop path permissions new_path i (Z.to_nat (sections + 1 - i))
  else make_one path permissions.

(** The names that the loops over a directory take. *)
Definition is_dots (name : str) : bool := Compare name (lit ".") false || Compare name (lit "..") false.

(** The loop over the names of a directory; [del] is the recursive call. *)
Fixpoint delete_loop (del : str -> M Z) (path : str) (recursive : bool) (names : list str) (total : Z) : M Z :=
  match names with
  | [] => sret total
  | name :: names =>
      if is_dots name then delete_loop del path recursive names total
      else if recursive then
        del (path ++ lit "/" ++ name) ;;!
        delete_loop del path recursive names (total + 1)
      else sret (total + 1)
  end.

(** The recursion is limited by [fuel], which counts the levels of the hierarchy. *)
Fixpoint Delete (path : str) (recursive : bool) (fuel : nat) : M Z :=
  match fuel with
  | O => sfail
  | S fuel =>
      let! e := Exists path in
      if negb e then sthrow FileNotFoundException
      else
        let! d := IsDir path in
        if negb d then
          let! ok := remove path in
          if ok : bool then sret 1 else sthrow IOException
        else
          let! entries := opendir path in
          match entries with
          | None => sthrow IOException
          | Some entries =>
              let! total := delete_loop (fun p => Delete p true fuel) path recursive entries 0 in
              if negb recursive && (0 <? total) then sthrow IOException
              else
                remove path ;;!
                sret 0
          end
  end.

Definition Move (from_path to_path : str) (replace_existing : bool) (fuel : nat) : M unit :=
  let! e := Exists from_path in
  if negb e then sthrow FileNotFoundException
  else
    let! e := Exists to_path in
    (if e : bool then
       if replace_existing then Delete to_path false fuel ;;! sret tt else sthrow IOException
     else sret tt) ;;!
    let! ok := rename from_path to_path in
    if ok : bool then sret tt else sthrow IOException.

(** [while ((nread = fread(buf, ..., in_fp)) > 0) fwrite(buf, ..., nread, out_fp)], 4096 bytes at a time. *)
Fixpoint copy_loop (in_fp out_fp : FILE) (fuel : nat) : res FILE :=
  match fuel with
  | O => NoFuel
  | S fuel =>
      let '(buf, in_fp) := fread 4096 in_fp in
      match buf with
      | [] => Ok out_fp
      | _ => copy_loop in_fp (fwrite buf out_fp) fuel
      end
  end.

(** On a stream that did not open, the calls are undefined. *)
Definition copy_file (from_path to_path : str) : M unit :=
  let! in_fp := fopen_r from_path in
  let! out_fp := fopen_w to_path in
  match in_fp, out_fp with
  | Some i, Some o =>
      let! o := lift (copy_loop i o (S (length (data i)))) in
      fclose to_path o
  | _, _ => lift UB
  end.

(** The loop over the names of a directory; [copy] is the recursive call. *)
Fixpoint copy_entries (copy : str -> str -> M unit) (from_path to_path : str) (names : list str) : M unit :=
  match names with
  | [] => sret tt
  | name :: names =>
      let path := lit "/" ++ name in
      if op_eq path (lit "/.") || op_eq path (lit "/..") then copy_entries copy from_path to_path names
      else copy (from_path ++ path) (to_path ++ path) ;;! copy_entries copy from_path to_path names
  end.

Fixpoint Copy (from_path to_path : str) (replace_existing : bool) (fuel : nat) : M unit :=
  match fuel with
  | O => sfail
  | S fuel =>
      let! e := Exists from_path in
      if negb e then sthrow FileNotFoundException
      else
        let! e := Exists to_path in
        (if e : bool then
           if replace_existing then Delete to_path false 1 ;;! sret tt else sthrow IOException
         else sret tt) ;;!
        let! d := IsDir from_path in
        if d : bool then
          let! perms := GetPermissions from_path in
          MakeDir to_path (Some perms) false ;;!
          let! entries := opendir from_path in
          match entries with
          | None => sthrow IOException
          | Some entries =>
              copy_entries (fun f t => Copy f t false fuel) from_path to_path entries
          end
        else
          let! f := IsFile from_path in
          if f : bool then copy_file from_path to_path else sret tt
  end.

(** ** Paths: theorems *)

Lemma rfind_loop_last a b c : c <> NUL -> (c ∉ b) -> forall n, (n <= length b + 1)%nat ->
  rfind_char_loop (a ++ c :: b) c (length a + n) = Ok (zlen a).
Proof.
  intros Hc Hb. assert (text (a ++ c :: b) !! length a = Some c) as Ha.
  { unfold text. rewrite <- app_assoc. by apply list_lookup_middle. }
  induction n as [|n IH]; intros Hn.
  - rewrite Nat.add_0_r. destruct (length a) eqn:E; cbn [rfind_char_loop]; rewrite Ha; cbn [of_option bind];
      rewrite decide_True by done; unfold zlen; by rewrite E.
  - rewrite Nat.add_succ_r. cbn [rfind_char_loop].
    assert (exists d, text (a ++ c :: b) !! S (length a + n) = Some d /\ d <> c) as (d & -> & Hd).
    { unfold text. rewrite <- app_assoc, lookup_app_r by lia. replace (S (length a + n) - length a)%nat with (S n) by lia.
      change (((c :: b) ++ [NUL]) !! S n) with ((b ++ [NUL]) !! n).
      destruct (decide (n < length b)%nat).
      - destruct (lookup_lt_is_Some_2 b n) as [d Hd]; [done|]. exists d. rewrite lookup_app_l by done. split; [done|].
        intros ->. apply Hb. by eapply list_elem_of_lookup_2.
      - exists NUL. rewrite lookup_app_r by lia. by replace (n - length b)%nat with 0%nat by lia. }
    cbn [of_option bind]. rewrite decide_False by done. rewrite <- IH by lia. done.
Qed.

Lemma rfind_char_last a b c : c <> NUL -> (c ∉ b) -> zlen (a ++ c :: b) < 2 ^ 31 ->
  rfind_char (a ++ c :: b) c 0 = Ok (zlen a).
Proof.
  intros Hc Hb Hl. unfold rfind_char. pose proof (zlen_nonneg (a ++ c :: b)).
  replace (_ <? 0) with false by lia. cbn [Z.eqb]. rewrite wrapS_small by lia.
  replace (zlen (a ++ c :: b) <? 0) with false by lia.
  replace (Z.to_nat (zlen (a ++ c :: b))) with (length a + (length b + 1))%nat
    by (unfold zlen; rewrite length_app; cbn; lia).
  by apply rfind_loop_last.
Qed.

Lemma count_positive a b c : nul_free (a ++ c :: b) -> c <> NUL -> zlen (a ++ c :: b) < 2 ^ 31 ->
  exists n, count_char (a ++ c :: b) c = Ok n /\ (n =? 0) = false.
Proof.
  intros Hf Hc Hl. rewrite count_char_spec by (done || lia). eexists. split; [done|].
  rewrite occurrences_app, occurrences_cons. pose proof (occurrences_le c a). pose proof (occurrences_le c b). lia.
Qed.

Lemma count_none s c : nul_free s -> c <> NUL -> zlen s < 2 ^ 31 -> (c ∉ s) -> count_char s c = Ok 0.
Proof. intros. rewrite count_char_spec by (done || lia). by rewrite occurrences_none. Qed.

(** What is behind the last separator, and what is in front of it. *)
Lemma behind a b c : nul_free (a ++ c :: b) -> zlen (a ++ c :: b) < 2 ^ 31 ->
  substr_from (a ++ c :: b) (u32 (zlen a + 1)) = Ok b.
Proof.
  intros Hf Hl. unfold substr_from. pose proof (zlen_nonneg a). pose proof (zlen_nonneg b).
  assert (zlen (a ++ c :: b) = zlen a + 1 + zlen b) as E by zlen_lia.
  assert (a ++ c :: b = (a ++ [c]) ++ b) as Ea by (by rewrite <- app_assoc).
  assert (zlen (a ++ [c]) = zlen a + 1) as Ec by zlen_lia.
  rewrite !wrapU_small by lia. rewrite E. replace (zlen a + 1 + zlen b - (zlen a + 1)) with (zlen b) by lia.
  rewrite mid_spec by (done || lia). rewrite Ea, <- Ec, zdrop_app_zlen.
  destruct (Z.eqb_spec (zlen b) 0) as [Ez|]; [done|].
  rewrite <- (app_nil_r ((a ++ [c]) ++ b)), <- app_assoc. by rewrite zsub_app.
Qed.

Lemma in_front a b c : nul_free (a ++ c :: b) -> zlen (a ++ c :: b) < 2 ^ 31 -> a <> [] ->
  substr (a ++ c :: b) 0 (u32 (zlen a)) = Ok a.
Proof.
  intros Hf Hl Ha. pose proof (substr_at (a ++ c :: b) [] a (c :: b) 0 (zlen a)) as Hs. pose proof (zlen_nonneg a).
  assert (zlen (a ++ c :: b) = zlen a + 1 + zlen b) as E by zlen_lia. pose proof (zlen_nonneg b).
  rewrite (wrapU_small 32 0) in Hs by lia. by apply Hs.
Qed.

(** A path is taken apart at its last slash and its last point. *)
Theorem path_parts dir name ext :
  let path := dir ++ "/"%char :: name ++ "."%char :: ext in
  nul_free path -> zlen path < 2 ^ 31 -> dir <> [] -> (BACKSLASH_SEP ∉ path) -> ("/"%char ∉ name ++ "."%char :: ext) -> ("."%char ∉ ext) ->
  GetDirName path = Ok dir /\ GetFileName path = Ok (name ++ "."%char :: ext) /\ GetExt path = Ok ext.
Proof.
  intros path Hf Hl Hd Hb Hn He. unfold GetDirName, GetFileName, GetExt. rewrite (count_none path BACKSLASH_SEP) by done.
  cbn [bind negb Z.eqb]. destruct (count_positive dir (name ++ "."%char :: ext) "/" Hf) as (n & E & En); [done|done|].
  assert (path = (dir ++ "/"%char :: name) ++ "."%char :: ext) as Ep by (unfold path; by rewrite <- app_assoc).
  destruct (count_positive (dir ++ "/"%char :: name) ext ".") as (m & Em & Emn); rewrite <- ?Ep; [done|done|done|].
  rewrite <- Ep in Em. fold path in E. rewrite E, Em. cbn [bind]. rewrite En, Emn. cbn [negb].
  unfold path at 1 3. rewrite !rfind_char_last by done. cbn [bind].
  split_and!; [by apply in_front|by apply behind|].
  rewrite Ep in Hl, Hf |- *. rewrite rfind_char_last by done. cbn [bind]. by apply behind.
Qed.

(** ** Permissions: theorems *)

Definition all_perms : list Permissions :=
  flat_map (fun u => flat_map (fun g => map (fun o => mkPerms u g o) [0; 1; 2; 3; 4; 5; 6; 7]) [0; 1; 2; 3; 4; 5; 6; 7]) [0; 1; 2; 3; 4; 5; 6; 7].

Definition good_perms (p : Permissions) : Prop := 0 <= owners p < 8 /\ 0 <= groups p < 8 /\ 0 <= others p < 8.

Lemma digits_8 x : 0 <= x < 8 -> x ∈ [0; 1; 2; 3; 4; 5; 6; 7].
Proof. intros. rewrite !elem_of_cons. lia. Qed.

Lemma perms_listed p : good_perms p -> p ∈ all_perms.
Proof.
  destruct p as [u g o]. intros (Hu & Hg & Ho). cbn [owners groups others] in *. unfold all_perms.
  apply list_elem_of_In, in_flat_map. exists u. split; [by apply list_elem_of_In, digits_8|].
  apply in_flat_map. exists g. split; [by apply list_elem_of_In, digits_8|].
  apply in_map_iff. exists o. split; [done|by apply list_elem_of_In, digits_8].
Qed.

Lemma perms_check (P : Permissions -> Prop) `{!forall p, Decision (P p)} p :
  forallb (fun p => bool_decide (P p)) all_perms = true -> good_perms p -> P p.
Proof. intros Hf Hp%perms_listed. rewrite forallb_forall in Hf. by eapply bool_decide_eq_true, Hf, list_elem_of_In. Qed.

(** What the two conversions do on each bit: the others get the rights to write and to execute from
    the owner, and the owner gets the right to execute from the others. *)
Theorem permission_bits p : good_perms p ->
  PermissionsToModes p = 64 * owners p + 8 * groups p + Z.lor (Z.land (others p) READ) (Z.land (owners p) 3) /\
  ModesToPermissions (64 * owners p + 8 * groups p + others p) =
    mkPerms (Z.lor (Z.land (owners p) 6) (Z.land (others p) 1)) (groups p) (others p).
Proof.
  apply (perms_check (fun p =>
    PermissionsToModes p = 64 * owners p + 8 * groups p + Z.lor (Z.land (others p) READ) (Z.land (owners p) 3) /\
    ModesToPermissions (64 * owners p + 8 * groups p + others p) =
      mkPerms (Z.lor (Z.land (owners p) 6) (Z.land (others p) 1)) (groups p) (others p))).
  vm_compute. reflexivity.
Qed.

(** Permissions survive the way to the modes and back exactly when the others have the rights of the
    owner to write and to execute. *)
Theorem permission_roundtrip p : good_perms p ->
  ModesToPermissions (PermissionsToModes p) = p <-> Z.land (others p) 3 = Z.land (owners p) 3.
Proof.
  apply (perms_check (fun p => ModesToPermissions (PermissionsToModes p) = p <-> Z.land (others p) 3 = Z.land (owners p) 3)).
  vm_compute. reflexivity.
Qed.

Example default_mode :
  PermissionsToModes (mkPerms READ_WRITE_EXECUTE READ_WRITE_EXECUTE NONE) = 64 * 7 + 8 * 7 + 3.
Proof. reflexivity. Qed.

Example asString_1 : asString (mkPerms 7 5 4) = lit "rwxr-xr--".
Proof. reflexivity. Qed.

(** ** The hierarchy: lemmas *)

Definition good_name (name : str) : Prop :=
  name <> [] /\ ("/"%char ∉ name) /\ name <> lit "." /\ name <> lit ".." /\ nul_free name.

(** Every directory has distinct names that a path can have. *)
Fixpoint wf (n : node) : Prop :=
  match n with
  | Reg _ _ => True
  | Dir _ kids =>
      (fix all (l : list (str * node)) : Prop :=
        match l with
        | [] => True
        | (k, n) :: l => good_name k /\ (k ∉ l.*1) /\ wf n /\ all l
        end) kids
  end.
Definition wf_kids (kids : list (str * node)) : Prop := wf (Dir 0 kids).

Fixpoint height (n : node) : nat :=
  match n with
  | Reg _ _ => 1
  | Dir _ kids =>
      S ((fix highest (l : list (str * node)) : nat :=
        match l with [] => O | (_, n) :: l => Nat.max (height n) (highest l) end) kids)
  end.
Definition height_kids (kids : list (str * node)) : nat := Nat.pred (height (Dir 0 kids)).

Arguments del_kid : simpl never.

Lemma wf_cons k n kids : wf_kids ((k, n) :: kids) <-> good_name k /\ (k ∉ kids.*1) /\ wf n /\ wf_kids kids.
Proof. done. Qed.
Lemma height_cons k n kids : height_kids ((k, n) :: kids) = Nat.max (height n) (height_kids kids).
Proof. done. Qed.

Lemma kid_set c x kids d : kid d (set_kid c x kids) = if decide (c = d) then Some x else kid d kids.
Proof.
  induction kids as [|[k n] kids IH]; [done|]. cbn [set_kid kid].
  destruct (decide (k = c)) as [->|Hk]; cbn [kid]; [by repeat case_decide|].
  rewrite IH. destruct (decide (k = d)) as [->|]; [|done]. by rewrite decide_False.
Qed.

Lemma del_cons c k n kids :
  del_kid c ((k, n) :: kids) = if decide (k = c) then del_kid c kids else (k, n) :: del_kid c kids.
Proof. unfold del_kid. cbn. case_bool_decide; by case_decide. Qed.

Lemma kid_del c kids d : kid d (del_kid c kids) = if decide (c = d) then None else kid d kids.
Proof.
  induction kids as [|[k n] kids IH]; [by case_decide|]. rewrite del_cons. cbn [kid].
  destruct (decide (k = c)) as [->|Hk]; cbn [kid]; rewrite IH; repeat case_decide; congruence.
Qed.

Lemma set_kid_same c x kids : kid c kids = Some x -> set_kid c x kids = kids.
Proof.
  induction kids as [|[k n] kids IH]; [done|]. cbn. case_decide; [intros [= ->]; done|]. intros E. by rewrite IH.
Qed.
Lemma set_set c x y kids : set_kid c x (set_kid c y kids) = set_kid c x kids.
Proof.
  induction kids as [|[k n] kids IH]; cbn [set_kid]; [by rewrite decide_True|].
  destruct (decide (k = c)); cbn [set_kid]; [by rewrite decide_True|]. rewrite decide_False by done. by rewrite IH.
Qed.
Lemma del_absent c kids : (c ∉ kids.*1) -> del_kid c kids = kids.
Proof.
  induction kids as [|[k n] kids IH]; [done|]. cbn [fmap list_fmap fst]. rewrite not_elem_of_cons, del_cons. intros [Hk Hc].
  rewrite decide_False by congruence. by rewrite IH.
Qed.
Lemma del_set c y kids : del_kid c (set_kid c y kids) = del_kid c kids.
Proof.
  induction kids as [|[k n] kids IH]; cbn [set_kid]; [by rewrite del_cons, decide_True|].
  destruct (decide (k = c)) as [->|]; rewrite !del_cons; [by rewrite !decide_True|]. by rewrite !decide_False, IH.
Qed.
Lemma del_head c n kids : (c ∉ kids.*1) -> del_kid c ((c, n) :: kids) = kids.
Proof. intros Hc. rewrite del_cons, decide_True by done. by apply del_absent. Qed.
Lemma kid_absent c kids : (c ∉ kids.*1) <-> kid c kids = None.
Proof.
  induction kids as [|[k n] kids IH]; cbn; [split; [done|intros _; apply not_elem_of_nil]|].
  rewrite not_elem_of_cons, IH. destruct (decide (k = c)) as [->|]; [split; [by intros [? _]|done]|].
  split; [by intros [_ ?]|by split].
Qed.
Lemma set_absent c x kids : (c ∉ kids.*1) -> set_kid c x kids = kids ++ [(c, x)].
Proof.
  induction kids as [|[k n] kids IH]; [done|]. cbn. rewrite not_elem_of_cons. intros [Hk Hc].
  rewrite decide_False by congruence. by rewrite IH.
Qed.

Lemma find_app cs ds t : find (cs ++ ds) t = match find cs t with Some n => find ds n | None => None end.
Proof.
  revert t. induction cs as [|c cs IH]; intros t; [done|]. cbn. destruct t as [|m kids]; [done|].
  destruct (kid c kids); [apply IH|done].
Qed.

Lemma find_put_eq cs y t n : find cs t = Some n -> find cs (put_at cs (Some y) t) = Some y.
Proof.
  revert t. induction cs as [|c cs IH]; intros t E; [done|]. cbn in *. destruct t as [|m kids]; [done|].
  destruct (kid c kids) as [k|] eqn:Ek; [|done]. destruct cs as [|c2 cs].
  - cbn. by rewrite kid_set, decide_True.
  - rewrite kid_set, decide_True by done. by apply IH.
Qed.

Lemma put_same cs t n : find cs t = Some n -> put_at cs (Some n) t = t.
Proof.
  revert t. induction cs as [|c cs IH]; intros t E; [by injection E as ->|]. cbn in *. destruct t as [|m kids]; [done|].
  destruct (kid c kids) as [k|] eqn:Ek; [|done]. destruct cs as [|c2 cs].
  - injection E as ->. by rewrite set_kid_same.
  - by rewrite IH, set_kid_same.
Qed.

Lemma put_put cs x y t n : find cs t = Some n -> cs <> [] -> put_at cs x (put_at cs (Some y) t) = put_at cs x t.
Proof.
  revert t. induction cs as [|c cs IH]; intros t E Hne; [done|]. cbn in *. destruct t as [|m kids]; [done|].
  destruct (kid c kids) as [k|] eqn:Ek; [|done]. destruct cs as [|c2 cs].
  - destruct x; [by rewrite set_set|by rewrite del_set].
  - rewrite kid_set, decide_True by done. rewrite set_set. by rewrite IH.
Qed.

(** A change in a directory is a change of the directory. *)
Lemma put_sub cs c x t m kids : find cs t = Some (Dir m kids) ->
  put_at (cs ++ [c]) x t = put_at cs (Some (Dir m (match x with Some y => set_kid c y kids | None => del_kid c kids end))) t.
Proof.
  revert t. induction cs as [|d cs IH]; intros t E.
  - injection E as ->. done.
  - cbn in E. destruct t as [|m' kids']; [done|]. destruct (kid d kids') as [k|] eqn:Ek; [|done].
    destruct cs as [|c2 cs]; cbn in E |- *; rewrite Ek.
    + by injection E as ->.
    + specialize (IH k E). cbn in IH. by rewrite IH.
Qed.

Lemma put_new ps c y t m kids : find ps t = Some (Dir m kids) -> find (ps ++ [c]) (put_at (ps ++ [c]) (Some y) t) = Some y.
Proof.
  intros E. rewrite (put_sub ps c (Some y) t m kids E), find_app.
  rewrite (find_put_eq _ _ _ _ E). cbn. by rewrite kid_set, decide_True.
Qed.

Definition disjoint_paths (cs ds : list str) : Prop := is_prefix cs ds = false /\ is_prefix ds cs = false.

Lemma find_put_ne cs ds x t : disjoint_paths cs ds -> find ds (put_at cs x t) = find ds t.
Proof.
  revert ds t. induction cs as [|c cs IH]; intros ds t [H1 H2]; [done|]. destruct ds as [|d ds]; [done|]. cbn in *.
  destruct t as [|m kids]; [done|]. destruct cs as [|c2 cs].
  - destruct (decide (c = d)) as [->|]; [by rewrite bool_decide_true in H1|]. cbn. destruct x; rewrite ?kid_set, ?kid_del, decide_False by done; done.
  - destruct (kid c kids) as [k|] eqn:Ek; [|done]. cbn. rewrite kid_set.
    destruct (decide (c = d)) as [->|]; [|done].
    rewrite bool_decide_true in H1, H2 by done. rewrite Ek. by apply IH.
Qed.

Lemma is_prefix_app cs ds : is_prefix cs ds = true <-> exists es, ds = cs ++ es.
Proof.
  revert ds. induction cs as [|c cs IH]; intros ds; [split; [by exists ds|done]|]. destruct ds as [|d ds]; cbn.
  - split; [done|by intros [? ?]].
  - rewrite andb_true_iff, bool_decide_eq_true, IH. split.
    + intros [-> [es ->]]. by exists es.
    + intros [es [= -> ->]]. split; [done|by exists es].
Qed.

(** *** Paths and names *)

Lemma split_path_app a b acc : split_path (a ++ "/"%char :: b) acc = split_path a acc ++ split_path b [].
Proof. revert acc. induction a as [|c a IH]; intros acc; cbn; [done|]. case_decide; by rewrite IH. Qed.
Lemma split_path_name b acc : ("/"%char ∉ b) -> split_path b acc = [rev acc ++ b].
Proof.
  revert acc. induction b as [|c b IH]; intros acc Hb; cbn; [by rewrite app_nil_r|]. rewrite not_elem_of_cons in Hb.
  rewrite decide_False by naive_solver. rewrite IH by naive_solver. cbn. by rewrite <- app_assoc.
Qed.

Lemma components_name b : good_name b -> components b = [b].
Proof.
  intros (Hne & Hs & Hd & _). unfold components. rewrite split_path_name by done. cbn. unfold is_name.
  by rewrite !bool_decide_false.
Qed.

Lemma components_sub path b : good_name b -> components (path ++ lit "/" ++ b) = components path ++ [b].
Proof.
  intros Hb. pose proof (components_name b Hb) as Hc. unfold components in *. cbn [lit String.list_ascii_of_string app].
  rewrite split_path_app, List.filter_app. by rewrite Hc.
Qed.

Lemma look_sub path b s : good_name b -> look (path ++ lit "/" ++ b) s = find (components path ++ [b]) (root s).
Proof. intros Hb. unfold look. destruct (path ++ lit "/" ++ b) eqn:E; [by destruct path|]. by rewrite <- E, components_sub. Qed.

Lemma look_find path s : path <> [] -> look path s = find (components path) (root s).
Proof. by destruct path. Qed.

Lemma Compare_names a b : nul_free a -> nul_free b -> Compare a b false = bool_decide (a = b).
Proof. intros Ha Hb. by rewrite Compare_cstr, !cstr_id. Qed.

Lemma good_not_dots b : good_name b -> is_dots b = false.
Proof.
  intros (_ & _ & H1 & H2 & Hf). unfold is_dots. rewrite !Compare_names by (done || by repeat constructor).
  by rewrite !bool_decide_false.
Qed.

Lemma good_not_slash_dots b : good_name b -> op_eq (lit "/" ++ b) (lit "/.") || op_eq (lit "/" ++ b) (lit "/..") = false.
Proof.
  intros (_ & _ & H1 & H2 & Hf). unfold op_eq. rewrite !Compare_names by (by repeat constructor).
  rewrite !bool_decide_false; [done| |]; intros [= E]; [by apply H2|by apply H1].
Qed.

(** ** Delete *)

Lemma wf_find cs t n : wf t -> find cs t = Some n -> wf n.
Proof.
  revert t. induction cs as [|c cs IH]; intros t Ht E; [by injection E as <-|]. cbn in E. destruct t as [|m kids]; [done|].
  destruct (kid c kids) as [k|] eqn:Ek; [|done]. apply (IH k); [|done]. change (wf_kids kids) in Ht. clear -Ht Ek.
  induction kids as [|[d n] kids IH]; [done|]. cbn in Ek. apply wf_cons in Ht as (_ & _ & Hn & Ht). case_decide; [by injection Ek as <-|auto].
Qed.

Lemma set_root_root t s : root (set_root t s) = t.
Proof. done. Qed.
Lemma set_root_twice t t' s : set_root t (set_root t' s) = set_root t s.
Proof. done. Qed.
Lemma set_root_same s : set_root (root s) s = s.
Proof. by destruct s. Qed.

Lemma remove_node_ok path s n : path <> [] -> find (components path) (root s) = Some n -> components path <> [] ->
  match n with Dir _ (_ :: _) => False | _ => True end ->
  remove path s = (Ok true, set_root (put_at (components path) None (root s)) s).
Proof.
  intros Hp E Hne Hn. unfold remove. rewrite look_find, E by done.
  rewrite bool_decide_false by done. by destruct n as [|m [|]].
Qed.

Lemma Exists_ok path s n : look path s = Some n -> Exists path s = (Ok true, s).
Proof. intros E. unfold Exists, sbind, stat. by rewrite E. Qed.
Lemma Exists_not path s : look path s = None -> Exists path s = (Ok false, s).
Proof. intros E. unfold Exists, sbind, stat. by rewrite E. Qed.
Lemma IsDir_ok path s n : look path s = Some n -> IsDir path s = (Ok (is_dir n), s).
Proof. intros E. unfold IsDir, sbind, stat. by rewrite E. Qed.

Lemma Delete_dir path recursive fuel s m kids :
  look path s = Some (Dir m kids) ->
  Delete path recursive (S fuel) s =
    (let! total := delete_loop (fun p => Delete p true fuel) path recursive kids.*1 0 in
     if negb recursive && (0 <? total) then sthrow IOException else remove path ;;! sret 0) s.
Proof.
  intros E. cbn [Delete]. unfold sbind at 1. rewrite (Exists_ok _ _ _ E). cbn [negb].
  unfold sbind at 1. rewrite (IsDir_ok _ _ _ E). cbn [is_dir negb]. unfold sbind at 1, opendir. rewrite E. done.
Qed.

Lemma Delete_ok fuel : forall n path s,
  path <> [] -> components path <> [] -> find (components path) (root s) = Some n -> wf n -> (height n <= fuel)%nat ->
  Delete path true fuel s = (Ok (if is_dir n then 0 else 1), set_root (put_at (components path) None (root s)) s).
Proof.
  induction fuel as [|fuel IH]; intros n path s Hp Hc E Hw Hh; [by destruct n; cbn in Hh; lia|].
  assert (look path s = Some n) as El by (by rewrite look_find). destruct n as [m d|m kids].
  { cbn [Delete]. unfold sbind at 1. rewrite (Exists_ok _ _ _ El). cbn [negb]. unfold sbind at 1. rewrite (IsDir_ok _ _ _ El).
    cbn [is_dir negb]. unfold sbind. by rewrite (remove_node_ok path s _ Hp E). }
  rewrite (Delete_dir path true fuel s m kids El). set (cs := components path) in *.
  assert (forall rest total, wf_kids rest -> (height_kids rest <= fuel)%nat ->
    delete_loop (fun p => Delete p true fuel) path true rest.*1 total (set_root (put_at cs (Some (Dir m rest)) (root s)) s) =
    (Ok (total + zlen rest), set_root (put_at cs (Some (Dir m [])) (root s)) s)) as Hloop.
  { induction rest as [|[k n] rest IHr]; intros total Hwr Hhr; [by rewrite Z.add_0_r|].
    apply wf_cons in Hwr as (Hk & Hnk & Hn & Hwr). rewrite height_cons in Hhr. cbn [fmap list_fmap fst delete_loop].
    rewrite (good_not_dots k) by done. set (s1 := set_root (put_at cs (Some (Dir m ((k, n) :: rest))) (root s)) s).
    assert (find cs (root s1) = Some (Dir m ((k, n) :: rest))) as E1 by (by apply (find_put_eq _ _ _ (Dir m kids))).
    unfold sbind. rewrite (IH n (path ++ lit "/" ++ k) s1); [|by destruct path| | |done|lia].
    - rewrite components_sub by done. fold cs. rewrite (put_sub cs k None _ m _ E1), del_head by done.
      unfold s1 at 1. rewrite set_root_root, (put_put cs _ _ _ _ E) by done. unfold s1. rewrite set_root_twice, IHr by (done || lia).
      do 2 f_equal. rewrite zlen_cons. lia.
    - rewrite components_sub by done. by destruct (components path).
    - rewrite components_sub by done. fold cs. rewrite find_app, E1. cbn. by rewrite decide_True. }
  pose proof (Hloop kids 0 Hw ltac:(cbn in Hh; unfold height_kids; cbn; lia)) as Hl.
  rewrite (put_same cs _ _ E), set_root_same in Hl. unfold sbind at 1. rewrite Hl. cbn [negb andb].
  unfold sbind. rewrite (remove_node_ok path (set_root (put_at cs (Some (Dir m [])) (root s)) s) (Dir m []) Hp); fold cs; try done.
  - rewrite set_root_root, set_root_twice. by rewrite (put_put cs _ _ _ _ E).
  - by apply (find_put_eq _ _ _ (Dir m kids)).
Qed.

(** C22: [Delete] takes the file, or the directory with everything in it, out of the hierarchy; everything
    else stays. When it is not recursive, a directory that is not empty is refused. *)
Theorem Delete_spec path s n :
  path <> [] -> components path <> [] -> find (components path) (root s) = Some n -> wf (root s) ->
  Delete path true (height n) s = (Ok (if is_dir n then 0 else 1), set_root (put_at (components path) None (root s)) s) /\
  (forall ds, disjoint_paths (components path) ds -> find ds (put_at (components path) None (root s)) = find ds (root s)) /\
  (match n with
   | Dir _ ((k, _) :: _) => Delete path false 1 s = (Throw IOException, s)
   | _ => True
   end).
Proof.
  intros Hp Hc E Hw. pose proof (wf_find _ _ _ Hw E) as Hn. split_and!.
  - by apply Delete_ok.
  - intros ds Hd. by apply find_put_ne.
  - destruct n as [|m [|[k x] kids]]; [done|done|]. rewrite (Delete_dir path false 0 s m ((k, x) :: kids)) by (by rewrite look_find).
    cbn [fmap list_fmap fst delete_loop]. apply (wf_cons k x kids) in Hn as (Hk & _). by rewrite (good_not_dots k).
Qed.

(** ** Copy *)

(** What a copy is: the text of a file comes with the mode of a new file, a directory with what the
    conversions make of its mode. *)
Fixpoint copy_of (mask : Z) (n : node) : node :=
  match n with
  | Reg _ d => Reg (Z.land 438 (Z.lnot mask)) d
  | Dir m kids => Dir (PermissionsToModes (ModesToPermissions m))
      ((fix all (l : list (str * node)) := match l with [] => [] | (k, n) :: l => (k, copy_of 0 n) :: all l end) kids)
  end.
Definition copy_kids (kids : list (str * node)) : list (str * node) := map (fun kn => (kn.1, copy_of 0 kn.2)) kids.

Lemma copy_of_dir mask m kids : copy_of mask (Dir m kids) = Dir (PermissionsToModes (ModesToPermissions m)) (copy_kids kids).
Proof. cbn. f_equal. induction kids as [|[k n] kids IH]; cbn; [done|]. by rewrite IH. Qed.

Lemma fwrite_end d l : fwrite l (mkFILE d (zlen d) false false) = mkFILE (d ++ l) (zlen (d ++ l)) false false.
Proof.
  unfold fwrite. cbn [appending offset data end_flag]. rewrite Z.sub_diag. cbn [replicate Z.to_nat app].
  pose proof (zlen_nonneg l). pose proof (zlen_nonneg d).
  rewrite (ztake_ge (zlen d) d) by lia. unfold zdrop. rewrite drop_ge by (unfold zlen in *; lia). by rewrite app_nil_r, zlen_app.
Qed.

Lemma copy_loop_spec fuel : forall p l d e, (length l < fuel)%nat ->
  copy_loop (mkFILE (p ++ l) (zlen p) e false) (mkFILE d (zlen d) false false) fuel = Ok (mkFILE (d ++ l) (zlen (d ++ l)) false false).
Proof.
  induction fuel as [|fuel IH]; intros p l d e Hf; [lia|]. cbn [copy_loop]. unfold fread, unread. cbn [offset data].
  rewrite zdrop_app_zlen. destruct (ztake 4096 l) as [|c b] eqn:E.
  - assert (l = []) as ->; [|by rewrite app_nil_r]. apply (f_equal zlen) in E. rewrite zlen_take in E. destruct l; [done|].
    rewrite zlen_cons in E. pose proof (zlen_nonneg l). change (zlen []) with 0 in E. lia.
  - rewrite fwrite_end. unfold moved. cbn [data appending].
    assert (l = (c :: b) ++ zdrop 4096 l) as El by (rewrite <- E; symmetry; apply ztake_zdrop).
    rewrite El at 1. rewrite app_assoc. rewrite <- zlen_app. rewrite IH.
    + rewrite <- app_assoc, <- El. done.
    + rewrite El in Hf. rewrite length_app in Hf. cbn in Hf. lia.
Qed.

Lemma look_parent path s ps c m kids : path <> [] -> components path = ps ++ [c] -> find ps (root s) = Some (Dir m kids) ->
  parent_ok (components path) s = true.
Proof. intros Hp E Ep. unfold parent_ok. rewrite E, removelast_last. by rewrite Ep. Qed.

(** A file is opened for writing at a free place, written, and closed. *)
Lemma copy_file_ok from to s m d ps c pm kids :
  look from s = Some (Reg m d) -> to <> [] -> look to s = None -> components to = ps ++ [c] -> find ps (root s) = Some (Dir pm kids) ->
  copy_file from to s = (Ok tt, set_root (put_at (components to) (Some (Reg (Z.land 438 (Z.lnot (mask s))) d)) (root s)) s).
Proof.
  intros Ef Ht Et Ec Ep. unfold copy_file, fopen_r, fopen_w, sbind, lift. rewrite Ef, Et, (look_parent to s ps c pm kids) by done.
  rewrite bool_decide_false by (rewrite Ec; by destruct ps). cbn [negb andb data].
  pose proof (copy_loop_spec (S (length d)) [] d [] false ltac:(lia)) as Hl. cbn [app] in Hl. change (zlen []) with 0 in Hl. rewrite Hl.
  unfold fclose. rewrite look_find by done. rewrite set_root_root.
  pose proof (put_new ps c (Reg (Z.land 438 (Z.lnot (mask s))) []) (root s) pm kids Ep) as En. rewrite <- Ec in En.
  cbn [data]. rewrite En. rewrite set_root_twice. do 2 f_equal.
  rewrite Ec in En |- *. rewrite !(put_sub ps c _ (root s) pm kids Ep).
  rewrite (put_sub ps c _ _ pm _ (find_put_eq ps _ _ _ Ep)). rewrite set_set.
  destruct ps as [|p ps]; [done|]. by rewrite (put_put (p :: ps) _ _ _ _ Ep).
Qed.

(** [mkdir] at a free place. *)
Lemma make_one_ok path p s ps c m kids :
  path <> [] -> look path s = None -> components path = ps ++ [c] -> find ps (root s) = Some (Dir m kids) ->
  0 <= PermissionsToModes p ->
  make_one path (Some p) s = (Ok tt, mkOS (put_at (components path) (Some (Dir (PermissionsToModes p) [])) (root s)) 0).
Proof.
  intros Hp El Ec Ep Hm. unfold make_one, umask, modify, sbind, mkdir. rewrite look_find in El by done.
  rewrite look_find by done. cbn [root]. rewrite El.
  rewrite (look_parent path (mkOS (root s) 0) ps c m kids) by done. rewrite bool_decide_false by (rewrite Ec; by destruct ps).
  cbn [negb andb mask]. by rewrite Z.lnot_0, Z.land_m1_r.
Qed.

Lemma modes_small p : 0 <= PermissionsToModes p.
Proof.
  unfold PermissionsToModes. assert (forall c x f, 0 <= x -> 0 <= f -> 0 <= flag c x f) as Hf.
  { intros [] x f Hx Hy; unfold flag; [apply Z.lor_nonneg; by split|done]. }
  repeat (apply Hf; [|done]). lia.
Qed.

Lemma not_prefix_disjoint cs ds t n : find cs t = Some n -> find ds t = None -> is_prefix cs ds = false -> disjoint_paths ds cs.
Proof.
  intros Ec Ed Hp. split; [|done]. destruct (is_prefix ds cs) eqn:E; [|done]. apply is_prefix_app in E as [es ->].
  rewrite find_app, Ed in Ec. done.
Qed.

Lemma not_prefix_sub cs ds k : is_prefix cs ds = false -> is_prefix (cs ++ [k]) (ds ++ [k]) = false.
Proof.
  intros Hp. destruct (is_prefix (cs ++ [k]) (ds ++ [k])) eqn:E; [|done]. apply is_prefix_app in E as [es E].
  assert (exists fs, ds = cs ++ fs) as Hx; [|apply is_prefix_app in Hx; congruence].
  destruct es as [|e es _] using rev_ind.
  - rewrite app_nil_r in E. apply app_inj_tail in E as [-> _]. exists []. by rewrite app_nil_r.
  - rewrite app_assoc in E. apply app_inj_tail in E as [-> _]. exists (k :: es). by rewrite <- app_assoc.
Qed.

Lemma copy_file_case from to fuel s m d ps c pm kids :
  look from s = Some (Reg m d) -> to <> [] -> look to s = None -> components to = ps ++ [c] -> find ps (root s) = Some (Dir pm kids) ->
  Copy from to false (S fuel) s = (Ok tt, set_root (put_at (components to) (Some (copy_of (mask s) (Reg m d))) (root s)) s).
Proof.
  intros Ef Ht Et Ec Ep. cbn [Copy]. unfold sbind at 1. rewrite (Exists_ok _ _ _ Ef). cbn [negb].
  unfold sbind at 1. rewrite (Exists_not _ _ Et). unfold sbind at 1, sret at 1. unfold sbind at 1. rewrite (IsDir_ok _ _ _ Ef). cbn [is_dir].
  unfold sbind, IsFile, sbind, stat. rewrite Ef. cbn. by apply (copy_file_ok from to s m d ps c pm kids).
Qed.

Lemma copy_dir_case from to fuel s m kids ps c pm pkids :
  look from s = Some (Dir m kids) -> to <> [] -> look to s = None -> components to = ps ++ [c] -> find ps (root s) = Some (Dir pm pkids) ->
  is_prefix (components from) (components to) = false -> from <> [] ->
  Copy from to false (S fuel) s = copy_entries (fun f t => Copy f t false fuel) from to kids.*1
    (mkOS (put_at (components to) (Some (Dir (PermissionsToModes (ModesToPermissions m)) [])) (root s)) 0).
Proof.
  intros Ef Ht Et Ec Ep Hpre Hf. cbn [Copy]. unfold sbind at 1. rewrite (Exists_ok _ _ _ Ef). cbn [negb].
  unfold sbind at 1. rewrite (Exists_not _ _ Et). unfold sbind at 1, sret at 1. unfold sbind at 1. rewrite (IsDir_ok _ _ _ Ef). cbn [is_dir].
  unfold sbind at 1, GetPermissions, sbind at 1. rewrite (Exists_ok _ _ _ Ef). cbn [negb]. unfold sbind at 1, stat. rewrite Ef.
  unfold sret. unfold sbind at 1, MakeDir. cbn [mode_of].
  rewrite (make_one_ok to _ s ps c pm pkids) by (done || apply modes_small).
  unfold sbind at 1, opendir. rewrite look_find by done. cbn [root].
  rewrite look_find in Ef, Et by done. rewrite find_put_ne, Ef by (by eapply not_prefix_disjoint). done.
Qed.

Lemma Copy_ok fuel : forall n from to s ps c pm pkids,
  from <> [] -> to <> [] -> find (components from) (root s) = Some n -> wf n -> (height n <= fuel)%nat ->
  components to = ps ++ [c] -> find ps (root s) = Some (Dir pm pkids) -> find (components to) (root s) = None ->
  is_prefix (components from) (components to) = false ->
  Copy from to false fuel s =
    (Ok tt, mkOS (put_at (components to) (Some (copy_of (mask s) n)) (root s)) (if is_dir n then 0 else mask s)).
Proof.
  induction fuel as [|fuel IH]; intros n from to s ps c pm pkids Hf Ht En Hw Hh Ec Ep Et Hpre; [by destruct n; cbn in Hh; lia|].
  assert (look from s = Some n) as Ef by (by rewrite look_find). assert (look to s = None) as El by (by rewrite look_find).
  destruct n as [m d|m kids]; [by rewrite (copy_file_case from to fuel s m d ps c pm pkids)|].
  rewrite (copy_dir_case from to fuel s m kids ps c pm pkids), copy_of_dir by done. cbn [is_dir].
  set (m' := PermissionsToModes (ModesToPermissions m)). set (cs := components from) in *. set (ds := components to) in *.
  pose proof (not_prefix_disjoint cs ds _ _ En Et Hpre) as Hdis.
  assert (forall rest done_, wf_kids rest -> (height_kids rest <= fuel)%nat -> done_ ++ rest = kids ->
    (forall k, k ∈ rest.*1 -> k ∉ done_.*1) ->
    copy_entries (fun f t => Copy f t false fuel) from to rest.*1 (mkOS (put_at ds (Some (Dir m' (copy_kids done_))) (root s)) 0) =
    (Ok tt, mkOS (put_at ds (Some (Dir m' (copy_kids kids))) (root s)) 0)) as Hloop.
  { induction rest as [|[k n] rest IHr]; intros dn Hwr Hhr Ek Hnew; [rewrite app_nil_r in Ek; by subst|].
    apply wf_cons in Hwr as (Hk & Hnk & Hn & Hwr). rewrite height_cons in Hhr. cbn [fmap list_fmap fst copy_entries].
    rewrite (good_not_slash_dots k) by done. set (s1 := mkOS (put_at ds (Some (Dir m' (copy_kids dn))) (root s)) 0).
    assert (find ds (root s1) = Some (Dir m' (copy_kids dn))) as E1.
    { unfold s1. cbn [root]. rewrite Ec. by apply (put_new ps c _ _ pm pkids). }
    assert (k ∉ (copy_kids dn).*1) as Hnd.
    { unfold copy_kids. rewrite <- list_fmap_compose. change (fst ∘ _) with (fst : str * node -> str). apply Hnew. left. }
    assert (kid k kids = Some n) as Hkid.
    { rewrite <- Ek. clear -Hnew. assert (k ∉ dn.*1) as Hn by (apply Hnew; left). induction dn as [|[d x] dn IHd]; cbn; [by rewrite decide_True|].
      cbn in Hn. rewrite not_elem_of_cons in Hn. rewrite decide_False by naive_solver. apply IHd; [|naive_solver].
      intros k' Hk' Hin. apply (Hnew k' Hk'). by right. }
    unfold sbind. rewrite (IH n (from ++ lit "/" ++ k) (to ++ lit "/" ++ k) s1 ds k m' (copy_kids dn));
      rewrite ?components_sub by done; fold cs ds; try done; [|by destruct from|by destruct to| |lia| |by apply not_prefix_sub].
    - rewrite (put_sub ds k _ _ m' _ E1), set_absent by done. unfold s1. cbn [root mask]. 
      assert (forall x y, put_at ds (Some x) (put_at ds (Some y) (root s)) = put_at ds (Some x) (root s)) as Hpp.
      { intros x y. rewrite Ec, !(put_sub ps c _ (root s) pm pkids Ep), (put_sub ps c _ _ pm _ (find_put_eq ps _ _ _ Ep)), set_set.
        destruct ps as [|p ps']; [done|]. by rewrite (put_put (p :: ps') _ _ _ _ Ep). }
      rewrite Hpp. replace (if is_dir n then 0 else 0) with 0 by (by destruct (is_dir n)).
      change (copy_kids dn ++ [(k, copy_of 0 n)]) with (copy_kids dn ++ copy_kids [(k, n)]).
      unfold copy_kids at 1 2. rewrite <- map_app. apply IHr; [done|lia|by rewrite <- app_assoc|].
      intros k' Hk' Hin. rewrite fmap_app, elem_of_app in Hin. destruct Hin as [Hin|Hin]; [apply (Hnew k'); [by right|done]|].
      cbn in Hin. apply list_elem_of_singleton in Hin as ->. done.
    - unfold s1. cbn [root]. rewrite find_app, find_put_ne, En by done. cbn. by rewrite Hkid.
    - rewrite find_app, E1. cbn. by apply kid_absent in Hnd as ->. }
  apply (Hloop kids []); [done|cbn in Hh; unfold height_kids; cbn; lia|done|]. intros k _. apply not_elem_of_nil.
Qed.

(** C21: [Copy] puts a copy of the file or of the directory with everything in it at the destination, with
    the modes that new files and directories get, and changes nothing else. *)
Theorem Copy_spec from to s n ps c pm kids :
  from <> [] -> to <> [] -> find (components from) (root s) = Some n -> wf (root s) ->
  components to = ps ++ [c] -> find ps (root s) = Some (Dir pm kids) -> find (components to) (root s) = None ->
  is_prefix (components from) (components to) = false ->
  exists s', Copy from to false (height n) s = (Ok tt, s') /\
    find (components to) (root s') = Some (copy_of (mask s) n) /\
    (forall ds, disjoint_paths (components to) ds -> find ds (root s') = find ds (root s)) /\
    find (components from) (root s') = Some n.
Proof.
  intros Hf Ht En Hw Ec Ep Et Hpre. eexists. split; [|split; [|split]].
  - apply (Copy_ok _ n from to s ps c pm kids); try done. by eapply wf_find.
  - cbn [root]. rewrite Ec. by apply (put_new ps c _ _ pm kids).
  - intros ds Hd. cbn [root]. by apply find_put_ne.
  - cbn [root]. rewrite find_put_ne; [done|]. by eapply not_prefix_disjoint.
Qed.

(** A directory that is copied into itself is copied for ever: the copy is a part of what is copied. *)
Theorem copy_into_itself fuel : forall p s m,
  p <> [] -> find (components p) (root s) = Some (Dir m []) ->
  (Copy p (p ++ lit "/" ++ lit "b") false fuel s).1 = NoFuel.
Proof.
  assert (good_name (lit "b")) as Hb by (repeat split; [done|compute_done|done|done|by repeat constructor]).
  induction fuel as [|fuel IH]; intros p s m Hp E; [done|]. set (q := p ++ lit "/" ++ lit "b").
  assert (components q = components p ++ [lit "b"]) as Eq by (by apply components_sub).
  assert (q <> []) as Hq by (by destruct p).
  assert (find (components q) (root s) = None) as Enq by (by rewrite Eq, find_app, E).
  cbn [Copy]. unfold sbind at 1. rewrite (Exists_ok p s (Dir m [])) by (by rewrite look_find). cbn [negb].
  unfold sbind at 1. rewrite (Exists_not q) by (by rewrite look_find). unfold sbind at 1, sret at 1.
  unfold sbind at 1. rewrite (IsDir_ok p s (Dir m [])) by (by rewrite look_find). cbn [is_dir].
  unfold sbind at 1, GetPermissions, sbind at 1. rewrite (Exists_ok p s (Dir m [])) by (by rewrite look_find). cbn [negb].
  unfold sbind at 1, stat. rewrite look_find, E by done. unfold sret. unfold sbind at 1, MakeDir. cbn [mode_of].
  rewrite (make_one_ok q _ s (components p) (lit "b") m []) by (done || apply modes_small || by rewrite look_find).
  set (m' := PermissionsToModes _). rewrite Eq, (put_sub _ _ _ _ _ _ E). cbn [set_kid].
  set (s1 := mkOS _ 0). assert (find (components p) (root s1) = Some (Dir m [(lit "b", Dir m' [])])) as E1
    by (by apply (find_put_eq _ _ _ _ E)).
  unfold sbind at 1, opendir. rewrite look_find, E1 by done. cbn [fmap list_fmap fst].
  cbn [copy_entries]. change (op_eq (lit "/" ++ lit ".") _ || _) with true. change (op_eq (lit "/" ++ lit "..") _ || _) with true.
  change (op_eq (lit "/" ++ lit "b") _ || _) with false. cbv iota. unfold sbind at 1.
  change (p ++ lit "/" ++ lit "b") with q. specialize (IH q s1 m' Hq).
  rewrite Eq, find_app, E1 in IH. cbn [find kid] in IH. rewrite decide_True in IH by done. specialize (IH eq_refl).
  destruct (Copy q _ false fuel s1) as [[[]| | |] s2]; done.
Qed.

(** ** Move *)

Lemma find_put_above ps es x t m kids : find ps t = Some (Dir m kids) -> es <> [] ->
  exists kids', find ps (put_at (ps ++ es) x t) = Some (Dir m kids').
Proof.
  revert t. induction ps as [|p ps IH]; intros t E He.
  - injection E as ->. cbn [app]. destruct es as [|c [|c2 es]]; [done| |]; cbn; [by eexists|]. destruct (kid c kids); by eexists.
  - cbn in E |- *. destruct t as [|m' kids']; [done|]. destruct (kid p kids') as [k|] eqn:Ek; [|done].
    destruct (ps ++ es) as [|c2 cs] eqn:Ec; [by destruct ps|]. rewrite kid_set, decide_True by done. by apply IH.
Qed.

Lemma find_put_none cs t : cs <> [] -> find cs (put_at cs None t) = None.
Proof.
  revert t. induction cs as [|c cs IH]; intros t Hc; [done|]. cbn. destruct t as [|m kids]; [done|]. destruct cs as [|c2 cs].
  - by rewrite kid_del, decide_True.
  - destruct (kid c kids) as [k|] eqn:Ek; [|by rewrite Ek]. rewrite kid_set, decide_True by done. by apply IH.
Qed.

(** [Move] takes the file or directory to a free place and leaves everything else where it is. *)
Theorem Move_spec from to s n ps c pm kids fuel :
  from <> [] -> to <> [] -> find (components from) (root s) = Some n -> components from <> [] ->
  components to = ps ++ [c] -> find ps (root s) = Some (Dir pm kids) -> find (components to) (root s) = None ->
  is_prefix (components from) (components to) = false ->
  exists s', Move from to false fuel s = (Ok tt, s') /\
    find (components to) (root s') = Some n /\ find (components from) (root s') = None /\
    (forall ds, disjoint_paths (components to) ds -> disjoint_paths (components from) ds -> find ds (root s') = find ds (root s)).
Proof.
  intros Hf Ht En Hc Ec Ep Et Hpre. pose proof (not_prefix_disjoint _ _ _ _ En Et Hpre) as Hd.
  exists (set_root (put_at (components to) (Some n) (put_at (components from) None (root s))) s). split; [|split; [|split]].
  - unfold Move, sbind. rewrite (Exists_ok from s n) by (by rewrite look_find). cbn [negb].
    rewrite (Exists_not to) by (by rewrite look_find). unfold sret, rename. rewrite !look_find, En, Et by done.
    rewrite (bool_decide_false (components from = components to)) by (intros Eq; rewrite Eq in En; congruence).
    rewrite Hpre, (bool_decide_false (to = [])), (look_parent to s ps c pm kids) by done. done.
  - rewrite set_root_root. assert (exists kids', find ps (put_at (components from) None (root s)) = Some (Dir pm kids')) as [kids' E'].
    { destruct (is_prefix ps (components from)) eqn:E1.
      - apply is_prefix_app in E1 as [es E1]. rewrite E1. eapply find_put_above; [exact Ep|]. intros ->. rewrite app_nil_r in E1.
        rewrite E1, Ec in Hpre. assert (is_prefix ps (ps ++ [c]) = true) by (apply is_prefix_app; by exists [c]). congruence.
      - exists kids. rewrite find_put_ne; [done|]. split; [|done]. destruct (is_prefix (components from) ps) eqn:E2; [|done].
        apply is_prefix_app in E2 as [es E2]. rewrite Ec, E2 in Hpre.
        assert (is_prefix (components from) ((components from ++ es) ++ [c]) = true); [|congruence].
        apply is_prefix_app. exists (es ++ [c]). by rewrite <- app_assoc. }
    rewrite Ec. by apply (put_new ps c _ _ pm kids').
  - rewrite set_root_root. rewrite find_put_ne by done. by apply find_put_none.
  - intros ds H1 H2. rewrite set_root_root. by rewrite !find_put_ne.
Qed.

(** ** MakeDir with the directories above *)

(** The beginning of a path that ends behind a separator. *)
Definition front (names : list str) : str := concat (map (fun n => n ++ lit "/") names).

Lemma front_snoc names n : front (names ++ [n]) = (front names ++ n) ++ lit "/".
Proof. unfold front. rewrite map_app, concat_app. cbn. by rewrite app_nil_r, <- app_assoc. Qed.

Lemma components_front names n : Forall good_name names -> good_name n -> components (front names ++ n) = names ++ [n].
Proof.
  intros Hn Hg. induction Hn as [|m names Hm _ IH]; [by apply components_name|].
  assert (front (m :: names) ++ n = m ++ "/"%char :: (front names ++ n)) as -> by (unfold front; cbn; by rewrite <- !app_assoc).
  pose proof (components_name m Hm) as Em. unfold components in *. rewrite split_path_app, List.filter_app, Em, IH. done.
Qed.

(** Every beginning of the path is free or a directory. *)
Definition open_way (names : list str) (t : node) : Prop :=
  forall pre, is_prefix pre names = true ->
    find pre t = None \/ exists m kids, find pre t = Some (Dir m kids).

Definition dir_at (cs : list str) (t : node) : Prop := exists m kids, find cs t = Some (Dir m kids).

Definition default_perms : Permissions := mkPerms READ_WRITE_EXECUTE READ_WRITE_EXECUTE NONE.

Lemma make_one_new path p s ps c :
  path <> [] -> components path = ps ++ [c] -> look path s = None -> dir_at ps (root s) ->
  exists s', make_one path p s = (Ok tt, s') /\ dir_at (ps ++ [c]) (root s') /\
    (forall ds, is_prefix ds (ps ++ [c]) = false -> find ds (root s') = find ds (root s)).
Proof.
  intros Hp Ec El (m & kids & Ep).
  assert (exists q, make_one path p s = make_one path (Some q) s) as [q ->] by (destruct p as [q|]; [by exists q|by exists default_perms]).
  rewrite (make_one_ok path q s ps c m kids) by (done || apply modes_small). rewrite Ec. eexists. split; [done|]. split.
  - eexists _, _. cbn [root]. by apply (put_new ps c _ _ m kids).
  - intros ds Hds. cbn [root]. destruct (is_prefix (ps ++ [c]) ds) eqn:E; [|apply find_put_ne; by split].
    apply is_prefix_app in E as [es ->]. rewrite !(find_app (ps ++ [c])), (put_new ps c _ _ m kids Ep).
    rewrite look_find, Ec in El by done. rewrite El. destruct es as [|e es]; [|done].
    rewrite app_nil_r in Hds. assert (is_prefix (ps ++ [c]) (ps ++ [c]) = true) by (apply is_prefix_app; exists []; by rewrite app_nil_r). congruence.
Qed.

Lemma prefix_snoc ds ps c : is_prefix ds (ps ++ [c]) = true -> is_prefix ds ps = true \/ ds = ps ++ [c].
Proof.
  intros [es E]%is_prefix_app. destruct es as [|e es _] using rev_ind; [right; by rewrite app_nil_r in E|]. left.
  rewrite app_assoc in E. apply app_inj_tail in E as [-> _]. apply is_prefix_app. by exists es.
Qed.

Lemma prefix_trans ds ps names : is_prefix ds ps = true -> is_prefix ps names = true -> is_prefix ds names = true.
Proof. intros [es ->]%is_prefix_app [fs ->]%is_prefix_app. apply is_prefix_app. exists (es ++ fs). by rewrite app_assoc. Qed.

Lemma make_loop_ok path p : forall rest names s,
  path = join "/" (names ++ rest) -> nul_free path -> zlen path < 2 ^ 31 - 1 ->
  Forall good_name (names ++ rest) -> names ++ rest <> [] ->
  (forall pre, is_prefix pre names = true -> dir_at pre (root s)) -> open_way (names ++ rest) (root s) ->
  exists s', make_loop path p (front names) (zlen names) (length rest) s = (Ok tt, s') /\
    (forall pre, is_prefix pre (names ++ rest) = true -> dir_at pre (root s')) /\
    (forall ds, is_prefix ds (names ++ rest) = false -> find ds (root s') = find ds (root s)).
Proof.
  induction rest as [|n rest IH]; intros names s Ep Hf Hl Hg Hne Hd Ho; cbn [length make_loop].
  - exists s. rewrite app_nil_r in *. by split_and!.
  - assert (Forall (fun f => "/"%char ∉ f) (names ++ n :: rest)) as Hsl by (eapply Forall_impl; [exact Hg|]; by intros f (_ & ? & _)).
    pose proof (length_join "/" (names ++ n :: rest)) as Hlen. rewrite <- Ep in Hlen.
    assert (zlen names < 2 ^ 31) as Hz by (rewrite length_app in Hlen; unfold zlen in *; cbn in Hlen; lia).
    unfold sbind at 1, lift. pose proof (section_char_at "/" (names ++ n :: rest) (length names)) as Hs. rewrite <- Ep in Hs.
    unfold GetSysSeperator. unfold zlen at 1. rewrite Hs by done. clear Hs. rewrite list_lookup_middle by done.
    assert (good_name n) as Hn by (apply Forall_app in Hg as [_ Hg]; by inversion Hg).
    assert (Forall good_name names) as Hgn by (apply Forall_app in Hg as [Hg _]; done).
    rewrite decide_False by apply Hn. set (q := front names ++ n).
    assert (components q = names ++ [n]) as Eq by (by apply components_front).
    assert (q <> []) as Hq by (unfold q; destruct Hn as (? & _); by destruct (front names), n).
    assert (names ++ n :: rest = (names ++ [n]) ++ rest) as Ea by (by rewrite <- app_assoc).
    assert (is_prefix names names = true) as Hnn by (apply is_prefix_app; exists []; by rewrite app_nil_r).
    assert (is_prefix (names ++ [n]) (names ++ n :: rest) = true) as Hp1 by (apply is_prefix_app; exists rest; by rewrite Ea).
    assert (exists s1, (let! e := Exists q in (if negb e then make_one q p else sret tt)) s = (Ok tt, s1) /\
      dir_at (names ++ [n]) (root s1) /\ (forall ds, is_prefix ds (names ++ [n]) = false -> find ds (root s1) = find ds (root s)) /\
      (forall pre, is_prefix pre names = true -> dir_at pre (root s1))) as (s1 & E1 & Hd1 & Hf1 & Hk1).
    { destruct (Ho _ Hp1) as [E|(m & kids & E)].
      - destruct (make_one_new q p s names n Hq Eq) as (s1 & E1 & Hd1 & Hf1); [by rewrite look_find, Eq|by apply Hd|].
        exists s1. unfold sbind. rewrite Exists_not by (by rewrite look_find, Eq). cbn [negb]. split_and!; try done.
        intros pre Hpre. destruct (decide (pre = names)) as [->|Hnp].
        + destruct Hd1 as (m & kids & E2). rewrite find_app in E2. destruct (find names (root s1)) as [[|m2 k2]|] eqn:E3; [done|by exists m2, k2|done].
        + apply is_prefix_app in Hpre as [es Es]. destruct Hd1 as (m & kids & E2). rewrite Es, <- app_assoc, find_app in E2.
          destruct (find pre (root s1)) as [[|m2 k2]|] eqn:E3; [|by exists m2, k2|done]. by destruct es.
      - exists s. unfold sbind. rewrite (Exists_ok q s (Dir m kids)) by (by rewrite look_find, Eq). cbn [negb]. split_and!; try done. by exists m, kids. }
    unfold sbind in E1 |- *. destruct (Exists q s) as [[e| | |] s0]; try done. rewrite E1.
    replace (push q "/") with (front (names ++ [n])) by (by rewrite front_snoc). replace (zlen names + 1) with (zlen (names ++ [n])) by (rewrite zlen_app; done).
    destruct (IH (names ++ [n]) s1) as (s' & E' & Hd' & Hf'); rewrite <- ?Ea; try done.
    + intros pre [Hpre| ->]%prefix_snoc; [by apply Hk1|done].
    + intros pre Hpre. destruct (is_prefix pre (names ++ [n])) eqn:Epre.
      * right. apply prefix_snoc in Epre as [Epre| ->]; [by apply Hk1|done].
      * rewrite Hf1 by done. by apply Ho.
    + exists s'. rewrite <- Ea in *. split_and!; try done. intros ds Hds. rewrite Hf' by done. apply Hf1.
      destruct (is_prefix ds (names ++ [n])) eqn:Eds; [|done]. rewrite (prefix_trans _ _ _ Eds Hp1) in Hds. done.
Qed.

(** C23: The recursive [MakeDir] ends with a directory at the path and at every prefix of it, and changes
    nothing that is not on the path. *)
Theorem MakeDir_recursive names p s :
  Forall good_name names -> names <> [] -> zlen (join "/" names) < 2 ^ 31 - 1 -> nul_free (join "/" names) ->
  open_way names (root s) -> is_dir (root s) = true ->
  exists s', MakeDir (join "/" names) p true s = (Ok tt, s') /\
    (forall pre, is_prefix pre names = true -> dir_at pre (root s')) /\
    (forall ds, is_prefix ds names = false -> find ds (root s') = find ds (root s)).
Proof.
  intros Hg Hne Hl Hf Ho Hr. unfold MakeDir. assert (deref (join "/" names) <> "/"%char) as Hd.
  { destruct names as [|n names]; [done|]. apply Forall_cons_iff in Hg as [(Hn & Hs & _) _]. destruct n as [|c n]; [done|].
    rewrite not_elem_of_cons in Hs. by destruct names; cbn; naive_solver. }
  rewrite bool_decide_false by done. unfold sbind, lift. unfold GetSysSeperator at 1.
  assert (Forall (fun f => "/"%char ∉ f) names) as Hsl by (eapply Forall_impl; [exact Hg|]; by intros f (_ & ? & _)).
  rewrite count_char_spec, occurrences_join by (done || lia).
  replace (Z.to_nat (zlen names - 1 + 1 - 0)) with (length names) by (unfold zlen; lia).
  apply (make_loop_ok _ p names []); try done. intros pre Hpre. destruct pre; [|done]. destruct (root s) as [|m kids]; [done|by exists m, kids].
Qed.

(** ** Whole files (File::File and the functions of TextFile.cpp) *)

Definition io_modes : list str :=
  map (fun m => lit m) ["r"; "w"; "a"; "r+"; "w+"; "a+"; "rb"; "wb"; "ab"; "r+b"; "w+b"; "a+b"]%string.
Definition ASCII_READ : Z := 0.
Definition ASCII_WRITE : Z := 1.
Definition ASCII_APPEND : Z := 2.
Definition ASCII_READ_APPEND : Z := 5.

Fixpoint find_mode_loop (io_mode : str) (modes : list str) (i : Z) : Z :=
  match modes with
  | [] => 0
  | m :: modes => if Compare m io_mode false then i else find_mode_loop io_mode modes (i + 1)
  end.
Definition find_io_mode (io_mode : str) : Z := find_mode_loop io_mode io_modes 0.

(** The error numbers of the system that tell a file that is not there from a bad way to it. *)
Definition ENOENT : Z := 2.
Definition ENOTDIR : Z := 20.
Definition EISDIR : Z := 21.
Fixpoint way_errno (cs : list str) (n : node) : Z :=
  match cs, n with
  | [], _ => EISDIR
  | _ :: _, Reg _ _ => ENOTDIR
  | c :: cs, Dir _ kids => match kid c kids with Some k => way_errno cs k | None => ENOENT end
  end.

(** [fopen] in the modes of the table; reading from a directory is refused as writing is. *)
Definition fopen (path : str) (io_mode : str) : M (FILE + Z) := fun s =>
  let cs := components path in
  let failed := (Ok (inr (match path with [] => ENOENT | _ => way_errno cs (root s) end)), s) in
  let created := if negb (bool_decide (cs = [])) && parent_ok cs s
    then Some (set_root (put_at cs (Some (Reg (Z.land 438 (Z.lnot (mask s))) [])) (root s)) s) else None in
  match head io_mode, look path s with
  | Some "r"%char, Some (Reg _ d) => (Ok (inl (mkFILE d 0 false false)), s)
  | Some "w"%char, Some (Reg m _) => (Ok (inl (mkFILE [] 0 false false)), set_root (put_at cs (Some (Reg m [])) (root s)) s)
  | Some "a"%char, Some (Reg _ d) => (Ok (inl (mkFILE d 0 false true)), s)
  | Some "w"%char, None => match created with Some s => (Ok (inl (mkFILE [] 0 false false)), s) | None => failed end
  | Some "a"%char, None => match created with Some s => (Ok (inl (mkFILE [] 0 false true)), s) | None => failed end
  | _, _ => failed
  end.

(** The exceptions of [File::_openFile]. *)
Definition open_error (errno : Z) : exn :=
  let last_error :=
    if (errno =? 13) || (errno =? 26) || (errno =? 30) then 5
    else if (errno =? 2) || (errno =? 28) || (errno =? 6) then 2 else errno in
  if last_error =? 5 then PermissionDeniedException
  else if last_error =? 2 then FileNotFoundException else IOException.

Definition _openFile (path : str) (io_mode : Z) : M FILE :=
  if (io_mode <? 0) || (12 <? io_mode) then sthrow IOException
  else
    let! mode := lift (of_option (zget io_modes io_mode)) in
    let! r := fopen path mode in
    match r with inl f => sret f | inr errno => sthrow (open_error errno) end.

(** A method of the file that is open, and [close()]. *)
Definition on_file {A} (f : FILE) (m : ST File A) : M (A * FILE) :=
  lift (let '(r, o) := m (mkFile (Some f) 0) in
        let? a := r in let? f := of_option (_file o) in Ok (a, f)).

Definition CreateTextFile (filename : str) (overwrite : bool) : M FILE :=
  let! e := (if overwrite then sret false else Exists filename) in
  if e : bool then sthrow IOException else _openFile filename ASCII_WRITE.
Definition OpenTextFile (filename : str) (for_writing : bool) : M FILE :=
  _openFile filename (if for_writing then ASCII_READ_APPEND else ASCII_READ).

Definition WriteTextFile (filename text : str) (overwrite : bool) : M unit :=
  let! e := (if overwrite then sret false else Exists filename) in
  if e : bool then sthrow IOException
  else
    let! f := _openFile filename ASCII_WRITE in
    let! (_, f) := on_file f (write text) in
    fclose filename f.
Definition AppendToTextFile (filename text : str) : M unit :=
  let! f := _openFile filename ASCII_APPEND in
  let! (_, f) := on_file f (write text) in
  fclose filename f.
Definition Cat (filename : str) (fuel : nat) : M str :=
  let! f := _openFile filename ASCII_READ in
  let! (text, f) := on_file f (readAll String_new fuel) in
  lift (chars text).

(** A place where a file is or can be made. *)
Definition file_place (path : str) (s : OS) : Prop :=
  path <> [] /\ ((exists m d, look path s = Some (Reg m d)) \/
    (look path s = None /\ exists ps c, components path = ps ++ [c] /\ dir_at ps (root s))).

Lemma fclose_ok path f s m d : look path s = Some (Reg m d) -> path <> [] ->
  exists s', fclose path f s = (Ok tt, s') /\ look path s' = Some (Reg m (data f)).
Proof.
  intros E Hp. unfold fclose. rewrite E. eexists. split; [done|]. rewrite look_find in E |- * by done. rewrite set_root_root.
  by apply (find_put_eq _ _ _ _ E).
Qed.

Definition opened (r : M (FILE + Z)) : M FILE :=
  let! r := r in match r with inl f => sret f | inr errno => sthrow (open_error errno) end.

Lemma open_mode path i mode : 0 <= i <= 12 -> zget io_modes i = Some mode -> _openFile path i = opened (fopen path mode).
Proof. intros Hi E. unfold _openFile. replace (_ || _) with false by lia. rewrite E. done. Qed.

Lemma open_new path s : file_place path s ->
  exists s' m, _openFile path ASCII_WRITE s = (Ok (mkFILE [] 0 false false), s') /\ look path s' = Some (Reg m []).
Proof.
  intros (Hp & [(m & d & E)|(E & ps & c & Ec & m & kids & Ep)]); rewrite (open_mode path ASCII_WRITE (lit "w")) by done;
    unfold opened, sbind, fopen; cbn [lit String.list_ascii_of_string head].
  - rewrite E. eexists _, m. split; [reflexivity|]. rewrite look_find in E |- * by done. rewrite set_root_root.
    by apply (find_put_eq _ _ _ _ E).
  - rewrite E, (look_parent path s ps c m kids) by done.
    rewrite bool_decide_false by (rewrite Ec; by destruct ps). cbn [negb andb]. eexists _, _. split; [reflexivity|].
    rewrite look_find by done. rewrite set_root_root, Ec. by apply (put_new ps c _ _ m kids).
Qed.

Lemma write_all (d t : str) (e a : bool) : (if a then True else d = []) ->
  on_file (mkFILE d 0 e a) (write t) = lift (Ok (zlen t, mkFILE (d ++ t) (zlen (d ++ t)) e a)).
Proof.
  intros Ha. unfold on_file, write, stdio. cbn [_file bind of_option]. do 2 f_equal. f_equal. unfold fwrite. cbn [appending offset data end_flag].
  pose proof (zlen_nonneg t). pose proof (zlen_nonneg d).
  assert ((if a then zlen d else 0) = zlen d) as -> by (destruct a; [done|by subst]).
  rewrite Z.sub_diag. cbn [replicate Z.to_nat app]. rewrite ztake_ge by lia.
  unfold zdrop. rewrite drop_ge by (unfold zlen in *; lia). by rewrite app_nil_r, zlen_app.
Qed.

Lemma Cat_ok path s m d : look path s = Some (Reg m d) -> zlen d < 2 ^ 30 -> Cat path 2 s = (Ok d, s).
Proof.
  intros E Hl. unfold Cat. rewrite (open_mode path ASCII_READ (lit "r")) by done.
  unfold opened, sbind, fopen. cbn [lit String.list_ascii_of_string head]. rewrite E. cbv beta iota.
  destruct (readAll_ok String_new (mkFILE d 0 false false) 0 2) as (s' & f' & Er & Hr); [apply (repr_sized _ _ repr_new)|done|lia|done|lia|].
  unfold on_file, lift, sret. cbv beta iota. rewrite Er. cbn [_file bind of_option]. cbn in Hr. by rewrite (chars_repr _ _ Hr).
Qed.

(** C24: [Cat] reads what [WriteTextFile] has written, and what [AppendToTextFile] has added; writing without
    permission to overwrite throws and changes nothing. *)
Theorem text_file_roundtrip path s text more :
  file_place path s -> zlen text + zlen more < 2 ^ 30 ->
  exists s1 s2, WriteTextFile path text true s = (Ok tt, s1) /\ Cat path 2 s1 = (Ok text, s1) /\
    WriteTextFile path more false s1 = (Throw IOException, s1) /\
    AppendToTextFile path more s1 = (Ok tt, s2) /\ Cat path 2 s2 = (Ok (text ++ more), s2).
Proof.
  intros Hp Hl. pose proof (zlen_nonneg text). pose proof (zlen_nonneg more).
  destruct (open_new path s Hp) as (s0 & m & E0 & Hl0). destruct Hp as [Hp _].
  destruct (fclose_ok path (mkFILE text (zlen text) false false) s0 m [] Hl0 Hp) as (s1 & E1 & Hl1).
  destruct (fclose_ok path (mkFILE (text ++ more) (zlen (text ++ more)) false true) s1 m text Hl1 Hp) as (s2 & E2 & Hl2).
  exists s1, s2. split_and!.
  - unfold WriteTextFile. unfold sbind at 1, sret at 1. unfold sbind at 1. rewrite E0. unfold sbind. by rewrite (write_all [] text).
  - apply (Cat_ok path s1 m); [done|lia].
  - unfold WriteTextFile, sbind. by rewrite (Exists_ok _ _ _ Hl1).
  - unfold AppendToTextFile. rewrite (open_mode path ASCII_APPEND (lit "a")) by done.
    unfold opened, sbind, fopen. cbn [lit String.list_ascii_of_string head]. rewrite Hl1. unfold sret. cbv beta iota.
    by rewrite (write_all text more).
  - apply (Cat_ok path s2 m); [done|]. cbn [data]. rewrite zlen_app. lia.
Qed.

(** ** What goes wrong *)

Definition empty_os : OS := mkOS (Dir 493 []) 18.
Definition run {A} (m : M A) (s : OS) : res A * node := let '(r, s) := m s in (r, root s).

(** A directory that everybody may write to, with the umask gone; a name in the root directory; a
    backslash in a name; a dot in a directory; the number of files a deletion reports; the mode of a
    copy; a mode behind the table; a separator too many, which makes one directory too many. *)
Theorem fs_defects :
  run (MakeDir (lit "d") None false ;;! WriteTextFile (lit "f") [] true) empty_os =
    (Ok tt, Dir 493 [(lit "d", Dir (64 * 7 + 8 * 7 + 3) []); (lit "f", Reg (64 * 6 + 8 * 6 + 6) [])]) /\
  GetDirName (lit "/x") = Ok (lit "/x") /\
  GetFileName (lit "a" ++ [BACKSLASH_SEP] ++ lit "b/c") = Ok (lit "b/c") /\
  GetExt (lit "/a.b/c") = Ok (lit "b/c") /\
  (run (Delete (lit "d") true 9) (mkOS (Dir 493 [(lit "d", Dir 493 [(lit "f", Reg 420 [])])]) 18)) = (Ok 0, Dir 493 []) /\
  (run (Copy (lit "x") (lit "y") false 9) (mkOS (Dir 493 [(lit "x", Reg 448 (lit "t"))]) 18)) =
    (Ok tt, Dir 493 [(lit "x", Reg 448 (lit "t")); (lit "y", Reg 420 (lit "t"))]) /\
  (run (_openFile (lit "x") 12) empty_os).1 = UB /\ (run (_openFile (lit "x") 13) empty_os).1 = Throw IOException /\
  (run (OpenTextFile (lit "x") false) empty_os).1 = Throw FileNotFoundException /\
  (let '(_, t) := run (MakeDir (lit "a/b//c") None true) empty_os in find [lit "a"; lit "b"; lit "c"; lit "c"] t) =
    Some (Dir (64 * 7 + 8 * 7 + 3) []).
Proof. vm_compute. repeat split. Qed.

(** ** The theorems at concrete files *)

Definition sample_tree : node :=
  Dir 493 [(lit "a", Dir 493 [(lit "x", Reg 420 (lit "text")); (lit "y", Dir 448 [])]); (lit "z", Reg 420 [])].
Definition sample_os : OS := mkOS sample_tree 18.

Lemma good_letter c : c <> "."%char -> c <> "/"%char -> c <> NUL -> good_name [c].
Proof.
  intros. repeat split; [done| | | |by repeat constructor]; [|intros [= ?]; done|intros [= ?]; done].
  rewrite list_elem_of_singleton. congruence.
Qed.

Lemma sample_wf : wf sample_tree.
Proof.
  cbn. repeat split; try done; try apply not_elem_of_nil; try (apply good_letter; done);
    try (rewrite list_elem_of_singleton; discriminate); by repeat constructor.
Qed.

Lemma path_parts_witness :
  GetDirName (lit "usr/lib/libc.so") = Ok (lit "usr/lib") /\ GetFileName (lit "usr/lib/libc.so") = Ok (lit "libc.so") /\
  GetExt (lit "usr/lib/libc.so") = Ok (lit "so").
Proof. apply (path_parts (lit "usr/lib") (lit "libc") (lit "so")); try done; try (by repeat constructor); compute_done. Defined.

Lemma permission_roundtrip_witness :
  ModesToPermissions (PermissionsToModes (mkPerms 7 5 7)) = mkPerms 7 5 7 /\
  ModesToPermissions (PermissionsToModes (mkPerms 7 5 5)) <> mkPerms 7 5 5.
Proof.
  split.
  - apply (permission_roundtrip (mkPerms 7 5 7)); [repeat split; done|done].
  - intros E. apply (permission_roundtrip (mkPerms 7 5 5)) in E; [discriminate|repeat split; done].
Defined.

Lemma Delete_spec_witness :
  Delete (lit "a") true 2 sample_os = (Ok 0, mkOS (Dir 493 [(lit "z", Reg 420 [])]) 18) /\
  Delete (lit "a") false 1 sample_os = (Throw IOException, sample_os).
Proof.
  destruct (Delete_spec (lit "a") sample_os (Dir 493 [(lit "x", Reg 420 (lit "text")); (lit "y", Dir 448 [])])) as (E & _ & E').
  - discriminate.
  - discriminate.
  - reflexivity.
  - apply sample_wf.
  - split; [exact E|exact E'].
Defined.

Lemma Copy_spec_witness :
  exists s', Copy (lit "a") (lit "b") false 2 sample_os = (Ok tt, s') /\
    find [lit "b"] (root s') = Some (Dir (64 * 7 + 8 * 5 + 7) [(lit "x", Reg 438 (lit "text")); (lit "y", Dir (64 * 6 + 2) [])]).
Proof.
  destruct (Copy_spec (lit "a") (lit "b") sample_os (Dir 493 [(lit "x", Reg 420 (lit "text")); (lit "y", Dir 448 [])]) [] (lit "b") 493
    [(lit "a", Dir 493 [(lit "x", Reg 420 (lit "text")); (lit "y", Dir 448 [])]); (lit "z", Reg 420 [])]) as (s' & E & F & _); try done.
  - apply sample_wf.
  - exists s'. split; [exact E|exact F].
Defined.

Lemma Move_spec_witness :
  exists s', Move (lit "z") (lit "a/w") false 0 sample_os = (Ok tt, s') /\ find [lit "a"; lit "w"] (root s') = Some (Reg 420 []) /\
    find [lit "z"] (root s') = None.
Proof.
  destruct (Move_spec (lit "z") (lit "a/w") sample_os (Reg 420 []) [lit "a"] (lit "w") 493
    [(lit "x", Reg 420 (lit "text")); (lit "y", Dir 448 [])] 0) as (s' & E & F1 & F2 & _); try done.
  exists s'. split; [exact E|]. split; [exact F1|exact F2].
Defined.

Lemma MakeDir_recursive_witness :
  exists s', MakeDir (lit "a/n/m") None true sample_os = (Ok tt, s') /\ dir_at [lit "a"; lit "n"; lit "m"] (root s') /\
    find [lit "a"; lit "x"] (root s') = Some (Reg 420 (lit "text")).
Proof.
  destruct (MakeDir_recursive [lit "a"; lit "n"; lit "m"] None sample_os) as (s' & E & Hd & Hf); try done.
  - by repeat (constructor; [by apply good_letter|]).
  - by repeat constructor.
  - intros pre Hpre. apply is_prefix_app in Hpre as [es E]. destruct pre as [|a [|b [|c pre]]]; cbn in E.
    + right. by eexists _, _.
    + injection E as <- _. right. by eexists _, _.
    + injection E as <- <- _. by left.
    + injection E as <- <- <- E. left. by destruct pre.
  - exists s'. split; [exact E|]. split; [by apply Hd|]. rewrite Hf; reflexivity.
Defined.

Lemma text_file_roundtrip_witness :
  exists s1 s2, WriteTextFile (lit "a/t") (lit "one") true sample_os = (Ok tt, s1) /\
    AppendToTextFile (lit "a/t") (lit " two") s1 = (Ok tt, s2) /\ Cat (lit "a/t") 2 s2 = (Ok (lit "one two"), s2).
Proof.
  destruct (text_file_roundtrip (lit "a/t") sample_os (lit "one") (lit " two")) as (s1 & s2 & E1 & _ & _ & E2 & E3).
  - split; [done|]. right. split; [done|]. exists [lit "a"], (lit "t"). split; [done|]. by eexists _, _.
  - done.
  - exists s1, s2. split; [exact E1|]. split; [exact E2|exact E3].
Defined.
