(* ===== verification/IniParser.v ===== *)
(** * The configuration files (src/cpp/src/app/IniParser.cpp)

    [reparse] reads a file line by line into the sections; a section is an object of its own on the
    heap, found through the dictionary [_sections], and has a dictionary of properties.  Both
    dictionaries are any [Mapping]. *)

From S2P Require Import Prelude CString Str StrConv StrMem Dictionary DictTree DictSpec Mapping State XML TextFile.

(** ** A section *)

Section section.
Context {DP : Type} `{MapOps DP str str}.

Record Section_ := mkSection { _name : str; _properties : DP }.
Abbreviation M := (ST Section_).

Definition on_properties {A} (op : DP -> res (A * DP)) : M A := fun s =>
  match op (_properties s) with
  | Ok (a, d) => (Ok a, mkSection (_name s) d)
  | Throw e => (Throw e, s)
  | UB => (UB, s)
  | NoFuel => (NoFuel, s)
  end.
Definition ask {A} (op : DP -> res A) : M A := on_properties (fun d => let? a := op d in Ok (a, d)).
Definition change (op : DP -> res DP) : M unit := on_properties (fun d => let? d := op d in Ok (tt, d)).

Definition Section_new (name : str) : Section_ := mkSection name map_new.
Definition getName : M str := get _name.
Definition putString (name value : str) : M unit := change (map_put name value).
Definition putInteger (name : str) (value : Z) : M unit :=
  let! text := lift (Val_int32 value 10) in
  putString name text.

Definition getString (name default_value : str) : M str :=
  let! has := ask (map_hasKey name) in
  (if negb has then change (map_put name default_value) else sret tt) ;;!
  on_properties (map_at name).

Definition getInteger (name : str) (default_value : Z) : M Z :=
  let! has := ask (map_hasKey name) in
  let! bad := (if negb has then sret true
    else let! v := on_properties (map_at name) in sret (negb (isDigits v))) in
  (if bad : bool then
     let! text := lift (Val_int32 default_value 10) in
     change (map_put name text)
   else sret tt) ;;!
  let! v := on_properties (map_at name) in
  sret (Int v 10).
End section.
Arguments Section_ DP : clear implicits.
Arguments mkSection {DP} _ _.
Arguments _name {DP} _.
Arguments _properties {DP} _.

(** ** The parser *)

Section parser.
Context {DS DP : Type} `{MapOps DS str ref, MapOps DP str str}.

(** The members, and the sections on the heap: a cell that was freed holds nothing. *)
Record IniParser := mkIni { _filename : str; _sections : DS; heap : list (option (Section_ DP)) }.
Abbreviation M := (ST IniParser).

Definition on_sections {A} (op : DS -> res (A * DS)) : M A := fun s =>
  match op (_sections s) with
  | Ok (a, d) => (Ok a, mkIni (_filename s) d (heap s))
  | Throw e => (Throw e, s)
  | UB => (UB, s)
  | NoFuel => (NoFuel, s)
  end.
Definition ask_sections {A} (op : DS -> res A) : M A := on_sections (fun d => let? a := op d in Ok (a, d)).
Definition change_sections (op : DS -> res DS) : M unit := on_sections (fun d => let? d := op d in Ok (tt, d)).

(** A method of the section that [p] points to. *)
Definition on_section {A} (p : ref) (m : ST (Section_ DP) A) : M A := fun s =>
  match p with
  | Some i =>
      match heap s !! i with
      | Some (Some c) => let '(r, c) := m c in (r, mkIni (_filename s) (_sections s) (<[i := Some c]> (heap s)))
      | _ => (UB, s)
      end
  | None => (UB, s)
  end.

Definition new_section (name : str) : M ref := fun s =>
  (Ok (Some (length (heap s))), mkIni (_filename s) (_sections s) (heap s ++ [Some (Section_new name)])).

Definition delete_section (p : ref) : M unit := fun s =>
  match p with
  | None => (Ok tt, s)
  | Some i =>
      match heap s !! i with
      | Some (Some _) => (Ok tt, mkIni (_filename s) (_sections s) (<[i := None]> (heap s)))
      | _ => (UB, s)
      end
  end.

Definition getSection (name : str) : M ref :=
  let! has := ask_sections (map_hasKey name) in
  (if negb has then
     let! p := new_section name in
     change_sections (map_put name p)
   else sret tt) ;;!
  on_sections (map_at name).

Fixpoint delete_all (kvs : list (str * ref)) : M unit :=
  match kvs with
  | [] => sret tt
  | (_, p) :: kvs => delete_section p ;;! delete_all kvs
  end.

Definition clear : M unit :=
  let! kvs := ask_sections map_items in
  delete_all kvs ;;!
  change_sections map_clear.

(** The branches of the loop of [reparse]; they give the section that is current then. *)
Definition parse_line (section : ref) (line : str) : M ref :=
  if decide (deref line = "["%char) then
    let! name := lift (between_cc line "[" "]" 1) in
    let! section := getSection name in
    let! name := on_section section getName in
    change_sections (map_put name section) ;;!
    sret section
  else if decide (deref line = "#"%char \/ deref line = ";"%char) then sret section
  else
    let! n := lift (count_char line "=") in
    if 0 <? n then
      let! field := lift (section_char line "=" 0 true) in
      let field := spec OTrim field in
      let! value := lift (section_char line "=" 1 true) in
      let value := spec OTrim value in
      let! value := (if decide (deref value = chr 34 \/ deref value = chr 39)
        then lift (substr value 1 (u32 (zlen value - 2))) else sret value) in
      on_section section (putString field value) ;;!
      sret section
    else sret section.

(** [while (!file->eof())], with the file beside the parser. *)
Fixpoint parse_lines (section : ref) (fuel : nat) : ST (IniParser * File) unit :=
  match fuel with
  | O => sfail
  | S fuel' =>
      let! e := zoom snd (fun s f => (s.1, f)) atEnd in
      if e : bool then sret tt
      else
        let! line := zoom snd (fun s f => (s.1, f)) (readLine String_new true fuel) in
        let! line := lift (chars line) in
        let! section := zoom fst (fun s i => (i, s.2)) (parse_line section line) in
        parse_lines section fuel'
  end.

(** The files by name, as they are read. *)
Variable disk : str -> option str.

Definition Exists (name : str) : bool := bool_decide (is_Some (disk name)).
Definition OpenTextFile (name : str) : res File :=
  match disk name with
  | Some text => Ok (mkFile (Some (mkFILE text 0 false false)) 0)
  | None => Throw FileNotFoundException
  end.

Definition default_name : str := lit "default".

Definition reparse (fuel : nat) : M unit :=
  let! name := get _filename in
  if Exists name then
    let! file := lift (OpenTextFile name) in
    let! section := getSection default_name in
    change_sections (map_put default_name section) ;;!
    (fun s => let '(r, (s, _)) := (parse_lines section fuel ;;! zoom snd (fun s f => (s.1, f)) close) (s, file) in (r, s))
  else sret tt.

Definition parse (filename : str) (fuel : nat) : M unit :=
  modify (fun s => mkIni filename (_sections s) (heap s)) ;;!
  reparse fuel.

Definition IniParser_new (filename : str) (fuel : nat) : res IniParser :=
  let '(r, s) := reparse fuel (mkIni filename map_new []) in
  let? _ := r in Ok s.
End parser.
Arguments IniParser DS DP : clear implicits.
Arguments mkIni {DS DP} _ _ _.
Arguments _filename {DS DP} _.
Arguments _sections {DS DP} _.
Arguments heap {DS DP} _.

Abbreviation Sections := (Dictionary str ref).
Abbreviation Properties := (Dictionary str str).

(** What a program sees of the parser: the sections in order, each with its properties. *)
Fixpoint view_sections {DP} `{MapOps DP str str} (h : list (option (Section_ DP))) (kvs : list (str * ref))
    : res (list (str * list (str * str))) :=
  match kvs with
  | [] => Ok []
  | (k, p) :: kvs =>
      let? c := of_option (p ≫= fun i => mjoin (h !! i)) in
      let? props := map_items (_properties c) in
      let? rest := view_sections h kvs in
      Ok ((k, props) :: rest)
  end.
Definition view {DS DP} `{MapOps DS str ref, MapOps DP str str} (s : IniParser DS DP) :=
  let? kvs := map_items (_sections s) in view_sections (heap s) kvs.

Definition ini_of (text : str) : res (list (str * list (str * str))) :=
  let? s := IniParser_new (DS := Sections) (DP := Properties) (fun _ => Some text) [] 99 in view s.

Definition text_lines (ls : list string) : str := concat (map (fun l => lit l ++ [LF]) ls).

Example ini_1 :
  ini_of (text_lines ["a = 1"; "# no"; "[net]"; "host= 'h' "; "; no"; "junk"; "[default]"; "a=2"; "[net]"; "port=80"]) =
  Ok [(lit "default", [(lit "a", lit "2")]); (lit "net", [(lit "host", lit "h"); (lit "port", lit "80")])].
Proof. vm_compute. reflexivity. Qed.

(** ** The content of a configuration *)

(** The sections in order, each with its properties; keys are equal when their hashes are. *)
Abbreviation config := (list (str * list (str * str))).

Definition enter (name : str) (c : config) : config :=
  match lookup name c with Some _ => c | None => c ++ [(name, [])] end.
Definition assign (name field value : str) (c : config) : config :=
  match lookup name c with Some props => update name (update field value props) c | None => c end.

(** A line of a file. *)
Inductive item :=
  | Header (name rest : str)
  | Comment (mark : char) (text : str)
  | Assign (field value : str)
  | Other (text : str).

Definition item_text (i : item) : str :=
  match i with
  | Header name rest => "["%char :: name ++ "]"%char :: rest
  | Comment mark text => mark :: text
  | Assign field value => field ++ "="%char :: value
  | Other text => text
  end.

Definition quoted (v : str) : Prop := deref v = chr 34 \/ deref v = chr 39.
#[export] Instance quoted_dec v : Decision (quoted v).
Proof. unfold quoted. apply _. Defined.

(** What a value loses: the blanks around it, and the first and the last character if the first is a
    quote. *)
Definition trimmed (v : str) : str := trim_back (trim_front v).
Definition unquote (v : str) : str := if decide (quoted v) then removelast (drop 1 v) else v.

Definition plain_start (text : str) : Prop :=
  deref text <> "["%char /\ deref text <> "#"%char /\ deref text <> ";"%char.

Definition good_item (i : item) : Prop :=
  free_of [CR; LF; NUL] (item_text i) /\ zlen (item_text i) < 1022 /\
  match i with
  | Header name _ => name <> [] /\ ("]"%char ∉ name)
  | Comment mark _ => mark = "#"%char \/ mark = ";"%char
  | Assign field value => field <> [] /\ plain_start field /\ ("="%char ∉ field) /\ ("="%char ∉ value) /\
      (quoted (trimmed value) -> 2 < zlen (trimmed value))
  | Other text => plain_start text /\ ("="%char ∉ text)
  end.

(** The configuration, and the name of the current section. *)
Definition item_effect (cc : config * str) (i : item) : config * str :=
  match i with
  | Header name _ => (enter name cc.1, name)
  | Assign field value => (assign cc.2 (trimmed field) (unquote (trimmed value)) cc.1, cc.2)
  | _ => cc
  end.

(** ** What the objects stand for *)

Section assoc.
Context {K V : Type} `{Hasher K}.
Implicit Types (kvs : list (K * V)).

Lemma lookup_cons (k k' : K) (v : V) kvs :
  lookup k ((k', v) :: kvs) = if Hash k' =? Hash k then Some v else lookup k kvs.
Proof. done. Qed.
Lemma update_cons (k k' : K) (v v' : V) kvs :
  update k v ((k', v') :: kvs) = if Hash k' =? Hash k then (k', v) :: kvs else (k', v') :: update k v kvs.
Proof. done. Qed.

Lemma update_same (k : K) (v : V) kvs : lookup k kvs = Some v -> update k v kvs = kvs.
Proof.
  induction kvs as [|[k' v'] kvs IH]; [done|]. cbn. destruct (same_hash k (k', v')); [by intros [= ->]|].
  intros E. by rewrite IH.
Qed.

Lemma lookup_key (k : K) kvs v : lookup k kvs = Some v ->
  exists k' l1 l2, kvs = l1 ++ (k', v) :: l2 /\ Hash k' = Hash k /\ lookup k l1 = None.
Proof.
  induction kvs as [|[k' v'] kvs IH]; [done|]. cbn. destruct (same_hash k (k', v')) eqn:E.
  - intros [= ->]. apply same_hash_eq in E. by exists k', [], kvs.
  - intros (k1 & l1 & l2 & -> & E1 & E2)%IH. exists k1, ((k', v') :: l1), l2. split_and!; [done..|]. cbn. by rewrite E.
Qed.

Lemma lookup_congr (k k' : K) kvs : Hash k = Hash k' -> lookup k kvs = lookup k' kvs.
Proof. intros E. induction kvs as [|kv kvs IH]; [done|]. cbn. unfold same_hash. by rewrite E, IH. Qed.

Lemma mem_lookup (k : K) kvs : mem k kvs = match lookup k kvs with Some _ => true | None => false end.
Proof. done. Qed.
End assoc.

Section laws.
Context {DS DP : Type} `{MapOps DS str ref, !Mapping DS str ref, MapOps DP str str, !Mapping DP str str}.
Implicit Types (s : IniParser DS DP) (c : config) (h : list (option (Section_ DP))) (kvs : list (str * ref)).

(** The pointer and the name of a section that has these properties. *)
Definition section_at h (kp : str * ref) (np : str * list (str * str)) : Prop :=
  exists i o, kp = (np.1, Some i) /\ h !! i = Some (Some o) /\ _name o = np.1 /\ stands_for (_properties o) np.2.

(** Every section of the dictionary has a cell of its own, and no other cell is in use. *)
Definition owned h kvs c : Prop :=
  Forall2 (section_at h) kvs c /\ NoDup kvs.*2 /\ forall i o, h !! i = Some (Some o) -> Some i ∈ kvs.*2.

Definition holds s kvs c : Prop := stands_for (_sections s) kvs /\ owned (heap s) kvs c.
Definition represents s c : Prop := exists kvs, holds s kvs c.

(** ... and [section] points to the one with the name [cur]. *)
Definition current s (section : ref) c (cur : str) : Prop :=
  exists kvs, holds s kvs c /\ lookup cur kvs = Some section.

Lemma lookup_section h kvs c k : Forall2 (section_at h) kvs c ->
  match lookup k kvs, lookup k c with
  | Some p, Some props => exists k', Hash k' = Hash k /\ section_at h (k', p) (k', props)
  | None, None => True
  | _, _ => False
  end.
Proof.
  induction 1 as [|[k1 p] [k2 props] kvs c Hat Hall IH]; [done|]. pose proof Hat as (i & o & [= -> ->] & _). rewrite !lookup_cons.
  destruct (Z.eqb_spec (Hash k2) (Hash k)) as [E|_]; [|exact IH]. by exists k2.
Qed.

Lemma section_at_mono h h' kvs c :
  (forall i o, Some i ∈ kvs.*2 -> h !! i = Some (Some o) -> h' !! i = Some (Some o)) ->
  Forall2 (section_at h) kvs c -> Forall2 (section_at h') kvs c.
Proof.
  intros Hh Hall. induction Hall as [|kp np kvs c (i & o & -> & Ei & Hn & Hd) Hall IH]; constructor.
  - exists i, o. split_and!; try done. apply Hh; [by left|done].
  - apply IH. intros j o' Hj. apply Hh. by right.
Qed.

Lemma owned_new h kvs c name : owned h kvs c ->
  owned (h ++ [Some (Section_new name)]) (kvs ++ [(name, Some (length h))]) (c ++ [(name, [])]).
Proof.
  intros (Hall & Hnd & Hlive). split_and!.
  - apply Forall2_app; [|repeat constructor].
    + eapply section_at_mono; [|exact Hall]. intros i o _ Ei. by apply lookup_app_l_Some.
    + exists (length h), (Section_new name). split_and!; [done|by apply list_lookup_middle|done|apply new_law].
  - rewrite fmap_app. apply NoDup_app. split_and!; [done| |repeat constructor; apply not_elem_of_nil].
    intros p Hp Hn%list_elem_of_singleton. subst p. clear Hnd Hlive.
    induction Hall as [|kp np kvs c (i & o & -> & Ei & _) Hall IH]; [by apply elem_of_nil in Hp|].
    cbn in Hp. apply elem_of_cons in Hp as [[= E]|Hp]; [|by apply IH].
    apply lookup_lt_Some in Ei. lia.
  - intros i o Ei. rewrite fmap_app, elem_of_app. destruct (decide (i < length h)%nat).
    + left. rewrite lookup_app_l in Ei by done. eauto.
    + right. assert (i = length h) as ->; [|by left]. apply lookup_lt_Some in Ei. rewrite length_app in Ei. cbn in Ei. lia.
Qed.

Lemma owned_change h kvs c cur i o props d :
  owned h kvs c -> lookup cur kvs = Some (Some i) -> h !! i = Some (Some o) -> lookup cur c = Some props ->
  forall props', stands_for d props' ->
  owned (<[i := Some (mkSection (_name o) d)]> h) kvs (update cur props' c).
Proof.
  intros (Hall & Hnd & Hlive) Ek Ei Ec props' Hd. split_and!; [|done|].
  - clear Hlive. induction Hall as [|[k1 p] [k2 ps] kvs c Hat Hall IH]; [done|]. cbn in Hnd.
    apply NoDup_cons in Hnd as [Hp Hnd]. pose proof Hat as (j & o' & [= -> ->] & Ej & Hn & Hd').
    rewrite lookup_cons in Ek. rewrite (lookup_cons cur k2 ps c) in Ec. rewrite update_cons. destruct (Z.eqb_spec (Hash k2) (Hash cur)).
    + injection Ek as ->. rewrite Ej in Ei. injection Ei as ->. constructor.
      * eexists i, _. split_and!; [done|by apply list_lookup_insert_eq, (lookup_lt_Some _ _ _ Ej)|done|done].
      * eapply section_at_mono; [|exact Hall]. intros i' o' Hi' Ei'. rewrite list_lookup_insert_ne; [done|]. by intros ->.
    + constructor; [|by apply IH]. exists j, o'. split_and!; try done. rewrite list_lookup_insert_ne; [done|].
      intros ->. apply Hp. apply lookup_key in Ek as (k' & l1 & l2 & -> & _). rewrite fmap_app, elem_of_app. right. by left.
  - intros i' o' Ei'. destruct (decide (i = i')) as [->|Hne]; [|rewrite list_lookup_insert_ne in Ei' by done; eauto].
    eauto.
Qed.

(** ** The methods *)

Lemma yields_change_sections (op : DS -> res DS) s d (Q : unit -> IniParser DS DP -> Prop) :
  op (_sections s) = Ok d -> Q tt (mkIni (_filename s) d (heap s)) -> yields (change_sections op) s Q.
Proof. intros E HQ. unfold yields, does, change_sections, on_sections. by rewrite E. Qed.

Lemma yields_on_sections {A} (op : DS -> res (A * DS)) s a d (Q : A -> IniParser DS DP -> Prop) :
  op (_sections s) = Ok (a, d) -> Q a (mkIni (_filename s) d (heap s)) -> yields (on_sections op) s Q.
Proof. intros E HQ. unfold yields, does, on_sections. by rewrite E. Qed.

Lemma yields_ask_sections {A} (op : DS -> res A) s a (Q : A -> IniParser DS DP -> Prop) :
  op (_sections s) = Ok a -> Q a s -> yields (ask_sections op) s Q.
Proof. intros E HQ. unfold yields, does, ask_sections, on_sections. rewrite E. by destruct s. Qed.

Lemma yields_on_section {A} (m : ST (Section_ DP) A) s i o (Q : A -> IniParser DS DP -> Prop) :
  heap s !! i = Some (Some o) ->
  yields m o (fun a o' => Q a (mkIni (_filename s) (_sections s) (<[i := Some o']> (heap s)))) ->
  yields (on_section (Some i) m) s Q.
Proof.
  intros E (a & o' & Em & HQ)%yields_Ok. apply yields_Ok. unfold on_section. rewrite E, Em. by eexists _, _.
Qed.

Lemma yields_new_section name s (Q : ref -> IniParser DS DP -> Prop) :
  Q (Some (length (heap s))) (mkIni (_filename s) (_sections s) (heap s ++ [Some (Section_new name)])) ->
  yields (new_section name) s Q.
Proof. done. Qed.

(** [operator[]] on a key that is there. *)
Lemma yields_at name s kvs p c (Q : ref -> IniParser DS DP -> Prop) :
  holds s kvs c -> lookup name kvs = Some p ->
  (forall s', holds s' kvs c -> _filename s' = _filename s -> Q p s') ->
  yields (on_sections (map_at name)) s Q.
Proof.
  intros [Hd Ho] E HQ. destruct (at_law name _ _ Hd) as (d & Ea & Hd'). rewrite E in Ea, Hd'.
  eapply yields_on_sections; [exact Ea|]. by apply HQ.
Qed.

Lemma getSection_ok name s c (Q : ref -> IniParser DS DP -> Prop) :
  represents s c ->
  (forall p s', current s' p (enter name c) name -> _filename s' = _filename s -> Q p s') ->
  yields (getSection name) s Q.
Proof.
  intros (kvs & [Hd Ho]) HQ. unfold getSection. apply yields_bind.
  apply (yields_ask_sections _ _ (mem name kvs)); [by apply hasKey_law|]. rewrite mem_lookup.
  pose proof (lookup_section _ _ _ name (proj1 Ho)) as Hl. unfold enter in HQ. apply yields_bind.
  destruct (lookup name kvs) as [p|] eqn:Ek; destruct (lookup name c) as [props|]; try done; cbn [negb].
  - apply yields_ret. eapply yields_at; [by split|done|]. intros s' Hs'. apply HQ. by exists kvs.
  - apply yields_bind, yields_new_section.
    destruct (put_law name (Some (length (heap s))) _ _ Hd) as (d & Ep & Hd'). rewrite (update_none _ _ _ Ek) in Hd'.
    apply (yields_change_sections _ _ d); [exact Ep|].
    eapply (yields_at name _ (kvs ++ [(name, Some (length (heap s)))])).
    + split; [exact Hd'|]. by apply owned_new.
    + rewrite lookup_app, Ek. cbn. unfold same_hash. cbn. by rewrite Z.eqb_refl.
    + intros s' Hs'. apply HQ. eexists. split; [exact Hs'|]. rewrite lookup_app, Ek. cbn. unfold same_hash. cbn.
      by rewrite Z.eqb_refl.
Qed.

(** Entering the section under its name again changes nothing. *)
Lemma put_again name p s c cur (Q : unit -> IniParser DS DP -> Prop) :
  current s p c cur -> Hash name = Hash cur ->
  (forall s', current s' p c cur -> _filename s' = _filename s -> Q tt s') ->
  yields (change_sections (map_put name p)) s Q.
Proof.
  intros (kvs & [Hd Ho] & E) Hh HQ. destruct (put_law name p _ _ Hd) as (d & Ep & Hd').
  rewrite update_same in Hd' by (by rewrite (lookup_congr name cur)).
  eapply yields_change_sections; [exact Ep|]. apply HQ; [|done]. exists kvs. by split.
Qed.

Lemma current_section s p c cur : current s p c cur ->
  exists i o props, p = Some i /\ heap s !! i = Some (Some o) /\ Hash (_name o) = Hash cur /\
    stands_for (_properties o) props /\ lookup cur c = Some props.
Proof.
  intros (kvs & [_ [Hall _]] & E). pose proof (lookup_section _ _ _ cur Hall) as Hl. rewrite E in Hl.
  destruct (lookup cur c) as [props|]; [|done]. destruct Hl as (k' & Hk & i & o & [= ->] & Ei & Hn & Hd).
  exists i, o, props. by rewrite Hn.
Qed.

Lemma putString_ok field value s p c cur (Q : unit -> IniParser DS DP -> Prop) :
  current s p c cur ->
  (forall s', current s' p (assign cur field value c) cur -> _filename s' = _filename s -> Q tt s') ->
  yields (on_section p (putString field value)) s Q.
Proof.
  intros Hc HQ. destruct (current_section _ _ _ _ Hc) as (i & o & props & -> & Ei & Hn & Hp & Ec).
  destruct Hc as (kvs & [Hd Ho] & E). destruct (put_law field value _ _ Hp) as (d & Ep & Hd').
  apply (yields_on_section _ _ i o); [done|]. unfold putString, change, on_properties. unfold yields, does. rewrite Ep. cbn.
  apply HQ; [|done]. exists kvs. split; [|done]. split; [done|]. unfold assign. rewrite Ec.
  by eapply owned_change.
Qed.
End laws.

(** ** One line *)

Lemma free_of_nul s : free_of [CR; LF; NUL] s -> nul_free s.
Proof. intros Hf. eapply Forall_impl; [exact Hf|]. intros d Hd ->. apply Hd. compute_done. Qed.

Lemma deref_app (a b : str) : a <> [] -> deref (a ++ b) = deref a.
Proof. by destruct a. Qed.

Lemma count_assign field value :
  ("="%char ∉ field) -> ("="%char ∉ value) -> nul_free (field ++ "="%char :: value) ->
  zlen (field ++ "="%char :: value) < 2 ^ 31 -> count_char (field ++ "="%char :: value) "=" = Ok 1.
Proof.
  intros Hf Hv Hn Hl. rewrite count_char_spec by (done || lia).
  by rewrite occurrences_app, occurrences_cons, !occurrences_none.
Qed.

Lemma sections_assign field value : field <> [] ->
  ("="%char ∉ field) -> ("="%char ∉ value) -> nul_free (field ++ "="%char :: value) ->
  zlen (field ++ "="%char :: value) < 2 ^ 31 - 1 ->
  section_char (field ++ "="%char :: value) "=" 0 true = Ok field /\
  section_char (field ++ "="%char :: value) "=" 1 true = Ok value.
Proof.
  intros Hne Hf Hv Hn Hl. pose proof (section_char_at "="%char [field; value]) as Hs. cbn [join] in Hs.
  assert (Forall (fun f => "="%char ∉ f) [field; value]) as Hall by (by repeat constructor).
  split.
  - change 0 with (Z.of_nat 0). rewrite Hs by done. cbn. by rewrite decide_False.
  - change 1 with (Z.of_nat 1). rewrite Hs by done. cbn. by destruct (decide (value = [])) as [->|].
Qed.

Lemma trim_front_suffix v : exists a, v = a ++ trim_front v.
Proof.
  induction v as [|d v [a IH]]; [by exists []|]. cbn. destruct (is_trim d); [|by exists []]. exists (d :: a). by rewrite IH at 1.
Qed.

Lemma trimmed_part v : exists a b, v = a ++ trimmed v ++ b.
Proof.
  destruct (trim_front_suffix v) as [a Ea], (trim_front_suffix (rev (trim_front v))) as [b Eb]. exists a, (rev b).
  unfold trimmed, trim_back. by rewrite <- rev_app_distr, <- Eb, rev_involutive.
Qed.

Lemma unquote_ok v : nul_free v -> zlen v < 2 ^ 31 - 1 -> quoted v -> 2 < zlen v ->
  substr v 1 (u32 (zlen v - 2)) = Ok (unquote v).
Proof.
  intros Hf Hl Hq Hlen. unfold unquote. rewrite decide_True by done. destruct v as [|q v]; [done|].
  rewrite zlen_cons in *. destruct (last v) as [x|] eqn:E; [|apply last_None in E; subst; by vm_compute in Hlen].
  apply last_Some in E as [w ->]. rewrite zlen_app in *. change (zlen [x]) with 1 in *. 
  change (drop 1 (q :: w ++ [x])) with (w ++ [x]). rewrite removelast_last. pose proof (substr_at (q :: w ++ [x]) [q] w [x] 1 (zlen w)) as Hs.
  rewrite (wrapU_small 32 1), (wrapU_small 32 (zlen w)) in Hs by lia.
  rewrite wrapU_small by lia. replace (zlen w + 1 + 1 - 2) with (zlen w) by lia. apply Hs; try done.
  - rewrite zlen_cons, zlen_app. change (zlen [x]) with 1. lia.
  - intros ->. change (zlen []) with 0 in Hlen. lia.
Qed.

Section lines.
Context {DS DP : Type} `{MapOps DS str ref, !Mapping DS str ref, MapOps DP str str, !Mapping DP str str}.
Implicit Types (s : IniParser DS DP) (c : config).

Lemma parse_header name rest p s c cur (Q : ref -> IniParser DS DP -> Prop) :
  good_item (Header name rest) -> current s p c cur ->
  (forall p' s', current s' p' (enter name c) name -> _filename s' = _filename s -> Q p' s') ->
  yields (parse_line p (item_text (Header name rest))) s Q.
Proof.
  intros (Hf & Hl & Hn & Hb) (kvs & Hk & _) HQ. unfold parse_line. cbn [item_text deref head default].
  rewrite decide_True by done. apply yields_bind.
  pose proof (free_of_nul _ Hf) as Hnf. cbn [item_text] in Hnf, Hl.
  eapply yields_lift.
  { pose proof (between_cc_spec [] name rest "[" "]") as Hbs. cbn [app] in Hbs. rewrite Hbs; [done|done|lia|apply not_elem_of_nil|done]. }
  rewrite decide_False by done. apply yields_bind. apply (getSection_ok name s c). { by exists kvs. }
  intros p' s' Hc Hfn. destruct (current_section _ _ _ _ Hc) as (i & o & props & -> & Ei & Hnm & _).
  apply yields_bind. apply (yields_on_section _ _ i o); [done|]. unfold getName. apply yields_get.
  apply yields_bind. eapply (put_again (_name o)); [|done|].
  - rewrite list_insert_id by done. destruct s'. exact Hc.
  - intros s2 Hc2 Hf2. apply yields_ret. apply HQ; [done|]. by rewrite Hf2.
Qed.

Lemma deref_not_marked text : plain_start text -> (deref text = "#"%char \/ deref text = ";"%char) -> False.
Proof. intros (_ & ? & ?) [?|?]; done. Qed.

Lemma parse_assign field value p s c cur (Q : ref -> IniParser DS DP -> Prop) :
  good_item (Assign field value) -> current s p c cur ->
  (forall s', current s' p (assign cur (trimmed field) (unquote (trimmed value)) c) cur -> _filename s' = _filename s -> Q p s') ->
  yields (parse_line p (item_text (Assign field value))) s Q.
Proof.
  intros (Hf & Hl & Hne & Hps & Hef & Hev & Hq) Hc HQ. unfold parse_line. cbn [item_text] in *.
  pose proof (free_of_nul _ Hf) as Hnf.
  rewrite deref_app by done. rewrite decide_False by apply Hps. rewrite decide_False by (by intros ?%deref_not_marked).
  apply yields_bind. eapply yields_lift; [apply count_assign; try done; lia|]. cbn [Z.ltb Z.compare].
  destruct (sections_assign field value) as [E0 E1]; try done; [lia|].
  apply yields_bind. eapply yields_lift; [exact E0|]. apply yields_bind. eapply yields_lift; [exact E1|].
  apply yields_bind. change (spec OTrim value) with (trimmed value). change (spec OTrim field) with (trimmed field).
  assert (forall m, m = unquote (trimmed value) -> yields (on_section p (putString (trimmed field) m) ;;! sret p) s Q) as Hput.
  { intros m ->. apply yields_bind. eapply putString_ok; [exact Hc|]. intros s' Hc' Hf'. by apply yields_ret, HQ. }
  change (decide (deref (trimmed value) = chr 34 \/ deref (trimmed value) = chr 39)) with (decide (quoted (trimmed value))).
  destruct (decide (quoted (trimmed value))) as [Hqv|Hqv].
  - apply nul_free_app in Hnf as [_ [_ Hnv]%nul_free_cons].
    destruct (trimmed_part value) as (a & b & Ev).
    assert (nul_free (trimmed value)) as Hnt by (rewrite Ev, !nul_free_app in Hnv; tauto).
    assert (zlen (trimmed value) <= zlen value) as Hlt.
    { rewrite Ev at 2. rewrite !zlen_app. pose proof (zlen_nonneg a). pose proof (zlen_nonneg b). lia. }
    eapply yields_lift; [apply unquote_ok; try done|by apply Hput].
    + rewrite zlen_app, zlen_cons in Hl. pose proof (zlen_nonneg field). lia.
    + by apply Hq.
  - apply yields_ret, Hput. unfold unquote. by rewrite decide_False.
Qed.

Lemma parse_item i p s c cur (Q : ref -> IniParser DS DP -> Prop) :
  good_item i -> current s p c cur ->
  (forall p' s', current s' p' (item_effect (c, cur) i).1 (item_effect (c, cur) i).2 -> _filename s' = _filename s -> Q p' s') ->
  yields (parse_line p (item_text i)) s Q.
Proof.
  intros Hg Hc HQ. destruct i as [name rest|mark text|field value|text].
  - by eapply parse_header.
  - destruct Hg as (_ & _ & Hm). unfold parse_line. cbn [item_text deref head default].
    rewrite decide_False by (by destruct Hm as [-> | ->]). rewrite decide_True by done. by apply yields_ret, HQ.
  - eapply parse_assign; [done..|]. intros s' Hs'. by apply HQ.
  - destruct Hg as (Hf & Hl & Hps & He). unfold parse_line. cbn [item_text] in *.
    rewrite decide_False by apply Hps. rewrite decide_False by (by intros ?%deref_not_marked).
    apply yields_bind. eapply yields_lift; [apply count_char_spec; [by apply free_of_nul|done|lia]|].
    rewrite occurrences_none by done. cbn. by apply yields_ret, HQ.
Qed.

(** The lines of a file, one after the other. *)
Fixpoint parse_all (section : ref) (ls : list str) : ST (IniParser DS DP) ref :=
  match ls with
  | [] => sret section
  | l :: ls => let! section := parse_line section l in parse_all section ls
  end.

Lemma parse_items items : forall p s c cur,
  Forall good_item items -> current s p c cur ->
  yields (parse_all p (item_text <$> items)) s (fun p' s' =>
    current s' p' (foldl item_effect (c, cur) items).1 (foldl item_effect (c, cur) items).2 /\ _filename s' = _filename s).
Proof.
  induction items as [|i items IH]; intros p s c cur Hg Hc; [by apply yields_ret|].
  apply Forall_cons_iff in Hg as [Hi Hg]. cbn [fmap list_fmap parse_all foldl]. apply yields_bind.
  eapply parse_item; [done..|]. intros p' s' Hc' Hf'. eapply yields_mono; [apply IH; [done|exact Hc']|].
  intros p2 s2 [Hc2 ->]. rewrite <- surjective_pairing in Hc2. done.
Qed.

(** The loop takes the lines from the file as [read_lines] does. *)
Lemma parse_lines_ok fuel : forall p s f ls f' (Q : IniParser DS DP -> Prop),
  read_lines true fuel f = (Ok ls, f') -> yields (parse_all p ls) s (fun _ s' => Q s') ->
  yields (parse_lines p fuel) (s, f) (fun _ sf => Q sf.1 /\ sf.2 = f').
Proof.
  induction fuel as [|fuel IH]; intros p s f ls f' Q Hr Hp; [done|]. cbn [parse_lines].
  cbn [read_lines] in Hr. unfold sbind at 1 in Hr. apply yields_bind, yields_zoom.
  destruct (atEnd f) as [[e| | |] f1] eqn:Ee; try done. exists e, f1. split; [exact Ee|]. cbn [fst]. destruct e.
  { injection Hr as <- <-. by apply yields_ret. }
  unfold sbind at 1 in Hr. apply yields_bind, yields_zoom. cbn [snd fst].
  destruct (readLine String_new true (S fuel) f1) as [[l| | |] f2] eqn:El; try done. exists l, f2. split; [done|]. cbn [fst].
  unfold sbind at 1, lift at 1 in Hr. destruct (chars l) as [l'| | |]; try done.
  apply yields_bind. eapply yields_lift; [done|].
  unfold sbind at 1 in Hr. destruct (read_lines true fuel f2) as [[ls'| | |] f3] eqn:Er; try done.
  injection Hr as <- <-. cbn [parse_all] in Hp. apply yields_bind, yields_zoom. cbn [fst snd].
  unfold yields, does, sbind in Hp. destruct (parse_line p l' s) as [[p'| | |] s']; try done. exists p', s'. split; [done|].
  by apply (IH p' s' f2 ls').
Qed.
End lines.

(** ** The parser *)

Lemma good_line i : good_item i ->
  (LF ∉ item_text i) /\ (CR ∉ item_text i) /\ readable (item_text i ++ [LF]) /\ readable (item_text i).
Proof.
  intros (Hf & Hl & _). pose proof (free_of_nul _ Hf) as Hn. split_and!; [marks|marks| |].
  - apply readable_short; [rewrite nul_free_app; split; [done|by repeat constructor]|]. rewrite zlen_app. change (zlen [LF]) with 1. lia.
  - apply readable_short; [done|lia].
Qed.

(** The text of a file of such lines, of which the last has no line feed. *)
Definition ini_text (items : list item) (final : item) : str := text_of (item_text <$> items) (item_text final).

Section parser_laws.
Context {DS DP : Type} `{MapOps DS str ref, !Mapping DS str ref, MapOps DP str str, !Mapping DP str str}.
Implicit Types (s : IniParser DS DP) (c : config).

Lemma reparse_ok disk s c items final fuel :
  represents s c -> disk (_filename s) = Some (ini_text items final) ->
  Forall good_item items -> good_item final -> (length (ini_text items final) + 1 < fuel)%nat ->
  yields (reparse disk fuel) s (fun _ s' => _filename s' = _filename s /\
    represents s' (foldl item_effect (enter default_name c, default_name) (items ++ [final])).1).
Proof.
  intros Hc Hd Hg Hgf Hfuel. unfold reparse. apply yields_bind, yields_get. unfold Exists. rewrite Hd.
  rewrite bool_decide_true by done. apply yields_bind. unfold OpenTextFile. rewrite Hd. eapply yields_lift; [done|].
  apply yields_bind. apply (getSection_ok default_name s c); [done|]. intros p s1 Hc1 Hf1.
  apply yields_bind. eapply (put_again default_name p); [exact Hc1|done|]. intros s2 Hc2 Hf2.
  destruct (good_line _ Hgf) as (Hlf & Hcr & _ & Hread).
  destruct (read_lines_ok true [] (item_text <$> items) (item_text final) false 0 fuel) as (f & E & _);
    [|done..|].
  { rewrite Forall_fmap. eapply Forall_impl; [exact Hg|]. intros i Hi%good_line. cbn. naive_solver. }
  cbn [app] in E. change (zlen []) with 0 in E. rewrite without_end_tail in E by done.
  rewrite without_end_lines in E by (rewrite Forall_fmap; eapply Forall_impl; [exact Hg|]; by intros i (_ & ? & _)%good_line).
  pose proof (parse_items (items ++ [final]) p s2 (enter default_name c) default_name) as Hp.
  rewrite fmap_app in Hp. cbn [fmap list_fmap] in Hp.
  assert (yields (parse_lines p fuel ;;! zoom snd (fun (sf : IniParser DS DP * File) f => (sf.1, f)) close)
    (s2, mkFile (Some (mkFILE (ini_text items final) 0 false false)) 0)
    (fun _ sf => _filename sf.1 = _filename s /\
       represents sf.1 (foldl item_effect (enter default_name c, default_name) (items ++ [final])).1)) as Hy.
  { apply yields_bind. eapply yields_mono; [eapply parse_lines_ok; [exact E|]|].
    - eapply yields_mono; [apply Hp; [apply Forall_app; by split; [|constructor]|exact Hc2]|].
      intros p' s' ((kvs & Hk & _) & Hf'). instantiate (1 := fun s' => _filename s' = _filename s /\
        represents s' (foldl item_effect (enter default_name c, default_name) (items ++ [final])).1).
      split; [by rewrite Hf', Hf2|]. by exists kvs.
    - intros _ [s' f'] [HQ Ef]. cbn in HQ, Ef. subst f'. apply yields_zoom. exists tt, (mkFile None 0). by split. }
  apply yields_Ok in Hy as (a & [s' f'] & E' & HQ). apply yields_Ok. exists a, s'. split; [|exact HQ].
  by rewrite E'.
Qed.

(** C19: refinement. Parsing the text of good items does to the configuration what the items do, one after
    the other, beginning in the default section. *)
Theorem reparse_spec disk s c items final fuel :
  represents s c -> disk (_filename s) = Some (ini_text items final) ->
  Forall good_item items -> good_item final -> (length (ini_text items final) + 1 < fuel)%nat ->
  exists s', reparse disk fuel s = (Ok tt, s') /\ _filename s' = _filename s /\
    represents s' (foldl item_effect (enter default_name c, default_name) (items ++ [final])).1.
Proof.
  intros Hc Hd Hg Hgf Hfuel. pose proof (reparse_ok disk s c items final fuel Hc Hd Hg Hgf Hfuel) as Hy.
  apply yields_Ok in Hy as ([] & s' & E & HQ). by exists s'.
Qed.

(** ** The memory of the sections *)

Lemma yields_delete i o s (Q : unit -> IniParser DS DP -> Prop) :
  heap s !! i = Some (Some o) -> Q tt (mkIni (_filename s) (_sections s) (<[i := None]> (heap s))) ->
  yields (delete_section (Some i)) s Q.
Proof. intros E HQ. unfold yields, does, delete_section. by rewrite E. Qed.

Lemma delete_all_ok kvs : forall s c,
  owned (heap s) kvs c ->
  yields (delete_all kvs) s (fun _ s' => _sections s' = _sections s /\ _filename s' = _filename s /\
    forall i o, heap s' !! i = Some (Some o) -> False).
Proof.
  intros s c (Hall & Hnd & Hlive). assert (forall i o, heap s !! i = Some (Some o) -> Some i ∈ kvs.*2) as Hl by done.
  clear Hlive. revert s Hall Hl. revert c.
  induction kvs as [|[k p] kvs IH]; intros c s Hall Hl; cbn [delete_all].
  - apply yields_ret. split_and!; [done..|]. intros i o Hi%Hl. by apply elem_of_nil in Hi.
  - apply Forall2_cons_inv_l in Hall as ([k2 props] & c' & (i & o & [= -> ->] & Ei & _ & _) & Hall & ->).
    cbn in Hnd. apply NoDup_cons in Hnd as [Hp Hnd]. apply yields_bind, (yields_delete i o); [done|].
    eapply yields_mono; [apply (IH Hnd c')|].
    + eapply section_at_mono; [|exact Hall]. intros j o' Hj Ej. cbn [heap]. rewrite list_lookup_insert_ne; [done|]. by intros ->.
    + cbn [heap]. intros j o' Ej. destruct (decide (i = j)) as [->|Hne].
      * rewrite list_lookup_insert_eq in Ej by (by eapply lookup_lt_Some). done.
      * rewrite list_lookup_insert_ne in Ej by done. apply Hl in Ej. cbn in Ej. apply elem_of_cons in Ej as [[= ->]|?]; done.
    + cbn. done.
Qed.

(** C25: safety. [clear] deletes each section once, leaves no section behind, and an empty configuration. *)
Theorem clear_frees s c :
  represents s c ->
  exists s', clear s = (Ok tt, s') /\ represents s' [] /\ Forall (fun cell => cell = None) (heap s').
Proof.
  intros (kvs & Hd & Ho). assert (yields clear s (fun _ s' => represents s' [] /\ Forall (fun cell => cell = None) (heap s'))) as Hy.
  { unfold clear. apply yields_bind. apply (yields_ask_sections _ _ kvs); [by apply items_law|].
    apply yields_bind. eapply yields_mono; [by apply (delete_all_ok kvs s c)|]. intros _ s1 (Es & _ & Hn).
    destruct (clear_law _ _ Hd) as (d & E & Hd'). apply (yields_change_sections _ _ d); [by rewrite Es|]. split.
    - exists []. split; [done|]. split_and!; [constructor|constructor|]. intros i o Hi. by edestruct Hn.
    - apply Forall_forall. intros [o|] Hin; [|done]. apply list_elem_of_lookup in Hin as [i Hi]. by edestruct Hn. }
  apply yields_Ok in Hy as ([] & s' & E & HQ). by exists s'.
Qed.
End parser_laws.

(** ** The properties of a section *)

Section section_laws.
Context {DP : Type} `{MapOps DP str str, !Mapping DP str str}.
Implicit Types (o : Section_ DP) (props : list (str * str)).

Definition section_holds o name props : Prop := _name o = name /\ stands_for (_properties o) props.

Lemma yields_ask_map {A} (op : DP -> res A) o a (Q : A -> Section_ DP -> Prop) :
  op (_properties o) = Ok a -> Q a o -> yields (ask op) o Q.
Proof. intros E HQ. unfold yields, does, ask, on_properties. rewrite E. by destruct o. Qed.

Lemma yields_put k v o name props (Q : unit -> Section_ DP -> Prop) :
  section_holds o name props -> (forall o', section_holds o' name (update k v props) -> Q tt o') ->
  yields (change (map_put k v)) o Q.
Proof.
  intros [Hn Hd] HQ. destruct (put_law k v _ _ Hd) as (d & E & Hd'). unfold yields, does, change, on_properties. rewrite E.
  by apply HQ.
Qed.

Lemma yields_at_property k o name props v (Q : str -> Section_ DP -> Prop) :
  section_holds o name props -> lookup k props = Some v -> (forall o', section_holds o' name props -> Q v o') ->
  yields (on_properties (map_at k)) o Q.
Proof.
  intros [Hn Hd] Ek HQ. destruct (at_law k _ _ Hd) as (d & E & Hd'). rewrite Ek in E, Hd'.
  unfold yields, does, on_properties. rewrite E. by apply HQ.
Qed.

(** A property that is not there gets the default value. *)
Lemma getString_ok k dflt o name props : section_holds o name props ->
  exists o', getString k dflt o = (Ok (default dflt (lookup k props)), o') /\
    section_holds o' name (match lookup k props with Some _ => props | None => props ++ [(k, dflt)] end).
Proof.
  intros Ho. assert (yields (getString k dflt) o (fun v o' => v = default dflt (lookup k props) /\
    section_holds o' name (match lookup k props with Some _ => props | None => props ++ [(k, dflt)] end))) as Hy.
  { unfold getString. apply yields_bind. apply (yields_ask_map _ _ (mem k props)); [by apply hasKey_law, Ho|]. rewrite mem_lookup.
    apply yields_bind. destruct (lookup k props) as [v|] eqn:Ek; cbn [negb].
    - apply yields_ret. by eapply yields_at_property.
    - eapply yields_put; [exact Ho|]. intros o1 Ho1. rewrite (update_none _ _ _ Ek) in Ho1.
      eapply yields_at_property; [exact Ho1| |done]. rewrite lookup_app, Ek. cbn. unfold same_hash. cbn. by rewrite Z.eqb_refl. }
  apply yields_Ok in Hy as (v & o' & E & -> & HQ). by exists o'.
Qed.

(** ... and so does one that is not made of digits and points: [getInteger] of a number that
    [putInteger] has written gives it back when it is not negative, and stores the default otherwise. *)
Lemma getInteger_ok k dflt o name props : section_holds o name props -> - 2 ^ 31 <= dflt < 2 ^ 31 ->
  exists text o', Val_int32 dflt 10 = Ok text /\
    (let good := match lookup k props with Some v => isDigits v | None => false end in
     let props' := if good then props else update k text props in
     getInteger k dflt o = (Ok (if good then Int (default [] (lookup k props)) 10 else dflt), o') /\ section_holds o' name props').
Proof.
  intros Ho Hdf. destruct (Val_int32_ok dflt 10) as (text & Et & Ei & _); [done|lia|]. exists text.
  set (good := match lookup k props with Some v => isDigits v | None => false end).
  assert (yields (getInteger k dflt) o (fun v o' =>
    v = (if good then Int (default [] (lookup k props)) 10 else dflt) /\ section_holds o' name (if good then props else update k text props))) as Hy.
  { unfold getInteger. apply yields_bind. apply (yields_ask_map _ _ (mem k props)); [by apply hasKey_law, Ho|]. rewrite mem_lookup.
    assert (forall o1 b, section_holds o1 name props -> b = negb good ->
      yields ((if b : bool then let! text := lift (Val_int32 dflt 10) in change (map_put k text) else sret tt) ;;!
        let! v := on_properties (map_at k) in sret (Int v 10)) o1 (fun v o' =>
      v = (if good then Int (default [] (lookup k props)) 10 else dflt) /\ section_holds o' name (if good then props else update k text props))) as Hrest.
    { intros o1 b Ho1 ->. apply yields_bind. destruct good eqn:Eg; cbn [negb].
      - apply yields_ret. apply yields_bind. destruct (lookup k props) as [v|] eqn:Ek; [|done].
        by eapply yields_at_property.
      - apply yields_bind. eapply yields_lift; [exact Et|]. eapply yields_put; [exact Ho1|]. intros o2 Ho2.
        apply yields_bind. eapply yields_at_property; [exact Ho2|apply lookup_update|]. intros o3 Ho3. apply yields_ret. rewrite Ei. by split. }
    apply yields_bind. unfold good in *. destruct (lookup k props) as [v|] eqn:Ek; cbn [negb].
    - apply yields_bind. eapply yields_at_property; [exact Ho|exact Ek|]. intros o1 Ho1. by apply yields_ret, Hrest.
    - apply yields_ret. by apply (Hrest o true). }
  apply yields_Ok in Hy as (v & o' & E & -> & HQ). exists o'. split; [exact Et|]. split; [exact E|exact HQ].
Qed.
End section_laws.

(** ** What goes wrong *)

(** A program that reads one file after another with the same object. *)
Definition ini_twice (text1 text2 : str) : res (list (str * list (str * str))) :=
  let disk name := if decide (name = []) then Some text1 else Some text2 in
  let? s := IniParser_new (DS := Sections) (DP := Properties) disk [] 99 in
  let '(r, s) := parse disk (lit "x") 99 s in
  let? _ := r in view s.

(** [putInteger], then [getInteger] with the default 5. *)
Definition put_get (value : Z) : res (Z * list (str * str)) :=
  let '(r, o) := (putInteger (lit "n") value ;;! getInteger (lit "n") 5) (Section_new (DP := Properties) []) in
  let? v := r in
  let? props := map_items (_properties o) in Ok (v, props).

(** A value that is one quotation mark is undefined, an empty one in quotation marks is not empty, a value
    ends at its second [=], a line without a name or a section without one get strange names; a second
    parse keeps what the first has set; and a negative integer is not read back. *)
Theorem ini_defects :
  ini_of (text_lines ["k='"]) = UB /\
  ini_of (text_lines ["k=''"; "path=a=b"; "=v"; "[]"]) =
    Ok [(lit "default", [(lit "k", lit "'"); (lit "path", lit "a"); (lit "=v", lit "v")]); (lit "]", [])] /\
  ini_twice (text_lines ["a=1"; "b=2"]) (text_lines ["b=3"]) = Ok [(lit "default", [(lit "a", lit "1"); (lit "b", lit "3")])] /\
  put_get 12 = Ok (12, [(lit "n", lit "12")]) /\
  put_get (-12) = Ok (5, [(lit "n", lit "5")]).
Proof. vm_compute. repeat split. Qed.

(** ** Witnesses *)

Definition sample_items : list item :=
  [Assign (lit "a ") (lit " 1"); Comment "#" (lit " no"); Header (lit "net") (lit " x"); Assign (lit "host") (lit " 'h' "); Other []].

Lemma sample_items_good : Forall good_item sample_items.
Proof.
  repeat apply Forall_cons_2; [..|by apply Forall_nil_2].
  all: split; [repeat constructor; compute_done|]; split; [reflexivity|].
  - split_and!; [done|by split_and!|compute_done|compute_done|intros [?|?]; done].
  - by left.
  - split; [done|compute_done].
  - split_and!; [done|by split_and!|compute_done|compute_done|intros _; reflexivity].
  - split; [by split_and!|compute_done].
Qed.

Lemma blank_good : good_item (Other []).
Proof. split; [repeat constructor|]. split; [reflexivity|]. split; [by split_and!|apply not_elem_of_nil]. Qed.

Lemma represents_new name : represents (DS := Sections) (DP := Properties) (mkIni name map_new []) [].
Proof. exists []. split; [apply new_law|]. split_and!; [by apply Forall2_nil_2|by apply NoDup_nil_2|intros i o Hi; by destruct i]. Qed.

Lemma reparse_spec_witness :
  exists s', reparse (DS := Sections) (DP := Properties) (fun _ => Some (ini_text sample_items (Other []))) 99
      (mkIni [] map_new []) = (Ok tt, s') /\
    represents s' [(lit "default", [(lit "a", lit "1")]); (lit "net", [(lit "host", lit "h")])].
Proof.
  destruct (reparse_spec (fun _ => Some (ini_text sample_items (Other []))) (mkIni (DS := Sections) (DP := Properties) [] map_new [])
    [] sample_items (Other []) 99) as (s' & E & _ & Hr).
  - apply represents_new.
  - reflexivity.
  - apply sample_items_good.
  - apply blank_good.
  - apply Nat.ltb_lt. vm_compute. reflexivity.
  - exists s'. split; [exact E|exact Hr].
Defined.

Lemma sample_parsed : exists s, represents (DS := Sections) (DP := Properties) s
  [(lit "default", [(lit "a", lit "1")]); (lit "net", [(lit "host", lit "h")])].
Proof.
  pose proof (reparse_ok (fun _ => Some (ini_text sample_items (Other []))) (mkIni (DS := Sections) (DP := Properties) [] map_new [])
    [] sample_items (Other []) 99 (represents_new []) eq_refl sample_items_good blank_good) as Hy.
  assert (length (ini_text sample_items (Other [])) + 1 < 99)%nat as Hl by (apply Nat.ltb_lt; vm_compute; reflexivity).
  specialize (Hy Hl). clear Hl. rewrite yields_Ok in Hy. destruct Hy as (_ & s & _ & _ & Hr). exists s. exact Hr.
Qed.

Lemma clear_frees_witness :
  exists s s', represents (DS := Sections) (DP := Properties) s [(lit "default", [(lit "a", lit "1")]); (lit "net", [(lit "host", lit "h")])] /\
    clear s = (Ok tt, s') /\ represents s' [] /\ Forall (fun cell => cell = None) (heap s').
Proof.
  destruct (sample_parsed) as (s & Hr).
  destruct (clear_frees s _ Hr) as (s' & E & Hr' & Hf). exists s, s'. split; [exact Hr|]. by split.
Defined.
