(* ===== verification/ArgumentParser.v ===== *)
(** * The command line (src/cpp/src/app/ArgumentParser.cpp)

    An [Argument] is an object of its own, found through the dictionary [_arguments] (any [Mapping]) or
    by one of its keys.  [argv] is a list of texts with NULL behind the last of them. *)

From S2P Require Import Prelude CString Str StrConv StrMem Dictionary DictTree DictSpec Mapping State.

(** ** An argument *)

Record Argument := mkArgument {
  _name : str; _keys : list str; _help : str; _value : str; _has_value : bool; _was_parsed : bool }.

Fixpoint keys_loop (keys : str) (i : Z) (n : nat) : res (list str) :=
  match n with
  | O => Ok []
  | S n =>
      let? key := section_char keys "," i true in
      let? rest := keys_loop keys (i + 1) n in
      Ok (spec OTrim key :: rest)
  end.
Definition parseKeys (keys : str) : res (list str) :=
  let? n := count_char keys "," in
  keys_loop keys 0 (Z.to_nat (s32 (u32 (n + 1)))).

Definition Argument_flag (name keys help : str) : res Argument :=
  let? ks := parseKeys keys in Ok (mkArgument name ks help [] false false).
Definition Argument_option (name keys help default_value : str) : res Argument :=
  let? ks := parseKeys keys in Ok (mkArgument name ks help default_value true false).

Definition hasKey (a : Argument) (key : str) : bool := existsb (fun k => op_eq k key) (_keys a).
Definition setParsed (a : Argument) : Argument :=
  mkArgument (_name a) (_keys a) (_help a) (_value a) (_has_value a) true.
Definition setValue (a : Argument) (value : str) : Argument :=
  mkArgument (_name a) (_keys a) (_help a) value (_has_value a) (_was_parsed a).
Definition getIntValue (a : Argument) : Z := Int (_value a) 10.
Definition getBoolValue (a : Argument) : bool :=
  if op_eq (_value a) (lit "true") then true
  else if op_eq (_value a) (lit "false") then false
  else if isDigits (_value a) then negb (getIntValue a =? 0)
  else false.

(** ** The parser *)

Section parser.
Context {D : Type} `{MapOps D str ref}.

(** The members, the arguments on the heap and what went to the console.  [_args] is an array; before
    the first [parse] it is NULL, and [_arg_count] is whatever was in memory. *)
Record ArgumentParser := mkParser {
  _args : list str; _arg_count : Z; _title : str; _description : str; _version : str; _program : str;
  _arguments : D; heap : list Argument; console : str }.
Abbreviation M := (ST ArgumentParser).

Definition with_arguments (s : ArgumentParser) (d : D) (h : list Argument) : ArgumentParser :=
  mkParser (_args s) (_arg_count s) (_title s) (_description s) (_version s) (_program s) d h (console s).
Definition with_args (s : ArgumentParser) (args : list str) (n : Z) : ArgumentParser :=
  mkParser args n (_title s) (_description s) (_version s) (_program s) (_arguments s) (heap s) (console s).

Definition ask {A} (op : D -> res A) : M A := fun s => (op (_arguments s), s).

Definition add_argument (name : str) (a : res Argument) : M unit :=
  let! a := lift a in
  let! p := (fun s => (Ok (Some (length (heap s)) : ref), with_arguments s (_arguments s) (heap s ++ [a]))) in
  fun s => match map_add name p (_arguments s) with
    | Ok d => (Ok tt, with_arguments s d (heap s))
    | Throw e => (Throw e, s)
    | UB => (UB, s)
    | NoFuel => (NoFuel, s)
    end.
Definition add_flag (name keys help : str) : M unit := add_argument name (Argument_flag name keys help).
Definition add_option (name keys help default_value : str) : M unit :=
  add_argument name (Argument_option name keys help default_value).

(** The object behind a pointer, and a change of it. *)
Definition the_argument (p : ref) : M Argument := fun s => (of_option (p ≫= fun i => heap s !! i), s).
Definition set_argument (p : ref) (f : Argument -> Argument) : M unit := fun s =>
  match p with
  | Some i => match heap s !! i with
      | Some a => (Ok tt, with_arguments s (_arguments s) (<[i := f a]> (heap s)))
      | None => (UB, s)
      end
  | None => (UB, s)
  end.

Definition get_argument (name : str) : M Argument := let! p := ask (map_get name) in the_argument p.

Fixpoint find_loop (key : str) (kvs : list (str * ref)) : M ref :=
  match kvs with
  | [] => sret None
  | (_, p) :: kvs =>
      let! a := the_argument p in
      if hasKey a key then sret p else find_loop key kvs
  end.
Definition findArgByKey (key : str) : M ref := let! kvs := ask map_items in find_loop key kvs.

Definition written (s : ArgumentParser) (text : str) : ArgumentParser :=
  mkParser (_args s) (_arg_count s) (_title s) (_description s) (_version s) (_program s) (_arguments s) (heap s) (console s ++ text).
Definition write (text : str) : M unit := modify (fun s => written s text).
Definition writeLine (text : str) : M unit := write (text ++ [chr 10]).

Fixpoint write_keys (ks : list str) : M unit :=
  match ks with [] => sret tt | k :: ks => write k ;;! write (lit " ") ;;! write_keys ks end.
Fixpoint help_loop (kvs : list (str * ref)) : M unit :=
  match kvs with
  | [] => sret tt
  | (_, p) :: kvs =>
      write [chr 9] ;;!
      let! a := the_argument p in
      write_keys (_keys a) ;;!
      write [chr 9] ;;!
      writeLine (_help a) ;;!
      help_loop kvs
  end.
Definition printHelp : M unit :=
  let! title := get _title in
  write title ;;!
  let! version := get _version in
  (if 0 <? zlen version then write [chr 9] ;;! write version else sret tt) ;;!
  writeLine [] ;;!
  let! description := get _description in
  writeLine description ;;!
  let! kvs := ask map_items in
  help_loop kvs.

(** The method returns, or the process ends with this code. *)
Inductive ending := Returned | Exited (code : Z).

(** [argv[i]]: NULL is at [argc]; what is beyond is not ours. *)
Definition argv_at (argv : list str) (i : Z) : res (option str) :=
  if i =? zlen argv then Ok None else let? a := of_option (zget argv i) in Ok (Some a).

Definition store_arg (text : str) : M unit := fun s =>
  match zset (_args s) (_arg_count s) text with
  | Some args => (Ok tt, with_args s args (u32 (_arg_count s + 1)))
  | None => (UB, s)
  end.

Fixpoint parse_loop (argv : list str) (i : Z) (fuel : nat) : M ending :=
  match fuel with
  | O => sfail
  | S fuel =>
      if i <? zlen argv then
        let! a := lift (argv_at argv i) in
        match a with
        | None => lift UB
        | Some arg =>
            if op_eq (lit "--help") arg || op_eq (lit "-h") arg then printHelp ;;! sret (Exited 1)
            else
              let! p := findArgByKey arg in
              match p with
              | Some _ =>
                  set_argument p setParsed ;;!
                  let! a := the_argument p in
                  if _has_value a then
                    let! v := lift (argv_at argv (i + 1)) in
                    let! v := lift (String_ptr v 0) in
                    let! v := lift (chars v) in
                    set_argument p (fun a => setValue a v) ;;!
                    parse_loop argv (i + 2) fuel
                  else parse_loop argv (i + 1) fuel
              | None => store_arg arg ;;! parse_loop argv (i + 1) fuel
              end
        end
      else sret Returned
  end.

Definition parse (argv : list str) : M ending :=
  modify (fun s => with_args s (replicate (length argv) []) 0) ;;!
  let! a := lift (argv_at argv 0) in
  modify (fun s => mkParser (_args s) (_arg_count s) (_title s) (_description s) (_version s) (default [] a) (_arguments s) (heap s) (console s)) ;;!
  parse_loop argv 1 (S (length argv)).

Definition ArgumentParser_new (title description version : str) (garbage : Z) : ArgumentParser :=
  mkParser [] garbage title description version [] map_new [] [].
End parser.
Arguments ArgumentParser D : clear implicits.

(** ** What the program gets from its command line *)

Definition is_help (arg : str) : bool := op_eq (lit "--help") arg || op_eq (lit "-h") arg.

(** The options in the order in which they were added, and the other arguments, after [rest]. *)
Fixpoint walk (opts : list Argument) (args rest : list str) : list Argument * list str * ending :=
  match rest with
  | [] => (opts, args, Returned)
  | arg :: rest =>
      if is_help arg then (opts, args, Exited 1)
      else match list_find (fun a => hasKey a arg) opts with
        | None => walk opts (args ++ [arg]) rest
        | Some (j, a) =>
            if _has_value a then
              match rest with
              | [] => (<[j := setValue (setParsed a) []]> opts, args, Returned)
              | v :: rest => walk (<[j := setValue (setParsed a) v]> opts) args rest
              end
            else walk (<[j := setParsed a]> opts) args rest
        end
  end.

(** The text of [printHelp]. *)
Definition help_line (a : Argument) : str :=
  [chr 9] ++ concat (map (fun k => k ++ lit " ") (_keys a)) ++ [chr 9] ++ _help a ++ [chr 10].
Definition help_text (title version description : str) (opts : list Argument) : str :=
  title ++ (if 0 <? zlen version then chr 9 :: version else []) ++ [chr 10] ++ description ++ [chr 10] ++
  concat (map help_line opts).

Lemma String_ptr_ok t : nul_free t -> zlen t < 2 ^ 31 -> exists s, String_ptr (Some t) 0 = Ok s /\ chars s = Ok t.
Proof.
  intros Hf Hl. pose proof (zlen_nonneg t). destruct (copy_repr String_new [] t (zlen t) repr_new) as (s & E & Hr & _); [lia|lia|..].
  exists s. rewrite ztake_ge in Hr by lia. split; [|by apply chars_repr]. unfold String_ptr. cbn [Z.eqb].
  by rewrite strlen_id, wrapU_small by (done || lia).
Qed.

Section laws.
Context {D : Type} `{MapOps D str ref, !Mapping D str ref}.
Implicit Types (s : ArgumentParser D) (opts : list Argument) (kvs : list (str * ref)) (h : list Argument).

Definition points h (kp : str * ref) (a : Argument) : Prop := exists i, kp.2 = Some i /\ h !! i = Some a.

(** The dictionary has these arguments. *)
Definition owned h kvs opts : Prop := Forall2 (points h) kvs opts /\ NoDup kvs.*2.
Definition holds s opts : Prop := exists kvs, stands_for (_arguments s) kvs /\ owned (heap s) kvs opts.

Lemma find_argument_ok key kvs opts s : Forall2 (points (heap s)) kvs opts ->
  exists p, find_loop key kvs s = (Ok p, s) /\
  match list_find (fun a => hasKey a key) opts with
  | None => p = None
  | Some (j, a) => exists k i, kvs !! j = Some (k, Some i) /\ p = Some i /\ heap s !! i = Some a /\ opts !! j = Some a
  end.
Proof.
  induction 1 as [|[k p] a kvs opts (i & Ep & Ei) Hall IH]; [by exists None|]. cbn in Ep. subst p. cbn [find_loop].
  unfold sbind at 1, the_argument at 1. cbn [mbind option_bind]. rewrite Ei. cbn [of_option list_find].
  destruct (hasKey a key) eqn:Ek.
  - rewrite decide_True by done. exists (Some i). split; [done|]. by exists k, i.
  - rewrite decide_False by (by intros []). destruct IH as (p & E & Hp). exists p. split; [exact E|].
    destruct (list_find _ opts) as [[j b]|]; cbn; [|done]. destruct Hp as (k' & i' & ? & ? & ? & ?). by exists k', i'.
Qed.

Lemma arguments_change h kvs opts j k i a b :
  owned h kvs opts -> kvs !! j = Some (k, Some i) -> opts !! j = Some a -> h !! i = Some a ->
  owned (<[i := b]> h) kvs (<[j := b]> opts).
Proof.
  intros [Hall Hnd] Ej Ea Ei. split; [|done]. apply Forall2_same_length_lookup_2.
  { rewrite length_insert. by eapply Forall2_length. }
  intros j' [k' p'] b' Ej' Eb. pose proof (lookup_lt_Some _ _ _ Ea). destruct (decide (j = j')) as [<-|Hne].
  - rewrite list_lookup_insert_eq in Eb by done. injection Eb as <-. pose proof (eq_trans (eq_sym Ej) Ej') as [= <- <-].
    exists i. split; [done|]. by apply list_lookup_insert_eq, (lookup_lt_Some _ _ _ Ei).
  - rewrite list_lookup_insert_ne in Eb by done.
    destruct (Forall2_lookup_lr _ _ _ _ _ _ Hall Ej' Eb) as (i' & Ep & Ei'). cbn in Ep. subst p'. exists i'. split; [done|].
    rewrite list_lookup_insert_ne; [done|]. intros ->. apply Hne.
    eapply (NoDup_lookup kvs.*2); [done|rewrite list_lookup_fmap; exact (f_equal (fmap snd) Ej)|rewrite list_lookup_fmap; exact (f_equal (fmap snd) Ej')].
Qed.

Lemma set_argument_ok i a f s : heap s !! i = Some a ->
  set_argument (Some i) f s = (Ok tt, with_arguments s (_arguments s) (<[i := f a]> (heap s))).
Proof. intros E. unfold set_argument. by rewrite E. Qed.

Lemma the_argument_ok i a s : heap s !! i = Some a -> the_argument (Some i) s = (Ok a, s).
Proof. intros E. unfold the_argument. cbn. by rewrite E. Qed.

(** *** printHelp *)

Lemma written_app s a b : written (written s a) b = written s (a ++ b).
Proof. unfold written. cbn. by rewrite <- app_assoc. Qed.

Lemma version_written s t : _version (written s t) = _version s.
Proof. done. Qed.
Lemma description_written s t : _description (written s t) = _description s.
Proof. done. Qed.
Lemma arguments_written s t : _arguments (written s t) = _arguments s.
Proof. done. Qed.

Lemma write_keys_ok ks s : write_keys ks s = (Ok tt, written s (concat (map (fun k => k ++ lit " ") ks))).
Proof.
  revert s. induction ks as [|k ks IH]; intros s; cbn [write_keys].
  - unfold written. cbn. rewrite app_nil_r. by destruct s.
  - unfold sbind, write, modify. rewrite IH, !written_app. cbn. by rewrite <- !app_assoc.
Qed.

Lemma help_loop_ok kvs opts : forall s, Forall2 (points (heap s)) kvs opts ->
  help_loop kvs s = (Ok tt, written s (concat (map help_line opts))).
Proof.
  intros s Hall. remember (heap s) as h eqn:Eh. revert s Eh.
  induction Hall as [|[k p] a kvs opts (i & Ep & Ei) Hall IH]; intros s Eh; cbn [help_loop].
  - unfold written. cbn. rewrite app_nil_r. by destruct s.
  - cbn in Ep. subst p. unfold writeLine, write, sbind, modify. rewrite (the_argument_ok i a) by (by rewrite <- Ei, Eh).
    cbv beta iota. rewrite write_keys_ok. cbv beta iota. rewrite IH by done. rewrite !written_app. do 2 f_equal. cbn [map concat]. unfold help_line. by rewrite <- !app_assoc.
Qed.

Lemma printHelp_ok s opts : holds s opts ->
  printHelp s = (Ok tt, written s (help_text (_title s) (_version s) (_description s) opts)).
Proof.
  intros (kvs & Hd & Hall & _). unfold printHelp, help_text, ask, sbind, get, writeLine, write, modify, sret.
  cbv beta iota. rewrite version_written. destruct (0 <? zlen (_version s)); cbv beta iota; rewrite !description_written, !arguments_written.
  all: rewrite (items_law _ _ Hd), (help_loop_ok kvs opts) by exact Hall; rewrite !written_app; by rewrite <- !app_assoc.
Qed.

(** *** add *)

Lemma add_argument_ok name r a s opts kvs :
  r = Ok a -> stands_for (_arguments s) kvs -> owned (heap s) kvs opts ->
  exists s', heap s' = heap s ++ [a] /\ _args s' = _args s /\ console s' = console s /\
  if mem name kvs
  then add_argument name r s = (Throw InvalidArgumentException, s') /\ stands_for (_arguments s') kvs /\ owned (heap s') kvs opts
  else add_argument name r s = (Ok tt, s') /\
    let kvs' := kvs ++ [(name, Some (length (heap s)))] in stands_for (_arguments s') kvs' /\ owned (heap s') kvs' (opts ++ [a]).
Proof.
  intros -> Hd [Hall Hnd]. unfold add_argument, sbind, lift. cbn [_arguments with_arguments heap].
  assert (Forall2 (points (heap s ++ [a])) kvs opts) as Hall'.
  { eapply Forall2_impl; [exact Hall|]. intros [k p] b (i & Ep & Ei). exists i. split; [done|]. by apply lookup_app_l_Some. }
  pose proof (add_law name (Some (length (heap s)) : ref) _ _ Hd) as Ha. destruct (mem name kvs).
  - rewrite Ha. exists (with_arguments s (_arguments s) (heap s ++ [a])). do 5 (split; [done|]). by split.
  - destruct Ha as (d & -> & Hd'). exists (with_arguments s d (heap s ++ [a])). do 5 (split; [done|]). split.
    + apply Forall2_app; [done|]. repeat constructor. exists (length (heap s)). split; [done|]. by apply list_lookup_middle.
    + rewrite fmap_app. apply NoDup_app. split_and!; [done| |by apply NoDup_singleton].
      intros p Hp ->%list_elem_of_singleton. apply list_elem_of_fmap in Hp as ([k p] & Ep & Hp).
      apply list_elem_of_lookup in Hp as [j Hj]. destruct (Forall2_lookup_l _ _ _ _ _ Hall Hj) as (b & _ & i & Ep' & Ei).
      cbn in Ep, Ep'. rewrite Ep' in Ep. injection Ep as Ep. apply lookup_lt_Some in Ei. cbn in Ei. lia.
Qed.
End laws.

(** ** parse *)

Section parse_laws.
Context {D : Type} `{MapOps D str ref, !Mapping D str ref}.
Implicit Types (s : ArgumentParser D) (opts : list Argument) (args rest : list str).

(** How a walk ends, seen in the objects: the arguments that are no options fill the front of [_args],
    and the help is written when the process ends. *)
Definition outcome s (w : list Argument * list str * ending) (r : res ending) s' : Prop :=
  let '(opts, args, e) := w in
  r = Ok e /\ holds s' opts /\ _arg_count s' = zlen args /\ (exists k, _args s' = args ++ replicate k []) /\
  _program s' = _program s /\
  console s' = console s ++ match e with
    | Returned => [] | Exited _ => help_text (_title s) (_version s) (_description s) opts end.

(** The members that the walk does not touch. *)
Definition same_texts s s' : Prop :=
  _title s' = _title s /\ _version s' = _version s /\ _description s' = _description s /\
  _program s' = _program s /\ console s' = console s.

Lemma outcome_same s s1 w r s' : same_texts s s1 -> outcome s1 w r s' -> outcome s w r s'.
Proof. intros (E1 & E2 & E3 & E4 & E5). destruct w as [[opts args] e]. unfold outcome. by rewrite E1, E2, E3, E4, E5. Qed.

(** A change of the object behind a pointer. *)
Lemma set_ok s opts kvs j k i a f :
  stands_for (_arguments s) kvs -> owned (heap s) kvs opts -> kvs !! j = Some (k, Some i) -> heap s !! i = Some a ->
  opts !! j = Some a -> exists s', set_argument (Some i) f s = (Ok tt, s') /\ same_texts s s' /\
    _args s' = _args s /\ _arg_count s' = _arg_count s /\ stands_for (_arguments s') kvs /\
    owned (heap s') kvs (<[j := f a]> opts) /\ heap s' !! i = Some (f a).
Proof.
  intros Hd Ho Ej Ei Ea. rewrite (set_argument_ok i a) by done.
  exists (with_arguments s (_arguments s) (<[i := f a]> (heap s))). split; [done|]. split; [done|]. do 2 (split; [done|]).
  split; [done|]. split; [by eapply arguments_change|]. by apply list_lookup_insert_eq, (lookup_lt_Some _ _ _ Ei).
Qed.

Lemma store_arg_ok s opts args k arg : holds s opts -> _args s = args ++ replicate (S k) [] -> _arg_count s = zlen args ->
  zlen args < 2 ^ 31 -> exists s', store_arg arg s = (Ok tt, s') /\ same_texts s s' /\ holds s' opts /\
    _args s' = (args ++ [arg]) ++ replicate k [] /\ _arg_count s' = zlen (args ++ [arg]).
Proof.
  intros Hh Ea En Hl. unfold store_arg. rewrite Ea, En. pose proof (zlen_nonneg args).
  rewrite zset_Some by (rewrite zlen_app, zlen_replicate; lia).
  assert (<[Z.to_nat (zlen args) := arg]> (args ++ replicate (S k) []) = (args ++ [arg]) ++ replicate k []) as ->.
  { unfold zlen. rewrite Nat2Z.id. rewrite insert_app_r_alt by lia. rewrite Nat.sub_diag. cbn. by rewrite <- app_assoc. }
  eexists. split; [reflexivity|]. split; [done|]. split; [exact Hh|]. split; [done|]. cbn. rewrite zlen_app. change (zlen [arg]) with 1.
  by rewrite wrapU_small by lia.
Qed.

Definition good_arg (arg : str) : Prop := nul_free arg /\ zlen arg < 2 ^ 31.

Lemma argv_at_app pre arg rest : argv_at (pre ++ arg :: rest) (zlen pre) = Ok (Some arg).
Proof.
  unfold argv_at. rewrite zlen_app, zlen_cons. pose proof (zlen_nonneg rest).
  replace (_ =? _) with false by lia. by rewrite zget_app_r, Z.sub_diag by lia.
Qed.

Lemma argv_at_end argv : argv_at argv (zlen argv) = Ok None.
Proof. unfold argv_at. by rewrite Z.eqb_refl. Qed.

Lemma parse_args_ok fuel : forall pre rest s opts args k,
  Forall good_arg rest -> holds s opts -> _args s = args ++ replicate k [] -> _arg_count s = zlen args ->
  (length rest <= k)%nat -> zlen args + zlen rest < 2 ^ 31 -> (length rest < fuel)%nat ->
  let '(r, s') := parse_loop (pre ++ rest) (zlen pre) fuel s in outcome s (walk opts args rest) r s'.
Proof.
  induction fuel as [|fuel IH]; intros pre rest s opts args k Hg Hh Ea En Hk Hl Hf; [lia|]. cbn [parse_loop].
  destruct rest as [|arg rest].
  { rewrite app_nil_r, Z.ltb_irrefl. cbn. split_and!; try done; [by exists k|by rewrite app_nil_r]. }
  apply Forall_cons_iff in Hg as [[Hn Hz] Hg]. rewrite zlen_cons in Hl. cbn [length] in *. pose proof (zlen_nonneg rest).
  replace (zlen pre <? zlen (pre ++ arg :: rest)) with true by (rewrite zlen_app, zlen_cons; lia).
  unfold sbind at 1, lift at 1. rewrite argv_at_app. cbn [walk]. fold (is_help arg). destruct (is_help arg).
  { unfold sbind. rewrite (printHelp_ok s opts Hh). cbn. destruct Hh as (kvs & Hd & Ho). split_and!; try done; [by exists kvs|by exists k]. }
  destruct Hh as (kvs & Hd & Ho). unfold sbind at 1, findArgByKey, sbind at 1, ask. rewrite (items_law _ _ Hd).
  destruct (find_argument_ok arg kvs opts s (proj1 Ho)) as (p & E & Hp). rewrite E.
  assert (forall pre' rest' s1 opts' args' k', pre ++ arg :: rest = pre' ++ rest' -> same_texts s s1 ->
    Forall good_arg rest' -> holds s1 opts' -> _args s1 = args' ++ replicate k' [] -> _arg_count s1 = zlen args' ->
    (length rest' <= k')%nat -> zlen args' + zlen rest' < 2 ^ 31 -> (length rest' < fuel)%nat ->
    let '(r, s') := parse_loop (pre ++ arg :: rest) (zlen pre') fuel s1 in outcome s (walk opts' args' rest') r s') as Hnext.
  { intros pre' rest' s1 opts' args' k' -> Hs1 Hg' Hh' Ea' En' Hk' Hl' Hf'.
    pose proof (IH pre' rest' s1 opts' args' k' Hg' Hh' Ea' En' Hk' Hl' Hf') as HIH.
    destruct (parse_loop _ _ _ _). by eapply outcome_same. }
  clear IH. assert (pre ++ arg :: rest = (pre ++ [arg]) ++ rest) as Eapp by (by rewrite <- app_assoc).
  assert (zlen pre + 1 = zlen (pre ++ [arg])) as E1 by (by rewrite zlen_app).
  destruct (list_find _ opts) as [[j a]|].
  - destruct Hp as (key & i & Ej & -> & Ei & Eo).
    destruct (set_ok s opts kvs j key i a setParsed Hd Ho Ej Ei Eo) as (s1 & Es1 & Ht1 & Ha1 & Hc1 & Hd1 & Ho1 & Ei1).
    unfold sbind at 1. rewrite Es1. unfold sbind at 1. rewrite (the_argument_ok i (setParsed a)) by done.
    cbn [setParsed _has_value]. destruct (_has_value a).
    + assert (zlen pre + 2 = zlen (pre ++ [arg]) + 1) as E2 by lia.
      assert (opts !! j = Some a -> (<[j := setParsed a]> opts) !! j = Some (setParsed a)) as Ej1
        by (intros ?%lookup_lt_Some; by apply list_lookup_insert_eq).
      unfold sbind at 1, lift at 1. rewrite E1. destruct rest as [|v rest].
      * rewrite argv_at_end.
        destruct (set_ok s1 _ kvs j key i (setParsed a) (fun a => setValue a []) Hd1 Ho1 Ej Ei1 (Ej1 Eo))
          as (s2 & Es2 & Ht2 & Ha2 & Hc2 & Hd2 & Ho2 & _).
        unfold sbind, lift. cbn [String_ptr]. change (chars String_new) with (Ok (@nil char)). cbv beta iota. rewrite Es2.
        destruct fuel as [|fuel]; [cbn in Hf; lia|]. cbn [parse_loop].
        replace (zlen pre + 2 <? _) with false by lia. cbn. rewrite list_insert_insert_eq in Ho2.
        destruct Ht1 as (? & ? & ? & ? & ?), Ht2 as (? & ? & ? & ? & ?).
        split_and!; [done|by exists kvs|congruence|exists k; congruence|congruence|rewrite app_nil_r; congruence].
      * rewrite Eapp, argv_at_app. apply Forall_cons_iff in Hg as [[Hvn Hvz] Hg].
        destruct (String_ptr_ok v Hvn Hvz) as (vs & Ev & Ec).
        destruct (set_ok s1 _ kvs j key i (setParsed a) (fun a => setValue a v) Hd1 Ho1 Ej Ei1 (Ej1 Eo))
          as (s2 & Es2 & Ht2 & Ha2 & Hc2 & Hd2 & Ho2 & _).
        unfold sbind, lift. rewrite Ev. cbv beta iota. rewrite Ec. cbv beta iota. rewrite Es2, <- Eapp.
        replace (zlen pre + 2) with (zlen (pre ++ [arg; v])) by (rewrite zlen_app; done).
        rewrite list_insert_insert_eq in Ho2. rewrite zlen_cons in *. cbn [length] in *.
        destruct Ht1 as (? & ? & ? & ? & ?), Ht2 as (? & ? & ? & ? & ?).
        apply (Hnext _ rest s2 _ args k); [by rewrite <- app_assoc|split_and!; congruence|done|by exists kvs|congruence|congruence|lia|lia|lia].
    + rewrite E1. apply (Hnext _ rest s1 _ args k); [done|done|done|by exists kvs|congruence|congruence|lia|lia|lia].
  - subst p. destruct k as [|k]; [lia|].
    destruct (store_arg_ok s opts args k arg (ex_intro _ kvs (conj Hd Ho)) Ea En) as (s1 & Es1 & Ht1 & Hh1 & Ha1 & Hc1); [lia|].
    unfold sbind. rewrite Es1, E1.
    apply (Hnext _ rest s1 _ (args ++ [arg]) k); try done; try lia. rewrite zlen_app. change (zlen [arg]) with 1. lia.
Qed.
End parse_laws.

(** ** The keys *)

(** A list of keys separated by commas. *)
Lemma parseKeys_ok keys :
  Forall (fun k => k <> [] /\ (","%char ∉ k)) keys -> keys <> [] -> nul_free (join "," keys) ->
  zlen (join "," keys) < 2 ^ 31 - 1 ->
  parseKeys (join "," keys) = Ok (map (fun k => trim_back (trim_front k)) keys).
Proof.
  intros Hk Hne Hf Hl. assert (Forall (fun k => ","%char ∉ k) keys) as Hc by (eapply Forall_impl; [exact Hk|]; naive_solver).
  pose proof (length_join "," keys) as Hlen. unfold parseKeys. rewrite count_char_spec by (done || lia).
  rewrite occurrences_join by done. cbn [bind].
  assert (zlen keys < 2 ^ 31) as Hzk by (unfold zlen in *; lia).
  pose proof (zlen_nonneg keys). rewrite Z.sub_add, wrapU_small, wrapS_small by lia.
  assert (forall n i, (i + n = length keys)%nat ->
    keys_loop (join "," keys) (Z.of_nat i) n = Ok (map (fun k => trim_back (trim_front k)) (drop i keys))) as Hloop.
  { induction n as [|n IH]; intros i Hi; cbn [keys_loop].
    - rewrite drop_ge by lia. done.
    - destruct (lookup_lt_is_Some_2 keys i) as [k Ek]; [lia|]. rewrite section_char_at; try done; [|unfold zlen in *; lia].
      rewrite Ek. rewrite Forall_forall in Hk. rewrite decide_False by (by apply Hk, (list_elem_of_lookup_2 _ i)). cbn [bind].
      replace (Z.of_nat i + 1) with (Z.of_nat (S i)) by lia. rewrite IH by lia. cbn [bind].
      by rewrite (drop_S _ _ _ Ek). }
  unfold zlen. rewrite Nat2Z.id. apply (Hloop _ 0%nat). lia.
Qed.

Section theorems.
Context {D : Type} `{MapOps D str ref, !Mapping D str ref}.

(** C20: refinement. [parse] of a command line does what [walk] does to its arguments: the objects of the
    options, the other arguments and what is printed are those of the walk. *)
Theorem parse_spec (s : ArgumentParser D) (opts : list Argument) (program : str) (rest : list str) :
  holds s opts -> Forall good_arg rest -> zlen rest < 2 ^ 31 ->
  let '(opts', args, e) := walk opts [] rest in
  exists s', parse (program :: rest) s = (Ok e, s') /\ holds s' opts' /\ _program s' = program /\
    _arg_count s' = zlen args /\ (exists k, _args s' = args ++ replicate k []) /\
    console s' = console s ++ match e with
      | Returned => [] | Exited _ => help_text (_title s) (_version s) (_description s) opts' end.
Proof.
  intros Hh Hg Hl. unfold parse, modify, sbind, lift.
  change (argv_at (program :: rest) 0) with (argv_at ([] ++ program :: rest) (zlen (@nil str))). rewrite argv_at_app. cbn [default].
  match goal with |- context [parse_loop _ _ _ ?s1] => pose proof (parse_args_ok (S (length (program :: rest))) [program] rest s1 opts [] (S (length rest))) as Hp end.
  cbn [app length] in Hp. change (zlen [program]) with 1 in Hp. destruct (parse_loop _ _ _ _) as [r s'].
  specialize (Hp Hg Hh eq_refl eq_refl ltac:(lia) Hl ltac:(lia)). unfold outcome in Hp.
  destruct (walk opts [] rest) as [[opts' args] e]. destruct Hp as (-> & ? & ? & ? & ? & ?). exists s'. by split_and!.
Qed.
End theorems.

(** ** Examples *)

Abbreviation Arguments_ := (Dictionary str ref).

(** The commands of a program, its command line, and what it sees then. *)
Definition session (setup : ST (ArgumentParser Arguments_) unit) (argv : list str) :
    res (ending * list (str * str * bool) * list str) :=
  let '(r, s) := (setup ;;! parse argv) (ArgumentParser_new (lit "t") (lit "d") (lit "1") 77) in
  let? e := r in
  Ok (e, map (fun a => (_name a, _value a, _was_parsed a)) (heap s), ztake (_arg_count s) (_args s)).

Definition sample_setup : ST (ArgumentParser Arguments_) unit :=
  add_flag (lit "verbose") (lit "-v, --verbose") (lit "talk") ;;!
  add_option (lit "port") (lit "-p,--port") (lit "number") (lit "80").

(** An option at the end of the line loses its default value; an option [-h] of the program is help; an
    empty key in a list takes whatever begins with a comma; and adding a name twice leaks an argument. *)
Theorem argument_defects :
  session sample_setup [lit "x"; lit "-v"; lit "file"; lit "-p"] =
    Ok (Returned, [(lit "verbose", [], true); (lit "port", [], true)], [lit "file"]) /\
  session (sample_setup ;;! add_flag (lit "host") (lit "-h") (lit "host")) [lit "x"; lit "-h"] =
    Ok (Exited 1, [(lit "verbose", [], false); (lit "port", lit "80", false); (lit "host", [], false)], []) /\
  session (add_flag (lit "a") (lit "-a,,-b") [] ;;! add_flag (lit "b") (lit "-b") []) [lit "x"; lit "-b"; lit ",-b"] =
    Ok (Returned, [(lit "a", [], true); (lit "b", [], false)], []) /\
  session (try (sample_setup ;;! sample_setup) (fun _ => sret tt)) [lit "x"; lit "-v"] =
    Ok (Returned, [(lit "verbose", [], true); (lit "port", lit "80", false); (lit "verbose", [], false)], []).
Proof. vm_compute. repeat split. Qed.

Example getBoolValue_1 :
  map (fun v => getBoolValue (mkArgument [] [] [] v true false)) [lit "true"; lit "false"; lit "1"; lit "0.5"; lit "yes"] =
  [true; false; true; false; false].
Proof. vm_compute. reflexivity. Qed.

(** ** Witness *)

Definition sample_opts : list Argument :=
  [mkArgument (lit "verbose") [lit "-v"; lit "--verbose"] (lit "talk") [] false false;
   mkArgument (lit "port") [lit "-p"; lit "--port"] (lit "number") (lit "80") true false].

Lemma sample_holds : exists s : ArgumentParser Arguments_, holds s sample_opts.
Proof.
  destruct (add_argument_ok (lit "verbose") (Argument_flag (lit "verbose") (lit "-v, --verbose") (lit "talk")) _
    (ArgumentParser_new (D := Arguments_) [] [] [] 0) [] [] eq_refl) as (s1 & Eh1 & _ & _ & _ & Hd1 & Ho1);
    [apply new_law|split; [by apply Forall2_nil_2|by apply NoDup_nil_2]|].
  destruct (add_argument_ok (lit "port") (Argument_option (lit "port") (lit "-p,--port") (lit "number") (lit "80")) _ s1 _ _ eq_refl Hd1 Ho1)
    as (s2 & _ & _ & _ & Hm).
  exists s2, ([(lit "verbose", Some 0%nat); (lit "port", Some (length (heap s1)))] : list (str * ref)).
  change (mem (lit "port") _) with false in Hm. destruct Hm as (_ & Hd2 & Ho2). by split.
Qed.

Lemma parse_spec_witness :
  exists s s' : ArgumentParser Arguments_, holds s sample_opts /\
    parse [lit "x"; lit "-v"; lit "file"; lit "--port"; lit "8080"] s = (Ok Returned, s') /\
    holds s' [mkArgument (lit "verbose") [lit "-v"; lit "--verbose"] (lit "talk") [] false true;
       mkArgument (lit "port") [lit "-p"; lit "--port"] (lit "number") (lit "8080") true true] /\ _arg_count s' = 1.
Proof.
  destruct sample_holds as [s Hs].
  destruct (parse_spec s sample_opts (lit "x") [lit "-v"; lit "file"; lit "--port"; lit "8080"] Hs) as (s' & E & Hh & _ & Hn & _).
  - repeat apply Forall_cons_2; [..|by apply Forall_nil_2]; by split; [repeat constructor|].
  - reflexivity.
  - exists s, s'. split; [exact Hs|]. split; [exact E|]. split; [exact Hh|exact Hn].
Defined.
