(* ===== verification/CheckSum.v ===== *)
(** * Check sums (src/cpp/src/util/CheckSum.cpp, src/cpp/include/srl/util/CheckSum.h)

    The running cipher sum over bytes and the 16-bit internet check sum.  The members are [int32]:
    where the code lets one overflow, which C++ leaves undefined, the model wraps around as the
    two's complement targets of the build do, and [cipher_overflows] shows that every first byte
    does it. *)

From S2P Require Import Prelude CString Str StrConv.

Record CheckSum := mkCheckSum { _c1 : Z; _r : Z; _c2 : Z; _sum : Z }.

(** The constructor and [clear()] *)
Definition clear : CheckSum := mkCheckSum 52845 55665 22719 0.

(** [uint32 value()] *)
Definition value (s : CheckSum) : Z := u32 (_sum s).

(** while (_fold >> 16) _fold = (_fold >> 16) + (_fold & 0xFFFF); *)
Fixpoint fold_loop (_fold : Z) (fuel : nat) : res Z :=
  match fuel with
  | O => NoFuel
  | S fuel' =>
      if Z.shiftr _fold 16 =? 0 then Ok _fold
      else fold_loop (u32 (Z.shiftr _fold 16 + Z.land _fold 65535)) fuel'
  end.

Definition value16 (s : CheckSum) : res Z :=
  let? f := fold_loop (u32 (_sum s)) 3 in Ok (u16 (Z.lnot f)).

Definition add_sum (s : CheckSum) (z : Z) : CheckSum := mkCheckSum (_c1 s) (_r s) (_c2 s) (s32 (_sum s + z)).

(** [doIpCheckSum(buf, len)]: [buf] is what the pointer sees as bytes of [uint16] in host order. *)
Fixpoint doIpCheckSum (buf : str) (s : CheckSum) : CheckSum :=
  match buf with
  | b1 :: b2 :: buf' => doIpCheckSum buf' (add_sum s (ord b1 + 256 * ord b2))
  | [b] => add_sum s (ord b)
  | [] => s
  end.

(** [_r = (cipher + _r) * _c1 + _c2], before it is stored in an [int32] *)
Definition next_r (s : CheckSum) (cipher : Z) : Z := (cipher + _r s) * _c1 s + _c2 s.

Definition add_byte (s : CheckSum) (val : char) : CheckSum :=
  let cipher := u8 (Z.lxor (ord val) (Z.shiftr (_r s) 8)) in
  mkCheckSum (_c1 s) (s32 (next_r s cipher)) (_c2 s) (s32 (_sum s + cipher)).

(** [add(byte* arry, int arry_size)], and the overloads that end there: the integers as their
    bytes, the string as its characters *)
Definition add_bytes (s : CheckSum) (arry : str) : CheckSum := foldl add_byte s arry.

Definition le_bytes (n : nat) (z : Z) : str :=
  (fun i => chr (Z.shiftr z (8 * i))) <$> seqZ 0 (Z.of_nat n).
Definition add_int16 (s : CheckSum) (val : Z) : CheckSum := add_bytes s (le_bytes 2 val).
Definition add_int32 (s : CheckSum) (val : Z) : CheckSum := add_bytes s (le_bytes 4 val).
Definition add_int64 (s : CheckSum) (val : Z) : CheckSum := add_bytes s (le_bytes 8 val).
Definition add_String (s : CheckSum) (val : str) : CheckSum := add_bytes s val.

Example sum_1 : value (add_String clear (lit "abc")) = 413. Proof. reflexivity. Qed.

(** ** Theorems *)

(** Every first byte overflows the [int32] the next key is computed in. *)
Theorem cipher_overflows val : 2 ^ 31 <= next_r clear (u8 (Z.lxor (ord val) (Z.shiftr (_r clear) 8))).
Proof.
  unfold next_r. cbn [_r _c1 _c2 clear].
  pose proof (wrapU_range 8 (Z.lxor (ord val) (Z.shiftr 55665 8)) ltac:(lia)). lia.
Qed.

(** One folding step keeps the value modulo 65535, and zero. *)
Lemma fold_step f :
  0 <= f < 2 ^ 32 -> 65536 <= f ->
  let g := Z.shiftr f 16 + Z.land f 65535 in
  0 < g <= 131070 /\ (exists k, f = g + 65535 * k) /\ (f <= 131070 -> g < 65536).
Proof.
  intros Hf Hge g. subst g. rewrite Z.shiftr_div_pow2 by lia. change 65535 with (Z.ones 16).
  rewrite Z.land_ones by lia. change (Z.ones 16) with 65535. change (2 ^ 16) with 65536.
  pose proof (Z.div_mod f 65536 ltac:(lia)). pose proof (Z.mod_pos_bound f 65536 ltac:(lia)).
  assert (1 <= f / 65536) by (apply Z.div_le_lower_bound; lia).
  assert (f / 65536 < 65536) by (apply Z.div_lt_upper_bound; lia).
  split; [lia|]. split; [exists (f / 65536); lia|]. intros Hs.
  assert (f / 65536 < 2) by (apply Z.div_lt_upper_bound; lia). lia.
Qed.

Lemma fold_loop_small f fuel : 0 <= f < 65536 -> fold_loop f (S fuel) = Ok f.
Proof.
  intros Hf. cbn [fold_loop]. rewrite Z.shiftr_div_pow2 by lia. by rewrite Z.div_small.
Qed.

Lemma fold_loop_big f fuel :
  65536 <= f < 2 ^ 32 -> fold_loop f (S fuel) = fold_loop (Z.shiftr f 16 + Z.land f 65535) fuel.
Proof.
  intros Hf. destruct (fold_step f) as (Hg & _); [lia|lia|]. cbn [fold_loop].
  rewrite (wrapU_small 32) by lia.
  assert (1 <= Z.shiftr f 16) by (rewrite Z.shiftr_div_pow2 by lia; apply Z.div_le_lower_bound; lia).
  by replace (Z.shiftr f 16 =? 0) with false by lia.
Qed.

(** The loop ends, within three rounds, in a 16-bit number congruent to the sum. *)
Lemma fold_loop_spec f :
  0 <= f < 2 ^ 32 ->
  exists g, fold_loop f 3 = Ok g /\ 0 <= g < 65536 /\ (exists k, f = g + 65535 * k) /\ (g = 0 <-> f = 0).
Proof.
  intros Hf. destruct (Z.ltb_spec f 65536) as [Hs|Hb].
  { exists f. rewrite fold_loop_small by lia. split; [done|]. split; [lia|]. split; [exists 0; lia|done]. }
  rewrite fold_loop_big by lia. destruct (fold_step f) as (Hg & (k & Hk) & _); [lia|lia|].
  set (g := Z.shiftr f 16 + Z.land f 65535) in *. clearbody g.
  destruct (Z.ltb_spec g 65536) as [Hs|Hb'].
  { exists g. rewrite fold_loop_small by lia. split; [done|]. split; [lia|]. split; [by exists k|lia]. }
  rewrite fold_loop_big by lia. destruct (fold_step g) as (Hg' & (k' & Hk') & Hlt); [lia|lia|].
  set (g' := Z.shiftr g 16 + Z.land g 65535) in *. clearbody g'.
  exists g'. rewrite fold_loop_small by lia. split; [done|]. split; [lia|]. split; [exists (k + k'); lia|lia].
Qed.

Lemma lnot_u16 g : 0 <= g < 65536 -> u16 (Z.lnot g) = 65535 - g.
Proof.
  intros Hg. unfold wrapU, Z.lnot. change (2 ^ 16) with 65536. symmetry.
  apply (Z.mod_unique_pos _ _ (-1)); lia.
Qed.

Lemma value16_ok s :
  exists g, value16 s = Ok (65535 - g) /\ 0 <= g < 65536 /\ (exists k, u32 (_sum s) = g + 65535 * k) /\
    (g = 0 <-> u32 (_sum s) = 0).
Proof.
  destruct (fold_loop_spec (u32 (_sum s))) as (g & E & Hg & Hk & H0); [apply wrapU_range; lia|].
  exists g. unfold value16. rewrite E. cbn [bind]. by rewrite lnot_u16.
Qed.

(** [value16] ends and is the ones' complement of the sum folded to 16 bits. *)
Theorem value16_spec s :
  exists v, value16 s = Ok v /\ 0 <= v < 65536 /\ (exists k, u32 (_sum s) + v = 65535 * k) /\
    (v = 65535 <-> u32 (_sum s) = 0).
Proof.
  destruct (value16_ok s) as (g & E & Hg & (k & Hk) & H0). exists (65535 - g).
  split; [done|]. split; [lia|]. split; [exists (k + 1); lia|lia].
Qed.

(** The sum of the 16-bit words of a text *)
Fixpoint words (buf : str) : Z :=
  match buf with
  | b1 :: b2 :: buf' => ord b1 + 256 * ord b2 + words buf'
  | [b] => ord b
  | [] => 0
  end.

Lemma words_bound buf : 0 <= 2 * words buf <= 65535 * (zlen buf + 1).
Proof.
  induction buf as [buf IH] using (induction_ltof1 _ length). unfold ltof in IH.
  destruct buf as [|b1 [|b2 buf]]; simpl words; rewrite ?zlen_cons; change (zlen (@nil ascii)) with 0 in *; [lia|..].
  - pose proof (ord_range b1). lia.
  - pose proof (ord_range b1). pose proof (ord_range b2). pose proof (zlen_nonneg buf).
    specialize (IH buf ltac:(simpl; lia)). lia.
Qed.

Lemma doIpCheckSum_words buf : forall s,
  0 <= _sum s -> 2 * _sum s + 65535 * (zlen buf + 1) < 2 ^ 32 ->
  _sum (doIpCheckSum buf s) = _sum s + words buf.
Proof.
  induction buf as [buf IH] using (induction_ltof1 _ length). unfold ltof in IH. intros s H0 Hl.
  assert (forall z, 0 <= z <= 65535 -> 2 * _sum s + 2 * z < 2 ^ 32 -> _sum (add_sum s z) = _sum s + z) as Hadd.
  { intros z Hz Hb. unfold add_sum. cbn [_sum]. apply wrapS_small; [lia|].
    change (2 ^ (32 - 1)) with (2 ^ 31). lia. }
  destruct buf as [|b1 [|b2 buf]]; simpl words; rewrite ?zlen_cons in *; change (zlen (@nil ascii)) with 0 in *; cbn [doIpCheckSum]; [lia|..].
  - pose proof (ord_range b1). rewrite Hadd by lia. done.
  - pose proof (ord_range b1). pose proof (ord_range b2). pose proof (zlen_nonneg buf).
    rewrite IH; rewrite ?Hadd by lia; simpl length; lia.
Qed.

(** A text whose words sum up to those of another and its check sum checks to 0. *)
Lemma value16_cancel a b v :
  zlen a < 65536 -> zlen b < 65536 -> words b = words a + v ->
  value16 (doIpCheckSum a clear) = Ok v -> value16 (doIpCheckSum b clear) = Ok 0.
Proof.
  intros Ha Hb Ew Hv. pose proof (words_bound a) as Wa. pose proof (words_bound b) as Wb.
  destruct (value16_ok (doIpCheckSum a clear)) as (g & E & Hg & (k & Hk) & H0).
  rewrite E in Hv. injection Hv as <-.
  destruct (value16_ok (doIpCheckSum b clear)) as (g' & E' & Hg' & (k' & Hk') & H0').
  rewrite E'. rewrite doIpCheckSum_words in Hk, H0, Hk', H0' by (cbn [_sum clear]; lia).
  cbn [_sum clear] in *. rewrite wrapU_small in * by lia. do 2 f_equal. lia.
Qed.

Lemma words_app a b : Nat.even (length a) = true -> words (a ++ b) = words a + words b.
Proof.
  induction a as [a IH] using (induction_ltof1 _ length). unfold ltof in IH.
  destruct a as [|x [|y a]]; intros He; simpl words; [done|done|]. simpl. rewrite IH by (done || simpl; lia). lia.
Qed.

Lemma words_le v : 0 <= v < 65536 -> words (le_bytes 2 v) = v.
Proof.
  intros Hv. unfold le_bytes. simpl. rewrite !ord_chr. unfold wrapU. rewrite !Z.shiftr_div_pow2 by lia.
  change (2 ^ (8 * 0)) with 1. change (2 ^ (8 * 1)) with 256. change (2 ^ 8) with 256.
  rewrite Z.div_1_r. pose proof (Z.div_mod v 256 ltac:(lia)).
  rewrite (Z.mod_small (v / 256)); [lia|]. split; [apply Z.div_pos; lia|apply Z.div_lt_upper_bound; lia].
Qed.

(** A message of whole words, sent with its check sum as the last word, checks to 0. *)
Theorem ip_checksum_verifies buf v :
  Nat.even (length buf) = true -> zlen buf < 65534 ->
  value16 (doIpCheckSum buf clear) = Ok v ->
  value16 (doIpCheckSum (buf ++ le_bytes 2 v) clear) = Ok 0.
Proof.
  intros He Hl Hv. pose proof (zlen_nonneg buf).
  destruct (value16_ok (doIpCheckSum buf clear)) as (g & E & Hg & _). rewrite E in Hv. injection Hv as <-.
  assert (zlen (le_bytes 2 (65535 - g)) = 2) as El by done.
  apply (value16_cancel buf _ (65535 - g)); [lia|rewrite zlen_app; lia| |done].
  by rewrite words_app, words_le by (done || lia).
Qed.

(** ** Witnesses *)

Lemma ip_checksum_verifies_witness :
  value16 (doIpCheckSum (lit "message!") clear) = Ok 40536 /\
  value16 (doIpCheckSum (lit "message!" ++ le_bytes 2 40536) clear) = Ok 0.
Proof. split; [reflexivity|apply ip_checksum_verifies; reflexivity]. Defined.
