(* ===== verification/IcmpMessage.v ===== *)
(** * ICMP messages (src/cpp/src/net/IcmpMessage.cpp, include/srl/net/IcmpMessage.h)

    A [RawMessage] builds echo requests in a [ByteBuffer], with the check sum of [CheckSum], and reads
    the replies that IcmpSocket::recvFrom receives into its buffer.  It keeps pointers into the buffer:
    a pointer is the number of the allocation it points into and an offset, and it dangles as soon as
    [realloc] moves the buffer, which it may do whenever the size changes.  The sender of a reply is
    kept as the four bytes of its address.  The time stamp is the eight bytes of a double; the times
    computed with it are left out. *)

From S2P Require Import Prelude State CString Str StrMem ByteBuffer CheckSum.

(** Message::Type, as far as the code looks at it *)
Definition ECHO_REPLY : Z := 0.
Definition DESTINATION_UNREACHABLE : Z := 3.
Definition ECHO_REQUEST : Z := 8.
Definition TIME_EXCEEDED : Z := 11.

(** The headers of IP and of ICMP, and the offsets of their fields *)
Definition IP_HEADER_SIZE : Z := 20.
Definition ip_ttl : Z := 8.
Definition ip_from : Z := 12.
Definition ip_to : Z := 16.
Definition HEADER_SIZE : Z := 8.
Definition icmp_type : Z := 0.
Definition icmp_code : Z := 1.
Definition icmp_checksum : Z := 2.
Definition icmp_id : Z := 4.
Definition icmp_seq : Z := 6.

Definition pointer : Type := nat * Z.

Record RawMessage := mkRaw {
  _buffer : ByteBuffer;
  block : nat;  (** the number of the allocation of the buffer *)
  _data_size : Z;
  _from : str;
  _ip_header : option pointer;
  _header : option pointer;
  _data : option pointer;
  _timestamp : option pointer
}.
Abbreviation M := (ST RawMessage).

Definition with_buffer m b :=
  mkRaw b (if ByteBuffer._size b =? ByteBuffer._size (_buffer m) then block m else S (block m)) (_data_size m) (_from m)
    (_ip_header m) (_header m) (_data m) (_timestamp m).
Definition with_data_size m n := mkRaw (_buffer m) (block m) n (_from m) (_ip_header m) (_header m) (_data m) (_timestamp m).
Definition with_from m a := mkRaw (_buffer m) (block m) (_data_size m) a (_ip_header m) (_header m) (_data m) (_timestamp m).
Definition with_ip_header m p := mkRaw (_buffer m) (block m) (_data_size m) (_from m) p (_header m) (_data m) (_timestamp m).
Definition with_header m p := mkRaw (_buffer m) (block m) (_data_size m) (_from m) (_ip_header m) p (_data m) (_timestamp m).
Definition with_data m p := mkRaw (_buffer m) (block m) (_data_size m) (_from m) (_ip_header m) (_header m) p (_timestamp m).
Definition with_timestamp m p := mkRaw (_buffer m) (block m) (_data_size m) (_from m) (_ip_header m) (_header m) (_data m) p.

Definition on_buffer (f : ByteBuffer -> res ByteBuffer) : M unit := fun m =>
  match f (_buffer m) with
  | Ok b => (Ok tt, with_buffer m b)
  | Throw e => (Throw e, m)
  | UB => (UB, m)
  | NoFuel => (NoFuel, m)
  end.

(** [&_buffer[i]], and what lies [off] behind a pointer *)
Definition at_index (i : Z) (m : RawMessage) : option pointer := Some (block m, i).
Definition store (p : RawMessage -> option pointer) (off : Z) (bytes : str) : M unit := fun m =>
  match p m with
  | Some (k, i) => if decide (k = block m) then on_buffer (fun b => bwrite b (i + off) (Some <$> bytes)) m else (UB, m)
  | None => (UB, m)
  end.
Definition load (p : RawMessage -> option pointer) (off n : Z) : M str := fun m =>
  match p m with
  | Some (k, i) => if decide (k = block m) then (let? cs := bread (_buffer m) (i + off) n in bytes_of cs, m) else (UB, m)
  | None => (UB, m)
  end.
Definition load_int (p : RawMessage -> option pointer) (off n : Z) : M Z := let! s := load p off n in sret (of_bytes s).

(** The fields of the message *)
Definition type : M Z := load_int _header icmp_type 1.
Definition code : M Z := load_int _header icmp_code 1.
Definition id : M Z := load_int _header icmp_id 2.
Definition sequence : M Z := load_int _header icmp_seq 2.
Definition checksum : M Z := load_int _header icmp_checksum 2.
Definition timeToLive : M Z := load_int _ip_header ip_ttl 1.

Definition sync (isOutbound : bool) : M unit :=
  let offset := if isOutbound then 0 else IP_HEADER_SIZE in
  (if isOutbound then sret tt
   else
     modify (fun m => with_ip_header m (at_index 0 m)) ;;!
     let! from := load _ip_header ip_from 4 in
     modify (fun m => with_from m from) ;;!
     modify (fun m => with_data_size m (u16 (_length (_buffer m) - HEADER_SIZE - IP_HEADER_SIZE + 8)))) ;;!
  modify (fun m => with_header m (at_index offset m)) ;;!
  if isOutbound then
    modify (fun m => with_data m (at_index (HEADER_SIZE + 8) m)) ;;!
    modify (fun m => with_timestamp m (at_index HEADER_SIZE m))
  else
    let! t := type in
    if (t =? TIME_EXCEEDED) || (t =? DESTINATION_UNREACHABLE) then
      let! from := load (at_index (IP_HEADER_SIZE + HEADER_SIZE)) ip_to 4 in
      modify (fun m => with_from m from) ;;!
      let! c := code in
      let offset := IP_HEADER_SIZE + HEADER_SIZE + IP_HEADER_SIZE in
      modify (fun m => with_header m (at_index offset m)) ;;!
      store _header icmp_type [chr t] ;;!
      store _header icmp_code [chr c] ;;!
      modify (fun m => with_timestamp m (at_index (offset + HEADER_SIZE) m)) ;;!
      let! time_stamp := load _timestamp 0 8 in
      modify (fun m => with_data_size m (u16 (_data_size m - 8)))
    else if t =? ECHO_REPLY then
      modify (fun m => with_data m (at_index (offset + HEADER_SIZE + 8) m)) ;;!
      modify (fun m => with_timestamp m (at_index (offset + HEADER_SIZE) m)) ;;!
      let! time_stamp := load _timestamp 0 8 in
      modify (fun m => with_data_size m (u16 (_data_size m - 8)))
    else sret tt.

(** [update(icmp_type, id, seq, msg_size, code)] *)
Definition update_type (icmp_type' id seq msg_size code : Z) : M unit :=
  let! size := get (fun m => _size (_buffer m)) in
  (if size <? msg_size then on_buffer (fun b => resize b msg_size) else sret tt) ;;!
  sync true ;;!
  store _header icmp_type [chr icmp_type'] ;;!
  store _header icmp_code [chr code] ;;!
  store _header icmp_id (to_bytes 2 id) ;;!
  store _header icmp_seq (to_bytes 2 seq) ;;!
  on_buffer (fun b => Ok (setLength b msg_size)).

Definition RawMessage_over (b : ByteBuffer) (n : Z) : RawMessage := mkRaw b 0 n [] None None None None.
Definition RawMessage_new (icmp_type' id seq msg_size code : Z) : res RawMessage :=
  let? b := BB_new msg_size in
  match update_type icmp_type' id seq msg_size code (RawMessage_over b 0) with
  | (Ok _, m) => Ok m
  | (Throw e, _) => Throw e
  | (UB, _) => UB
  | (NoFuel, _) => NoFuel
  end.
(** The constructor for incoming messages *)
Definition RawMessage_in (msg_size : Z) : res RawMessage :=
  let? b := BB_new msg_size in
  let? b := resize b msg_size in
  Ok (RawMessage_over b msg_size).

Definition deadmeat : Z := 0x474E4F50474E4950.
Definition deadnull : Z := 0x58.
Fixpoint write_loop (bytes : str) (n : nat) : M unit :=
  match n with
  | O => sret tt
  | S n => on_buffer (fun b => let? (b, _) := writeData b bytes in Ok b) ;;! write_loop bytes n
  end.

Definition fillData (data_size : Z) : M unit :=
  let fill_size := data_size - 8 in
  let! old := get _data_size in
  if negb (old =? fill_size) then
    on_buffer (fun b => setPosition b (HEADER_SIZE + 8)) ;;!
    let total := Z.quot fill_size 8 in
    let left := Z.rem fill_size 8 in
    write_loop (to_bytes 8 deadmeat) (Z.to_nat total) ;;!
    write_loop (to_bytes 1 deadnull) (Z.to_nat left) ;;!
    modify (fun m => with_data_size m (u16 fill_size))
  else sret tt.

(** [_buffer.bytes()], [_buffer.length()] of them *)
Definition packet (m : RawMessage) : res str :=
  let? cs := bread (_buffer m) 0 (_length (_buffer m)) in bytes_of cs.

Definition doChecksum : M unit :=
  let! bytes := fun m => (packet m, m) in
  let! v := lift (value16 (doIpCheckSum bytes clear)) in
  store _header icmp_checksum (to_bytes 2 v).

(** [update(id, sequence, data_size)], with the bytes of the system's timer *)
Definition update (id sequence data_size : Z) (timer : str) : M unit :=
  update_type ECHO_REQUEST id sequence (u16 (data_size + HEADER_SIZE)) 0 ;;!
  store _timestamp 0 timer ;;!
  store _header icmp_checksum (to_bytes 2 0) ;;!
  fillData data_size ;;!
  doChecksum.

(** IcmpSocket::recvFrom, when the system gives the bytes of a datagram, as many as there is room for *)
Definition recvFrom (datagram : str) : M Z :=
  let! size := get (fun m => _size (_buffer m)) in
  let received := ztake size datagram in
  on_buffer (fun b => bwrite b 0 (Some <$> received)) ;;!
  on_buffer (fun b => Ok (setLength b (zlen received))) ;;!
  sync false ;;!
  sret (zlen received).

(** ** The echo request *)

(** [n] bytes of data *)
Definition filler (n : Z) : str :=
  concat (replicate (Z.to_nat (n `quot` 8)) (to_bytes 8 deadmeat)) ++ concat (replicate (Z.to_nat (n `rem` 8)) (to_bytes 1 deadnull)).

Lemma zlen_concat_replicate n (t : str) : zlen (concat (replicate n t)) = Z.of_nat n * zlen t.
Proof. induction n as [|n IH]; [done|]. cbn [replicate concat]. rewrite zlen_app, IH. lia. Qed.

Lemma zlen_filler n : 0 <= n -> zlen (filler n) = n.
Proof.
  intros Hn. unfold filler. rewrite zlen_app, !zlen_concat_replicate. change (zlen (to_bytes 8 deadmeat)) with 8.
  change (zlen (to_bytes 1 deadnull)) with 1. pose proof (Z.quot_rem' n 8). pose proof (Z.rem_bound_pos n 8 ltac:(lia) ltac:(lia)).
  pose proof (Z.quot_pos n 8 ltac:(lia) ltac:(lia)). lia.
Qed.

(** A message with the cells [cells], behind a first allocation of its buffer, and an outbound one *)
Definition buffer_of (cells : list cell) (len pos : Z) : ByteBuffer := mkBB (Some cells) (zlen cells) len pos.
Definition outbound (cells : list cell) (len pos : Z) (k : nat) (n : Z) (a : str) (ip : option pointer) : RawMessage :=
  mkRaw (buffer_of cells len pos) k n a ip (Some (k, 0)) (Some (k, 16)) (Some (k, 8)).

(** What every message keeps: an allocated buffer with the data of [_data_size] bytes behind the header *)
Definition ready (m : RawMessage) : Prop := exists h junk,
  let cells := h ++ (Some <$> filler (_data_size m)) ++ junk in
  ByteBuffer._buffer (_buffer m) = Some cells /\ zlen h = 16 /\ _size (_buffer m) = zlen cells /\
  (16 | zlen cells) /\ zlen cells < 2 ^ 31 /\ 0 <= _data_size m < 2 ^ 16.

Lemma with_buffer_same m b : ByteBuffer._size b = ByteBuffer._size (_buffer m) ->
  with_buffer m b = mkRaw b (block m) (_data_size m) (_from m) (_ip_header m) (_header m) (_data m) (_timestamp m).
Proof. intros E. unfold with_buffer. by rewrite E, Z.eqb_refl. Qed.

Lemma yields_buffer f b m (Q : unit -> RawMessage -> Prop) : f (_buffer m) = Ok b -> Q tt (with_buffer m b) -> yields (on_buffer f) m Q.
Proof. intros E HQ. unfold yields, does, on_buffer. by rewrite E. Qed.

(** Storing bytes over cells of a message *)
Lemma yields_store p i off bytes m pre old post (Q : unit -> RawMessage -> Prop) :
  p m = Some (block m, i) -> ByteBuffer._buffer (_buffer m) = Some (pre ++ old ++ post) -> i + off = zlen pre -> zlen old = zlen bytes ->
  Q tt (mkRaw (set_buffer (_buffer m) (Some (pre ++ (Some <$> bytes) ++ post))) (block m) (_data_size m) (_from m) (_ip_header m)
    (_header m) (_data m) (_timestamp m)) ->
  yields (store p off bytes) m Q.
Proof.
  intros Ep Eb Ei El HQ. unfold yields, does, store. rewrite Ep, decide_True by done. unfold on_buffer.
  rewrite (bwrite_app _ pre old post) by (done || by rewrite zlen_fmap). rewrite with_buffer_same by done. exact HQ.
Qed.

Lemma outbound_store p i off bytes pre old post cells len pos k n a ip (Q : unit -> RawMessage -> Prop) :
  let m := outbound cells len pos k n a ip in
  p m = Some (k, i) -> cells = pre ++ old ++ post -> i + off = zlen pre -> zlen old = zlen bytes ->
  Q tt (outbound (pre ++ (Some <$> bytes) ++ post) len pos k n a ip) ->
  yields (store p off bytes) m Q.
Proof.
  intros m Ep -> Ei El HQ. apply (yields_store p i off bytes m pre old post); try done.
  cbn [m outbound _buffer block _data_size _from _ip_header _header _data _timestamp].
  replace (set_buffer _ _) with (buffer_of (pre ++ (Some <$> bytes) ++ post) len pos); [exact HQ|].
  unfold buffer_of, set_buffer. cbn [_size _length _pos]. f_equal. rewrite !zlen_app, zlen_fmap. lia.
Qed.

(** The sixteen bytes of the header and the time stamp, as cells *)
Lemma sixteen {A} (h : list A) : zlen h = 16 ->
  exists c0 c1 c2 c3 c4 c5 c6 c7 t, h = [c0; c1; c2; c3; c4; c5; c6; c7] ++ t /\ zlen t = 8.
Proof.
  intros Hh. do 8 (destruct h as [|? h]; [done|]). repeat rewrite zlen_cons in Hh. repeat eexists. lia.
Qed.

Definition header_text (type code check id seq : Z) : str :=
  [chr type; chr code] ++ to_bytes 2 check ++ to_bytes 2 id ++ to_bytes 2 seq.

Lemma sync_outbound cells len pos k n a ip hd d t (Q : unit -> RawMessage -> Prop) :
  Q tt (outbound cells len pos k n a ip) -> yields (sync true) (mkRaw (buffer_of cells len pos) k n a ip hd d t) Q.
Proof. intros HQ. unfold sync. by repeat (apply yields_bind; first [apply yields_ret | apply yields_modify]). Qed.

(** The buffer after room was made for the message: the cells stay, and there are more of them. *)
Lemma room_made m msg_size (Q : unit -> RawMessage -> Prop) : ready m -> 16 <= msg_size < 2 ^ 16 ->
  (forall h junk k, let cells := h ++ (Some <$> filler (_data_size m)) ++ junk in
    zlen h = 16 -> (16 | zlen cells) -> zlen cells < 2 ^ 31 -> msg_size <= zlen cells ->
    (zlen cells = msg_size -> _size (_buffer m) = msg_size) ->
    Q tt (mkRaw (buffer_of cells (_length (_buffer m)) (_pos (_buffer m))) k (_data_size m) (_from m) (_ip_header m) (_header m) (_data m) (_timestamp m))) ->
  yields (if _size (_buffer m) <? msg_size then on_buffer (fun b => resize b msg_size) else sret tt) m Q.
Proof.
  intros (h & junk & Hb & Hh & Hs & Hd & Hz & Hn) Hm HQ. cbn zeta in *.
  set (cells := h ++ (Some <$> filler (_data_size m)) ++ junk) in *.
  destruct (Z.ltb_spec (_size (_buffer m)) msg_size) as [Hlt|Hge].
  - destruct (bresize_spec (_buffer m) cells [] msg_size) as (rest & cap & E & Hc & Hcap & Hdiv);
      [by rewrite Hb, app_nil_r|by rewrite app_nil_r|lia|lia|].
    eapply yields_buffer; [exact E|]. unfold with_buffer. cbn [_size]. rewrite <- Hc.
    assert (cells ++ rest = h ++ (Some <$> filler (_data_size m)) ++ (junk ++ rest)) as Ec by (unfold cells; by rewrite <- !app_assoc).
    rewrite Ec in *. apply HQ; rewrite ?Hc; try done; lia.
  - apply yields_ret. specialize (HQ h junk (block m) Hh Hd Hz ltac:(fold cells; lia) ltac:(fold cells; lia)).
    fold cells in HQ. unfold buffer_of in HQ. rewrite <- Hs, <- Hb in HQ. by destruct m as [[]].
Qed.

Lemma update_type_ok m t id seq msg_size code (Q : unit -> RawMessage -> Prop) : ready m -> 16 <= msg_size < 2 ^ 16 ->
  (forall c2 c3 stamp junk k pos, let cells :=
      ([Some (chr t); Some (chr code); c2; c3] ++ (Some <$> to_bytes 2 id ++ to_bytes 2 seq) ++ stamp) ++ (Some <$> filler (_data_size m)) ++ junk in
    zlen stamp = 8 -> (16 | zlen cells) -> zlen cells < 2 ^ 31 -> msg_size <= zlen cells ->
    (zlen cells = msg_size -> _size (_buffer m) = msg_size) ->
    Q tt (outbound cells msg_size pos k (_data_size m) (_from m) (_ip_header m))) ->
  yields (update_type t id seq msg_size code) m Q.
Proof.
  intros Hr Hm HQ. unfold update_type. apply yields_bind, yields_get. apply yields_bind, (room_made m msg_size); [done|done|].
  intros h junk k cells Hh Hd Hz Hle Hsz. apply yields_bind, sync_outbound.
  destruct (sixteen h Hh) as (c0 & c1 & c2 & c3 & c4 & c5 & c6 & c7 & stamp & -> & Hst). subst cells.
  set (data := Some <$> filler (_data_size m)) in *. rewrite <- app_assoc in *. set (rest := stamp ++ data ++ junk) in *.
  apply yields_bind, (outbound_store _ 0 _ _ [] [c0] ([c1; c2; c3; c4; c5; c6; c7] ++ rest)); [done..|].
  apply yields_bind, (outbound_store _ 0 _ _ [Some (chr t)] [c1] ([c2; c3; c4; c5; c6; c7] ++ rest)); [done..|].
  apply yields_bind, (outbound_store _ 0 _ _ [Some (chr t); Some (chr code); c2; c3] [c4; c5] ([c6; c7] ++ rest)); [done..|].
  apply yields_bind, (outbound_store _ 0 _ _ ([Some (chr t); Some (chr code); c2; c3] ++ (Some <$> to_bytes 2 id)) [c6; c7] rest); [done..|].
  eapply yields_buffer; [done|]. rewrite with_buffer_same by done.
  specialize (HQ c2 c3 stamp junk k (_pos (_buffer m))). cbn zeta in HQ. fold data in HQ.
  assert (zlen (([Some (chr t); Some (chr code); c2; c3] ++ (Some <$> to_bytes 2 id ++ to_bytes 2 seq) ++ stamp) ++ data ++ junk) =
    zlen ([c0; c1; c2; c3; c4; c5; c6; c7] ++ rest)) as El by (unfold rest; cbn [to_bytes]; zlen_lia).
  rewrite El in HQ. specialize (HQ Hst Hd Hz Hle Hsz). exact HQ.
Qed.

(** A write that fits moves nothing. *)
Lemma writeData_fits pre old x q t len :
  zlen old = zlen t -> zlen (pre ++ old ++ x :: q) < 2 ^ 31 ->
  writeData (buffer_of (pre ++ old ++ x :: q) len (zlen pre)) t =
    Ok (buffer_of (pre ++ (Some <$> t) ++ Some NUL :: q) (zlen pre + zlen t) (zlen pre + zlen t), zlen t).
Proof.
  intros Ho Hz. rewrite !zlen_app, zlen_cons in Hz. pose proof (zlen_nonneg pre). pose proof (zlen_nonneg t). pose proof (zlen_nonneg q).
  cbn [writeData ByteBuffer_writer]. unfold bb_writeData. cbn [_size _pos buffer_of]. rewrite !zlen_app, zlen_cons.
  rewrite !wrapU_small by (rewrite ?wrapU_small; lia).
  replace (_ <=? _) with false by lia. cbn [bind].
  rewrite (bwrite_app _ pre old (x :: q)) by (done || by rewrite zlen_fmap). cbn [bind set_buffer set_pos setLength _pos buffer_of].
  rewrite wrapU_small by lia. rewrite (bwrite_app _ (pre ++ (Some <$> t)) [x] q);
    [|cbn; by rewrite <- app_assoc|rewrite zlen_app, zlen_fmap; lia|done].
  cbn [bind]. unfold buffer_of, set_buffer, set_pos, setLength. cbn [_size _length _pos]. rewrite <- app_assoc. cbn [app].
  do 2 f_equal. f_equal. zlen_lia.
Qed.

(** [n] copies of [t] behind [pre], and a terminator behind them *)
Lemma write_loop_ok t : 0 < zlen t -> forall n pre rest len k ds a ip (Q : unit -> RawMessage -> Prop),
  zlen pre + Z.of_nat n * zlen t < zlen (pre ++ rest) -> zlen (pre ++ rest) < 2 ^ 31 ->
  (forall rest', let pre' := pre ++ (Some <$> concat (replicate n t)) in
    zlen (pre' ++ rest') = zlen (pre ++ rest) ->
    Q tt (outbound (pre' ++ rest') (if decide (n = O) then len else zlen pre') (zlen pre') k ds a ip)) ->
  yields (write_loop t n) (outbound (pre ++ rest) len (zlen pre) k ds a ip) Q.
Proof.
  intros Ht. induction n as [|n IH]; intros pre rest len k ds a ip Q Hn Hz HQ; cbn [write_loop].
  - apply yields_ret. specialize (HQ rest). cbn in HQ. rewrite app_nil_r in HQ. by apply HQ.
  - rewrite zlen_app in Hn, Hz. pose proof (zlen_nonneg pre).
    destruct (split_len rest (zlen t)) as (old & r & -> & Ho); [lia|]. rewrite zlen_app in Hn, Hz.
    destruct r as [|x r]; [exfalso; change (zlen []) with 0 in Hn; lia|]. rewrite zlen_cons in Hn, Hz.
    apply yields_bind. eapply yields_buffer.
    { cbn [_buffer outbound]. rewrite writeData_fits by (done || rewrite !zlen_app, zlen_cons; lia). cbn [bind]. reflexivity. }
    rewrite with_buffer_same by (cbn [outbound _buffer buffer_of _size]; zlen_lia).
    cbn [outbound block _data_size _from _ip_header _header _data _timestamp]. rewrite app_assoc.
    assert (zlen (pre ++ (Some <$> t)) = zlen pre + zlen t) as El by (by rewrite zlen_app, zlen_fmap).
    rewrite <- El. fold (outbound ((pre ++ (Some <$> t)) ++ Some NUL :: r) (zlen (pre ++ (Some <$> t))) (zlen (pre ++ (Some <$> t))) k ds a ip).
    apply IH; [rewrite !zlen_app, zlen_fmap, zlen_cons; lia..|].
    intros rest' pre' Hr. specialize (HQ rest'). cbn zeta in HQ. cbn [replicate concat] in HQ. rewrite fmap_app, app_assoc in HQ.
    fold pre' in HQ. rewrite decide_False in HQ by done. 
    replace (if decide (n = O) then _ else _) with (zlen pre').
    + apply HQ. rewrite Hr. zlen_lia.
    + case_decide as En; [|done]. subst n pre'. cbn. by rewrite app_nil_r.
Qed.

Lemma filler_parts n : 0 <= n -> zlen (concat (replicate (Z.to_nat (n `quot` 8)) (to_bytes 8 deadmeat))) = 8 * (n `quot` 8) /\
  zlen (concat (replicate (Z.to_nat (n `rem` 8)) (to_bytes 1 deadnull))) = n `rem` 8 /\ 0 <= n `quot` 8 /\ 0 <= n `rem` 8 /\
  n = 8 * (n `quot` 8) + n `rem` 8.
Proof.
  intros Hn. rewrite !zlen_concat_replicate. change (zlen (to_bytes 8 deadmeat)) with 8. change (zlen (to_bytes 1 deadnull)) with 1.
  pose proof (Z.quot_rem' n 8). pose proof (Z.rem_bound_pos n 8 ltac:(lia) ltac:(lia)). pose proof (Z.quot_pos n 8 ltac:(lia) ltac:(lia)). lia.
Qed.

Lemma fillData_ok h junk d pos k ds a ip (Q : unit -> RawMessage -> Prop) :
  let cells := h ++ (Some <$> filler ds) ++ junk in
  zlen h = 16 -> 8 <= d < 2 ^ 16 -> zlen cells < 2 ^ 31 -> d + 8 < zlen cells \/ ds = d - 8 ->
  (forall junk' pos', let cells' := h ++ (Some <$> filler (d - 8)) ++ junk' in zlen cells' = zlen cells ->
    Q tt (outbound cells' (d + 8) pos' k (d - 8) a ip)) ->
  yields (fillData d) (outbound cells (d + 8) pos k ds a ip) Q.
Proof.
  intros cells Hh Hd Hz Hroom HQ. unfold fillData. apply yields_bind, yields_get. cbn [_data_size outbound].
  destruct (Z.eqb_spec ds (d - 8)) as [->|Hne]; cbn [negb]; [apply yields_ret; by apply HQ|].
  destruct Hroom as [Hroom|]; [|done]. unfold cells in *. set (rest := (Some <$> filler ds) ++ junk) in *.
  destruct (filler_parts (d - 8)) as (Ef1 & Ef2 & Hq & Hr & Ed); [lia|].
  apply yields_bind. eapply yields_buffer.
  { cbn [_buffer outbound]. unfold setPosition. cbn [_size buffer_of]. replace (_ <? _) with false by (change (HEADER_SIZE + 8) with 16; lia). reflexivity. }
  rewrite with_buffer_same by done. cbn [outbound block _data_size _from _ip_header _header _data _timestamp _buffer].
  change (set_pos (buffer_of (h ++ rest) (d + 8) pos) (HEADER_SIZE + 8)) with (buffer_of (h ++ rest) (d + 8) 16).
  replace (buffer_of (h ++ rest) (d + 8) 16) with (buffer_of (h ++ rest) (d + 8) (zlen h)) by (by rewrite Hh).
  fold (outbound (h ++ rest) (d + 8) (zlen h) k ds a ip).
  apply yields_bind, (write_loop_ok (to_bytes 8 deadmeat) ltac:(done)); [change (zlen (to_bytes 8 deadmeat)) with 8; lia|done|].
  intros rest1 pre1 H1. apply yields_bind, (write_loop_ok (to_bytes 1 deadnull) ltac:(done)).
  { change (zlen (to_bytes 1 deadnull)) with 1. rewrite H1. unfold pre1. rewrite zlen_app, zlen_fmap, Ef1. lia. }
  { by rewrite H1. }
  intros rest2 pre2 H2. apply yields_modify. 
  assert (pre2 ++ rest2 = h ++ (Some <$> filler (d - 8)) ++ rest2) as Ec.
  { unfold pre2, pre1, filler. by rewrite fmap_app, <- !app_assoc. }
  assert (zlen pre2 = d + 8) as El by (unfold pre2, pre1; rewrite !zlen_app, !zlen_fmap, Ef1, Ef2; lia).
  assert (zlen pre1 = 16 + 8 * ((d - 8) `quot` 8)) as El1 by (unfold pre1; rewrite zlen_app, zlen_fmap, Ef1; lia).
  replace (if decide (Z.to_nat ((d - 8) `rem` 8) = O) then _ else _) with (d + 8).
  - unfold with_data_size. cbn [outbound block _data_size _from _ip_header _header _data _timestamp _buffer].
    rewrite wrapU_small by lia. rewrite Ec. apply HQ. by rewrite <- Ec, H2, H1.
  - repeat case_decide; lia.
Qed.

(** The check sum over the message, and where it goes *)
Lemma doChecksum_ok b0 b1 c2 c3 text junk n pos k ds a ip (Q : unit -> RawMessage -> Prop) :
  n = 4 + zlen text -> (forall v, value16 (doIpCheckSum ([b0; b1; c2; c3] ++ text) clear) = Ok v -> 0 <= v < 65536 ->
    Q tt (outbound ((Some <$> [b0; b1] ++ to_bytes 2 v ++ text) ++ junk) n pos k ds a ip)) ->
  yields doChecksum (outbound ((Some <$> [b0; b1; c2; c3] ++ text) ++ junk) n pos k ds a ip) Q.
Proof.
  intros Hn HQ. unfold doChecksum. apply yields_bind.
  assert (packet (outbound ((Some <$> [b0; b1; c2; c3] ++ text) ++ junk) n pos k ds a ip) = Ok ([b0; b1; c2; c3] ++ text)) as E.
  { unfold packet. cbn [_buffer outbound _length buffer_of].
    rewrite (bread_app _ [] (Some <$> [b0; b1; c2; c3] ++ text) junk); [apply bytes_of_Some|done|done|].
    rewrite zlen_fmap, zlen_app. change (zlen [b0; b1; c2; c3]) with 4. lia. }
  unfold yields at 1, does. rewrite E. cbn [fst snd].
  destruct (value16_ok (doIpCheckSum ([b0; b1; c2; c3] ++ text) clear)) as (g & Ev & Hg & _).
  apply yields_bind. eapply yields_lift; [exact Ev|].
  rewrite fmap_app, <- app_assoc. change (Some <$> [b0; b1; c2; c3]) with ([Some b0; Some b1] ++ [Some c2; Some c3]). rewrite <- app_assoc.
  apply (outbound_store _ 0 _ _ [Some b0; Some b1] [Some c2; Some c3] ((Some <$> text) ++ junk)); [done..|].
  specialize (HQ (65535 - g) Ev ltac:(lia)). rewrite !fmap_app, <- !app_assoc in HQ. exact HQ.
Qed.

(** An echo request of [d] bytes: the header, the time, and the data *)
Definition echo_text (type code check id seq : Z) (body : str) : str :=
  [chr type; chr code] ++ to_bytes 2 check ++ to_bytes 2 id ++ to_bytes 2 seq ++ body.

Lemma echo_checks type code id seq body v : zlen body < 65528 -> 0 <= v < 65536 ->
  value16 (doIpCheckSum (echo_text type code 0 id seq body) clear) = Ok v ->
  value16 (doIpCheckSum (echo_text type code v id seq body) clear) = Ok 0.
Proof.
  intros Hl Hv. apply value16_cancel; [unfold echo_text; cbn [to_bytes]; zlen_lia..|].
  pose proof (words_le v Hv) as Hw. change (le_bytes 2 v) with (to_bytes 2 v) in Hw.
  cbn [to_bytes words] in Hw. unfold echo_text. cbn [to_bytes app words].
  change (chr (Z.shiftr 0 8)) with NUL. change (chr 0) with NUL. change (ord NUL) with 0. lia.
Qed.

Lemma update_ok m id seq d timer (Q : unit -> RawMessage -> Prop) : ready m -> 8 <= d < 2 ^ 16 - 8 -> zlen timer = 8 ->
  _size (_buffer m) <> d + 8 \/ _data_size m = d - 8 ->
  (forall m' v, packet m' = Ok (echo_text ECHO_REQUEST 0 v id seq (timer ++ filler (d - 8))) ->
    value16 (doIpCheckSum (echo_text ECHO_REQUEST 0 v id seq (timer ++ filler (d - 8))) clear) = Ok 0 ->
    ready m' -> _data_size m' = d - 8 -> Q tt m') ->
  yields (update id seq d timer) m Q.
Proof.
  intros Hr Hd Ht Hroom HQ. unfold update. rewrite wrapU_small by (change HEADER_SIZE with 8; lia). change HEADER_SIZE with 8.
  apply yields_bind, update_type_ok; [done|lia|]. intros c2 c3 stamp junk k pos cells Hst Hdiv Hz Hle Hsz.
  set (ds := _data_size m) in *. set (names := to_bytes 2 id ++ to_bytes 2 seq) in *.
  assert (zlen cells = zlen junk + 16 + zlen (filler ds)) as Ec.
  { unfold cells. rewrite !zlen_app, !zlen_fmap, Hst. unfold names. change (zlen (to_bytes 2 id ++ to_bytes 2 seq)) with 4.
    change (zlen [Some (chr ECHO_REQUEST); Some (chr 0); c2; c3]) with 4. lia. }
  apply yields_bind, (outbound_store _ 8 _ _ ([Some (chr ECHO_REQUEST); Some (chr 0); c2; c3] ++ (Some <$> names)) stamp ((Some <$> filler ds) ++ junk));
    [done|unfold cells; by rewrite <- !app_assoc|done|by rewrite Hst|].
  apply yields_bind, (outbound_store _ 0 _ _ [Some (chr ECHO_REQUEST); Some (chr 0)] [c2; c3]
    ((Some <$> names) ++ (Some <$> timer) ++ (Some <$> filler ds) ++ junk)); [done|by rewrite <- !app_assoc|done|done|].
  set (h := Some <$> ([chr ECHO_REQUEST; chr 0; NUL; NUL] ++ names ++ timer)).
  assert (zlen h = 16) as Hh by (unfold h, names; cbn [to_bytes]; zlen_lia).
  replace ([Some (chr ECHO_REQUEST); Some (chr 0)] ++ _) with (h ++ (Some <$> filler ds) ++ junk)
    by (unfold h; rewrite !fmap_app, <- !app_assoc; done).
  assert (zlen (h ++ (Some <$> filler ds) ++ junk) = zlen cells) as Eh by (rewrite Ec, !zlen_app, Hh, zlen_fmap; lia).
  apply yields_bind, fillData_ok; [done|lia|lia| |].
  { rewrite Eh. destruct Hroom as [Hroom|]; [left|by right]. destruct (Z.eq_dec (zlen cells) (d + 8)) as [E|]; [|lia]. by destruct Hroom; apply Hsz. }
  intros junk' pos' cells' Hc. set (body := timer ++ filler (d - 8)).
  pose proof (zlen_filler (d - 8) ltac:(lia)) as Hf.
  replace cells' with ((Some <$> [chr ECHO_REQUEST; chr 0; NUL; NUL] ++ (names ++ body)) ++ junk')
    by (unfold cells', h, body; rewrite !fmap_app, <- !app_assoc; done).
  apply doChecksum_ok; [unfold names, body; cbn [to_bytes]; zlen_lia|].
  intros v Hv Hrange. apply (HQ _ v).
  - unfold packet. cbn [_buffer outbound _length buffer_of].
    rewrite (bread_app _ [] (Some <$> [chr ECHO_REQUEST; chr 0] ++ to_bytes 2 v ++ names ++ body) junk'); [|done|done|].
    + cbn [bind]. rewrite bytes_of_Some. unfold echo_text, names. by rewrite <- !app_assoc.
    + unfold names, body. cbn [to_bytes]. zlen_lia.
  - apply echo_checks; [unfold body; rewrite zlen_app, Hf, Ht; lia|done|]. unfold echo_text.
    unfold names in Hv. rewrite <- !app_assoc in Hv. exact Hv.
  - exists (Some <$> ([chr ECHO_REQUEST; chr 0] ++ to_bytes 2 v ++ names ++ timer)), junk'. cbn [outbound _data_size _buffer].
    assert ((Some <$> [chr ECHO_REQUEST; chr 0] ++ to_bytes 2 v ++ names ++ body) ++ junk' =
      (Some <$> [chr ECHO_REQUEST; chr 0] ++ to_bytes 2 v ++ names ++ timer) ++ (Some <$> filler (d - 8)) ++ junk') as <-.
    { unfold body. rewrite !fmap_app, <- !app_assoc. done. }
    assert (zlen ((Some <$> [chr ECHO_REQUEST; chr 0] ++ to_bytes 2 v ++ names ++ body) ++ junk') = zlen cells) as E.
    { rewrite <- Eh, <- Hc. unfold cells', h, body, names. cbn [to_bytes]. rewrite !fmap_app. zlen_lia. }
    rewrite E. split_and!; try done; lia.
  - done.
Qed.


(** ** The reply *)

(** A message with a buffer *)
Definition allocated (m : RawMessage) : Prop := exists cells,
  ByteBuffer._buffer (_buffer m) = Some cells /\ _size (_buffer m) = zlen cells.

(** [m] has received [text], which fills [cells] up to [rest]. *)
Definition holds (m : RawMessage) (text : str) (rest : list cell) : Prop :=
  ByteBuffer._buffer (_buffer m) = Some ((Some <$> text) ++ rest).

Lemma load_ok p i off n m text rest : holds m text rest -> p m = Some (block m, i) ->
  0 <= i + off -> 0 <= n -> i + off + n <= zlen text -> load p off n m = (Ok (zsub (i + off) n text), m).
Proof.
  intros Hm Ep Hi Hn Hl. unfold load. rewrite Ep, decide_True by done. f_equal.
  assert (text = ztake (i + off) text ++ zsub (i + off) n text ++ zdrop n (zdrop (i + off) text)) as Et
    by (unfold zsub; by rewrite ztake_zdrop, ztake_zdrop).
  unfold holds in Hm. rewrite Et in Hm. rewrite !fmap_app, <- !app_assoc in Hm.
  assert (zlen (zsub (i + off) n text) = n) as Hz by (unfold zsub; rewrite zlen_take, zlen_drop; lia).
  rewrite (bread_app _ _ (Some <$> zsub (i + off) n text) _ _ n Hm); [apply bytes_of_Some|rewrite zlen_fmap, zlen_take; lia|by rewrite zlen_fmap].
Qed.

Lemma yields_load p i off n m text rest (Q : str -> RawMessage -> Prop) : holds m text rest -> p m = Some (block m, i) ->
  0 <= i + off -> 0 <= n -> i + off + n <= zlen text -> Q (zsub (i + off) n text) m -> yields (load p off n) m Q.
Proof. intros Hm Ep Hi Hn Hl HQ. unfold yields, does. by rewrite (load_ok p i off n m text rest). Qed.

Lemma received_ok m datagram (Q : Z -> RawMessage -> Prop) : allocated m -> zlen datagram <= _size (_buffer m) ->
  (forall rest, yields (sync false ;;! sret (zlen datagram))
    (mkRaw (buffer_of ((Some <$> datagram) ++ rest) (zlen datagram) (_pos (_buffer m))) (block m) (_data_size m) (_from m) (_ip_header m)
      (_header m) (_data m) (_timestamp m)) Q) ->
  yields (recvFrom datagram) m Q.
Proof.
  intros (cells & Hb & Hs) Hl HQ. unfold recvFrom. apply yields_bind, yields_get.
  replace (ztake (_size (_buffer m)) datagram) with datagram by (symmetry; apply take_ge; unfold zlen in Hl; lia).
  pose proof (zlen_nonneg datagram). destruct (split_len cells (zlen datagram)) as (old & rest & -> & Ho); [lia|].
  apply yields_bind. eapply yields_buffer; [rewrite (bwrite_app _ [] old rest); [reflexivity|done|done|by rewrite zlen_fmap]|].
  rewrite with_buffer_same by done. apply yields_bind. eapply yields_buffer; [done|].
  rewrite with_buffer_same by done. specialize (HQ rest). unfold buffer_of in HQ.
  replace (zlen ((Some <$> datagram) ++ rest)) with (_size (_buffer m)) in HQ by (rewrite Hs, !zlen_app, zlen_fmap; lia). exact HQ.
Qed.

(** What the accessors give, when they all succeed *)
Definition reads_as (m : RawMessage) (t c i s ttl : Z) : Prop :=
  type m = (Ok t, m) /\ code m = (Ok c, m) /\ id m = (Ok i, m) /\ sequence m = (Ok s, m) /\ timeToLive m = (Ok ttl, m).

Lemma load_int_ok p i off n m text rest : holds m text rest -> p m = Some (block m, i) ->
  0 <= i + off -> 0 <= n -> i + off + n <= zlen text -> load_int p off n m = (Ok (of_bytes (zsub (i + off) n text)), m).
Proof. intros Hm Ep Hi Hn Hl. unfold load_int, sbind. by rewrite (load_ok p i off n m text rest). Qed.

Lemma of_byte z : 0 <= z < 256 -> of_bytes [chr z] = z.
Proof. intros Hz. cbn [of_bytes]. rewrite ord_chr, wrapU_small by lia. rewrite Z.shiftl_0_l. lia. Qed.
Lemma of_word z : 0 <= z < 65536 -> of_bytes (to_bytes 2 z) = z.
Proof. intros Hz. by apply (bytes_roundtrip 2). Qed.

(** The accessors read the header that [_header] points to. *)
Lemma reads_ok m text rest h t c i s : holds m text rest -> _header m = Some (block m, h) -> _ip_header m = Some (block m, 0) ->
  20 <= h -> h + 8 <= zlen text -> 0 <= t < 256 -> 0 <= c < 256 -> 0 <= i < 65536 -> 0 <= s < 65536 ->
  zsub (h + icmp_type) 1 text = [chr t] -> zsub (h + icmp_code) 1 text = [chr c] ->
  zsub (h + icmp_id) 2 text = to_bytes 2 i -> zsub (h + icmp_seq) 2 text = to_bytes 2 s ->
  reads_as m t c i s (of_bytes (zsub ip_ttl 1 text)).
Proof.
  intros Hm Eh Eip H20 Hl Ht Hc Hi Hs Et Ec Ei Es. unfold icmp_type, icmp_code, icmp_id, icmp_seq in *.
  unfold reads_as, type, code, id, sequence, timeToLive, icmp_type, icmp_code, icmp_id, icmp_seq, ip_ttl. split_and!.
  - rewrite (load_int_ok _ h 0 1 m text rest) by (done || lia). by rewrite Et, of_byte.
  - rewrite (load_int_ok _ h 1 1 m text rest) by (done || lia). by rewrite Ec, of_byte.
  - rewrite (load_int_ok _ h 4 2 m text rest) by (done || lia). by rewrite Ei, of_word.
  - rewrite (load_int_ok _ h 6 2 m text rest) by (done || lia). by rewrite Es, of_word.
  - by rewrite (load_int_ok _ 0 8 1 m text rest) by (done || lia).
Qed.

Ltac fields := cbn [with_buffer with_data_size with_from with_ip_header with_header with_data with_timestamp
  _buffer block _data_size _from _ip_header _header _data _timestamp _length buffer_of].

(** From an echo reply of the peer the message has its code, id and sequence number, and from the header of
    IP the sender and the time to live. *)
Theorem echo_reply_spec m ip c check i s timer data : allocated m -> zlen ip = 20 -> zlen timer = 8 ->
  0 <= c < 256 -> 0 <= i < 65536 -> 0 <= s < 65536 ->
  let datagram := ip ++ echo_text ECHO_REPLY c check i s (timer ++ data) in
  zlen datagram <= _size (_buffer m) -> zlen datagram < 65536 ->
  exists m', recvFrom datagram m = (Ok (zlen datagram), m') /\
    reads_as m' ECHO_REPLY c i s (of_bytes (zsub 8 1 ip)) /\ _from m' = zsub 12 4 ip /\ _data_size m' = 8 + zlen data.
Proof.
  intros Ha Hip Ht Hc Hi Hs datagram Hl H16.
  assert (yields (recvFrom datagram) m (fun n m' => n = zlen datagram /\
    reads_as m' ECHO_REPLY c i s (of_bytes (zsub 8 1 ip)) /\ _from m' = zsub 12 4 ip /\ _data_size m' = 8 + zlen data)) as Hy.
  2:{ apply yields_Ok in Hy as (n & m' & E & -> & H). exists m'. by split. }
  apply received_ok; [done|done|]. intros rest.
  assert (zlen datagram = 36 + zlen data) as El by (unfold datagram, echo_text; cbn [to_bytes]; zlen_lia).
  pose proof (zlen_nonneg data).
  do 20 (destruct ip as [|? ip]; [done|]). destruct ip; [|exfalso; revert Hip; zlen_lia].
  do 8 (destruct timer as [|? timer]; [done|]). destruct timer; [|exfalso; revert Ht; zlen_lia].
  apply yields_bind. unfold sync. apply yields_bind. apply yields_bind, yields_modify. apply yields_bind.
  apply (yields_load _ 0 _ _ _ datagram rest); [done|done|done|done|change (0 + ip_from + 4) with 16; lia|].
  apply yields_bind, yields_modify, yields_modify. apply yields_bind, yields_modify.
  fields. apply yields_bind. unfold type at 1, load_int. apply yields_bind.
  apply (yields_load _ 20 _ _ _ datagram rest); [done|done|done|done|change (20 + icmp_type + 1) with 21; lia|].
  apply yields_ret. change (of_bytes (zsub (20 + icmp_type) 1 datagram)) with 0.
  change ((0 =? TIME_EXCEEDED) || (0 =? DESTINATION_UNREACHABLE)) with false. change (0 =? ECHO_REPLY) with true. cbv iota.
  apply yields_bind, yields_modify. apply yields_bind, yields_modify. fields. apply yields_bind.
  apply (yields_load _ 28 _ _ _ datagram rest); [done|done|done|done|lia|].
  apply yields_modify. fields. apply yields_ret.
  assert (u16 (u16 (zlen datagram - HEADER_SIZE - IP_HEADER_SIZE + 8) - 8) = 8 + zlen data) as ->.
  { change HEADER_SIZE with 8. change IP_HEADER_SIZE with 20. rewrite El in *. rewrite !wrapU_small; rewrite ?wrapU_small; lia. }
  split; [done|]. split; [|done].
  apply (reads_ok _ datagram rest 20); done || lia.
Qed.

(** When a router answers that the time is exceeded or the destination unreachable, the message has the id
    and sequence number of the request that it quotes, and the address that this was sent to. *)
Theorem error_reply_spec m ip t c check a b ip2 t0 c0 check0 i s timer data : allocated m ->
  zlen ip = 20 -> zlen ip2 = 20 -> zlen timer = 8 -> t = TIME_EXCEEDED \/ t = DESTINATION_UNREACHABLE ->
  0 <= c < 256 -> 0 <= i < 65536 -> 0 <= s < 65536 ->
  let datagram := ip ++ echo_text t c check a b (ip2 ++ echo_text t0 c0 check0 i s (timer ++ data)) in
  zlen datagram <= _size (_buffer m) -> zlen datagram < 65536 ->
  exists m', recvFrom datagram m = (Ok (zlen datagram), m') /\
    reads_as m' t c i s (of_bytes (zsub 8 1 ip)) /\ _from m' = zsub 16 4 ip2 /\ _data_size m' = 36 + zlen data.
Proof.
  intros Ha Hip Hip2 Ht Htt Hc Hi Hs datagram Hl H16.
  assert (yields (recvFrom datagram) m (fun n m' => n = zlen datagram /\
    reads_as m' t c i s (of_bytes (zsub 8 1 ip)) /\ _from m' = zsub 16 4 ip2 /\ _data_size m' = 36 + zlen data)) as Hy.
  2:{ apply yields_Ok in Hy as (n & m' & E & -> & H). exists m'. by split. }
  apply received_ok; [done|done|]. intros rest.
  assert (zlen datagram = 64 + zlen data) as El by (unfold datagram, echo_text; cbn [to_bytes]; zlen_lia).
  pose proof (zlen_nonneg data).
  do 20 (destruct ip as [|? ip]; [done|]). destruct ip; [|exfalso; revert Hip; zlen_lia].
  do 20 (destruct ip2 as [|? ip2]; [done|]). destruct ip2; [|exfalso; revert Hip2; zlen_lia].
  do 8 (destruct timer as [|? timer]; [done|]). destruct timer; [|exfalso; revert Ht; zlen_lia].
  apply yields_bind. unfold sync. apply yields_bind. apply yields_bind, yields_modify. apply yields_bind.
  apply (yields_load _ 0 _ _ _ datagram rest); [done|done|done|done|change (0 + ip_from + 4) with 16; lia|].
  apply yields_bind, yields_modify, yields_modify. apply yields_bind, yields_modify.
  fields. apply yields_bind. unfold type at 1, load_int. apply yields_bind.
  apply (yields_load _ 20 _ _ _ datagram rest); [done|done|done|done|change (20 + icmp_type + 1) with 21; lia|].
  apply yields_ret. change (zsub (20 + icmp_type) 1 datagram) with [chr t].
  assert (0 <= t < 256) as Ht256 by (by destruct Htt as [-> | ->]). rewrite (of_byte t Ht256).
  replace ((t =? TIME_EXCEEDED) || (t =? DESTINATION_UNREACHABLE)) with true by (by destruct Htt as [-> | ->]).
  apply yields_bind. apply (yields_load _ 28 _ _ _ datagram rest); [done|done|done|done|change (28 + ip_to + 4) with 48; lia|].
  apply yields_bind, yields_modify. fields.
  apply yields_bind. unfold code at 1, load_int. apply yields_bind.
  apply (yields_load _ 20 _ _ _ datagram rest); [done|done|done|done|change (20 + icmp_code + 1) with 22; lia|].
  apply yields_ret. change (zsub (20 + icmp_code) 1 datagram) with [chr c]. rewrite (of_byte c Hc).
  apply yields_bind, yields_modify. fields.
  change (IP_HEADER_SIZE + HEADER_SIZE + IP_HEADER_SIZE) with 48. change (48 + HEADER_SIZE) with 56.
  set (front := ztake 48 datagram). set (back := zdrop 50 datagram).
  assert (zlen back = 14 + zlen data) as Eb by (unfold back; rewrite zlen_drop, El; lia).
  assert (zlen front = 48) as Ef by (unfold front; rewrite zlen_take, El; lia).
  apply yields_bind.
  apply (yields_store _ 48 _ _ _ (Some <$> front) [Some (chr t0)] ((Some <$> [chr c0] ++ back) ++ rest)); [done|done|done|done|]. fields.
  apply yields_bind.
  apply (yields_store _ 48 _ _ _ (Some <$> front ++ [chr t]) [Some (chr c0)] ((Some <$> back) ++ rest)); [done|done|done|done|]. fields.
  set (received := front ++ [chr t] ++ [chr c] ++ back).
  assert (zlen received = zlen datagram) as Er by (unfold received; zlen_lia).
  apply yields_bind, yields_modify. fields. apply yields_bind.
  apply (yields_load _ 56 _ _ _ received rest); [done|done|done|done|lia|].
  apply yields_modify. fields. apply yields_ret.
  assert (u16 (u16 (zlen datagram - HEADER_SIZE - IP_HEADER_SIZE + 8) - 8) = 36 + zlen data) as Ed.
  { change HEADER_SIZE with 8. change IP_HEADER_SIZE with 20. rewrite El in *. rewrite !wrapU_small; rewrite ?wrapU_small; lia. }
  split; [done|]. split; [|done].
  apply (reads_ok _ received rest 48); done || lia.
Qed.

(** ** Messages to evaluate *)

(** The message of an IcmpSocket, and its message for replies *)
Definition fresh : RawMessage :=
  match RawMessage_new ECHO_REQUEST 0 0 32 0 with Ok m => m | _ => RawMessage_over (mkBB None 0 0 0) 0 end.
Definition for_replies : RawMessage :=
  match RawMessage_in 1024 with Ok m => m | _ => RawMessage_over (mkBB None 0 0 0) 0 end.

Definition timer_text : str := lit "12345678".
(** Two requests with data of the sizes [d1] and [d2], one after the other *)
Definition ping (d1 d2 : Z) : res unit * res str :=
  let '(r, m) := (update 7 1 d1 timer_text ;;! update 7 2 d2 timer_text) fresh in (r, packet m).

Example ping_1 : ping 56 20 = (Ok tt, Ok (echo_text 8 0 21296 7 2 (timer_text ++ lit "PINGPONGXXXX"))).
Proof. vm_compute. reflexivity. Qed.

(** When a message is as large as the buffer and its data has to be written, the last write moves the
    buffer, and the pointers to the header dangle; data of less than eight bytes cuts the time stamp
    off. *)
Theorem icmp_defects :
  (ping 40 40).1 = UB /\ (ping 56 72).1 = UB /\ (ping 72 56).1 = Ok tt /\
  (exists v, ping 56 4 = (Ok tt, Ok (echo_text 8 0 v 7 2 (lit "1234")))).
Proof. split_and!; [vm_compute; reflexivity..|]. exists 39306. vm_compute. reflexivity. Qed.

(** ** Witnesses *)

Lemma fresh_ready : ready fresh.
Proof.
  exists ([Some (chr 8); Some NUL; None; None; Some NUL; Some NUL; Some NUL; Some NUL] ++ replicate 8 None), (replicate 31 None ++ [Some NUL]).
  vm_compute. split_and!; try done. by exists 3.
Qed.

Lemma for_replies_allocated : allocated for_replies.
Proof. eexists. by vm_compute. Qed.


(** A header of IP from 10.0.0.1, with a time to live of 64 *)
Definition some_ip : str := replicate 8 NUL ++ [chr 64] ++ replicate 3 NUL ++ [chr 10; NUL; NUL; chr 1] ++ [chr 10; NUL; NUL; chr 2].

Lemma echo_reply_spec_witness :
  exists m', recvFrom (some_ip ++ echo_text ECHO_REPLY 0 9 7 1 (timer_text ++ lit "data")) for_replies = (Ok 40, m') /\
    reads_as m' ECHO_REPLY 0 7 1 64 /\ _from m' = [chr 10; NUL; NUL; chr 1] /\ _data_size m' = 12.
Proof.
  apply (echo_reply_spec for_replies some_ip 0 9 7 1 timer_text (lit "data") for_replies_allocated);
    first [reflexivity | lia | vm_compute; discriminate].
Defined.

Lemma error_reply_spec_witness :
  exists m', recvFrom (some_ip ++ echo_text TIME_EXCEEDED 1 9 0 0 (some_ip ++ echo_text ECHO_REQUEST 0 5 7 1 (timer_text ++ []))) for_replies =
      (Ok 64, m') /\
    reads_as m' TIME_EXCEEDED 1 7 1 64 /\ _from m' = [chr 10; NUL; NUL; chr 2] /\ _data_size m' = 36.
Proof.
  apply (error_reply_spec for_replies some_ip TIME_EXCEEDED 1 9 0 0 some_ip ECHO_REQUEST 0 5 7 1 timer_text [] for_replies_allocated);
    first [reflexivity | lia | left; reflexivity | vm_compute; discriminate].
Defined.
