(* ===== verification/Random.v ===== *)
(** * The Mersenne Twister (src/cpp/src/math/Random.cpp, src/cpp/include/srl/math/Random.h)

    The state vector, its initialisation and reloading, the tempered output and the bounded output.
    The floating-point outputs and the constructor that reads the clock are not modelled. *)

From S2P Require Import Prelude.

Definition M : Z := 397.
Definition N : Z := 624.

(** [_next] is an index into [_values]. *)
Record Random := mkRandom { _values : list Z; _next : Z; _remaining : Z }.

Definition hiBit (u : Z) : Z := Z.land u 0x80000000.
Definition loBit (u : Z) : Z := Z.land u 0x00000001.
Definition loBits (u : Z) : Z := Z.land u 0x7fffffff.
Definition mixBits (u v : Z) : Z := Z.lor (hiBit u) (loBits v).
Definition twist (m s0 s1 : Z) : Z :=
  Z.lxor (Z.lxor m (Z.shiftr (mixBits s0 s1) 1)) (Z.land (u32 (- loBit s1)) 0x9908b0df).

(** The recurrence of the initial values *)
Definition init_next (r i : Z) : Z := u32 (1812433253 * Z.lxor r (Z.shiftr r 30) + i).
Fixpoint init_loop (r i : Z) (n : nat) : list Z :=
  match n with
  | O => []
  | S n' => let s := init_next r i in s :: init_loop s (i + 1) n'
  end.

(** [*p = twist(p[off], p[0], p[1])] at [p], [n] times *)
Fixpoint reload_loop (v : list Z) (p off : Z) (n : nat) : res (list Z) :=
  match n with
  | O => Ok v
  | S n' =>
      let? m := of_option (zget v (p + off)) in
      let? s0 := of_option (zget v p) in
      let? s1 := of_option (zget v (p + 1)) in
      let? v := of_option (zset v p (twist m s0 s1)) in
      reload_loop v (p + 1) off n'
  end.

Definition reload (t : Random) : res Random :=
  let? v := reload_loop (_values t) 0 M (Z.to_nat (N - M)) in
  let? v := reload_loop v (N - M) (M - N) (Z.to_nat (M - 1)) in
  let p := N - 1 in
  let? m := of_option (zget v (p + (M - N))) in
  let? s0 := of_option (zget v p) in
  let? s1 := of_option (zget v 0) in
  let? v := of_option (zset v p (twist m s0 s1)) in
  Ok (mkRandom v 0 N).

Definition initialize (seed : Z) : res Random :=
  let s := u32 seed in
  reload (mkRandom (s :: init_loop s 1 (Z.to_nat (N - 1))) 0 0).

Definition temper (s1 : Z) : Z :=
  let s1 := Z.lxor s1 (Z.shiftr s1 11) in
  let s1 := Z.lxor s1 (Z.land (u32 (Z.shiftl s1 7)) 0x9d2c5680) in
  let s1 := Z.lxor s1 (Z.land (u32 (Z.shiftl s1 15)) 0xefc60000) in
  Z.lxor s1 (Z.shiftr s1 18).

Definition randomInt (t : Random) : res (Z * Random) :=
  let? t := if _remaining t =? 0 then reload t else Ok t in
  let? s1 := of_option (zget (_values t) (_next t)) in
  Ok (temper s1, mkRandom (_values t) (_next t + 1) (_remaining t - 1)).

(** The bits used by [n] *)
Definition smear (n : Z) : Z :=
  let used := Z.lor n (Z.shiftr n 1) in
  let used := Z.lor used (Z.shiftr used 2) in
  let used := Z.lor used (Z.shiftr used 4) in
  let used := Z.lor used (Z.shiftr used 8) in
  Z.lor used (Z.shiftr used 16).

(** do i = randomInt() & used; while (i > n); *)
Fixpoint draw (t : Random) (used n : Z) (fuel : nat) : res (Z * Random) :=
  match fuel with
  | O => NoFuel
  | S fuel' =>
      let? (r, t) := randomInt t in
      let i := Z.land r used in
      if n <? i then draw t used n fuel' else Ok (i, t)
  end.
Definition randomInt_to (t : Random) (n : Z) (fuel : nat) : res (Z * Random) := draw t (smear n) n fuel.

(** The first outputs for the seed 5489 are those of the published generator. *)
Example random_1 :
  (let? t := initialize 5489 in
   let? (a, t) := randomInt t in let? (b, t) := randomInt t in Ok (a, b)) = Ok (3499211612, 581869302).
Proof. vm_compute. reflexivity. Qed.

(** ** Theorems on the state *)

(** [k]-th value of the sequence that the state before and after a reload make *)
Definition recurs (s : list Z) (k : Z) : Prop :=
  exists m a b, zget s (k + M) = Some m /\ zget s k = Some a /\ zget s (k + 1) = Some b /\
    zget s (k + N) = Some (twist m a b).

(** The first [p] values of [v] are new, the others are those of [old]. *)
Definition renewed (old v : list Z) (p : Z) : Prop :=
  zlen v = N /\ (forall j, p <= j < N -> zget v j = zget old j) /\
  (forall j, 0 <= j < p -> recurs (old ++ v) j).

Ltac consts := unfold M, N in *.

(** One step: the value at [p] is renewed from what the pointer reads. *)
Lemma renewed_step old v p m a b :
  zlen old = N -> renewed old v p -> 0 <= p < N ->
  zget (old ++ v) (p + M) = Some m -> zget v p = Some a -> zget (old ++ v) (p + 1) = Some b ->
  exists v', zset v p (twist m a b) = Some v' /\ renewed old v' (p + 1).
Proof.
  intros Ho (Hv & Hrest & Hrec) Hp Hm Ha Hb. rewrite zset_Some by lia. eexists. split; [done|].
  assert (forall i j, i < p + N -> i = j -> zget (old ++ <[Z.to_nat p := twist m a b]> v) i = zget (old ++ v) j) as Hsame.
  { intros i j Hi <-. destruct (Z.ltb_spec i (zlen old)); [by rewrite !zget_app_l by lia|].
    rewrite !zget_app_r by lia. rewrite zget_insert by lia.
    by replace (p =? i - zlen old) with false by lia. }
  split_and!.
  - by rewrite zlen_insert.
  - intros j Hj. rewrite zget_insert by lia. replace (p =? j) with false by lia. apply Hrest. lia.
  - intros j Hj. destruct (decide (j = p)) as [->|Hne].
    + exists m, a, b. consts. rewrite (Hsame (p + 397) (p + 397)), (Hsame p p), (Hsame (p + 1) (p + 1)) by lia.
      split_and!; [done| |done|].
      * rewrite zget_app_l by lia. by rewrite <- Hrest by lia.
      * rewrite zget_app_r by lia. replace (p + 624 - zlen old) with p by lia.
        rewrite zget_insert by lia. by rewrite Z.eqb_refl.
    + destruct (Hrec j) as (m' & a' & b' & H1 & H2 & H3 & H4); [lia|]. exists m', a', b'. consts.
      rewrite (Hsame (j + 397) (j + 397)), (Hsame j j), (Hsame (j + 1) (j + 1)), (Hsame (j + 624) (j + 624)) by lia.
      done.
Qed.

(** The loop, reading the middle word ahead ([off = M]) or among the renewed ([off = M - N]). *)
Lemma reload_loop_spec old off n : forall v p,
  zlen old = N -> renewed old v p -> 0 <= p -> p + Z.of_nat n < N ->
  (off = M /\ p + Z.of_nat n <= N - M) \/ (off = M - N /\ N - M <= p) ->
  exists v', reload_loop v p off n = Ok v' /\ renewed old v' (p + Z.of_nat n).
Proof.
  induction n as [|n IH]; intros v p Ho Hr Hp Hn Hoff.
  { exists v. split; [done|]. by rewrite Z.add_0_r. }
  pose proof Hr as (Hv & Hrest & Hrec). cbn [reload_loop].
  destruct (zget_is_Some v p) as [a Ha]; [lia|].
  destruct (zget_is_Some v (p + 1)) as [b Hb]; [lia|].
  assert (exists m, zget v (p + off) = Some m /\ zget (old ++ v) (p + M) = Some m) as (m & Hm & Hm').
  { destruct Hoff as [[-> Hle]|[-> Hle]].
    - destruct (zget_is_Some v (p + M)) as [m Hm]; [consts; lia|]. exists m. split; [done|].
      rewrite zget_app_l by (consts; lia). rewrite <- Hrest; [done|consts; lia].
    - destruct (zget_is_Some v (p + (M - N))) as [m Hm]; [consts; lia|]. exists m. split; [done|].
      rewrite zget_app_r by (consts; lia). rewrite <- Hm. f_equal. lia. }
  assert (zget (old ++ v) (p + 1) = Some b) as Hb'.
  { rewrite zget_app_l by lia. rewrite <- Hb. symmetry. apply Hrest. lia. }
  destruct (renewed_step old v p m a b Ho Hr) as (v' & E & Hr'); [lia|done..|].
  rewrite Hm, Ha, Hb. cbn [of_option bind]. rewrite E. cbn [of_option bind].
  destruct (IH v' (p + 1) Ho Hr') as (v'' & E' & Hr''); [lia|lia| |].
  { destruct Hoff as [[-> ?]|[-> ?]]; [left|right]; (split; [done|lia]). }
  exists v''. split; [done|]. by replace (p + Z.of_nat (S n)) with (p + 1 + Z.of_nat n) by lia.
Qed.

(** A reload continues the recurrence of the Mersenne Twister. *)
Lemma reload_ok t :
  zlen (_values t) = N ->
  exists t', reload t = Ok t' /\ zlen (_values t') = N /\ _next t' = 0 /\ _remaining t' = N /\
    forall k, 0 <= k < N -> recurs (_values t ++ _values t') k.
Proof.
  intros Hl. set (old := _values t) in *.
  assert (renewed old old 0) as H0 by (split_and!; [done|done|intros; lia]).
  destruct (reload_loop_spec old M (Z.to_nat (N - M)) old 0 Hl H0) as (v1 & E1 & H1);
    [lia|consts; lia|left; consts; split; [done|lia]|].
  destruct (reload_loop_spec old (M - N) (Z.to_nat (M - 1)) v1 (N - M) Hl) as (v2 & E2 & H2);
    [exact H1|consts; lia|consts; lia|right; split; [done|lia]|].
  unfold reload. fold old. rewrite E1. cbn [bind]. rewrite E2. cbn [bind].
  replace (N - M + Z.of_nat (Z.to_nat (M - 1))) with (N - 1) in H2 by (consts; lia).
  pose proof H2 as (Hv & Hrest & Hrec).
  destruct (zget_is_Some v2 (N - 1 + (M - N))) as [m Hm]; [consts; lia|].
  destruct (zget_is_Some v2 (N - 1)) as [a Ha]; [consts; lia|].
  destruct (zget_is_Some v2 0) as [b Hb]; [consts; lia|].
  destruct (renewed_step old v2 (N - 1) m a b Hl H2) as (v3 & E3 & H3); [consts; lia| |done| |].
  { rewrite zget_app_r by (consts; lia). rewrite <- Hm. f_equal. lia. }
  { rewrite zget_app_r by (consts; lia). rewrite <- Hb. f_equal. lia. }
  rewrite Hm, Ha, Hb. cbn [of_option bind]. rewrite E3. cbn [of_option bind].
  destruct H3 as (Hv3 & _ & Hrec3). eexists. split; [done|]. cbn [_values _next _remaining].
  split_and!; [done..|]. intros k Hk. apply Hrec3. lia.
Qed.

(** ** The generator never leaves its state vector *)

Definition word (z : Z) : Prop := 0 <= z < 2 ^ 32.

Lemma word_land_l a b : 0 <= a -> word b -> word (Z.land a b).
Proof.
  intros Ha [Hb1 Hb2]. split; [apply Z.land_nonneg; by right|].
  destruct (decide (Z.land a b = 0)) as [->|Hne]; [lia|].
  assert (0 <= Z.land a b) by (apply Z.land_nonneg; by right).
  apply Z.log2_lt_pow2; [lia|]. eapply Z.le_lt_trans; [by apply Z.log2_land|].
  eapply Z.le_lt_trans; [apply Z.le_min_r|]. destruct (decide (b = 0)) as [->|]; [simpl; lia|].
  apply Z.log2_lt_pow2; lia.
Qed.

Lemma word_bits z : 0 <= z -> (forall i, 32 <= i -> Z.testbit z i = false) -> word z.
Proof.
  intros Hz Hb. split; [done|]. destruct (decide (z = 0)) as [->|Hne]; [lia|].
  apply Z.log2_lt_pow2; [lia|]. destruct (Z.ltb_spec (Z.log2 z) 32); [done|].
  exfalso. pose proof (Z.bit_log2 z ltac:(lia)) as Ht. rewrite Hb in Ht; [done|lia].
Qed.

Lemma word_high z i : word z -> 32 <= i -> Z.testbit z i = false.
Proof.
  intros [Hz Hl] Hi. destruct (decide (z = 0)) as [->|]; [apply Z.bits_0|].
  apply Z.bits_above_log2; [done|]. eapply Z.lt_le_trans; [|exact Hi]. apply Z.log2_lt_pow2; lia.
Qed.

Lemma word_lxor a b : word a -> word b -> word (Z.lxor a b).
Proof.
  intros Ha Hb. apply word_bits.
  - apply Z.lxor_nonneg. split; intros; [apply Hb|apply Ha].
  - intros i Hi. by rewrite Z.lxor_spec, !word_high.
Qed.

Lemma word_lor a b : word a -> word b -> word (Z.lor a b).
Proof.
  intros Ha Hb. apply word_bits.
  - apply Z.lor_nonneg. split; [apply Ha|apply Hb].
  - intros i Hi. by rewrite Z.lor_spec, !word_high.
Qed.

Lemma word_shiftr a k : word a -> 0 <= k -> word (Z.shiftr a k).
Proof.
  intros Ha Hk. apply word_bits; [apply Z.shiftr_nonneg, Ha|].
  intros i Hi. rewrite Z.shiftr_spec by lia. apply word_high; [done|lia].
Qed.

Lemma word_u32 z : word (u32 z).
Proof. apply wrapU_range. lia. Qed.

Lemma word_const z : (0 <=? z) && (z <? 4294967296) = true -> word z.
Proof. unfold word. change (2 ^ 32) with 4294967296. lia. Qed.

Create HintDb word.
#[export] Hint Resolve word_lxor word_lor word_shiftr word_u32 word_land_l : word.
#[export] Hint Extern 1 (word _) => apply word_const; reflexivity : word.
#[export] Hint Extern 1 (0 <= _) => lia : word.

Lemma word_nonneg z : word z -> 0 <= z.
Proof. by intros [? _]. Qed.
#[export] Hint Resolve word_nonneg : word.

Lemma word_twist m a b : word m -> word a -> word b -> word (twist m a b).
Proof. intros. unfold twist, mixBits, hiBit, loBits. auto 10 with word. Qed.

Lemma word_temper s : word s -> word (temper s).
Proof. intros. unfold temper. auto 20 with word. Qed.

(** The invariant: 624 words, of which [_remaining] from [_next] on are not used yet. *)
Definition rinv (t : Random) : Prop :=
  zlen (_values t) = N /\ Forall word (_values t) /\ 0 <= _next t /\ 0 <= _remaining t /\
  _next t + _remaining t = N.

Lemma zget_Forall {A} (P : A -> Prop) l i x : Forall P l -> zget l i = Some x -> P x.
Proof.
  intros H. unfold zget. case_match; [done|]. intros E. rewrite Forall_lookup in H. by eapply H.
Qed.

Lemma Forall_zget {A} (P : A -> Prop) l :
  (forall i x, 0 <= i < zlen l -> zget l i = Some x -> P x) -> Forall P l.
Proof.
  intros H. apply Forall_lookup. intros i x Hi. pose proof (lookup_lt_Some _ _ _ Hi).
  apply (H (Z.of_nat i)); [unfold zlen; lia|]. rewrite zget_lookup by lia. by rewrite Nat2Z.id.
Qed.

Lemma reload_inv t : zlen (_values t) = N -> Forall word (_values t) ->
  exists t', reload t = Ok t' /\ rinv t' /\ _remaining t' = N.
Proof.
  intros Hl Hw. destruct (reload_ok t Hl) as (t' & E & Hl' & Hn & Hr & Hrec).
  exists t'. split; [done|]. split; [|done]. unfold rinv. rewrite Hn, Hr. split_and!; [done| |lia|done|done].
  assert (forall k, (k < 624)%nat -> forall x, zget (_values t') (Z.of_nat k) = Some x -> word x) as H.
  { induction k as [k IH] using (well_founded_induction lt_wf). intros Hk x Hx.
    destruct (Hrec (Z.of_nat k)) as (m & a & b & Hm & Ha & Hb & Hc); [consts; lia|].
    rewrite zget_app_r in Hc by lia. replace (Z.of_nat k + N - zlen (_values t)) with (Z.of_nat k) in Hc by lia.
    rewrite Hx in Hc. injection Hc as ->.
    assert (forall i y, i < Z.of_nat k + N -> zget (_values t ++ _values t') i = Some y -> word y) as Hy.
    { intros i y Hi Hz. destruct (Z.ltb_spec i N).
      - rewrite zget_app_l in Hz by lia. by eapply zget_Forall.
      - rewrite zget_app_r in Hz by lia. apply (IH (Z.to_nat (i - N))); [lia|consts; lia|].
        rewrite Z2Nat.id by lia. by rewrite <- Hl. }
    apply word_twist; [apply (Hy (Z.of_nat k + M))|apply (Hy (Z.of_nat k))|apply (Hy (Z.of_nat k + 1))];
      first [done|consts; lia]. }
  apply Forall_zget. intros i x Hi Hx. apply (H (Z.to_nat i)); [consts; lia|]. by rewrite Z2Nat.id by lia.
Qed.

Lemma init_loop_ok n : forall r i, length (init_loop r i n) = n /\ Forall word (init_loop r i n).
Proof.
  induction n as [|n IH]; intros r i; simpl; [done|].
  destruct (IH (init_next r i) (i + 1)) as [Hl Hw]. split; [by rewrite Hl|].
  constructor; [apply word_u32|done].
Qed.

Lemma initialize_inv seed : exists t, initialize seed = Ok t /\ rinv t /\ _remaining t = N.
Proof.
  unfold initialize. destruct (init_loop_ok (Z.to_nat (N - 1)) (u32 seed) 1) as [Hl Hw].
  apply reload_inv; cbn [_values].
  - rewrite zlen_cons. unfold zlen. rewrite Hl. done.
  - constructor; [apply word_u32|done].
Qed.

Lemma randomInt_inv t : rinv t -> exists r t', randomInt t = Ok (r, t') /\ word r /\ rinv t'.
Proof.
  intros Ht. unfold randomInt.
  assert (exists t1, (if _remaining t =? 0 then reload t else Ok t) = Ok t1 /\ rinv t1 /\ 0 < _remaining t1)
    as (t1 & -> & (Hl & Hw & Hn & Hr & Hs) & Hpos).
  { pose proof Ht as (Hl & Hw & Hn & Hr & Hs). destruct (Z.eqb_spec (_remaining t) 0) as [E|E].
    - destruct (reload_inv t Hl Hw) as (t' & -> & Ht' & Hr'). exists t'. split_and!; [done|done|].
      rewrite Hr'. done.
    - exists t. split_and!; [done|done|lia]. }
  cbn [bind]. destruct (zget_is_Some (_values t1) (_next t1)) as [s Es]; [lia|].
  rewrite Es. cbn [of_option bind]. eexists _, _. split; [done|]. split.
  - apply word_temper. by eapply zget_Forall.
  - unfold rinv. cbn [_values _next _remaining]. split_and!; [done|done|lia..].
Qed.

Fixpoint outputs (t : Random) (n : nat) : res (list Z) :=
  match n with
  | O => Ok []
  | S n' => let? (r, t) := randomInt t in let? l := outputs t n' in Ok (r :: l)
  end.

Lemma outputs_ok n : forall t, rinv t -> exists l, outputs t n = Ok l /\ length l = n /\ Forall word l.
Proof.
  induction n as [|n IH]; intros t Ht; [by exists []|]. cbn [outputs].
  destruct (randomInt_inv t Ht) as (r & t' & -> & Hr & Ht'). cbn [bind].
  destruct (IH t' Ht') as (l & -> & Hl & Hw). cbn [bind]. exists (r :: l).
  split_and!; [done|simpl; by rewrite Hl|by constructor].
Qed.

(** Whatever the seed and however many outputs are drawn, no access leaves the state vector and
    every output is a 32-bit word. *)
Theorem random_total seed n :
  exists l, (let? t := initialize seed in outputs t n) = Ok l /\ length l = n /\
    Forall (fun r => 0 <= r < 2 ^ 32) l.
Proof. destruct (initialize_inv seed) as (t & -> & Ht & _). by apply outputs_ok. Qed.

(** C12: a reload continues the recurrence [x(k+624) = twist(x(k+397), x(k), x(k+1))] over the old and
    the new state vector, although the words are replaced in place. *)
Theorem reload_recurrence t :
  zlen (_values t) = N ->
  exists t', reload t = Ok t' /\ zlen (_values t') = N /\ _next t' = 0 /\ _remaining t' = N /\
    forall k, 0 <= k < 624 -> exists m a b,
      zget (_values t ++ _values t') (k + 397) = Some m /\
      zget (_values t ++ _values t') k = Some a /\ zget (_values t ++ _values t') (k + 1) = Some b /\
      zget (_values t ++ _values t') (k + 624) = Some (twist m a b).
Proof. apply reload_ok. Qed.

(** ** The bounded output *)

(** [x] has bit [i] when [n] has one of the bits [i .. i + w). *)
Definition window (n w x : Z) : Prop :=
  forall i, 0 <= i -> Z.testbit x i = true <-> exists j, i <= j < i + w /\ Z.testbit n j = true.

Lemma window_step n w x : 0 < w -> window n w x -> window n (w + w) (Z.lor x (Z.shiftr x w)).
Proof.
  intros Hw H i Hi. rewrite Z.lor_spec, Z.shiftr_spec by lia. rewrite orb_true_iff, (H i), (H (i + w)) by lia.
  split.
  - intros [(j & Hj & Hb)|(j & Hj & Hb)]; exists j; (split; [lia|done]).
  - intros (j & Hj & Hb). destruct (Z.ltb_spec j (i + w)); [left|right]; exists j; (split; [lia|done]).
Qed.

Lemma smear_window n : window n 32 (smear n).
Proof.
  assert (window n 1 n) as H1.
  { intros i Hi. split; [intros; exists i; split; [lia|done]|]. intros (j & Hj & Hb). by replace i with j by lia. }
  unfold smear. do 5 apply window_step in H1; [|lia..]. exact H1.
Qed.

Lemma smear_ones n : 0 < n < 2 ^ 32 -> smear n = Z.ones (Z.log2 n + 1).
Proof.
  intros Hn. pose proof (Z.log2_nonneg n).
  assert (Z.log2 n < 32) by (apply Z.log2_lt_pow2; lia).
  apply Z.bits_inj'. intros i Hi. apply eq_bool_prop_intro. rewrite !Is_true_true.
  rewrite (smear_window n i Hi), Z.ones_spec_iff by lia. split.
  - intros (j & Hj & Hb). destruct (Z.ltb_spec (Z.log2 n) j); [|lia].
    rewrite Z.bits_above_log2 in Hb by lia. done.
  - intros Hle. exists (Z.log2 n). split; [lia|]. apply Z.bit_log2. lia.
Qed.

Lemma smear_bounds n : 0 <= n < 2 ^ 32 -> n <= smear n <= 2 * n /\ exists k, 0 <= k /\ smear n = Z.ones k.
Proof.
  intros Hn. destruct (decide (n = 0)) as [->|Hne].
  { split; [done|]. by exists 0. }
  rewrite smear_ones by lia. pose proof (Z.log2_spec n ltac:(lia)). pose proof (Z.log2_nonneg n).
  split; [|exists (Z.log2 n + 1); split; [lia|done]].
  rewrite Z.ones_equiv. rewrite Z.pow_succ_r in * by lia. replace (Z.log2 n + 1) with (Z.succ (Z.log2 n)) by lia.
  rewrite Z.pow_succ_r by lia. lia.
Qed.

Lemma draw_spec used n fuel : 0 <= n -> 0 <= used -> forall t, rinv t ->
  match draw t used n fuel with
  | Ok (i, t') => 0 <= i <= n /\ rinv t'
  | NoFuel => exists l, outputs t fuel = Ok l /\ Forall (fun r => n < Z.land r used) l
  | _ => False
  end.
Proof.
  intros Hn Hu. induction fuel as [|fuel IH]; intros t Ht; [by exists []|]. cbn [draw outputs].
  destruct (randomInt_inv t Ht) as (r & t' & -> & Hr & Ht'). cbn [bind].
  destruct (Z.ltb_spec n (Z.land r used)) as [Hlt|Hge].
  - specialize (IH t' Ht'). destruct (draw t' used n fuel) as [[i t'']| | |]; try done.
    destruct IH as (l & -> & Hl). exists (r :: l). split; [done|]. by constructor.
  - split; [|done]. split; [|done]. apply Z.land_nonneg. by right.
Qed.

(** [randomInt(n)] masks with the least [2 ^ k - 1] that is at least [n], and at most [2 n]; what
    it returns is at most [n], and it goes on only while every masked output exceeds [n]. *)
Theorem randomInt_to_spec t n fuel :
  rinv t -> 0 <= n < 2 ^ 32 ->
  (n <= smear n <= 2 * n /\ exists k, 0 <= k /\ smear n = Z.ones k) /\
  match randomInt_to t n fuel with
  | Ok (i, t') => 0 <= i <= n /\ rinv t'
  | NoFuel => exists l, outputs t fuel = Ok l /\ Forall (fun r => n < Z.land r (smear n)) l
  | _ => False
  end.
Proof.
  intros Ht Hn. pose proof (smear_bounds n Hn) as Hs. split; [done|].
  apply draw_spec; [lia|lia|done].
Qed.

(** ** Tempering loses nothing *)

Definition linear (f : Z -> Z) : Prop :=
  (forall a, word a -> word (f a)) /\
  forall a b, word a -> word b -> f (Z.lxor a b) = Z.lxor (f a) (f b).

Lemma linear_comp f g : linear f -> linear g -> linear (fun x => g (f x)).
Proof.
  intros [Hf Hf'] [Hg Hg']. split; [auto|]. intros a b Ha Hb. rewrite Hf' by done. apply Hg'; auto.
Qed.

Definition shr_mix (k x : Z) : Z := Z.lxor x (Z.shiftr x k).
Definition shl_mix (k c x : Z) : Z := Z.lxor x (Z.land (u32 (Z.shiftl x k)) c).

Lemma linear_shr k : 0 <= k -> linear (shr_mix k).
Proof.
  intros Hk. unfold shr_mix. split; [auto with word|]. intros a b _ _. apply Z.bits_inj'. intros i Hi.
  rewrite !Z.lxor_spec, !Z.shiftr_spec, !Z.lxor_spec by lia. by repeat case (Z.testbit _ _).
Qed.

Lemma linear_shl k c : 0 <= k -> word c -> linear (shl_mix k c).
Proof.
  intros Hk Hc. unfold shl_mix. split; [auto with word|]. intros a b _ _. apply Z.bits_inj'. intros i Hi.
  unfold wrapU. rewrite <- !(Z.land_ones _ 32) by lia.
  rewrite !Z.lxor_spec, !Z.land_spec, !Z.shiftl_spec, !Z.lxor_spec by lia. by repeat case (Z.testbit _ _).
Qed.

(** A linear function that fixes the powers of two is the identity on words. *)
Lemma linear_identity f :
  linear f -> forallb (fun i => f (2 ^ i) =? 2 ^ i) (seqZ 0 32) = true -> forall x, word x -> f x = x.
Proof.
  intros [_ Hf] Hb.
  assert (forall i, 0 <= i < 32 -> f (2 ^ i) = 2 ^ i) as Hp.
  { intros i Hi. rewrite forallb_forall in Hb. apply Z.eqb_eq, Hb, list_elem_of_In, elem_of_seqZ. lia. }
  assert (forall k x, (k <= 32)%nat -> 0 <= x < 2 ^ Z.of_nat k -> f x = x) as H.
  2:{ intros x Hx. by apply (H 32%nat). }
  assert (forall i, 0 <= i < 32 -> word (2 ^ i)) as Hw.
  { intros i Hi. split; [lia|]. apply Z.pow_lt_mono_r; lia. }
  induction k as [|k IH]; intros x Hk Hx.
  - replace x with 0 by (simpl in Hx; lia). rewrite <- (Z.lxor_nilpotent 1), Hf by (by apply word_const).
    apply Z.lxor_nilpotent.
  - destruct (Z.ltb_spec x (2 ^ Z.of_nat k)) as [Hlt|Hge]; [apply IH; lia|].
    rewrite Nat2Z.inj_succ, Z.pow_succ_r in Hx by lia.
    set (p := 2 ^ Z.of_nat k) in *. assert (0 < p) by (apply Z.pow_pos_nonneg; lia).
    assert (x = Z.lxor p (x - p)) as E.
    { rewrite <- Z.add_nocarry_lxor; [lia|]. apply Z.bits_inj'. intros i Hi.
      rewrite Z.land_spec, Z.bits_0. subst p. rewrite Z.pow2_bits_eqb by lia.
      destruct (Z.eqb_spec (Z.of_nat k) i) as [<-|]; [|done]. simpl.
      destruct (decide (x - 2 ^ Z.of_nat k = 0)) as [->|]; [apply Z.bits_0|].
      apply Z.bits_above_log2; [lia|]. apply Z.log2_lt_pow2; lia. }
    assert (p < 2 ^ 32) by (apply Z.pow_lt_mono_r; lia).
    assert (p <= 2 ^ 31) by (apply Z.pow_le_mono_r; lia).
    assert (f p = p) as Ep by (apply Hp; lia).
    rewrite E at 1. rewrite Hf by (unfold word; lia). by rewrite Ep, (IH (x - p)) by lia.
Qed.

Lemma linear_iter f n : linear f -> linear (Nat.iter n f).
Proof.
  intros Hf. induction n as [|n IH]; [by split|]. exact (linear_comp _ _ IH Hf).
Qed.

(** The inverse: the last two steps are their own inverses, the others are repeated until no bit
    is left to correct. *)
Definition untemper (y : Z) : Z :=
  let y := shl_mix 15 0xefc60000 (shr_mix 18 y) in
  let y := Nat.iter 7 (shl_mix 7 0x9d2c5680) y in
  Nat.iter 3 (shr_mix 11) y.

(** Tempering is a bijection of the 32-bit words: [untemper] undoes it. *)
Theorem untemper_temper s : 0 <= s < 2 ^ 32 -> untemper (temper s) = s.
Proof.
  revert s. apply (linear_identity (fun s => untemper (temper s))); [|vm_compute; reflexivity].
  assert (linear (shr_mix 18)) as H18 by (apply linear_shr; lia).
  assert (linear (shr_mix 11)) as H11 by (apply linear_shr; lia).
  assert (linear (shl_mix 15 0xefc60000)) as H15 by (apply linear_shl; [lia|by apply word_const]).
  assert (linear (shl_mix 7 0x9d2c5680)) as H7 by (apply linear_shl; [lia|by apply word_const]).
  refine (linear_comp temper untemper _ _).
  - exact (linear_comp _ _ (linear_comp _ _ (linear_comp _ _ H11 H7) H15) H18).
  - exact (linear_comp _ _ (linear_comp _ _ (linear_comp _ _ H18 H15) (linear_iter _ 7 H7)) (linear_iter _ 3 H11)).
Qed.

(** ** Witnesses *)

(** A state vector that is not reloaded yet *)
Definition sample_state : Random := mkRandom (seqZ 1 N) N 0.

Lemma reload_recurrence_witness :
  exists t', reload sample_state = Ok t' /\ zlen (_values t') = N /\ _next t' = 0 /\ _remaining t' = N /\
    forall k, 0 <= k < 624 -> exists m a b,
      zget (_values sample_state ++ _values t') (k + 397) = Some m /\
      zget (_values sample_state ++ _values t') k = Some a /\
      zget (_values sample_state ++ _values t') (k + 1) = Some b /\
      zget (_values sample_state ++ _values t') (k + 624) = Some (twist m a b).
Proof. apply reload_recurrence. vm_compute. reflexivity. Defined.

Lemma randomInt_to_spec_witness :
  (100 <= smear 100 <= 200 /\ exists k, 0 <= k /\ smear 100 = Z.ones k) /\
  match randomInt_to sample_state 100 5 with
  | Ok (i, t') => 0 <= i <= 100 /\ rinv t'
  | NoFuel => exists l, outputs sample_state 5 = Ok l /\ Forall (fun r => 100 < Z.land r (smear 100)) l
  | _ => False
  end.
Proof.
  apply (randomInt_to_spec sample_state 100 5); [|lia]. unfold rinv.
  split_and!; [vm_compute; reflexivity| |vm_compute; done..].
  apply Forall_forall. intros x Hx. apply elem_of_seqZ in Hx. consts. split; lia.
Defined.

Lemma untemper_temper_witness : untemper (temper 123456789) = 123456789.
Proof. apply untemper_temper. lia. Defined.
