(* ===== verification/Socket.v ===== *)
(** * Sockets (src/cpp/src/net/Socket.cpp)

    The descriptor of a socket is a state machine: a handle and the flags [_connected], [_bound],
    [_listening] and [_isblocking].  The calls of the operating system are the class [OS], over a type
    of worlds.  A method is a command on the descriptor and the world.  The address caches and the
    options of the kernel ([setsockopt]) are not kept in the object. *)

From S2P Require Import Prelude State.

Definition INVALID : Z := -1.
Definition FOREVER : Z := -1.
Definition NOW : Z := 0.

(** The types of [Socket::TYPE], with the rows of the table of [GetSocketDef]. *)
Inductive TYPE := INVALID_TYPE | TCP | UDP | ICMP | RAW | UNIX_STREAM | UNIX_DGRAM.
#[export] Instance TYPE_eq_dec : EqDecision TYPE.
Proof. solve_decision. Defined.

(** What the code uses of the operating system; a result of -1 is an error. *)
Class OS (W Addr : Type) := {
  sys_socket : TYPE -> W -> Z * W;
  sys_close : Z -> W -> W;
  sys_connect : Z -> Addr -> W -> Z * W;
  sys_setreuse : Z -> W -> Z * W;
  sys_bind : Z -> Addr -> W -> Z * W;
  sys_listen : Z -> Z -> W -> Z * W;
  sys_accept : Z -> W -> Z * W;
  sys_shutdown : Z -> Z -> W -> Z * W;
  sys_getfl : Z -> W -> Z * W;
  sys_setfl : Z -> Z -> W -> Z * W;
  sys_select_send : Z -> option Z -> W -> Z * W;
  sys_select_recv : Z -> option Z -> W -> Z * W;
  sys_send : Z -> str -> W -> Z * W;
  sys_recv : Z -> Z -> W -> Z * str * W;
  sys_timer : W -> Z * W
}.

Record Descriptor := mkDesc {
  _socket : Z;
  _stype : TYPE;
  _connected : bool;
  _bound : bool;
  _listening : bool;
  _isblocking : bool
}.

Definition Descriptor_new : Descriptor := mkDesc INVALID INVALID_TYPE false false false true.
Definition Descriptor_of (s : Z) (st : TYPE) : Descriptor := mkDesc s st false false false true.

Definition isValid (d : Descriptor) : bool := negb (_socket d =? INVALID).
Definition isConnected (d : Descriptor) : bool := _connected d.
Definition isBound (d : Descriptor) : bool := _bound d.
Definition isListening (d : Descriptor) : bool := _listening d.
Definition inUse (d : Descriptor) : bool := _listening d || _bound d.
Definition isBlockingMode (d : Descriptor) : bool := _isblocking d.

Definition with_stype (d : Descriptor) (st : TYPE) : Descriptor :=
  mkDesc (_socket d) st (_connected d) (_bound d) (_listening d) (_isblocking d).
Definition with_socket (d : Descriptor) (s : Z) : Descriptor :=
  mkDesc s (_stype d) (_connected d) (_bound d) (_listening d) (_isblocking d).
Definition with_connected (d : Descriptor) (b : bool) : Descriptor :=
  mkDesc (_socket d) (_stype d) b (_bound d) (_listening d) (_isblocking d).
Definition with_bound (d : Descriptor) (b : bool) : Descriptor :=
  mkDesc (_socket d) (_stype d) (_connected d) b (_listening d) (_isblocking d).
Definition with_listening (d : Descriptor) (b : bool) : Descriptor :=
  mkDesc (_socket d) (_stype d) (_connected d) (_bound d) b (_isblocking d).
Definition with_blocking (d : Descriptor) (b : bool) : Descriptor :=
  mkDesc (_socket d) (_stype d) (_connected d) (_bound d) (_listening d) b.

Section socket.
Context {W Addr : Type} `{OS W Addr}.

(** The socket and the world it lives in. *)
Record Socket := mkSocket { _desc : Descriptor; world : W }.
Abbreviation M := (ST Socket).

Definition desc {A} (f : Descriptor -> A) : M A := get (fun s => f (_desc s)).
Definition set_desc (f : Descriptor -> Descriptor) : M unit :=
  modify (fun s => mkSocket (f (_desc s)) (world s)).
(** A call of the system. *)
Definition sys {A} (call : W -> A * W) : M A := fun s =>
  let '(a, w) := call (world s) in (Ok a, mkSocket (_desc s) w).
(** [if (condition) throw SocketException(...)] *)
Definition throw_if (b : bool) : M unit := if b then sthrow SocketException else sret tt.

(** ** The descriptor *)

Definition open (st : TYPE) : M unit :=
  let! valid := desc isValid in
  throw_if valid ;;!
  set_desc (fun d => with_stype d st) ;;!
  set_desc (fun d => with_connected d (bool_decide (st = UDP) || bool_decide (st = ICMP) || bool_decide (st = RAW))) ;;!
  let! s := sys (sys_socket st) in
  set_desc (fun d => with_socket d s) ;;!
  let! valid := desc isValid in
  throw_if (negb valid).

Definition close : M unit :=
  let! s := desc _socket in
  (if negb (s =? INVALID) then
     sys (fun w => (tt, sys_close s w)) ;;!
     set_desc (fun d => with_socket d INVALID)
   else sret tt) ;;!
  set_desc (fun d => with_listening (with_bound (with_connected d false) false) false).

Definition reset : M unit :=
  close ;;! let! st := desc _stype in open st.

(** ** The socket *)

Definition O_NONBLOCK : Z := 2048.

Definition setBlockingMode (blocking : bool) : M unit :=
  let! mode := desc isBlockingMode in
  if Bool.eqb blocking mode then sret tt
  else
    let! s := desc _socket in
    let! arg := sys (sys_getfl s) in
    throw_if (arg =? -1) ;;!
    let arg := if blocking then Z.land arg (Z.lnot O_NONBLOCK) else Z.lor arg O_NONBLOCK in
    let! r := sys (sys_setfl s arg) in
    throw_if (r =? -1) ;;!
    set_desc (fun d => with_blocking d blocking).

Definition select_result (result : Z) : M bool :=
  throw_if (result =? -1) ;;!
  sret (negb (result =? 0) && negb (result =? INVALID)).

(** [select] with no time limit, or one of [msec] milliseconds. *)
Definition limit (msec : Z) : option Z := if msec =? FOREVER then None else Some msec.
Definition isSendReady (msec : Z) : M bool :=
  let! s := desc _socket in
  let! result := sys (sys_select_send s (limit msec)) in
  select_result result.
Definition isRecvReady (msec : Z) : M bool :=
  let! s := desc _socket in
  let! result := sys (sys_select_recv s (limit msec)) in
  select_result result.

Definition connect (endpoint : Addr) (timeout : Z) : M unit :=
  let! used := desc inUse in
  throw_if used ;;!
  let! s := desc _socket in
  if timeout =? FOREVER then
    let! r := sys (sys_connect s endpoint) in
    throw_if (r =? INVALID) ;;!
    set_desc (fun d => with_connected d true)
  else
    let! blocking_mode := desc isBlockingMode in
    setBlockingMode false ;;!
    let! _ := sys (sys_connect s endpoint) in
    let! ready := isSendReady timeout in
    (if negb ready then sthrow SocketTimeoutException else sret tt) ;;!
    setBlockingMode blocking_mode.

Definition bind_to (endpoint : Addr) (reuse : bool) : M unit :=
  let! used := desc inUse in
  throw_if used ;;!
  let! s := desc _socket in
  (if reuse then let! r := sys (sys_setreuse s) in throw_if (r =? -1) else sret tt) ;;!
  let! r := sys (sys_bind s endpoint) in
  throw_if (r =? INVALID) ;;!
  set_desc (fun d => with_bound d true).

Definition listen (maxcons : Z) : M unit :=
  let! bound := desc isBound in
  throw_if (negb bound) ;;!
  let! s := desc _socket in
  let! r := sys (sys_listen s maxcons) in
  throw_if (r =? INVALID) ;;!
  set_desc (fun d => with_listening d true).

Definition accept : M Descriptor :=
  let! s := desc _socket in
  let! st := desc _stype in
  let! a := sys (sys_accept s) in
  let newdc := Descriptor_of a st in
  throw_if (negb (isValid newdc)) ;;!
  sret (with_connected newdc true).

Definition shutdown (sh : Z) : M unit :=
  let! s := desc _socket in
  let! r := sys (sys_shutdown s sh) in
  throw_if (negb (r =? INVALID)).

(** The loop of [send]; [len] is what is left of the data, and the kernel may take less. *)
Fixpoint send_loop (s : Z) (data : str) (senttotal : Z) (fuel : nat) : M Z :=
  if zlen data =? 0 then sret senttotal
  else
    match fuel with
    | O => sfail
    | S fuel =>
        let! sent := sys (sys_send s data) in
        if sent =? 0 then close ;;! sthrow SocketDisconnected
        else if sent <? 0 then sthrow SocketException
        else if zlen data <? sent then lift UB
        else send_loop s (zdrop sent data) (senttotal + sent) fuel
    end.

Definition send (data : str) : M Z :=
  let! con := desc isConnected in
  throw_if (negb con) ;;!
  let! s := desc _socket in
  send_loop s data 0 (length data).

(** [recv(data, len, msec)]: how much was received, and the bytes. *)
Definition recv (len msec : Z) : M (Z * str) :=
  let! con := desc isConnected in
  throw_if (negb con) ;;!
  let! ready := if msec =? FOREVER then sret true else isRecvReady msec in
  if ready : bool then
    let! s := desc _socket in
    let! (received, bytes) := sys (sys_recv s len) in
    if received =? 0 then close ;;! sthrow SocketDisconnected
    else if received =? INVALID then sthrow SocketException
    else sret (received, bytes)
  else sret (0, []).
End socket.
Arguments Socket W : clear implicits.
Arguments mkSocket {W} _ _.
Arguments _desc {W} _.
Arguments world {W} _.

(** ** What the system is relied on for *)

(** The calls on a handle that is not open fail, and [send] takes a part of the data that is not
    empty, or fails; [sent s w] are the bytes the system took from socket [s]. *)
Class OSLaws (W Addr : Type) `{OS W Addr} := {
  bind_invalid : forall a w, (sys_bind INVALID a w).1 = -1;
  connect_invalid : forall a w, (sys_connect INVALID a w).1 = -1;
  sent : Z -> W -> str;
  send_law : forall s data w, data <> [] ->
    let '(n, w') := sys_send s data w in
    n <= zlen data /\ (0 < n -> sent s w' = sent s w ++ ztake n data)
}.

Section theorems.
Context {W Addr : Type} `{OSLaws W Addr}.
Implicit Types (s : Socket W) (d : Descriptor).

(** ** The state machine *)

(** A listening socket is bound, a bound one is open, and a connected one is open unless it is of a
    type that counts as connected from the start. *)
Definition wf d : Prop :=
  (_listening d = true -> _bound d = true) /\
  (_bound d = true -> _socket d <> INVALID) /\
  (_connected d = true -> _socket d <> INVALID \/ _stype d = UDP \/ _stype d = ICMP \/ _stype d = RAW).

Inductive call :=
  | CConnect (endpoint : Addr) (timeout : Z) | CBind (endpoint : Addr) (reuse : bool)
  | CListen (maxcons : Z) | CAccept | CShutdown (sh : Z) | CClose | CReset | CBlocking (b : bool)
  | CSend (data : str) | CRecv (len msec : Z).

Definition run_call (c : call) : ST (Socket W) unit :=
  match c with
  | CConnect a t => connect a t
  | CBind a r => bind_to a r
  | CListen n => listen n
  | CAccept => accept ;;! sret tt
  | CShutdown sh => shutdown sh
  | CClose => close
  | CReset => reset
  | CBlocking b => setBlockingMode b
  | CSend data => send data ;;! sret tt
  | CRecv len msec => recv len msec ;;! sret tt
  end.

(** The sockets a program can get: opened by the constructor, or made from an accepted descriptor,
    then used in any way; a call that throws leaves a socket too. *)
Inductive reachable : Socket W -> Prop :=
  | reachable_open st w s : open st (mkSocket (Descriptor_of INVALID st) w) = (Ok tt, s) -> reachable s
  | reachable_accept s w d s' : reachable s -> accept s = (Ok d, s') -> reachable (mkSocket d w)
  | reachable_call c s r s' : reachable s -> run_call c s = (r, s') -> reachable s'.

(** A command that keeps a property of the descriptor, however it ends. *)
Definition keeps (P : Descriptor -> Prop) {A} (m : ST (Socket W) A) : Prop :=
  forall s, P (_desc s) -> P (_desc (m s).2).

Section keeps.
Variable P : Descriptor -> Prop.

Lemma keeps_bind {A B} (m : ST (Socket W) A) (f : A -> ST (Socket W) B) :
  keeps P m -> (forall a, keeps P (f a)) -> keeps P (let! a := m in f a).
Proof.
  intros Hm Hf s Hs. specialize (Hm s Hs). unfold sbind. destruct (m s) as [[a|e| |] s']; cbn in *; [|done..].
  by apply Hf.
Qed.
Lemma keeps_ret {A} (a : A) : keeps P (sret a).
Proof. by intros s. Qed.
Lemma keeps_throw {A} e : keeps P (sthrow (A := A) e).
Proof. by intros s. Qed.
Lemma keeps_throw_if b : keeps P (throw_if b).
Proof. destruct b; by intros s. Qed.
Lemma keeps_lift {A} (r : res A) : keeps P (lift r).
Proof. by intros s. Qed.
Lemma keeps_get {A} (f : Socket W -> A) : keeps P (get f).
Proof. by intros s. Qed.
Lemma keeps_desc {A} (f : Descriptor -> A) : keeps P (desc f).
Proof. by intros s. Qed.
Lemma keeps_sys {A} (c : W -> A * W) : keeps P (sys c).
Proof. intros s Hs. unfold sys. by destruct (c (world s)). Qed.
Lemma keeps_set f : (forall d, P d -> P (f d)) -> keeps P (set_desc (W := W) f).
Proof. intros Hf s Hs. by apply Hf. Qed.
Lemma keeps_select r : keeps P (select_result r).
Proof. apply keeps_bind; [apply keeps_throw_if|intros; apply keeps_ret]. Qed.
End keeps.

Create HintDb keeps.
#[local] Hint Resolve keeps_ret keeps_throw keeps_throw_if keeps_lift keeps_get keeps_desc keeps_sys keeps_select : keeps.
Ltac keep :=
  repeat first
    [ solve [auto with keeps]
    | apply keeps_bind; [|intros ?]
    | match goal with |- keeps _ (match ?b with true => _ | false => _ end) => destruct b end
    | match goal with |- keeps _ (let '(_, _) := ?p in _) => destruct p end ].

Lemma wf_closed d : wf (with_listening (with_bound (with_connected d false) false) false).
Proof. by repeat split. Qed.

Lemma close_wf s : wf (_desc (close s).2) /\ _connected (_desc (close s).2) = false /\ _socket (_desc (close s).2) = INVALID.
Proof.
  unfold close, desc, get, sbind. cbn. destruct (Z.eqb_spec (_socket (_desc s)) INVALID) as [E|E]; cbn.
  - split; [apply wf_closed|done].
  - split; [by repeat split|done].
Qed.
Lemma close_Ok s : exists s', close s = (Ok tt, s').
Proof. unfold close, desc, get, sbind. cbn. destruct (_ =? _); by eexists. Qed.

Lemma keeps_close : keeps wf close.
Proof. intros s _. apply close_wf. Qed.

Lemma keeps_blocking b : keeps wf (setBlockingMode b).
Proof. unfold setBlockingMode. keep. apply keeps_set. intros d Hd. exact Hd. Qed.
#[local] Hint Resolve keeps_close keeps_blocking : keeps.

Lemma keeps_send_loop h data n fuel : keeps wf (send_loop h data n fuel).
Proof.
  revert data n. induction fuel as [|fuel IH]; intros data n; cbn [send_loop].
  - destruct (zlen data =? 0); [apply keeps_ret|by intros s].
  - destruct (zlen data =? 0); keep.
Qed.
#[local] Hint Resolve keeps_send_loop : keeps.

(** Setting a flag after a call that succeeded on the handle. *)
Lemma keeps_bound a (reuse : bool) : keeps wf
  (let! h := desc (W := W) _socket in
   (if reuse then let! r := sys (sys_setreuse h) in throw_if (r =? -1) else sret tt) ;;!
   let! r := sys (sys_bind h a) in throw_if (r =? INVALID) ;;! set_desc (fun d => with_bound d true)).
Proof.
  intros s Hs. unfold sbind, desc, get, sys. cbn.
  assert (forall w, let '(r, w') := sys_bind (_socket (_desc s)) a w in
    (r =? INVALID) = false -> wf (with_bound (_desc s) true)) as Hb.
  { intros w. destruct (sys_bind (_socket (_desc s)) a w) as [r w'] eqn:E. intros Hr.
    destruct Hs as (H1 & H2 & H3). repeat split; cbn; auto. intros _ Ei.
    rewrite Ei in E. pose proof (bind_invalid a w) as Hb. rewrite E in Hb. cbn in Hb. subst r. done. }
  assert (forall w, let '(r, w') := sys_bind (_socket (_desc s)) a w in
    wf (_desc (sbind (throw_if (r =? INVALID)) (fun _ => set_desc (fun d => with_bound d true)) (mkSocket (_desc s) w')).2)) as Hb'.
  { intros w. specialize (Hb w). destruct (sys_bind _ a w) as [r w']. destruct (r =? INVALID); [exact Hs|by apply Hb]. }
  destruct reuse; cbn.
  - destruct (sys_setreuse _ _) as [r w]. destruct (r =? -1); cbn; [exact Hs|].
    specialize (Hb' w). destruct (sys_bind _ a w). exact Hb'.
  - specialize (Hb' (world s)). destruct (sys_bind _ a (world s)). exact Hb'.
Qed.

Lemma keeps_connected a : keeps wf
  (let! h := desc (W := W) _socket in
   let! r := sys (sys_connect h a) in throw_if (r =? INVALID) ;;! set_desc (fun d => with_connected d true)).
Proof.
  intros s (H1 & H2 & H3). unfold sbind, desc, get, sys. cbn.
  destruct (sys_connect (_socket (_desc s)) a (world s)) as [r w] eqn:E. cbn.
  destruct (Z.eqb_spec r INVALID) as [->|Hr]; cbn; [done|]. repeat split; cbn; auto.
  intros _. left. intros Ei. apply Hr. rewrite Ei in E.
  pose proof (connect_invalid a (world s)) as Hb. by rewrite E in Hb.
Qed.
#[local] Hint Resolve keeps_bound keeps_connected : keeps.

Lemma keeps_open st : keeps wf (open st).
Proof.
  intros s (H1 & H2 & H3). unfold open, sbind, desc, get, set_desc, modify, sys, throw_if. cbn.
  unfold isValid. destruct (Z.eqb_spec (_socket (_desc s)) INVALID) as [E|E]; cbn; [|done].
  destruct (sys_socket st (world s)) as [h w]. cbn.
  assert (wf (with_socket (with_connected (with_stype (_desc s) st)
    (bool_decide (st = UDP) || bool_decide (st = ICMP) || bool_decide (st = RAW))) h)) as Hw.
  { split; [exact H1|]. cbn. split.
    - intros Hb. by destruct (H2 Hb).
    - destruct st; cbn; try done; auto. }
  by destruct (h =? INVALID).
Qed.
#[local] Hint Resolve keeps_open : keeps.

Lemma keeps_listen n : keeps wf (listen n).
Proof.
  intros s Hs. pose proof Hs as (H1 & H2 & H3). unfold listen, sbind, desc, get, set_desc, modify, sys, throw_if. cbn.
  unfold isBound. destruct (_bound (_desc s)) eqn:Eb; cbn; [|exact Hs].
  destruct (sys_listen _ _ _) as [r w]. cbn. destruct (r =? INVALID); cbn; [exact Hs|].
  repeat split; cbn; auto.
Qed.
#[local] Hint Resolve keeps_listen : keeps.

Lemma keeps_call c : keeps wf (run_call c).
Proof.
  destruct c; cbn [run_call]; try solve [auto with keeps].
  - unfold connect. do 2 (apply keeps_bind; [auto with keeps|intros ?]).
    destruct (timeout =? FOREVER); [apply keeps_connected|keep].
  - unfold bind_to. do 2 (apply keeps_bind; [auto with keeps|intros ?]). apply keeps_bound.
  - unfold accept. keep.
  - unfold shutdown. keep.
  - unfold reset. keep.
  - unfold send. keep.
  - unfold recv. keep.
Qed.
(** C35: invariant. Whatever is called on a socket, and whatever the system answers, a listening socket is
    bound, a bound one has a handle, and so has a connected one that is not connected by its type. *)
Theorem socket_invariant s : reachable s -> wf (_desc s).
Proof.
  induction 1 as [st w s E|s w d s' Hr IH E|c s r s' Hr IH E].
  - assert (wf (_desc (mkSocket (Descriptor_of INVALID st) w))) as H1 by by repeat split.
    pose proof (keeps_open st _ H1) as Hk. by rewrite E in Hk.
  - unfold accept, sbind, desc, get, sys in E. cbn in E. destruct (sys_accept _ _) as [a w']. cbn in E.
    unfold isValid in E. cbn in E. destruct (Z.eqb_spec a INVALID) as [->|Ha]; cbn in E; [done|].
    injection E as <- <-. repeat split; cbn; auto.
  - pose proof (keeps_call c s IH) as Hk. by rewrite E in Hk.
Qed.

(** ** Sending *)

Lemma send_loop_spec h data : forall n fuel w d,
  _connected d = true -> _socket d = h -> (length data <= fuel)%nat ->
  match send_loop h data n fuel (mkSocket d w) with
  | (Ok m, s') => m = n + zlen data /\ sent h (world s') = sent h w ++ data /\ _desc s' = d
  | (Throw SocketDisconnected, s') => isConnected (_desc s') = false /\ isValid (_desc s') = false
  | (Throw SocketException, s') => _desc s' = d
  | _ => False
  end.
Proof.
  remember (length data) as len eqn:Hlen. revert data Hlen.
  induction len as [len IH] using lt_wf_ind. intros data -> n fuel w d Hc Hh Hf.
  destruct fuel as [|fuel]; cbn [send_loop].
  - destruct data; [|simpl in Hf; lia]. cbn. by rewrite Z.add_0_r, app_nil_r.
  - destruct (Z.eqb_spec (zlen data) 0) as [E|E].
    + destruct data; [|zlen_lia]. cbn. by rewrite Z.add_0_r, app_nil_r.
    + assert (data <> []) as Hne by by intros ->. pose proof (send_law (Addr := Addr) h data w Hne) as Hl.
      unfold sbind at 1, sys. cbn [world _desc]. destruct (sys_send h data w) as [r w'] eqn:Es. destruct Hl as [Hle Hs].
      destruct (Z.eqb_spec r 0) as [->|Hr].
      { unfold sbind. destruct (close_Ok (mkSocket d w')) as (s' & Ec). rewrite Ec.
        pose proof (close_wf (mkSocket d w')) as (_ & H1 & H2). rewrite Ec in H1, H2. cbn in *.
        unfold isConnected, isValid. by rewrite H1, H2. }
      destruct (Z.ltb_spec r 0); [done|]. replace (zlen data <? r) with false by lia.
      specialize (Hs ltac:(lia)).
      assert (length (zdrop r data) < length data)%nat as Hlt by (unfold zdrop, zlen in *; rewrite length_drop; lia).
      specialize (IH _ Hlt (zdrop r data) eq_refl (n + r) fuel w' d Hc Hh ltac:(lia)).
      destruct (send_loop h (zdrop r data) (n + r) fuel _) as [[m|e| |] s']; try done.
      destruct IH as (-> & E2 & E3). split_and!; [rewrite zlen_drop; lia| |done].
      rewrite E2, Hs, <- app_assoc. by rewrite ztake_zdrop.
Qed.

(** What the outcomes of [send] say. *)
Definition send_result (data : str) s (r : res Z * Socket W) : Prop :=
  match r with
  | (Ok n, s') => n = zlen data /\ _desc s' = _desc s /\
      sent (_socket (_desc s)) (world s') = sent (_socket (_desc s)) (world s) ++ data
  | (Throw SocketDisconnected, s') => isConnected (_desc s') = false /\ isValid (_desc s') = false
  | (Throw SocketException, s') => _desc s' = _desc s
  | _ => False
  end.

Lemma send_outcome data s : _connected (_desc s) = true -> send_result data s (send data s).
Proof.
  intros Hc. unfold send, sbind, desc, get, throw_if, isConnected. rewrite Hc. cbn [negb sret].
  destruct s as [d w]. cbn [_desc world] in *.
  pose proof (send_loop_spec (_socket d) data 0 (length data) w d Hc eq_refl (le_n _)) as Hs.
  destruct (send_loop _ _ _ _ _) as [[n|[]| |] s']; try done. by destruct Hs as (-> & ? & ?).
Qed.

(** C36: [send] on a connected socket gives the system all of the data in order, however little it takes at
    a time, or throws; when the peer is gone the socket is closed. *)
Theorem send_spec data s :
  _connected (_desc s) = true ->
  match send data s with
  | (Ok n, s') => n = zlen data /\ _desc s' = _desc s /\
      sent (_socket (_desc s)) (world s') = sent (_socket (_desc s)) (world s) ++ data
  | (Throw SocketDisconnected, s') => isConnected (_desc s') = false /\ isValid (_desc s') = false
  | (Throw SocketException, s') => _desc s' = _desc s
  | _ => False
  end.
Proof. exact (send_outcome data s). Qed.

(** ** What goes wrong *)

(** [connect] with a time limit succeeds without marking the socket as connected: [send] and [recv]
    throw afterwards. *)
Theorem connect_timeout_unconnected endpoint timeout s s' :
  timeout <> FOREVER -> _connected (_desc s) = false -> connect endpoint timeout s = (Ok tt, s') ->
  forall data len msec, (send data s').1 = Throw SocketException /\ (recv len msec s').1 = Throw SocketException.
Proof.
  intros Ht Hc E.
  assert (keeps (fun d => _connected d = false) (connect endpoint timeout)) as Hk.
  { unfold connect. replace (timeout =? FOREVER) with false by (symmetry; by apply Z.eqb_neq).
    assert (forall b, keeps (fun d => _connected d = false) (setBlockingMode b)) as Hb.
    { intros b. unfold setBlockingMode. keep. apply keeps_set. by intros d. }
    keep. }
  specialize (Hk s Hc). rewrite E in Hk. cbn in Hk. intros data len msec.
  unfold send, recv, sbind, desc, get, throw_if, isConnected. by rewrite Hk.
Qed.

(** [shutdown] throws when the system's call succeeds, and returns when that fails. *)
Theorem shutdown_inverted sh s :
  (shutdown sh s).1 = if (sys_shutdown (_socket (_desc s)) sh (world s)).1 =? INVALID then Ok tt else Throw SocketException.
Proof.
  unfold shutdown, sbind, desc, get, sys, throw_if. destruct (sys_shutdown _ _ _) as [r w]. cbn.
  by destruct (r =? INVALID).
Qed.
End theorems.

(** ** A world to evaluate in *)

(** Every call succeeds; [send] takes at most three bytes at a time, [recv] gives the chunks
    the peer sent, and no time passes. *)
Record sim := mkSim { sim_sent : str; sim_peer : list str; sim_time : Z }.
Definition fails_if_invalid (s : Z) (w : sim) : Z * sim := (if s =? INVALID then -1 else 0, w).
#[export] Instance sim_OS : OS sim unit := {
  sys_socket _ w := (3, w);
  sys_close _ w := w;
  sys_connect s _ w := fails_if_invalid s w;
  sys_setreuse s w := fails_if_invalid s w;
  sys_bind s _ w := fails_if_invalid s w;
  sys_listen s _ w := fails_if_invalid s w;
  sys_accept s w := (4, w);
  sys_shutdown s _ w := fails_if_invalid s w;
  sys_getfl s w := fails_if_invalid s w;
  sys_setfl s _ w := fails_if_invalid s w;
  sys_select_send s _ w := (1, w);
  sys_select_recv s _ w := (if bool_decide (concat (sim_peer w) = []) then 0 else 1, w);
  sys_send s data w := (Z.min 3 (zlen data), mkSim (sim_sent w ++ ztake 3 data) (sim_peer w) (sim_time w));
  sys_recv s n w :=
    match filter (fun c => c <> []) (sim_peer w) with
    | [] => (0, [], w)
    | c :: cs => (zlen (ztake n c), ztake n c,
        mkSim (sim_sent w) (if zlen c <=? n then cs else zdrop n c :: cs) (sim_time w))
    end;
  sys_timer w := (sim_time w, w)
}.
#[export] Program Instance sim_OSLaws : OSLaws sim unit := {| sent _ w := sim_sent w |}.
Next Obligation. done. Qed.
Next Obligation. done. Qed.
Next Obligation.
  intros s data w Hne. cbn. split; [lia|]. intros Hn. f_equal.
  destruct (Z.leb_spec 3 (zlen data)); [by rewrite Z.min_l by lia|].
  rewrite Z.min_r by lia. by rewrite !ztake_ge by lia.
Qed.

Definition sim_start : sim := mkSim [] [] 0.

Example socket_1 :
  let '(r, s) := (open TCP ;;! connect tt FOREVER ;;! send (lit "hello world")) (mkSocket (Descriptor_of INVALID TCP) sim_start) in
  (r, sim_sent (world s), _connected (_desc s)) = (Ok 11, lit "hello world", true).
Proof. vm_compute. reflexivity. Qed.

(** ** Witnesses *)

Lemma socket_invariant_witness :
  wf (_desc (run_call (W := sim) (Addr := unit) (CBind tt true)
    (mkSocket (mkDesc 3 TCP false false false true) sim_start)).2).
Proof.
  eapply (socket_invariant (Addr := unit)), (reachable_call (CBind tt true)); [|apply surjective_pairing].
  apply (reachable_open TCP sim_start). reflexivity.
Defined.

Lemma send_spec_witness :
  match send (lit "hello") (mkSocket (mkDesc 3 TCP true false false true) sim_start) with
  | (Ok n, s') => n = 5 /\ _desc s' = mkDesc 3 TCP true false false true /\ sim_sent (world s') = lit "hello"
  | _ => False
  end.
Proof. exact (send_spec (Addr := unit) (lit "hello") (mkSocket (mkDesc 3 TCP true false false true) sim_start) eq_refl). Defined.

Lemma connect_timeout_unconnected_witness :
  (send (lit "hello") (connect tt 100 (mkSocket (mkDesc 3 TCP false false false true) sim_start)).2).1
    = Throw SocketException.
Proof.
  apply (connect_timeout_unconnected (Addr := unit) tt 100 (mkSocket (mkDesc 3 TCP false false false true) sim_start) _)
    with (len := 0) (msec := 0); [done|reflexivity|reflexivity].
Defined.
