(* ===== verification/TcpSocket.v ===== *)
(** * Buffered sockets (src/cpp/src/net/TcpSocket.cpp)

    A [TcpSocket] is a [Socket] with a [ByteBuffer] in front of it: [_bufferedRecv] puts what the
    system delivers behind the bytes that were not read, and [readUntil] takes a line from the buffer,
    receiving more until there is one.  The waiting loops take their fuel from the caller. *)

From S2P Require Import Prelude State CString Str StrMem ByteBuffer Socket.

Section tcp.
Context {W Addr : Type} `{OS W Addr}.

Record TcpSocket := mkTcp { _base : Socket W; _buffer : ByteBuffer; _max_size : Z }.
Abbreviation M := (ST TcpSocket).

(** [TcpSocket(desc)] *)
Definition TcpSocket_of (d : Descriptor) (w : W) : res TcpSocket :=
  let? b := BB_new 1024 in Ok (mkTcp (mkSocket d w) b 512000).

(** A command on the socket, and an operation on the buffer. *)
Definition base {A} (m : ST (Socket W) A) : M A :=
  zoom _base (fun t s => mkTcp s (_buffer t) (_max_size t)) m.
Definition on_buffer {A} (op : ByteBuffer -> res (A * ByteBuffer)) : M A := fun t =>
  match op (_buffer t) with
  | Ok (a, b) => (Ok a, mkTcp (_base t) b (_max_size t))
  | Throw e => (Throw e, t)
  | UB => (UB, t)
  | NoFuel => (NoFuel, t)
  end.
Definition change (op : ByteBuffer -> res ByteBuffer) : M unit :=
  on_buffer (fun b => let? b := op b in Ok (tt, b)).
Definition buffer {A} (f : ByteBuffer -> A) : M A := get (fun t => f (_buffer t)).

Definition isReadReady (msec : Z) : M bool :=
  let! n := buffer remaining in
  if 0 <? n then sret true else base (isRecvReady msec).

Definition _bufferedRecv : M Z :=
  change (fun b => toggle b true) ;;!
  let! size := buffer _size in
  let! pos := buffer _pos in
  let! max_size := get _max_size in
  let free_bytes := u32 (size - pos) in
  (if (free_bytes =? 0) && (max_size <=? size) then sthrow OutOfMemoryException
   else if free_bytes <=? 256 then
     let new_size := u32 (size + 1024) in
     let new_size := if max_size <? new_size then max_size else new_size in
     change (fun b => resize b new_size)
   else sret tt) ;;!
  let! size := buffer _size in
  let! pos := buffer _pos in
  let free_bytes := u32 (size - pos) in
  let! (bytes_read, bytes) := base (recv (s32 free_bytes) NOW) in
  change (fun b => bwrite b pos (Some <$> bytes)) ;;!
  (if 0 <? bytes_read then
     change (fun b => Ok (setLength b (u32 (bytes_read + _pos b)))) ;;!
     change (fun b => setPosition b (u32 (bytes_read + _pos b)))
   else sret tt) ;;!
  change (fun b => toggle b false) ;;!
  sret bytes_read.

(** The three ways to wait of [readUntil], for either kind of mark; [find] is the [readUntil] of the
    buffer, which gives the new content of [buf], and the count. *)
Section readUntil.
Variable find : ByteBuffer -> res (str * ByteBuffer * Z).

Definition from_buffer : M (str * Z) :=
  on_buffer (fun b => let? (buf, b, n) := find b in Ok ((buf, n), b)).

Fixpoint forever_loop (fuel : nat) : M (str * Z) :=
  match fuel with
  | O => sfail
  | S fuel =>
      let! ready := base (isRecvReady FOREVER) in
      if ready : bool then
        let! _ := _bufferedRecv in
        let! (buf, n) := from_buffer in
        if 0 <? n then sret (buf, zlen buf) else forever_loop fuel
      else forever_loop fuel
  end.

Fixpoint timer_loop (timer msec : Z) (fuel : nat) : M (str * Z) :=
  match fuel with
  | O => sfail
  | S fuel =>
      let! ready := if 0 <? msec then base (isRecvReady msec) else sret false in
      if ready : bool then
        let! _ := _bufferedRecv in
        let! (buf, n) := from_buffer in
        if 0 <? n then sret (buf, zlen buf)
        else
          let! ntimer := base (sys sys_timer) in
          timer_loop timer (s32 (msec - s32 (u32 (ntimer - timer)))) fuel
      else sret ([], 0)
  end.

Definition readUntil_with (msec : Z) (fuel : nat) : M (str * Z) :=
  let! (buf, n) := from_buffer in
  if 0 <? n then sret (buf, zlen buf)
  else if msec =? NOW then let! _ := _bufferedRecv in from_buffer
  else if msec =? FOREVER then forever_loop fuel
  else
    let! timer := base (sys sys_timer) in
    timer_loop timer msec fuel.
End readUntil.

Definition readUntil (c : char) (msec : Z) (fuel : nat) : M (str * Z) :=
  readUntil_with (fun b => readUntil_char b c) msec fuel.
Definition readUntil_str (s : str) (msec : Z) (fuel : nat) : M (str * Z) :=
  readUntil_with (fun b => readUntil_String b s) msec fuel.

Fixpoint fill_loop (len : Z) (fuel : nat) : M unit :=
  match fuel with
  | O => sfail
  | S fuel =>
      let! n := buffer remaining in
      if n <? len then
        let! ready := base (isRecvReady 10000) in
        (if negb ready then sthrow IOException else sret tt) ;;!
        let! _ := _bufferedRecv in
        fill_loop len fuel
      else sret tt
  end.

Definition readAll (len : Z) (fuel : nat) : M (str * Z) :=
  fill_loop len fuel ;;!
  on_buffer (fun b => let? (output, b, n) := bb_read_String b (u32 (len - 1)) in Ok ((output, n), b)).

(** [read(data, len, msec)] and [read(buf, len, msec)] *)
Definition read_bytes (len msec : Z) : M (Z * str) :=
  let! n := buffer remaining in
  if 0 <? n then on_buffer (fun b => let? (bs, b, k) := bb_read b (u32 len) in Ok ((k, bs), b))
  else base (recv len msec).
Definition read_string (len msec : Z) : M (str * Z) :=
  let! n := buffer remaining in
  if 0 <? n then on_buffer (fun b => let? (bs, b, k) := bb_read_String b (u32 len) in Ok ((bs, k), b))
  else let! (received, bytes) := base (recv len msec) in sret (bytes, received).
End tcp.
Arguments TcpSocket W : clear implicits.
Arguments mkTcp {W} _ _ _.
Arguments _base {W} _.
Arguments _buffer {W} _.
Arguments _max_size {W} _.

(** A socket in the simulated world, from which the peer sends [chunks]. *)
Definition sim_tcp (chunks : list str) : res (TcpSocket sim) :=
  TcpSocket_of (mkDesc 4 TCP true false false true) (mkSim [] chunks 0).

Example tcp_1 :
  (let? t := sim_tcp [lit "GET / HT"; lit "TP/1.1"; lit "\r"; lit "X|Y: z|rest"] in
   let '(r, t) := (let! a := readUntil (W := sim) (Addr := unit) "|" 10000 9 in
                   let! b := readUntil (W := sim) (Addr := unit) "|" 10000 9 in
                   let! c := readUntil (W := sim) (Addr := unit) "|" 10000 9 in sret (a, b, c)) t in r) =
  Ok ((lit "GET / HTTP/1.1\rX|", 18), (lit "Y: z|", 5), ([], 0)).
Proof. vm_compute. reflexivity. Qed.

(** ** Reading a stream *)

(** A peer whose bytes arrive without delay: [incoming s w] is what is still to come on socket [s].
    While there is some, the socket is ready and [recv] gives a part of it that is not empty; else
    [select] times out.  No time passes. *)
Class Peer (W Addr : Type) `{OS W Addr} := {
  incoming : Z -> W -> str;
  clock : W -> Z;
  select_law : forall s limit w, exists w',
    sys_select_recv s limit w = ((if bool_decide (incoming s w = []) then 0 else 1), w') /\
    incoming s w' = incoming s w /\ clock w' = clock w;
  recv_law : forall s n w, 0 < n -> incoming s w <> [] -> exists k w',
    sys_recv s n w = (k, ztake k (incoming s w), w') /\ 0 < k <= n /\ k <= zlen (incoming s w) /\
    incoming s w' = zdrop k (incoming s w) /\ clock w' = clock w;
  timer_law : forall w, exists w', sys_timer w = (clock w, w') /\ clock w' = clock w /\
    forall s, incoming s w' = incoming s w
}.

Section stream.
Context {W Addr : Type} `{Peer W Addr}.
Implicit Types (t : TcpSocket W) (b : ByteBuffer).

(** The bytes that can be read from [t]: those in the buffer behind its position, then the incoming
    ones.  They fit into the buffer with room to spare. *)
Definition streams t (text : str) : Prop :=
  exists l p, brepr (_buffer t) l p /\
    text = zdrop p l ++ incoming (_socket (_desc (_base t))) (world (_base t)) /\
    zlen text < _size (_buffer t) /\ zlen text <= _max_size t /\
    _size (_buffer t) <= ROUNDUP (_max_size t + 1) 16 /\ 0 < _max_size t < 2 ^ 30 /\
    _connected (_desc (_base t)) = true.

Definition incoming_of t : str := incoming (_socket (_desc (_base t))) (world (_base t)).

(** The buffer after [resize] still holds what it held. *)
Lemma brepr_resize b l p n :
  brepr b l p -> zlen l <= n -> 0 < n < 2 ^ 30 -> ROUNDUP (n + 1) 16 < 2 ^ 31 ->
  exists b', resize b n = Ok b' /\ brepr b' l p /\ _size b' = ROUNDUP (n + 1) 16.
Proof.
  intros (Hlen & Hpos & Hp & Hsz & Hd & junk & Hb & Hz) Hn Hr Hcap.
  destruct (bresize_spec b (Some <$> l) junk n) as (rest & cap & E & Hz' & Hc & Hd');
    [by rewrite Hb|done|rewrite zlen_fmap; lia|lia|].
  assert (cap = ROUNDUP (n + 1) 16) as Ecap.
  { revert E. unfold resize. replace (0 <? n) with true by lia. rewrite wrapU_small by lia.
    change ROUNDVAL with 16. destruct (_ =? _size b) eqn:Es.
    - apply Z.eqb_eq in Es. rewrite Es. destruct (0 <? _size b); [|intros [= ->]; done].
      intros E. unfold bwrite in E. rewrite Hb in E. destruct (_ && _); [|done].
      unfold set_buffer in E. by injection E.
    - destruct (bwrite _ _ _); cbn; [|done..]. unfold set_size. by intros [= _ -> _ _]. }
  eexists. split; [exact E|]. split; [|exact Ecap]. unfold brepr. cbn [_length _pos _size _buffer].
  split_and!; try done; try lia. exists rest. by rewrite Hz'.
Qed.

(** What the system delivers goes behind the bytes that the buffer holds. *)
Lemma brepr_receive b l bytes :
  brepr b l (zlen l) -> zlen l + zlen bytes < _size b -> 0 < zlen bytes ->
  exists b1 b2, bwrite b (zlen l) (Some <$> bytes) = Ok b1 /\
    setPosition (setLength b1 (u32 (zlen bytes + _pos b1))) (u32 (zlen bytes + _pos b1)) = Ok b2 /\
    _size b2 = _size b /\ brepr b2 (l ++ bytes) (zlen l + zlen bytes).
Proof.
  intros (Hlen & Hpos & Hp & Hsz & Hd & junk & Hb & Hz) Hfit Hpb. rewrite zlen_app, zlen_fmap in Hz.
  destruct (split_len junk (zlen bytes)) as (old & r & -> & Hold); [lia|].
  rewrite (bwrite_app b (Some <$> l) old r) by (done || by rewrite zlen_fmap).
  eexists _, _. split; [done|]. unfold setPosition. cbn [set_buffer setLength _size _pos].
  rewrite Hpos, wrapU_small by lia. replace (_ <? _) with false by lia. split; [done|]. split; [done|].
  unfold brepr. cbn [set_pos set_buffer setLength _length _pos _size _buffer]. rewrite zlen_app in *.
  split_and!; try lia; try done. exists r. split; [by rewrite fmap_app, <- app_assoc|].
  revert Hz Hold. zlen_lia.
Qed.


Lemma yields_change op t b (Q : unit -> TcpSocket W -> Prop) :
  op (_buffer t) = Ok b -> Q tt (mkTcp (_base t) b (_max_size t)) -> yields (change op) t Q.
Proof. intros E HQ. unfold yields, does, change, on_buffer. by rewrite E. Qed.

Lemma yields_sys {A} (call : W -> A * W) (s : Socket W) a w' (Q : A -> Socket W -> Prop) :
  call (world s) = (a, w') -> Q a (mkSocket (_desc s) w') -> yields (sys call) s Q.
Proof. intros E HQ. unfold yields, does, sys. by rewrite E. Qed.

Lemma yields_throw_if (s : Socket W) (c : bool) (Q : unit -> Socket W -> Prop) :
  c = false -> Q tt s -> yields (throw_if c) s Q.
Proof. by intros ->. Qed.

Lemma yields_base {A} (m : ST (Socket W) A) t (Q : A -> TcpSocket W -> Prop) :
  yields m (_base t) (fun a s => Q a (mkTcp s (_buffer t) (_max_size t))) -> yields (base m) t Q.
Proof. intros Hm. apply yields_Ok in Hm as (a & s & E & HQ). apply yields_zoom. eauto. Qed.

Definition coming (s : Socket W) : str := incoming (_socket (_desc s)) (world s).

Lemma isRecvReady_ok (s : Socket W) msec (Q : bool -> Socket W -> Prop) :
  (forall w', incoming (_socket (_desc s)) w' = coming s -> clock w' = clock (world s) ->
    Q (negb (bool_decide (coming s = []))) (mkSocket (_desc s) w')) ->
  yields (isRecvReady msec) s Q.
Proof.
  intros HQ. unfold isRecvReady. apply yields_bind, yields_get.
  destruct (select_law (_socket (_desc s)) (limit msec) (world s)) as (w' & E & Hi & Hc).
  apply yields_bind. eapply yields_sys; [exact E|]. specialize (HQ w' Hi Hc). unfold select_result, coming in *.
  by destruct (bool_decide _).
Qed.

(** [recv] of a connected socket with something to deliver. *)
Lemma recv_socket_ok (s : Socket W) n (Q : Z * str -> Socket W -> Prop) :
  _connected (_desc s) = true -> coming s <> [] -> 0 < n ->
  (forall k w', 0 < k <= n -> k <= zlen (coming s) -> incoming (_socket (_desc s)) w' = zdrop k (coming s) ->
    clock w' = clock (world s) -> Q (k, ztake k (coming s)) (mkSocket (_desc s) w')) ->
  yields (recv n NOW) s Q.
Proof.
  intros Hc Hi Hn HQ. unfold recv. apply yields_bind, yields_get, yields_bind, yields_throw_if.
  { unfold isConnected. by rewrite Hc. }
  apply yields_bind, isRecvReady_ok. intros w1 Hi1 Hc1. rewrite bool_decide_eq_false_2 by done. cbn [negb].
  apply yields_bind, yields_get. cbn [_desc].
  destruct (recv_law (_socket (_desc s)) n w1) as (k & w2 & E & Hk & Hkl & Hi2 & Hc2); [done|by rewrite Hi1|].
  apply yields_bind. eapply yields_sys; [exact E|]. cbn [_desc].
  replace (k =? 0) with false by lia. replace (k =? INVALID) with false by (unfold INVALID; lia).
  rewrite Hi1 in *. apply yields_ret, HQ; [done..|congruence].
Qed.

Lemma ready_ok t msec :
  yields (base (isRecvReady msec)) t (fun r t' =>
    r = negb (bool_decide (incoming_of t = [])) /\ _buffer t' = _buffer t /\ _max_size t' = _max_size t /\
    _desc (_base t') = _desc (_base t) /\ incoming_of t' = incoming_of t /\
    clock (world (_base t')) = clock (world (_base t))).
Proof. apply yields_base, isRecvReady_ok. intros w' Hi Hc. by split_and!. Qed.

Lemma streams_same t t' text :
  _buffer t' = _buffer t -> _max_size t' = _max_size t -> _desc (_base t') = _desc (_base t) ->
  incoming_of t' = incoming_of t -> streams t text -> streams t' text.
Proof.
  intros Eb Em Ed Ei (l & p & Hb & Ht & Hs). unfold incoming_of in Ei. exists l, p. rewrite Eb, Em, Ei, Ed. done.
Qed.

Lemma ROUNDUP_16_mono (a c : Z) : 0 <= a <= c -> c < 2 ^ 31 -> ROUNDUP (a + 1) 16 <= ROUNDUP (c + 1) 16.
Proof.
  intros Ha Hb. change 16 with (2 ^ 4). rewrite !ROUNDUP_spec by lia. apply Z.mul_le_mono_nonneg_r; [lia|].
  apply Z.div_le_mono; lia.
Qed.

Lemma ROUNDUP_16_bound a : 0 <= a < 2 ^ 31 -> a < ROUNDUP (a + 1) 16 <= a + 16.
Proof. intros Ha. pose proof (ROUNDUP_bounds (a + 1) 4). change (2 ^ 4) with 16 in *. lia. Qed.

(** The buffer grows when it is nearly full, and holds what it held. *)
Definition make_room (size pos max_size : Z) : ST (TcpSocket W) unit :=
  let free_bytes := u32 (size - pos) in
  if (free_bytes =? 0) && (max_size <=? size) then sthrow OutOfMemoryException
  else if free_bytes <=? 256 then
    let new_size := u32 (size + 1024) in
    let new_size := if max_size <? new_size then max_size else new_size in
    change (fun b => resize b new_size)
  else sret tt.

Lemma make_room_ok t l :
  brepr (_buffer t) l (zlen l) -> zlen l <= _max_size t ->
  _size (_buffer t) <= ROUNDUP (_max_size t + 1) 16 -> 0 < _max_size t < 2 ^ 30 ->
  yields (make_room (_size (_buffer t)) (zlen l) (_max_size t)) t (fun _ t' => exists b',
    t' = mkTcp (_base t) b' (_max_size t) /\ brepr b' l (zlen l) /\ _size (_buffer t) <= _size b' /\
    _size b' <= ROUNDUP (_max_size t + 1) 16).
Proof.
  intros Hb Hlm Hsz Hm. pose proof Hb as (Hlen & Hpos & Hp & Hs & Hd & junk & Hbu & Hz).
  pose proof (ROUNDUP_16_bound (_max_size t)). unfold make_room.
  rewrite (wrapU_small 32 (_ - _)) by lia. replace (_ =? 0) with false by lia. cbn [andb].
  destruct (Z.leb_spec (_size (_buffer t) - zlen l) 256) as [Hf|Hf].
  2:{ apply yields_ret. exists (_buffer t). split; [by destruct t|]. split; [done|]. lia. }
  rewrite (wrapU_small 32 (_ + 1024)) by lia.
  set (n := if _max_size t <? _ then _ else _).
  assert (zlen l <= n /\ 0 < n < 2 ^ 30 /\ n <= _max_size t /\ _size (_buffer t) <= ROUNDUP (n + 1) 16) as (Hn1 & Hn2 & Hn3 & Hn4).
  { subst n. destruct (Z.ltb_spec (_max_size t) (_size (_buffer t) + 1024)).
    - split_and!; lia.
    - pose proof (ROUNDUP_16_bound (_size (_buffer t) + 1024)). split_and!; lia. }
  pose proof (ROUNDUP_16_bound n).
  destruct (brepr_resize (_buffer t) l (zlen l) n Hb Hn1 Hn2) as (b' & E & Hb' & Es); [lia|].
  eapply yields_change; [exact E|]. exists b'. split; [done|]. split; [done|]. rewrite Es. split; [lia|].
  apply ROUNDUP_16_mono; lia.
Qed.

Lemma bwrite_size b i cs b' : bwrite b i cs = Ok b' -> _size b' = _size b.
Proof. unfold bwrite. repeat case_match; try done; by intros [= <-]. Qed.

Lemma toggle_size b m b' : toggle b m = Ok b' -> _size b' = _size b.
Proof.
  unfold toggle, moveStart. repeat case_match; try by intros [= <-].
  destruct (bread b (_pos b) _) as [cs| | |]; cbn [bind]; try done.
  destruct (bwrite _ 0 cs) as [b1| | |] eqn:E1; cbn [bind]; try done. intros E2.
  apply bwrite_size in E1, E2. cbn in E1, E2. congruence.
Qed.

Lemma streams_intro base b m l p text :
  brepr b l p -> text = zdrop p l ++ incoming (_socket (_desc base)) (world base) ->
  zlen text < _size b -> zlen text <= m -> _size b <= ROUNDUP (m + 1) 16 -> 0 < m < 2 ^ 30 ->
  _connected (_desc base) = true -> streams (mkTcp base b m) text.
Proof. intros. by exists l, p. Qed.

Lemma bufferedRecv_ok t text :
  streams t text -> incoming_of t <> [] ->
  yields _bufferedRecv t (fun n t' => 0 < n /\ streams t' text /\
    zlen (incoming_of t') < zlen (incoming_of t) /\ clock (world (_base t')) = clock (world (_base t))).
Proof.
  intros (l & p & Hb & -> & Hsz & Hmax & Hround & Hm & Hc) Hi.
  pose proof Hb as (_ & _ & Hp & Hs & _). rewrite zlen_app, zlen_drop in Hsz, Hmax.
  unfold incoming_of in *. set (inc := incoming _ _) in *. set (u := zdrop p l) in *.
  assert (0 < zlen inc) as Hpos by (destruct inc; [done|zlen_lia]).
  assert (zlen u = zlen l - p) as Hu by (subst u; rewrite zlen_drop; lia).
  destruct (toggle_repr _ _ _ Hb) as [(b1 & E1 & Hb1) _]. fold u in Hb1. rewrite <- Hu in Hb1.
  pose proof (toggle_size _ _ _ E1) as Hs1. pose proof (ROUNDUP_16_bound (_max_size t)).
  unfold _bufferedRecv. apply yields_bind. eapply yields_change; [exact E1|].
  do 3 (apply yields_bind, yields_get). cbn [_buffer _max_size _base]. pose proof Hb1 as (_ & Hpos1 & _). rewrite Hpos1.
  apply yields_bind. rewrite Hs1. rewrite <- Hs1 at 1.
  pose proof (make_room_ok (mkTcp (_base t) b1 (_max_size t)) u Hb1) as Hroom. cbn [_buffer _max_size _base] in Hroom.
  unfold make_room in Hroom. rewrite Hs1 in Hroom. rewrite Hs1. eapply yields_mono; [apply Hroom; lia|].
  intros [] t2 (b2 & -> & Hb2 & Hge & Hle). pose proof Hb2 as (_ & Hpos2 & _ & Hsz2 & _).
  do 2 (apply yields_bind, yields_get). cbn [_buffer]. rewrite Hpos2.
  rewrite wrapU_small, wrapS_small by (change (2 ^ (32 - 1)) with (2 ^ 31); lia).
  apply yields_bind, yields_base, recv_socket_ok; [done|done|lia|].
  unfold coming. cbn [_base _buffer _max_size]. fold inc. intros k w' Hk Hkl Hi' Hck.
  assert (zlen (ztake k inc) = k) as Ek by (rewrite zlen_take; lia).
  destruct (brepr_receive b2 u (ztake k inc) Hb2) as (b3 & b4 & E3 & E4 & Hs4 & Hb4); [lia..|]. rewrite Ek in E4, Hb4.
  apply yields_bind. eapply yields_change; [exact E3|]. cbn [_base _max_size _buffer].
  replace (0 <? k) with true by lia. apply yields_bind, yields_bind. eapply yields_change; [done|].
  cbn [_base _max_size _buffer]. eapply yields_change; [exact E4|]. cbn [_base _max_size _buffer].
  destruct (toggle_repr _ _ _ Hb4) as [_ (b5 & E5 & Hb5)]. pose proof (toggle_size _ _ _ E5) as Hs5.
  apply yields_bind. eapply yields_change; [exact E5|]. cbn [_base _max_size _buffer]. apply yields_ret.
  split; [lia|]. cbn [_base _desc world]. split_and!; [|rewrite Hi', zlen_drop; lia|done].
  eapply streams_intro; [exact Hb5| | | | | |]; cbn [_desc world]; try done; try lia; rewrite ?zlen_app; try lia.
  rewrite Hi', zdrop_le by lia. rewrite <- app_assoc. by rewrite ztake_zdrop.
Qed.


(** ** Reading up to a mark *)

Lemma find_loop_miss b l p c n : forall i,
  brepr b l p -> p <= i -> i + Z.of_nat n = zlen l -> c ∉ zdrop p l -> find_loop b c i n = Ok (-1).
Proof.
  induction n as [|n IH]; intros i Hb Hi Hn Hc; [done|]. cbn [find_loop].
  pose proof Hb as (_ & _ & Hp & _ & _ & junk & Hbu & _).
  destruct (split3 l i 1) as (m & El & Hm & _); [lia..|].
  destruct m as [|x [|? ?]]; [discriminate Hm| |revert Hm; zlen_lia].
  assert (zlen (ztake i l) = i) as Ei by (rewrite zlen_take; lia).
  unfold bload. rewrite (bread_app b (Some <$> ztake i l) [Some x] ((Some <$> zdrop (i + 1) l) ++ junk)); 
    [|rewrite Hbu; rewrite El at 1; rewrite !fmap_app; by rewrite <- !app_assoc|rewrite zlen_fmap; lia|done].
  cbn [bind]. rewrite decide_False.
  - apply IH; [done|lia..|done].
  - intros ->. apply Hc. unfold zdrop.
    apply list_elem_of_lookup. exists (Z.to_nat (i - p)). rewrite lookup_drop. rewrite El.
    rewrite lookup_app_r by (unfold zlen in Ei; lia).
    replace (Z.to_nat p + Z.to_nat (i - p) - length (ztake i l))%nat with 0%nat by (unfold zlen in Ei; lia). done.
Qed.

Lemma brepr_pos b l p q : brepr b l p -> 0 <= q <= zlen l -> brepr (set_pos b q) l q.
Proof. intros (H1 & H2 & H3 & H4 & H5 & H6) Hq. unfold brepr. cbn [_length _pos _size ByteBuffer._buffer set_pos]. split_and!; done || lia. Qed.

Definition found (c : char) (text : str) (r : str * Z) t' : Prop :=
  exists l1 l2, text = l1 ++ c :: l2 /\ (c ∉ l1) /\ r = (l1 ++ [c], zlen l1 + 1) /\ streams t' l2.

Lemma from_buffer_ok t text c :
  streams t text ->
  yields (from_buffer (fun b => readUntil_char b c)) t (fun r t' =>
    (found c text r t' /\ 0 < r.2) \/
    (r = ([], 0) /\ t' = t /\ (incoming_of t = [] -> c ∉ text))).
Proof.
  intros (l & p & Hb & -> & Hsz & Hmax & Hround & Hm & Hc). pose proof Hb as (Hlen & Hpos & Hp & Hs & _).
  pose proof (ROUNDUP_16_bound (_max_size t)).
  unfold from_buffer, yields, does, on_buffer.
  destruct (decide (c ∈ zdrop p l)) as [(l1 & l2 & E & Hn)%list_elem_of_split_l|Hn].
  - assert (l = ztake p l ++ l1 ++ c :: l2) as El by (rewrite <- E; by rewrite ztake_zdrop).
    assert (zlen (ztake p l) = p) as Ep by (rewrite zlen_take; lia).
    pose proof (readUntil_spec (_buffer t) (ztake p l) l1 c l2) as Hr. rewrite <- El, Ep in Hr.
    rewrite (Hr Hb) by (done || lia). cbn. left. split; [|zlen_lia].
    exists l1, (l2 ++ incoming (_socket (_desc (_base t))) (world (_base t))).
    split; [rewrite E; by rewrite <- app_assoc|]. split; [done|]. split; [done|].
    assert (zlen l = p + zlen l1 + 1 + zlen l2) as Ell by (rewrite El, !zlen_app, Ep; zlen_lia).
    rewrite E in Hsz, Hmax. rewrite !zlen_app, zlen_cons in Hsz, Hmax.
    eapply streams_intro; [eapply (brepr_pos _ _ _ (p + zlen l1 + 1)); [exact Hb|zlen_lia]|..]; try done.
    + f_equal. rewrite El at 1. replace (p + zlen l1 + 1) with (zlen (ztake p l ++ l1 ++ [c])).
      * replace (ztake p l ++ l1 ++ c :: l2) with ((ztake p l ++ l1 ++ [c]) ++ l2) by (by rewrite <- !app_assoc).
        by rewrite Str.zdrop_app_zlen.
      * rewrite !zlen_app, Ep. change (zlen [c]) with 1. lia.
    + cbn. rewrite zlen_app. zlen_lia.
    + cbn. rewrite zlen_app. zlen_lia.
  - unfold readUntil_char, find. rewrite Hlen, Hpos.
    rewrite (find_loop_miss _ l p c _ p Hb) by (done || lia). cbn. right. split; [done|]. split; [by destruct t|].
    unfold incoming_of. intros ->. by rewrite app_nil_r.
Qed.

Lemma clock_timer t (Q : Z -> TcpSocket W -> Prop) :
  (forall t', _buffer t' = _buffer t -> _max_size t' = _max_size t -> _desc (_base t') = _desc (_base t) ->
    incoming_of t' = incoming_of t -> clock (world (_base t')) = clock (world (_base t)) ->
    Q (clock (world (_base t))) t') -> yields (base (sys sys_timer)) t Q.
Proof.
  intros HQ. destruct (timer_law (world (_base t))) as (w' & E & Hc & Hi).
  apply yields_base. eapply yields_sys; [exact E|]. apply HQ; [done|done|done|apply Hi|exact Hc].
Qed.

Definition outcome (c : char) (text : str) (r : str * Z) t' : Prop :=
  found c text r t' \/ (c ∉ text) /\ r = ([], 0) /\ streams t' text.

Lemma found_result c text r t' : found c text r t' -> r = (r.1, zlen r.1).
Proof. intros (l1 & l2 & _ & _ & -> & _). cbn. f_equal. zlen_lia. Qed.

Lemma timer_loop_ok c timer msec fuel : forall t text,
  streams t text -> 0 < msec < 2 ^ 31 -> clock (world (_base t)) = timer -> (length (incoming_of t) < fuel)%nat ->
  (incoming_of t = [] -> c ∉ text) ->
  yields (timer_loop (fun b => readUntil_char b c) timer msec fuel) t (outcome c text).
Proof.
  induction fuel as [|fuel IH]; intros t text Hs Hm Hclk Hf Hmiss; [lia|]. cbn [timer_loop].
  apply yields_bind. replace (0 <? msec) with true by lia. eapply yields_mono; [apply ready_ok|].
  intros ready t1 (-> & Eb & Em & Ed & Ei & Ec). pose proof (streams_same _ _ _ Eb Em Ed Ei Hs) as Hs1.
  destruct (decide (incoming_of t = [])) as [E|E].
  { rewrite bool_decide_eq_true_2 by done. cbn [negb]. apply yields_ret. right. split; [by apply Hmiss|done]. }
  rewrite bool_decide_eq_false_2 by done. cbn [negb]. apply yields_bind.
  eapply yields_mono; [apply bufferedRecv_ok; [exact Hs1|by rewrite Ei]|].
  intros n t2 (Hn & Hs2 & Hlt & Ec2). apply yields_bind. eapply yields_mono; [by apply from_buffer_ok|].
  intros [buf k] t3 [[Hfound Hk]|(Er & -> & Hmiss2)]; cbn [snd] in *.
  - replace (0 <? k) with true by lia. apply yields_ret. left. pose proof (found_result _ _ _ _ Hfound) as [= ->]. exact Hfound.
  - injection Er as -> ->. change (0 <? 0) with false. cbv iota. apply yields_bind, clock_timer.
    intros t4 Eb4 Em4 Ed4 Ei4 Ec4. rewrite Ec2, Ec, Hclk, Z.sub_diag. change (s32 (u32 0)) with 0.
    rewrite Z.sub_0_r, wrapS_small by (change (2 ^ (32 - 1)) with (2 ^ 31); lia).
    apply IH.
    + by apply (streams_same t2).
    + done.
    + by rewrite Ec4, Ec2, Ec.
    + rewrite Ei4. rewrite Ei in Hlt. unfold zlen in Hlt. lia.
    + by rewrite Ei4.
Qed.

Lemma first_unique (c : char) l1 l2 k1 k2 :
  l1 ++ c :: l2 = k1 ++ c :: k2 -> (c ∉ l1) -> (c ∉ k1) -> l1 = k1 /\ l2 = k2.
Proof.
  revert k1. induction l1 as [|x l1 IH]; intros [|y k1]; cbn; intros E Hl Hk; simplify_eq; try done.
  - destruct Hk. left.
  - destruct Hl. left.
  - rewrite not_elem_of_cons in Hl, Hk. destruct (IH k1) as [-> ->]; tauto || done.
Qed.

(** [readUntil] takes the next line of a stream, however it is cut into pieces. *)
Lemma readUntil_ok c msec fuel t text :
  streams t text -> 0 < msec < 2 ^ 31 -> (length (incoming_of t) < fuel)%nat ->
  yields (readUntil c msec fuel) t (outcome c text).
Proof.
  intros Hs Hm Hf. unfold readUntil, readUntil_with. apply yields_bind.
  eapply yields_mono; [by apply from_buffer_ok|]. intros [buf k] t1 [[Hfound Hk]|(Er & -> & Hmiss)]; cbn [snd] in *.
  - replace (0 <? k) with true by lia. apply yields_ret. left. pose proof (found_result _ _ _ _ Hfound) as [= ->]. exact Hfound.
  - injection Er as -> ->. change (0 <? 0) with false. cbv iota.
    replace (msec =? NOW) with false by (unfold NOW; lia). replace (msec =? FOREVER) with false by (unfold FOREVER; lia).
    apply yields_bind, clock_timer. intros t4 Eb4 Em4 Ed4 Ei4 Ec4.
    apply timer_loop_ok; [by apply (streams_same t)|done|done|by rewrite Ei4|by rewrite Ei4].
Qed.

(** [readUntil] when the mark is in the stream. *)
Lemma readUntil_mark c msec fuel t l1 l2 :
  streams t (l1 ++ c :: l2) -> (c ∉ l1) -> 0 < msec < 2 ^ 31 -> (length (incoming_of t) < fuel)%nat ->
  exists t', readUntil c msec fuel t = (Ok (l1 ++ [c], zlen l1 + 1), t') /\ streams t' l2.
Proof.
  intros Hs Hn Hm Hf. pose proof (readUntil_ok c msec fuel t _ Hs Hm Hf) as Hy. apply yields_Ok in Hy as (r & t' & E & Ho).
  exists t'. rewrite E. destruct Ho as [(k1 & k2 & Ek & Hk & -> & Hs')|[Hno _]].
  - by destruct (first_unique _ _ _ _ _ Ek Hn Hk) as [-> ->].
  - destruct Hno. apply elem_of_app. right. left.
Qed.



(** ** Reading a number of bytes *)

(** The bytes behind the position of the buffer. *)
Lemma remaining_ok t l p : brepr (_buffer t) l p -> zlen l < 2 ^ 31 -> remaining (_buffer t) = zlen (zdrop p l).
Proof.
  intros (Hlen & Hpos & Hp & _) Hl. unfold remaining. rewrite Hlen, Hpos, wrapU_small, zlen_drop by lia. lia.
Qed.

Lemma fill_loop_ok n fuel : forall t text,
  streams t text -> 0 <= n <= zlen text -> (length (incoming_of t) < fuel)%nat ->
  yields (fill_loop n fuel) t (fun _ t' => streams t' text /\ n <= remaining (_buffer t')).
Proof.
  induction fuel as [|fuel IH]; intros t text Hs Hn Hf; [lia|]. cbn [fill_loop].
  pose proof Hs as (l & p & Hb & Et & Hsz & Hmax & Hround & Hm & Hc). pose proof (ROUNDUP_16_bound (_max_size t)).
  pose proof Hb as (_ & _ & _ & Hls & _).
  apply yields_bind, yields_get. destruct (Z.ltb_spec (remaining (_buffer t)) n) as [Hlt|Hge]; [|by apply yields_ret].
  assert (incoming_of t <> []) as Hi.
  { intros E. unfold incoming_of in E. rewrite E, app_nil_r in Et. rewrite (remaining_ok _ _ _ Hb), <- Et in Hlt by lia. lia. }
  apply yields_bind. eapply yields_mono; [apply ready_ok|]. intros r t1 (-> & Eb & Em & Ed & Ei & Ec).
  rewrite bool_decide_eq_false_2 by done. cbn [negb]. apply yields_bind, yields_ret, yields_bind.
  eapply yields_mono; [apply bufferedRecv_ok; [by apply (streams_same t)|by rewrite Ei]|].
  intros k t2 (Hk & Hs2 & Hlt2 & _). apply IH; [done|done|]. rewrite Ei in Hlt2. unfold zlen in Hlt2. lia.
Qed.

(** [readAll] waits for [n] bytes and returns all but the last of them, which stays to be read. *)
Theorem readAll_short n fuel t text :
  streams t text -> 2 <= n <= zlen text -> n < 2 ^ 30 -> (length (incoming_of t) < fuel)%nat ->
  exists t', readAll n fuel t = (Ok (ztake (n - 1) text, n - 1), t') /\ streams t' (zdrop (n - 1) text).
Proof.
  intros Hs Hn Hn30 Hf. pose proof (fill_loop_ok n fuel t text Hs ltac:(lia) Hf) as Hy.
  apply yields_Ok in Hy as ([] & t1 & E & (l & p & Hb & -> & Hsz & Hmax & Hround & Hm & Hc) & Hr).
  pose proof Hb as (_ & Hpos & Hp & Hls & _). pose proof (ROUNDUP_16_bound (_max_size t1)).
  rewrite (remaining_ok _ _ _ Hb), zlen_drop in Hr by lia.
  unfold readAll, sbind. rewrite E. unfold on_buffer, bb_read_String, read_String.
  rewrite wrapU_small by lia. replace (n - 1 =? 0) with false by lia. cbn [bind].
  replace (0 <? n - 1) with true by lia.
  rewrite (readData_repr _ l p (n - 1) Hb) by lia. replace (_ <? _) with true by lia. cbn [bind].
  set (inc := incoming _ _) in *. set (u := zdrop p l) in *.
  assert (zlen u = zlen l - p) as Hu by (subst u; rewrite zlen_drop; lia).
  assert (ztake (n - 1) (u ++ inc) = ztake (n - 1) u) as Et.
  { unfold ztake. rewrite take_app_le; [done|]. unfold zlen in *. lia. }
  assert (zdrop (n - 1) (u ++ inc) = zdrop (n - 1) u ++ inc) as Ed.
  { unfold zdrop. rewrite drop_app_le; [done|]. unfold zlen in *. lia. }
  eexists. split; [|].
  - rewrite Et. reflexivity.
  - rewrite Ed. rewrite zlen_app in Hsz, Hmax. eapply streams_intro; [eapply (brepr_pos _ _ _ (p + (n - 1))); [exact Hb|lia]|..]; try done.
    + f_equal. subst u. unfold zdrop. rewrite drop_drop. f_equal. lia.
    + cbn. rewrite zlen_app, zlen_drop. lia.
    + cbn. rewrite zlen_app, zlen_drop. lia.
Qed.
End stream.

(** ** What goes wrong *)

Definition letters (n : nat) : str := replicate n "a"%char.

(** When the received bytes fill the buffer, the terminator is written behind its end. *)
Theorem bufferedRecv_overflow :
  let read chunks := (let? t := sim_tcp chunks in (readUntil (W := sim) (Addr := unit) "b" 10000 9 t).1) in
  read [letters 1039; lit "b"] = Ok (letters 1039 ++ lit "b", 1040) /\
  read [letters 1040; lit "b"] = UB.
Proof. vm_compute. split; reflexivity. Qed.

(** ** Witnesses *)

Lemma concat_filter {A} (l : list (list A)) : concat (filter (fun c => c <> []) l) = concat l.
Proof. induction l as [|c l IH]; [done|]. rewrite filter_cons. case_decide as Hc; cbn; [by rewrite IH|]. by destruct c. Qed.

#[export] Program Instance sim_Peer : Peer sim unit := {|
  incoming _ w := concat (sim_peer w);
  clock := sim_time
|}.
Next Obligation. intros s limit w. by exists w. Qed.
Next Obligation.
  intros s n [b cs t] Hn Hi. cbn in *. rewrite <- concat_filter in Hi |- *.
  assert (Forall (fun c => c <> []) (filter (fun c => c <> []) cs)) as Hne by (apply Forall_forall; by intros c [? _]%list_elem_of_filter).
  destruct (filter _ cs) as [|c cs'] eqn:E; [done|]. apply Forall_cons_iff in Hne as [Hc _].
  assert (0 < zlen c) by (destruct c; [done|zlen_lia]).
  exists (zlen (ztake n c)), (mkSim b (if zlen c <=? n then cs' else zdrop n c :: cs') t).
  rewrite zlen_take. destruct (Z.leb_spec (zlen c) n) as [Hl|Hl]; cbn.
  - rewrite ztake_ge by done. replace (Z.min _ _) with (zlen c) by lia.
    split_and!; try lia; try done.
    + f_equal. f_equal. unfold ztake, zlen. by rewrite Nat2Z.id, take_app_length.
    + rewrite zlen_app. zlen_lia.
    + unfold zdrop, zlen. by rewrite Nat2Z.id, drop_app_length.
  - replace (Z.min _ _) with n by lia. split_and!; try lia; try done.
    + f_equal. f_equal. unfold ztake. rewrite take_app_le; [done|unfold zlen in *; lia].
    + rewrite zlen_app. zlen_lia.
    + unfold zdrop. rewrite drop_app_le; [done|unfold zlen in *; lia].
Qed.
Next Obligation. intros w. by eexists. Qed.

(** A new socket streams what its peer sends. *)
Lemma sim_streams chunks :
  zlen (concat chunks) < 1040 -> exists t, sim_tcp chunks = Ok t /\ streams t (concat chunks).
Proof.
  intros Hl. unfold sim_tcp, TcpSocket_of. destruct (BB_new 1024) as [b| | |] eqn:E; try by vm_compute in E.
  eexists. split; [done|]. eapply streams_intro with (l := []) (p := 0); try done.
  - destruct (brepr_new 1024) as (b' & E' & Hb'); [done|]. rewrite E in E'. by injection E' as <-.
  - cbn. assert (_size b = 1040) as ->; [|lia]. revert E. vm_compute. by intros [= <-].
  - cbn. lia.
  - assert (_size b = 1040) as ->; [|done]. revert E. vm_compute. by intros [= <-].
Qed.


Lemma readAll_short_witness :
  exists t t', sim_tcp [lit "ab"; lit "cd"] = Ok t /\
    readAll (W := sim) (Addr := unit) 4 9 t = (Ok (lit "abc", 3), t') /\ streams t' (lit "d").
Proof.
  destruct (sim_streams [lit "ab"; lit "cd"]) as (t & E & Hs); [reflexivity|].
  destruct (readAll_short 4 9 t _ Hs) as (t' & E' & Hs').
  - split; discriminate.
  - reflexivity.
  - vm_compute in E. injection E as <-. vm_compute. repeat constructor.
  - exists t, t'. split; [exact E|]. split; [exact E'|exact Hs'].
Defined.
