(* ===== verification/HttpHeaders.v ===== *)
(** * HTTP headers (src/cpp/src/net/HttpHeaders.cpp)

    [parse] reads header lines from a [TcpSocket] into the dictionary that the headers are, up to an
    empty line or until no line comes. *)

From S2P Require Import Prelude State CString Str StrConv StrMem ByteBuffer Socket TcpSocket Dictionary DictTree DictSpec Mapping.

Definition MAX_HEADERS : Z := 200.
Definition CR : char := chr 13.
Definition LF : char := chr 10.
Definition TAB : char := chr 9.
Definition CRLF : str := [CR; LF].

(** [(line[0] == ' ') || (line[0] == '\t')] *)
Definition is_blank_start (line : str) : bool :=
  let first := default NUL (head line) in bool_decide (first = " "%char) || bool_decide (first = TAB).

Section headers.
Context {W Addr : Type} `{OS W Addr} {D : Type} `{MapOps D str str}.

(** The socket that is read and the headers. *)
Record State := mkState { conn : TcpSocket W; headers : D }.
Abbreviation M := (ST State).

Definition on_conn {A} (m : ST (TcpSocket W) A) : M A :=
  zoom conn (fun s t => mkState t (headers s)) m.
Definition on_headers {A} (op : D -> res (A * D)) : M A := fun s =>
  match op (headers s) with
  | Ok (a, d) => (Ok a, mkState (conn s) d)
  | Throw e => (Throw e, s)
  | UB => (UB, s)
  | NoFuel => (NoFuel, s)
  end.
Definition ask {A} (op : D -> res A) : M A := on_headers (fun d => let? a := op d in Ok (a, d)).
Definition update_headers (op : D -> res D) : M unit := on_headers (fun d => let? d := op d in Ok (tt, d)).

(** One turn of the loop, which keeps the last header's name and value. *)
Definition parse_line (line name value : str) : M (str * str) :=
  if negb (bool_decide (name = [])) && is_blank_start line then
    let! part := lift (between_cc line ":" CR 1) in
    let value := (value ++ lit " ") ++ trim_back part in
    update_headers (map_put name value) ;;!
    sret (name, value)
  else
    let! colon := lift (find_char line ":" 0) in
    if 0 <? colon then
      let! part := lift (between_cc line ":" CR 1) in
      let value := spec OTrim part in
      let! field := lift (section_char line ":" 0 true) in
      let name := spec OLower field in
      let! has := ask (map_hasKey name) in
      (if negb has then
         update_headers (map_add name value) ;;!
         let! n := ask map_size in
         if MAX_HEADERS <=? n then sthrow PermissionDeniedException else sret tt
       else sret tt) ;;!
      sret (name, value)
    else sret (name, value).

(** [fuel] bounds the lines, and the pieces in which each of them comes. *)
Fixpoint parse_loop (line name value : str) (fuel : nat) : M unit :=
  match fuel with
  | O => sfail
  | S fuel' =>
      if negb (bool_decide (line = [])) && op_ne line CRLF then
        let! (name, value) := parse_line line name value in
        let! (line, _) := on_conn (readUntil LF 10000 fuel) in
        parse_loop line name value fuel'
      else sret tt
  end.

Definition parse (fuel : nat) : M unit :=
  update_headers map_clear ;;!
  let! (line, _) := on_conn (readUntil LF 10000 fuel) in
  parse_loop line [] [] fuel.
End headers.
Arguments State W D : clear implicits.
Arguments mkState {W D} _ _.
Arguments conn {W D} _.
Arguments headers {W D} _.

(** The headers a new socket gets from [chunks]. *)
Definition headers_of (chunks : list str) : res (list (str * str)) :=
  let? t := sim_tcp chunks in
  let '(r, s) := parse (W := sim) (Addr := unit) 999 (mkState t (map_new : Dictionary str str)) in
  let? _ := r in map_items (headers s).

Definition line (s : string) : str := lit s ++ CRLF.

Example headers_1 :
  headers_of [line "Host:  example.org "; line "CONTENT-Length: 12"; line "host: other"; line "X-Empty:"; CRLF; lit "body"] =
  Ok [(lit "host", lit "example.org"); (lit "content-length", lit "12"); (lit "x-empty", [])].
Proof. vm_compute. reflexivity. Qed.

(** ** The headers of a request *)

Definition header_text (h : str * str) : str := h.1 ++ ":"%char :: h.2 ++ CRLF.

(** Names and values that a line can carry. *)
Definition good_header (h : str * str) : Prop :=
  h.1 <> [] /\ free_of [":"%char; LF] h.1 /\ nul_free h.1 /\ is_blank_start h.1 = false /\
  free_of CRLF h.2 /\ nul_free h.2.

(** The first header of a name counts. *)
Definition add_header (kvs : list (str * str)) (h : str * str) : list (str * str) :=
  let name := tolower <$> h.1 in
  if mem name kvs then kvs else kvs ++ [(name, trim_back (trim_front h.2))].

Lemma header_text_line h : header_text h = (h.1 ++ ":"%char :: h.2 ++ [CR]) ++ [LF].
Proof. unfold header_text, CRLF. rewrite <- app_assoc. cbn. by rewrite <- app_assoc. Qed.

Lemma header_parts name v : name <> [] ->
  free_of [":"%char; LF] name -> nul_free name -> free_of CRLF v -> nul_free v ->
  zlen (header_text (name, v)) < 2 ^ 31 - 1 ->
  find_char (header_text (name, v)) ":" 0 = Ok (zlen name) /\
  (exists part, between_cc (header_text (name, v)) ":" CR 1 = Ok part /\ spec OTrim part = trim_back (trim_front v)) /\
  section_char (header_text (name, v)) ":" 0 true = Ok name.
Proof.
  intros Hn0 Hn Hnf Hv Hvf Hl.
  assert (nul_free (header_text (name, v))) as Hf.
  { unfold header_text. rewrite nul_free_app, nul_free_cons, nul_free_app. split_and!; try done. compute_done. }
  assert (":"%char ∉ name) as Hc by marks. assert (CR ∉ v) as Hr by marks.
  assert (find_char (header_text (name, v)) ":" 0 = Ok (zlen name)) as Ef.
  { apply (find_char_hit_at _ [] name ":" (v ++ CRLF)); done || lia. }
  split_and!; [done| |].
  - unfold header_text in *. cbn [fst snd] in *. eexists. split; [by apply (between_cc_spec name v [LF])|].
    case_decide as Ev; [subst v; reflexivity|done].
  - unfold section_char. cbn [section_char_loop bind]. change (-1 + 1) with 0. change (u32 0) with 0. rewrite Ef.
    cbn [bind]. change (0 <? s32 0) with false. cbn [andb bind].
    pose proof (section_fin_field (header_text (name, v)) [] name (":"%char :: v ++ CRLF) 0 (zlen name)) as Hs.
    unfold section_fin in Hs. change (zlen []) with 0 in Hs. rewrite Hs by done || lia. by rewrite decide_False.
Qed.

Section laws.
Context {W Addr : Type} `{Peer W Addr} {D : Type} `{MapOps D str str, !Mapping D str str}.
Implicit Types (kvs : list (str * str)).

Lemma yields_update (op : D -> res D) (s : State W D) d (Q : unit -> State W D -> Prop) :
  op (headers s) = Ok d -> Q tt (mkState (conn s) d) -> yields (update_headers op) s Q.
Proof. intros E HQ. unfold yields, does, update_headers, on_headers. by rewrite E. Qed.

Lemma yields_ask {A} (op : D -> res A) (s : State W D) a (Q : A -> State W D -> Prop) :
  op (headers s) = Ok a -> Q a s -> yields (ask op) s Q.
Proof. intros E HQ. unfold yields, does, ask, on_headers. rewrite E. by destruct s. Qed.

Lemma streams_length (t : TcpSocket W) text :
  streams t text -> zlen text < 2 ^ 30 /\ (length (incoming_of t) <= length text)%nat.
Proof. intros (l & p & _ & -> & _ & ? & _ & ? & _). split; [lia|]. rewrite length_app. unfold incoming_of. lia. Qed.

(** A line of the stream. *)
Lemma line_ok (s : State W D) l rest fuel (Q : str * Z -> State W D -> Prop) :
  streams (conn s) (l ++ [LF] ++ rest) -> (LF ∉ l) -> (length (l ++ [LF] ++ rest) < fuel)%nat ->
  (forall t n, streams t rest -> Q (l ++ [LF], n) (mkState t (headers s))) ->
  yields (on_conn (readUntil LF 10000 fuel)) s Q.
Proof.
  intros Hs Hl Hf HQ. pose proof (streams_length _ _ Hs) as [_ Hi].
  destruct (readUntil_mark LF 10000 fuel (conn s) l rest Hs Hl ltac:(done) ltac:(lia)) as (t & E & Ht).
  apply yields_zoom. eauto.
Qed.

(** A line with a header: it is added when its name is new, and then the number of headers is checked. *)
Lemma parse_line_header h name value (s : State W D) kvs :
  good_header h -> zlen (header_text h) < 2 ^ 31 - 1 -> stands_for (headers s) kvs -> zlen kvs < 2 ^ 31 ->
  exists r d, parse_line (header_text h) name value s = (r, mkState (conn s) d) /\ stands_for d (add_header kvs h) /\
    r = if negb (mem (tolower <$> h.1) kvs) && (MAX_HEADERS <=? zlen kvs + 1) then Throw PermissionDeniedException
        else Ok (tolower <$> h.1, trim_back (trim_front h.2)).
Proof.
  destruct h as [n v]. intros (Hn0 & Hn & Hnf & Hb & Hv & Hvf) Hl Hd Hz. cbn [fst snd] in *.
  destruct (header_parts n v) as (Ef & (part & Eb & Et) & Es); [done..|].
  assert (is_blank_start (header_text (n, v)) = false) as Ebl by (destruct n; [done|exact Hb]).
  pose proof (zlen_nonneg kvs). assert (0 < zlen n) by (destruct n; [done|zlen_lia]).
  unfold parse_line. rewrite Ebl, andb_false_r. unfold sbind at 1, lift. rewrite Ef.
  replace (0 <? zlen n) with true by lia. unfold sbind at 1. rewrite Eb. unfold sbind at 1. rewrite Es, Et.
  unfold sbind, ask, update_headers, on_headers. cbn [spec]. rewrite (hasKey_law _ _ kvs Hd). cbn [bind headers conn].
  unfold add_header. cbn [fst snd]. destruct (mem (tolower <$> n) kvs) eqn:Em; cbn [negb andb]; [by eauto|].
  pose proof (add_law (tolower <$> n) (trim_back (trim_front v)) _ kvs Hd) as Ha. rewrite Em in Ha.
  destruct Ha as (d' & Ea & Hd'). cbn. rewrite Ea. cbn. rewrite (size_law _ _ Hd'). cbn.
  rewrite zlen_app. change (zlen [_]) with 1. rewrite wrapU_small by lia.
  destruct (MAX_HEADERS <=? _); eexists _, d'; by split_and!.
Qed.

Lemma parse_line_ok h name value (s : State W D) kvs :
  good_header h -> zlen (header_text h) < 2 ^ 31 - 1 -> stands_for (headers s) kvs -> zlen kvs < MAX_HEADERS - 1 ->
  yields (parse_line (header_text h) name value) s (fun _ s' =>
    conn s' = conn s /\ stands_for (headers s') (add_header kvs h)).
Proof.
  intros Hg Hl Hd Hz. pose proof (zlen_nonneg kvs). unfold MAX_HEADERS in Hz.
  destruct (parse_line_header h name value s kvs Hg Hl Hd) as (r & d & E & Hd' & Er); [lia|].
  unfold yields, does. rewrite E, Er. unfold MAX_HEADERS. replace (200 <=? _) with false by lia. by rewrite andb_false_r.
Qed.

(** The header that makes their number [MAX_HEADERS] is added, and then refused with an exception. *)
Theorem parse_limit h name value (s : State W D) kvs :
  good_header h -> zlen (header_text h) < 2 ^ 31 - 1 -> stands_for (headers s) kvs -> zlen kvs = MAX_HEADERS - 1 ->
  mem (tolower <$> h.1) kvs = false ->
  exists d, parse_line (header_text h) name value s = (Throw PermissionDeniedException, mkState (conn s) d) /\
    stands_for d (kvs ++ [(tolower <$> h.1, trim_back (trim_front h.2))]).
Proof.
  intros Hg Hl Hd Hz Hm.
  destruct (parse_line_header h name value s kvs Hg Hl Hd) as (r & d & E & Hd' & ->); [unfold MAX_HEADERS in Hz; lia|].
  exists d. rewrite E. unfold add_header in Hd'. rewrite Hm in *. rewrite Hz. done.
Qed.

Lemma add_header_length kvs h : zlen (add_header kvs h) <= zlen kvs + 1.
Proof. unfold add_header. destruct (mem _ _); [lia|]. rewrite zlen_app. change (zlen [_]) with 1. lia. Qed.

Definition request_text (hs : list (str * str)) (rest : str) : str := concat (header_text <$> hs) ++ CRLF ++ rest.

(** The line that the loop starts with, and those that are still to come. *)
Definition next_line (hs : list (str * str)) : str := match hs with [] => CRLF | h :: _ => header_text h end.
Definition lines_left (hs : list (str * str)) (rest : str) : str :=
  match hs with [] => rest | _ :: hs => request_text hs rest end.

Lemma request_lines hs rest : Forall good_header hs ->
  exists l, next_line hs = l ++ [LF] /\ (LF ∉ l) /\ request_text hs rest = l ++ [LF] ++ lines_left hs rest.
Proof.
  unfold request_text. destruct hs as [|h hs]; cbn [next_line lines_left fmap list_fmap concat].
  - intros _. exists [CR]. split_and!; [done|compute_done|done].
  - intros [(_ & Hn & _ & _ & Hv & _) _]%Forall_cons_iff. exists (h.1 ++ ":"%char :: h.2 ++ [CR]).
    rewrite header_text_line. split_and!; [done| |by rewrite <- !app_assoc].
    rewrite not_elem_of_app, not_elem_of_cons, not_elem_of_app. split_and!; [marks|done|marks|compute_done].
Qed.

Lemma header_text_more h :
  good_header h -> negb (bool_decide (header_text h = [])) && op_ne (header_text h) CRLF = true.
Proof.
  intros (_ & _ & Hnf & _ & _ & Hvf). assert (":"%char ∈ header_text h) as Hin.
  { unfold header_text. apply elem_of_app. right. left. }
  rewrite bool_decide_eq_false_2 by (intros E; rewrite E in Hin; by apply elem_of_nil in Hin). cbn [negb andb].
  unfold op_ne. rewrite Compare_cstr, !cstr_id, bool_decide_eq_false_2; [done| |compute_done|].
  - intros E. rewrite E in Hin. revert Hin. compute_done.
  - unfold header_text. rewrite nul_free_app, nul_free_cons, nul_free_app. split_and!; try done. compute_done.
Qed.

Lemma parse_loop_ok rest fuel : forall hs name value (s : State W D) kvs,
  streams (conn s) (lines_left hs rest) -> Forall good_header hs ->
  zlen kvs + zlen hs < MAX_HEADERS -> stands_for (headers s) kvs -> zlen (next_line hs) < 2 ^ 30 ->
  (length (lines_left hs rest) + length hs < fuel)%nat ->
  yields (parse_loop (next_line hs) name value fuel) s (fun _ s' =>
    streams (conn s') rest /\ stands_for (headers s') (foldl add_header kvs hs)).
Proof.
  induction fuel as [|fuel IH]; intros hs name value s kvs Hs Hg Hz Hd Hl Hf; [lia|].
  cbn [parse_loop]. destruct hs as [|h hs]; cbn [next_line lines_left foldl] in *; [by apply yields_ret|].
  apply Forall_cons_iff in Hg as [Hh Hg]. pose proof (add_header_length kvs h). rewrite zlen_cons in Hz.
  pose proof (zlen_nonneg hs).
  assert (negb (bool_decide (header_text h = [])) && op_ne (header_text h) CRLF = true) as ->.
  { by apply header_text_more. }
  apply yields_bind. eapply yields_mono; [apply (parse_line_ok h name value s kvs); done || lia|].
  intros [name' value'] s1 [Ec Hd1]. destruct (request_lines hs rest Hg) as (l & El & Hnl & Et).
  pose proof (streams_length _ _ Hs) as [Hl2 _].
  assert (length (l ++ [LF] ++ lines_left hs rest) = length l + 1 + length (lines_left hs rest))%nat as Elen
    by (rewrite !length_app; cbn; lia).
  apply yields_bind. apply (line_ok s1 l (lines_left hs rest)); rewrite <- ?Et, ?Ec; try done.
  { cbn in Hf. lia. }
  intros t k Ht. rewrite <- El. apply IH; cbn [conn headers]; try done; try lia.
  - rewrite El. rewrite Et in Hl2. revert Hl2. zlen_lia.
  - rewrite <- Et in Elen. cbn in Hf. lia.
Qed.

Lemma parse_ok (s : State W D) hs rest kvs fuel :
  streams (conn s) (request_text hs rest) -> Forall good_header hs -> zlen hs < MAX_HEADERS ->
  stands_for (headers s) kvs -> (length (request_text hs rest) + length hs < fuel)%nat ->
  yields (parse fuel) s (fun _ s' =>
    streams (conn s') rest /\ stands_for (headers s') (foldl add_header [] hs)).
Proof.
  intros Hs Hg Hz Hd Hf.
  unfold parse. destruct (clear_law _ _ Hd) as (d & E & Hd'). apply yields_bind. eapply yields_update; [exact E|].
  destruct (request_lines hs rest Hg) as (l & El & Hnl & Et). rewrite Et in *.
  pose proof (streams_length _ _ Hs) as [Hl _].
  apply yields_bind. apply (line_ok _ l (lines_left hs rest)); [exact Hs|done|lia|].
  intros t n Ht. rewrite <- El. apply (parse_loop_ok rest); cbn [conn headers]; try done.
  - rewrite El. revert Hl. zlen_lia.
  - rewrite !length_app in Hf. cbn in Hf. lia.
Qed.

(** [parse] reads the lines up to the empty one, in whatever pieces they arrive, into a dictionary of
    the lower-case names with the trimmed values, where the first header of a name counts, and leaves
    the rest of the stream. *)
Theorem parse_headers (s : State W D) hs rest kvs fuel :
  streams (conn s) (request_text hs rest) -> Forall good_header hs -> zlen hs < MAX_HEADERS ->
  stands_for (headers s) kvs -> (length (request_text hs rest) + length hs < fuel)%nat ->
  exists s', parse fuel s = (Ok tt, s') /\ streams (conn s') rest /\
    stands_for (headers s') (foldl add_header [] hs).
Proof.
  intros Hs Hg Hz Hd Hf. pose proof (parse_ok s hs rest kvs fuel Hs Hg Hz Hd Hf) as Hy.
  apply yields_Ok in Hy as ([] & s' & E & Hs' & Hd'). eauto.
Qed.
End laws.

(** A continuation line loses its text up to a colon, one behind a repeated header replaces the value
    of the first, and a bare line feed does not end the headers. *)
Theorem header_defects :
  headers_of [line "A: 1"; line " 2"; CRLF] = Ok [(lit "a", lit "1 ")] /\
  headers_of [line "A: 1"; line " b: 2"; CRLF] = Ok [(lit "a", lit "1  2")] /\
  headers_of [line "A: 1"; line "A: 2"; line " :3"; CRLF] = Ok [(lit "a", lit "2 3")] /\
  headers_of [line "A: 1"; [LF]; line "B: 2"; CRLF] = Ok [(lit "a", lit "1"); (lit "b", lit "2")].
Proof. vm_compute. split_and!; reflexivity. Qed.

(** ** Witnesses *)

#[export] Instance good_header_dec h : Decision (good_header h).
Proof. unfold good_header, free_of. apply _. Defined.

Definition some_headers : list (str * str) := [(lit "Host", lit " a.b "); (lit "Accept", lit "*/*"); (lit "host", lit "x")].

Lemma parse_headers_witness :
  exists t s', sim_tcp [request_text some_headers (lit "body")] = Ok t /\
    parse (W := sim) (Addr := unit) 200 (mkState t (map_new : Dictionary str str)) = (Ok tt, s') /\
    streams (conn s') (lit "body") /\
    stands_for (headers s') [(lit "host", lit "a.b"); (lit "accept", lit "*/*")].
Proof.
  destruct (sim_streams [request_text some_headers (lit "body")]) as (t & E & Hs); [reflexivity|].
  edestruct (@parse_headers sim unit sim_OS sim_Peer (Dictionary str str) _ Dictionary_Mapping
    (mkState t map_new) some_headers (lit "body") [] 200) as (s' & E' & Hs' & Hd).
  - exact Hs.
  - compute_done.
  - reflexivity.
  - apply new_law.
  - vm_compute. repeat constructor.
  - exists t, s'. split; [exact E|]. split; [exact E'|]. split; [exact Hs'|exact Hd].
Defined.
