(* ===== verification/HttpRequest.v ===== *)
(** * HTTP requests (src/cpp/src/net/HttpServer.cpp)

    An [HttpRequest] reads one request from its socket, lets the handler of its method answer, and
    closes the connection.  A handler is a record of commands on the request, as the virtual methods of
    [HttpRequestHandler] are; the text of the "Date" header, which strftime makes of the time, comes
    from the class [Clock], and the address of the peer from [Remote].  The logger of the handler has the
    level it is made with, INFO, and its output is the console: a message of that level and above has to
    fit into the buffer of the logger ([StrConv.logva]) and changes nothing here; the messages of the
    level DEBUG are left out. *)

From stdpp Require Import pretty.
From S2P Require Import Prelude Dictionary DictTree DictSpec Mapping.
From S2P Require Import State CString Str StrConv StrMem ByteBuffer Socket TcpSocket HttpHeaders.

(** [%u] of printf *)
Definition fmt_u (n : Z) : str := lit (pretty (Z.to_N n)).

(** The formats of the lines of a response, and the lines *)
Definition STATUS_FORMAT : str := lit "HTTP/%u.%u %u %s" ++ CRLF.
Definition status_line (major minor code : Z) (reason : str) : str :=
  lit "HTTP/" ++ fmt_u major ++ lit "." ++ fmt_u minor ++ lit " " ++ fmt_u code ++ lit " " ++ cstr reason ++ CRLF.
Definition SERVER_FORMAT : str := lit "Server: %s" ++ CRLF.
Definition server_line (version : str) : str := lit "Server: " ++ cstr version ++ CRLF.
Definition FIELD_FORMAT : str := lit "%s: %s" ++ CRLF.
Definition field_line (f : str * str) : str := cstr f.1 ++ lit ": " ++ cstr f.2 ++ CRLF.

(** The current time as "Date: %a, %d %b %Y %H:%M:%S GMT\r\n". *)
Class Clock (W : Type) := date_header : W -> str * W.

(** The address of the peer of a connection as text, when the system knows it. *)
Class Remote (W : Type) := remote_text : Z -> W -> res str * W.

Section request.
Context {W Addr : Type} `{OS W Addr, !Clock W, !Remote W} {D : Type} `{MapOps D str str}.

(** The members; a request without a connection has no socket. *)
Record HttpRequest := mkRequest {
  _socket : option (TcpSocket W);
  _headers : D;
  _keep_alive : bool;
  _content : str;
  _content_length : Z;
  _method : str;
  _uri : str;
  _request_version : str;
  _major : Z;
  _minor : Z;
  _log_prefix : str
}.
Abbreviation M := (ST HttpRequest).

Definition HttpRequest_new : HttpRequest := mkRequest None map_new false [] 0 [] [] [] 0 0 [].

Definition with_socket r t :=
  mkRequest t (_headers r) (_keep_alive r) (_content r) (_content_length r) (_method r) (_uri r) (_request_version r) (_major r) (_minor r) (_log_prefix r).
Definition with_headers r d :=
  mkRequest (_socket r) d (_keep_alive r) (_content r) (_content_length r) (_method r) (_uri r) (_request_version r) (_major r) (_minor r) (_log_prefix r).
Definition with_content r s :=
  mkRequest (_socket r) (_headers r) (_keep_alive r) s (_content_length r) (_method r) (_uri r) (_request_version r) (_major r) (_minor r) (_log_prefix r).
Definition with_content_length r n :=
  mkRequest (_socket r) (_headers r) (_keep_alive r) (_content r) n (_method r) (_uri r) (_request_version r) (_major r) (_minor r) (_log_prefix r).
Definition with_request_line r method uri version :=
  mkRequest (_socket r) (_headers r) (_keep_alive r) (_content r) (_content_length r) method uri version (_major r) (_minor r) (_log_prefix r).
Definition with_request_version r s :=
  mkRequest (_socket r) (_headers r) (_keep_alive r) (_content r) (_content_length r) (_method r) (_uri r) s (_major r) (_minor r) (_log_prefix r).
Definition with_version r major minor :=
  mkRequest (_socket r) (_headers r) (_keep_alive r) (_content r) (_content_length r) (_method r) (_uri r) (_request_version r) major minor (_log_prefix r).
Definition with_log_prefix r s :=
  mkRequest (_socket r) (_headers r) (_keep_alive r) (_content r) (_content_length r) (_method r) (_uri r) (_request_version r) (_major r) (_minor r) s.

(** The methods of a handler, and what it says of itself. *)
Record HttpRequestHandler := mkHandler {
  protocolMajor : Z;
  protocolMinor : Z;
  serverVersion : str;
  http_head : M bool;
  http_get : M bool;
  http_post : M bool;
  http_put : M bool;
  http_delete : M bool;
  http_trace : M bool;
  http_options : M bool;
  http_unknown : M bool
}.

(** The base class supports nothing. *)
Definition HttpRequestHandler_base (major minor : Z) (version : str) : HttpRequestHandler :=
  let no := sret false in mkHandler major minor version no no no no no no no no.

(** A command on the socket, which is there; on the socket and the headers; on the headers. *)
Definition on_socket {A} (m : ST (TcpSocket W) A) : M A := fun r =>
  match _socket r with
  | Some t => let '(a, t) := m t in (a, with_socket r (Some t))
  | None => (UB, r)
  end.
Definition on_parser {A} (m : ST (State W D) A) : M A := fun r =>
  match _socket r with
  | Some t => let '(a, s) := m (mkState t (_headers r)) in (a, with_headers (with_socket r (Some (conn s))) (headers s))
  | None => (UB, r)
  end.
Definition header {A} (op : D -> res A) : M A := fun r => (op (_headers r), r).

Definition hasHeader (name : str) : M bool := header (map_hasKey name).
Definition getHeader (name : str) : M str := header (map_get name).
(** [_headers.getAsInt(name)] *)
Definition getAsInt (name : str) : M Z :=
  let! s := getHeader name in sret (Int s 10).

(** [_log.info(...)] and [_log.warn(...)] with a format *)
Definition logs (out : str) : M unit := let! _ := lift (logva out) in sret tt.
Definition prefix_text (address : str) : str := lit "request(" ++ cstr address ++ lit ") ".
Definition new_message (prefix method uri : str) : str :=
  lit "new " ++ cstr prefix ++ lit " method='" ++ cstr method ++ lit "' uri='" ++ cstr uri ++ lit "'".
Definition error_message (prefix : str) (code : Z) (reason : str) : str :=
  cstr prefix ++ lit " " ++ fmt_u code ++ lit ": " ++ cstr reason.
Definition closed_message (prefix : str) : str := cstr prefix ++ lit " closed".

Definition accept (d : Descriptor) (w : W) : M unit :=
  let! t := lift (TcpSocket_of d w) in
  modify (fun r => with_socket r (Some t)) ;;!
  let! address := on_socket (base (fun s =>
    let '(a, w) := remote_text (Socket._socket (_desc s)) (world s) in (a, mkSocket (_desc s) w))) in
  let! prefix := lift (Format (lit "request(%s) ") (prefix_text address)) in
  modify (fun r => with_log_prefix r prefix).

Definition tcp_send (s : str) : M Z := on_socket (base (send s)).
(** [send(String::Format(fmt, ...))] *)
Definition send_format (fmt out : str) : M Z := let! s := lift (Format fmt out) in tcp_send s.
Definition close : M unit := fun r =>
  match _socket r with
  | Some _ => on_socket (base Socket.close) r
  | None => (Ok tt, r)
  end.

Definition getContent (fuel : nat) : M str :=
  let! content := get _content in
  let! n := get _content_length in
  (if bool_decide (content = []) && (0 <? n) then
     let! (s, _) := on_socket (readAll (s32 n) fuel) in modify (fun r => with_content r s)
   else sret tt) ;;!
  get _content.

Definition readLine (fuel : nat) : M str :=
  let! (s, n) := on_socket (readUntil LF 10000 fuel) in
  modify (fun r => with_content r (if n <=? 0 then [] else s)) ;;!
  get _content.

(** ** The response *)

Section handler.
Variable _handler : HttpRequestHandler.

(** [if ((_major != 0) && (_minor != 9))]: HTTP/0.9 has no headers. *)
Definition has_headers (r : HttpRequest) : bool := negb (_major r =? 0) && negb (_minor r =? 9).

Definition startHeader (code : Z) (reason : str) : M unit :=
  let! hs := get has_headers in
  if hs : bool then
    let! major := get _major in
    let! minor := get _minor in
    let r_major := protocolMajor _handler in
    let r_minor := protocolMinor _handler in
    let '(r_major, r_minor) :=
      if (major <? r_major) || ((major =? r_major) && (minor <? r_minor)) then (major, minor) else (r_major, r_minor) in
    send_format STATUS_FORMAT (status_line r_major r_minor code reason) ;;!
    let! keep_alive := get _keep_alive in
    (if negb keep_alive then tcp_send (lit "Connection: close" ++ CRLF) ;;! sret tt else sret tt) ;;!
    send_format SERVER_FORMAT (server_line (serverVersion _handler)) ;;!
    let! date := on_socket (base (sys date_header)) in
    tcp_send date ;;!
    sret tt
  else sret tt.

Definition sendHeader (key value : str) : M unit :=
  let! hs := get has_headers in
  if hs : bool then send_format FIELD_FORMAT (field_line (key, value)) ;;! sret tt else sret tt.

Definition endHeader : M unit :=
  let! hs := get has_headers in
  if hs : bool then tcp_send CRLF ;;! sret tt else sret tt.

Definition sendResponse (content content_type : str) : M unit :=
  startHeader 200 (lit "OK") ;;!
  sendHeader (lit "Content-Type") content_type ;;!
  let! n := lift (Val_uint32 (u32 (zlen content)) 10) in
  sendHeader (lit "Content-Length") n ;;!
  endHeader ;;!
  tcp_send content ;;!
  tcp_send (CRLF ++ CRLF) ;;!
  sret tt.

Definition sendError (code : Z) (reason : str) : M unit :=
  let! prefix := get _log_prefix in
  logs (error_message prefix code reason) ;;!
  startHeader code reason ;;!
  sendHeader (lit "Content-Type") (lit "text/html") ;;!
  let extended_reason := lit "<h1>" ++ reason ++ lit "</h1>" ++ [LF] in
  let! n := lift (Val_uint32 (u32 (zlen extended_reason)) 10) in
  sendHeader (lit "Content-Length") n ;;!
  endHeader ;;!
  tcp_send extended_reason ;;!
  sret tt.

(** ** The request *)

Definition _parseHeaders (fuel : nat) : M unit :=
  modify (fun r => with_content_length r 0) ;;!
  on_parser (parse fuel) ;;!
  let! has := hasHeader (lit "content-length") in
  (if has : bool then
     let! n := getAsInt (lit "content-length") in modify (fun r => with_content_length r (u32 n))
   else sret tt) ;;!
  modify (fun r => with_content r []).

Definition bad_version : M unit :=
  let! version := get _request_version in
  let! message := lift (Format (lit "Bad Request Version: %s") (lit "Bad Request Version: " ++ cstr version)) in
  sendError 400 message ;;!
  sthrow IOException.

Definition _parseVersion : M unit :=
  let! version := get _request_version in
  let! method := get _method in
  if negb (bool_decide (version = [])) then
    (if negb (beginsWith version (lit "HTTP/")) then bad_version else sret tt) ;;!
    let! major := lift (between_cc version "/" "." 1) in
    let! minor := lift (between_cc version "." CR 1) in
    let major := u32 (Int major 10) in
    let minor := u32 (Int minor 10) in
    modify (fun r => with_version r major minor) ;;!
    (if (major =? 0) && (minor =? 0) then bad_version else sret tt) ;;!
    modify (fun r => with_request_version r (trim_back version))
  else if op_eq method (lit "GET") then
    modify (fun r => with_version (with_request_version r (lit "HTTP/0.9")) 0 9)
  else sret tt.

(** The method of the handler for the method of the request. *)
Definition dispatch (method : str) : M bool :=
  if op_eq method (lit "HEAD") then http_head _handler
  else if op_eq method (lit "GET") then http_get _handler
  else if op_eq method (lit "POST") then http_post _handler
  else if op_eq method (lit "PUT") then http_put _handler
  else if op_eq method (lit "DELETE") then http_delete _handler
  else if op_eq method (lit "TRACE") then http_trace _handler
  else if op_eq method (lit "OPTIONS") then http_options _handler
  else http_unknown _handler.

(** [_parseRequest] in three parts before the handler is called: the first line and the headers, *)
Definition read_start (fuel : nat) : M unit :=
  let! d := header map_clear in
  modify (fun r => with_headers r d) ;;!
  let! content := readLine fuel in
  (if bool_decide (content = []) then sthrow IOException else sret tt) ;;!
  let content := trim_back content in
  modify (fun r => with_content r content) ;;!
  let! method := lift (section_char content " " 0 true) in
  let! uri := lift (section_char content " " 1 true) in
  let! version := lift (section_char content " " 2 true) in
  modify (fun r => with_request_line r method uri version) ;;!
  let! prefix := get _log_prefix in
  logs (new_message prefix method uri) ;;!
  _parseVersion ;;!
  let! major := get _major in
  if 0 <? major then _parseHeaders fuel else sret tt.

(** ... the host, which version 1.1 needs, *)
Definition check_host : M unit :=
  let! major := get _major in
  let! minor := get _minor in
  if (major =? 1) && (1 <=? minor) then
    let! has := hasHeader (lit "host") in
    if negb has then sendError 400 (lit "Bad Request: No Host Header") ;;! sthrow IOException else sret tt
  else sret tt.

(** ... and the length of the content. *)
Definition find_length : M unit :=
  let! has := hasHeader (lit "content-length") in
  let! n := if has : bool then getAsInt (lit "content-length") else sret 0 in
  modify (fun r => with_content_length r (u32 n)).

Definition read_request (fuel : nat) : M unit := read_start fuel ;;! check_host ;;! find_length.

Definition _parseRequest (fuel : nat) : M unit :=
  read_request fuel ;;!
  let! method := get _method in
  let! is_handled := dispatch method in
  (if negb is_handled then sendError 400 (lit "METHOD NOT SUPPORTED") else sret tt) ;;!
  let! keep_alive := get _keep_alive in
  if negb keep_alive then close else sret tt.

Fixpoint run_loop (fuel : nat) : M unit :=
  match fuel with
  | O => sfail
  | S fuel' =>
      let! connected := get (fun r => match _socket r with Some t => isConnected (_desc (_base t)) | None => false end) in
      if connected : bool then _parseRequest fuel ;;! run_loop fuel' else sret tt
  end.

Definition run (fuel : nat) : M bool := try (run_loop fuel) (fun _ => sret tt) ;;! sret false.

Definition final : M unit :=
  close ;;!
  let! prefix := get _log_prefix in
  logs (closed_message prefix) ;;!
  modify (fun r => with_socket r None).
End handler.
End request.
Arguments HttpRequest W D : clear implicits.
Arguments HttpRequestHandler W D : clear implicits.
Arguments _socket {W D} _.

(** ** A server to evaluate *)

#[export] Instance sim_Clock : Clock sim := fun w => (lit "Date: now" ++ CRLF, w).
#[export] Instance sim_Remote : Remote sim := fun _ w => (Ok (lit "10.0.0.1:4000"), w).

(** It answers GET with the uri, and POST with the content. *)
Definition echo : HttpRequestHandler sim (Dictionary str str) :=
  let base := HttpRequestHandler_base 1 0 (lit "srv") in
  let get_uri := let! s := get _uri in sendResponse (Addr := unit) base s (lit "text/plain") ;;! sret true in
  let post := let! s := getContent (Addr := unit) 99 in sendResponse (Addr := unit) base s (lit "text/plain") ;;! sret true in
  let no := sret false in
  mkHandler 1 0 (lit "srv") no get_uri post no no no no no.

(** What comes back on one connection, and what [run] returned. *)
Definition serve (r : HttpRequest sim (Dictionary str str)) (chunks : list str) : res bool * str * HttpRequest sim (Dictionary str str) :=
  match accept (mkDesc 4 TCP true false false true) (mkSim [] chunks 0) r with
  | (Ok _, r) =>
      let '(b, r) := run (Addr := unit) echo 999 r in
      (b, match _socket r with Some t => sim_sent (world (_base t)) | None => [] end, r)
  | (_, r) => (UB, [], r)
  end.

Definition answer (lines : list string) : str := concat (line <$> lines).

Example request_get :
  (serve HttpRequest_new [line "GET /index HTTP/1.1"; line "Host: h"; CRLF; lit "junk"]).1 =
  (Ok false, answer ["HTTP/1.0 200 OK"; "Connection: close"; "Server: srv"; "Date: now"; "Content-Type: text/plain";
     "Content-Length: 6"; ""] ++ lit "/index" ++ CRLF ++ CRLF).
Proof. vm_compute. reflexivity. Qed.

Example request_old : (serve HttpRequest_new [line "GET /index"]).1 = (Ok false, lit "/index" ++ CRLF ++ CRLF).
Proof. vm_compute. reflexivity. Qed.

Example request_no_host :
  (serve HttpRequest_new [line "GET /index HTTP/1.1"; CRLF]).1 =
  (Ok false, answer ["HTTP/1.0 400 Bad Request: No Host Header"; "Connection: close"; "Server: srv"; "Date: now";
     "Content-Type: text/html"; "Content-Length: 37"; ""] ++ lit "<h1>Bad Request: No Host Header</h1>" ++ [LF]).
Proof. vm_compute. reflexivity. Qed.

Example request_post :
  (serve HttpRequest_new [line "POST /x HTTP/1.0"; line "Content-Length: 5"; CRLF; lit "hello"]).1 =
  (Ok false, answer ["HTTP/1.0 200 OK"; "Connection: close"; "Server: srv"; "Date: now"; "Content-Type: text/plain";
     "Content-Length: 4"; ""] ++ lit "hell" ++ CRLF ++ CRLF).
Proof. vm_compute. reflexivity. Qed.

(** ** What a response is *)

(** Telling the time sends nothing. *)
Class ClockLaws (W Addr : Type) `{OSLaws W Addr, !Clock W} :=
  clock_law : forall s (w : W), sent s (date_header w).2 = sent s w.

Section response.
Context {W Addr : Type} `{ClockLaws W Addr} {D : Type}.
Implicit Types (r : HttpRequest W D) (out : str) (t : TcpSocket W).

(** What the peer got on the connection. *)
Definition sent_on t : str := sent (Socket._socket (_desc (_base t))) (world (_base t)).

(** [t'] is the same connected socket as [t], on which [out] was sent. *)
Definition after_sending t out t' : Prop :=
  _desc (_base t') = _desc (_base t) /\ _buffer t' = _buffer t /\ _max_size t' = _max_size t /\
  sent_on t' = sent_on t ++ out.

(** From [r], the command ends with the fields as they were and [out] sent, as [Q] says, or the
    connection failed. *)
Definition sends {A} (m : ST (HttpRequest W D) A) r (Q : A -> str -> Prop) : Prop :=
  forall t, _socket r = Some t -> _connected (_desc (_base t)) = true ->
  match m r with
  | (Ok a, r') => exists t' out, r' = with_socket r (Some t') /\ after_sending t out t' /\ Q a out
  | (Throw SocketDisconnected, _) | (Throw SocketException, _) => True
  | _ => False
  end.

Lemma after_sending_refl t : after_sending t [] t.
Proof. unfold after_sending. by rewrite app_nil_r. Qed.

Lemma after_sending_trans t1 o1 t2 o2 t3 :
  after_sending t1 o1 t2 -> after_sending t2 o2 t3 -> after_sending t1 (o1 ++ o2) t3.
Proof.
  intros (Ed & Eb & Em & E1) (Ed2 & Eb2 & Em2 & E2). unfold after_sending. rewrite E2, E1, app_assoc.
  by split_and!; try congruence.
Qed.

Lemma sends_ret {A} (a : A) r (Q : A -> str -> Prop) : Q a [] -> sends (sret a) r Q.
Proof.
  intros HQ t Et Hc. cbn. exists t, []. split; [|split; [apply after_sending_refl|done]].
  destruct r. cbn in *. by subst.
Qed.

Lemma sends_bind {A B} (m : ST (HttpRequest W D) A) (f : A -> ST (HttpRequest W D) B) r (Q : B -> str -> Prop) :
  sends m r (fun a out => forall t, sends (f a) (with_socket r (Some t)) (fun b out' => Q b (out ++ out'))) ->
  sends (let! a := m in f a) r Q.
Proof.
  intros Hm t Et Hc. specialize (Hm t Et Hc). unfold sbind. destruct (m r) as [[a|[]| |] r1]; try done.
  destruct Hm as (t1 & out & -> & Ht1 & Hf). specialize (Hf t1 t1). pose proof Ht1 as (Hd & _).
  rewrite Hd in Hf. specialize (Hf eq_refl Hc). destruct (f a _) as [[b|[]| |] r2]; try done.
  destruct Hf as (t2 & out2 & -> & Ht2 & HQ). exists t2, (out ++ out2).
  split; [done|]. split; [by eapply after_sending_trans|done].
Qed.

Lemma sends_get {A} (f : HttpRequest W D -> A) r (Q : A -> str -> Prop) : Q (f r) [] -> sends (get f) r Q.
Proof. apply (sends_ret (f r)). Qed.

Lemma sends_lift {A} (x : res A) a r (Q : A -> str -> Prop) : x = Ok a -> Q a [] -> sends (lift x) r Q.
Proof. intros ->. apply (sends_ret a). Qed.

Lemma sends_logs text r (Q : unit -> str -> Prop) : log_fits text = true -> Q tt [] -> sends (logs text) r Q.
Proof.
  intros Hf HQ. unfold logs, logva. rewrite Hf. apply sends_bind. eapply sends_lift; [done|]. intros t. by apply sends_ret.
Qed.

Lemma sends_mono {A} (m : ST (HttpRequest W D) A) r (Q Q' : A -> str -> Prop) :
  sends m r Q -> (forall a out, Q a out -> Q' a out) -> sends m r Q'.
Proof. intros Hm HQ t Et Hc. specialize (Hm t Et Hc). destruct (m r) as [[a|[]| |] r1]; naive_solver. Qed.

Lemma sends_tcp data r (Q : Z -> str -> Prop) : Q (zlen data) data -> sends (tcp_send data) r Q.
Proof.
  intros HQ t Et Hc. unfold tcp_send, on_socket. rewrite Et. unfold base, zoom.
  pose proof (send_outcome data (_base t) Hc) as Hs. unfold send_result in Hs.
  destruct (send data (_base t)) as [[n|[]| |] s']; try done.
  destruct Hs as (-> & Hd & Hs). eexists _, data. split; [done|]. split; [|done].
  unfold after_sending, sent_on. cbn. by rewrite Hd.
Qed.

Lemma sends_date r (Q : str -> str -> Prop) :
  (forall date, Q date []) -> sends (on_socket (base (sys date_header))) r Q.
Proof.
  intros HQ t Et Hc. unfold on_socket. rewrite Et. unfold base, zoom, sys.
  pose proof (clock_law (Addr := Addr) (Socket._socket (_desc (_base t))) (world (_base t))) as Hl.
  destruct (date_header _) as [date w']. cbn in *. eexists _, []. split; [done|]. split; [|done].
  unfold after_sending, sent_on. cbn. by rewrite Hl, app_nil_r.
Qed.


(** The version that is answered: the older one of the request's and the handler's. *)
Definition version_for (h : HttpRequestHandler W D) (major minor : Z) : Z * Z :=
  if (major <? protocolMajor h) || ((major =? protocolMajor h) && (minor <? protocolMinor h))
  then (major, minor) else (protocolMajor h, protocolMinor h).
Definition answer_version (h : HttpRequestHandler W D) r : Z * Z := version_for h (_major r) (_minor r).

(** The lines of an answer to a request of that version fit the buffer of [Format]. *)
Definition lines_fit (h : HttpRequestHandler W D) (major minor code : Z) (reason ctype : str) : bool :=
  (major =? 0) || (minor =? 9) ||
  (let '(r_major, r_minor) := version_for h major minor in fits STATUS_FORMAT (status_line r_major r_minor code reason)) &&
  fits SERVER_FORMAT (server_line (serverVersion h)) && fits FIELD_FORMAT (field_line (lit "Content-Type", ctype)).

(** The lines before the content; HTTP/0.9 has none. *)
Definition start_lines (h : HttpRequestHandler W D) r (code : Z) (reason date : str) : str :=
  if has_headers r then
    status_line (answer_version h r).1 (answer_version h r).2 code reason ++
    (if _keep_alive r then [] else lit "Connection: close" ++ CRLF) ++ server_line (serverVersion h) ++ date
  else [].
Definition head_lines h r code reason date (fields : list (str * str)) : str :=
  start_lines h r code reason date ++ if has_headers r then concat (field_line <$> fields) ++ CRLF else [].

Lemma sends_format fmt out r (Q : Z -> str -> Prop) :
  fits fmt out = true -> Q (zlen out) out -> sends (send_format fmt out) r Q.
Proof.
  intros Hf HQ. unfold send_format, Format. rewrite Hf. apply sends_bind. eapply sends_lift; [done|]. intros t. by apply sends_tcp.
Qed.

Lemma fit_lines h r code reason ctype :
  lines_fit h (_major r) (_minor r) code reason ctype = true -> has_headers r = true ->
  fits STATUS_FORMAT (status_line (answer_version h r).1 (answer_version h r).2 code reason) = true /\
  fits SERVER_FORMAT (server_line (serverVersion h)) = true /\ fits FIELD_FORMAT (field_line (lit "Content-Type", ctype)) = true.
Proof.
  unfold lines_fit, has_headers, answer_version. destruct (version_for h _ _) as [major minor]. cbn [fst snd].
  destruct (_major r =? 0), (_minor r =? 9); try done. cbn [orb]. rewrite !andb_true_iff. tauto.
Qed.

Lemma startHeader_ok h code reason ctype r :
  lines_fit h (_major r) (_minor r) code reason ctype = true ->
  sends (startHeader h code reason) r (fun _ out => exists date, out = start_lines h r code reason date).
Proof.
  intros Hfit. unfold startHeader, start_lines. apply sends_bind, sends_get. intros t1.
  change (has_headers (with_socket r (Some t1))) with (has_headers r).
  destruct (has_headers r) eqn:Hh; [|apply sends_ret; by exists []].
  destruct (fit_lines h r code reason ctype Hfit Hh) as (Hst & Hsv & _).
  apply sends_bind, sends_get. intros t2. apply sends_bind, sends_get. intros t3. cbn [_major _minor with_socket].
  assert ((if (_major r <? protocolMajor h) || (_major r =? protocolMajor h) && (_minor r <? protocolMinor h)
    then (_major r, _minor r) else (protocolMajor h, protocolMinor h)) = answer_version h r) as -> by done.
  destruct (answer_version h r) as [major minor]. cbn [fst snd] in *.
  apply sends_bind, sends_format; [done|]. intros t4. apply sends_bind, sends_get. intros t5. cbn [_keep_alive with_socket].
  apply sends_bind.
  apply sends_mono with (Q := fun _ out => out = if _keep_alive r then [] else lit "Connection: close" ++ CRLF).
  { destruct (_keep_alive r); cbn [negb]; [by apply sends_ret|]. apply sends_bind, sends_tcp. intros t6.
    by apply sends_ret; rewrite app_nil_r. }
  intros _ close ->. intros t6. apply sends_bind, sends_format; [done|]. intros t7. apply sends_bind, sends_date. intros date t8.
  apply sends_bind, sends_tcp. intros t9. apply sends_ret. exists date.
  cbn [app]. rewrite ?app_nil_r, <- ?app_assoc. done.
Qed.

Lemma sendHeader_ok key value r : (has_headers r = true -> fits FIELD_FORMAT (field_line (key, value)) = true) ->
  sends (sendHeader key value) r (fun _ out => out = if has_headers r then field_line (key, value) else []).
Proof.
  intros Hfit. unfold sendHeader. apply sends_bind, sends_get. intros t.
  destruct (has_headers r) eqn:Hh; [|by apply sends_ret].
  apply sends_bind, sends_format; [by apply Hfit|]. intros t1. apply sends_ret. by rewrite app_nil_r.
Qed.

Lemma endHeader_ok r : sends endHeader r (fun _ out => out = if has_headers r then CRLF else []).
Proof.
  unfold endHeader. apply sends_bind, sends_get. intros t.
  destruct (has_headers r); [|by apply sends_ret].
  apply sends_bind, sends_tcp. intros t1. apply sends_ret. by rewrite app_nil_r.
Qed.

Lemma cstr_shorter s : zlen (cstr s) <= zlen s.
Proof. unfold zlen. induction s as [|c s IH]; cbn; [done|]. case_decide; cbn; lia. Qed.

(** The decimal digits of a length. *)
Lemma length_text n : 0 <= n < 2 ^ 32 -> exists s, Val_uint32 (u32 n) 10 = Ok s /\ strto s 10 = (false, n) /\
  fits FIELD_FORMAT (field_line (lit "Content-Length", s)) = true.
Proof.
  intros Hn. rewrite wrapU_small by done. destruct (val_text_ok false n 10) as (s & E & Ht); [lia|done|].
  exists s. split; [exact E|]. split; [by apply strto_val_text|].
  pose proof (Val_uint32_length n 10 s E) as Hl. unfold fits, field_line. cbn [fst snd].
  pose proof (cstr_shorter s) as Hc.
  rewrite !zlen_app. change (zlen (cstr (lit "Content-Length"))) with 14. change (zlen (lit ": ")) with 2.
  change (zlen CRLF) with 2. change (zlen FIELD_FORMAT) with 8. lia.
Qed.

(** Both answers: the lines, the headers with the length of the content, the content and what follows it. *)
Definition answer_text h code reason ctype content r (rest out : str) : Prop :=
  exists date n, strto n 10 = (false, zlen content) /\
    out = head_lines h r code reason date [(lit "Content-Type", ctype); (lit "Content-Length", n)] ++ content ++ rest.

Lemma answer_ok h code reason ctype content (tail : ST (HttpRequest W D) unit) rest r :
  zlen content < 2 ^ 32 -> lines_fit h (_major r) (_minor r) code reason ctype = true -> (forall t, sends tail (with_socket r (Some t)) (fun _ out => out = rest)) ->
  sends (startHeader h code reason ;;! sendHeader (lit "Content-Type") ctype ;;!
    let! n := lift (Val_uint32 (u32 (zlen content)) 10) in
    sendHeader (lit "Content-Length") n ;;! endHeader ;;! tcp_send content ;;! tail) r
    (fun _ out => answer_text h code reason ctype content r rest out).
Proof.
  intros Hl Hfit Htail. destruct (length_text (zlen content)) as (n & En & Hn & Hnf); [pose proof (zlen_nonneg content); lia|].
  apply sends_bind. eapply sends_mono; [by apply (startHeader_ok h code reason ctype)|]. intros _ o1 (date & ->) t1.
  apply sends_bind. eapply sends_mono; [apply sendHeader_ok; intros Hh; by apply (fit_lines h r code reason ctype)|]. intros _ o2 -> t2.
  apply sends_bind. eapply sends_lift; [exact En|]. intros t3.
  apply sends_bind. eapply sends_mono; [by apply sendHeader_ok|]. intros _ o3 -> t4.
  apply sends_bind. eapply sends_mono; [apply endHeader_ok|]. intros _ o4 -> t5.
  apply sends_bind, sends_tcp. intros t6. eapply sends_mono; [apply Htail|]. intros _ o5 ->.
  exists date, n. split; [done|]. unfold head_lines.
  repeat change (has_headers (with_socket ?r (Some ?t))) with (has_headers r).
  destruct (has_headers r); cbn [fmap list_fmap concat app]; rewrite ?app_nil_r, <- ?app_assoc; done.
Qed.

(** C28: [sendResponse] sends the status line, the headers with the length of the content in decimal, the
    content and then two more line ends, or throws when the connection fails; for HTTP/0.9 there are no
    lines before the content. The lines have to fit into the buffer of [Format]. *)
Theorem sendResponse_spec h content ctype r :
  zlen content < 2 ^ 32 -> lines_fit h (_major r) (_minor r) 200 (lit "OK") ctype = true ->
  sends (sendResponse h content ctype) r (fun _ out => exists date n, strto n 10 = (false, zlen content) /\
    out = head_lines h r 200 (lit "OK") date [(lit "Content-Type", ctype); (lit "Content-Length", n)] ++
      content ++ CRLF ++ CRLF).
Proof.
  intros Hl Hfit. apply (answer_ok h 200 (lit "OK") ctype content (tcp_send (CRLF ++ CRLF) ;;! sret tt)); [done..|].
  intros t. apply sends_bind, sends_tcp. intros t'. by apply sends_ret.
Qed.

Definition error_page (reason : str) : str := lit "<h1>" ++ reason ++ lit "</h1>" ++ [LF].

Lemma sendError_ok h code reason r :
  log_fits (error_message (_log_prefix r) code reason) = true ->
  zlen (error_page reason) < 2 ^ 32 -> lines_fit h (_major r) (_minor r) code reason (lit "text/html") = true ->
  sends (sendError h code reason) r (fun _ out =>
    answer_text h code reason (lit "text/html") (error_page reason) r [] out).
Proof.
  intros Hlog Hl Hfit. unfold sendError. apply sends_bind, sends_get. intros t0.
  apply sends_bind, sends_logs; [exact Hlog|]. intros t1. cbn [app].
  apply (answer_ok h code reason (lit "text/html") (error_page reason) (sret tt) [] (with_socket r (Some t1))); [done..|].
  intros t. by apply sends_ret.
Qed.
End response.

(** ** Reading a request *)

Lemma digit_cases n (P : Z -> Prop) : 0 <= n < 10 -> Forall P (seqZ 0 10) -> P n.
Proof. intros Hn HP. rewrite Forall_forall in HP. apply HP, elem_of_seqZ. lia. Qed.

Ltac each_digit n H :=
  pattern n; apply (digit_cases n _ H); clear n H;
  let l := eval vm_compute in (seqZ 0 10) in change (seqZ 0 10) with l;
  repeat (apply Forall_cons_2); try (by apply Forall_nil_2); cbv beta.

Definition digit (n : Z) : char := chr (48 + n).
Definition version_text (major minor : Z) : str := lit "HTTP/" ++ [digit major; "."%char; digit minor].

Lemma version_parts major minor : 0 <= major < 10 -> 0 <= minor < 10 ->
  let v := version_text major minor in
  (v <> [] /\ beginsWith v (lit "HTTP/") = true /\ trim_back v = v /\ nul_free v /\ free_of [LF; " "%char] v) /\
  (between_cc v "/" "." 1 = Ok [digit major] /\ Int [digit major] 10 = major) /\
  (between_cc v "." CR 1 = Ok [digit minor] /\ Int [digit minor] 10 = minor).
Proof.
  intros Ha Hb. each_digit major Ha; each_digit minor Hb; cbv zeta; (split; [|split; split; reflexivity]);
    (split; [done|]; split; [reflexivity|]; split; [reflexivity|]; compute_done).
Qed.

Lemma digit_trim n : 0 <= n < 10 -> is_trim (digit n) = false.
Proof.
  intros Hn. by each_digit n Hn.
Qed.

(** The method and the uri of a request line. *)
Definition good_word (w : str) : Prop := w <> [] /\ free_of [" "%char; LF] w /\ nul_free w.

Definition request_line (method uri : str) (major minor : Z) : str :=
  join " " [method; uri; version_text major minor].

Lemma trim_crlf x c : is_trim c = false -> trim_back ((x ++ [c]) ++ CRLF) = x ++ [c].
Proof.
  intros Hc. change CRLF with ([CR] ++ [LF]). rewrite app_assoc, trim_back_snoc. cbn [is_trim].
  change (is_trim LF) with true. cbv iota. rewrite trim_back_snoc. change (is_trim CR) with true. cbv iota.
  by rewrite trim_back_snoc, Hc.
Qed.

Section reading.
Context {W Addr : Type} `{Peer W Addr, !Clock W} {D : Type} `{MapOps D str str, !Mapping D str str}.
Implicit Types (r : HttpRequest W D) (t : TcpSocket W).

Lemma yields_on_socket {A} (m : ST (TcpSocket W) A) r t (Q : A -> HttpRequest W D -> Prop) :
  _socket r = Some t -> yields m t (fun a t' => Q a (with_socket r (Some t'))) -> yields (on_socket m) r Q.
Proof. intros Et Hm. apply yields_Ok in Hm as (a & t' & E & HQ). unfold yields, does, on_socket. by rewrite Et, E. Qed.

Lemma yields_on_parser {A} (m : ST (State W D) A) r t (Q : A -> HttpRequest W D -> Prop) :
  _socket r = Some t ->
  yields m (mkState t (_headers r)) (fun a s => Q a (with_headers (with_socket r (Some (conn s))) (headers s))) ->
  yields (on_parser m) r Q.
Proof. intros Et Hm. apply yields_Ok in Hm as (a & s & E & HQ). unfold yields, does, on_parser. by rewrite Et, E. Qed.

Lemma yields_header {A} (op : D -> res A) r a (Q : A -> HttpRequest W D -> Prop) :
  op (_headers r) = Ok a -> Q a r -> yields (header op) r Q.
Proof. intros E HQ. unfold yields, does, header. by rewrite E. Qed.

Lemma request_line_parts method uri major minor : good_word method -> good_word uri ->
  0 <= major < 10 -> 0 <= minor < 10 -> zlen (request_line method uri major minor) < 2 ^ 31 - 1 ->
  let l := request_line method uri major minor in
  (LF ∉ l) /\ trim_back (l ++ CRLF) = l /\
  section_char l " " 0 true = Ok method /\ section_char l " " 1 true = Ok uri /\
  section_char l " " 2 true = Ok (version_text major minor).
Proof.
  intros (Hm0 & Hm & Hmf) (Hu0 & Hu & Huf) Ha Hb Hl. cbv zeta.
  destruct (version_parts major minor Ha Hb) as ((Hv0 & _ & Ht & Hvf & Hv) & _).
  set (v := version_text major minor) in *.
  assert (nul_free (request_line method uri major minor)) as Hf.
  { unfold request_line. cbn [join]. fold v. rewrite nul_free_app, nul_free_cons, nul_free_app, nul_free_cons. by split_and!. }
  assert (Forall (fun f => " "%char ∉ f) [method; uri; v]) as Hs.
  { repeat constructor; marks. }
  assert (forall k g, [method; uri; v] !! k = Some g -> g <> [] ->
    section_char (request_line method uri major minor) " " (Z.of_nat k) true = Ok g) as Hsec.
  { intros k g Ek Hg. unfold request_line. fold v.
    assert (Z.of_nat k < 2 ^ 31) by (apply lookup_lt_Some in Ek; cbn in Ek; lia).
    rewrite section_char_at by done. rewrite Ek. by rewrite decide_False. }
  split_and!.
  - unfold request_line. cbn [join]. fold v. rewrite not_elem_of_app, not_elem_of_cons, not_elem_of_app, not_elem_of_cons.
    split_and!; done || marks.
  - assert (request_line method uri major minor =
      (method ++ " "%char :: uri ++ " "%char :: lit "HTTP/" ++ [digit major; "."%char]) ++ [digit minor]) as ->.
    { unfold request_line, version_text. cbn [join]. rewrite <- app_assoc. cbn. by rewrite <- app_assoc. }
    apply trim_crlf, digit_trim; lia.
  - by apply (Hsec 0%nat).
  - by apply (Hsec 1%nat).
  - by apply (Hsec 2%nat).
Qed.

Definition request (method uri : str) (major minor : Z) (hs : list (str * str)) (rest : str) : str :=
  request_line method uri major minor ++ CRLF ++ request_text hs rest.

(** [r] has read the request, and its socket streams the rest. *)
Definition has_read r method uri major minor hs rest : Prop :=
  (exists t, _socket r = Some t /\ streams t rest) /\
  stands_for (_headers r) (foldl add_header [] hs) /\
  _method r = method /\ _uri r = uri /\ _request_version r = version_text major minor /\
  _major r = major /\ _minor r = minor /\ _content r = [] /\ _keep_alive r = false.

Definition length_field (kvs : list (str * str)) : Z :=
  match lookup (lit "content-length") kvs with Some s => u32 (Int s 10) | None => 0 end.

(** One entry of the headers as a number. *)
Lemma content_length_ok r kvs (Q : Z -> HttpRequest W D -> Prop) s :
  stands_for (_headers r) kvs -> lookup (lit "content-length") kvs = Some s -> Q (Int s 10) r ->
  yields (getAsInt (lit "content-length")) r Q.
Proof.
  intros Hd Hs HQ. unfold getAsInt, getHeader. apply yields_bind.
  eapply yields_header; [by rewrite (get_law _ _ _ Hd), Hs|]. by apply yields_ret.
Qed.

Lemma find_length_ok r kvs : stands_for (_headers r) kvs ->
  yields find_length r (fun _ r' => r' = with_content_length r (length_field kvs)).
Proof.
  intros Hd. unfold find_length, hasHeader, length_field. apply yields_bind.
  eapply yields_header; [by apply hasKey_law|]. unfold mem.
  destruct (lookup _ kvs) as [s|] eqn:Es.
  - apply yields_bind. eapply content_length_ok; [done|exact Es|]. by apply yields_modify.
  - apply yields_bind, yields_ret. by apply yields_modify.
Qed.

Lemma parseVersion_ok h r major minor : 0 < major < 10 -> 0 <= minor < 10 ->
  _request_version r = version_text major minor ->
  yields (_parseVersion h) r (fun _ r' => r' = with_version r major minor).
Proof.
  intros Ha Hb Ev. destruct (version_parts major minor) as ((Hv0 & Hbeg & Ht & _) & [E1 N1] & E2 & N2); [lia..|].
  unfold _parseVersion. apply yields_bind, yields_get. apply yields_bind, yields_get. rewrite Ev.
  rewrite bool_decide_eq_false_2 by done. cbn [negb]. rewrite Hbeg. cbn [negb].
  apply yields_bind, yields_ret. apply yields_bind. eapply yields_lift; [exact E1|].
  apply yields_bind. eapply yields_lift; [exact E2|]. rewrite N1, N2, !wrapU_small by lia.
  apply yields_bind, yields_modify. replace (major =? 0) with false by lia. cbn [andb].
  apply yields_bind, yields_ret. apply yields_modify. rewrite Ht. destruct r. cbn in *. by subst.
Qed.

Lemma readLine_ok r t l rest fuel : _socket r = Some t ->
  streams t (l ++ [LF] ++ rest) -> (LF ∉ l) -> (length (l ++ [LF] ++ rest) < fuel)%nat ->
  yields (readLine fuel) r (fun s r' => s = l ++ [LF] /\
    exists t', r' = with_content (with_socket r (Some t')) (l ++ [LF]) /\ streams t' rest).
Proof.
  intros Et Hs Hl Hf. pose proof (streams_length _ _ Hs) as [_ Hi].
  unfold readLine. apply yields_bind. eapply yields_on_socket; [exact Et|].
  eapply yields_mono; [apply (readUntil_ok LF 10000 fuel t _ Hs); [done|lia]|].
  intros [s n] t' [(l1 & l2 & E & Hn & [= -> ->] & Ht')|(Hno & _)].
  2:{ destruct Hno. apply elem_of_app. right. left. }
  destruct (first_unique _ _ _ _ _ E Hl Hn) as [<- <-].
  apply yields_bind, yields_modify, yields_get. replace (zlen l + 1 <=? 0) with false by zlen_lia.
  split; [done|]. by exists t'.
Qed.

(** A request as the code can read it. *)
Definition good_request method uri major minor hs rest : Prop :=
  good_word method /\ good_word uri /\ 0 < major < 10 /\ 0 <= minor < 10 /\
  Forall good_header hs /\ zlen hs < MAX_HEADERS /\
  zlen (request method uri major minor hs rest) < 2 ^ 30.

Lemma parseHeaders_ok r t hs rest kvs fuel : _socket r = Some t ->
  streams t (request_text hs rest) -> Forall good_header hs -> zlen hs < MAX_HEADERS ->
  stands_for (_headers r) kvs -> (length (request_text hs rest) + length hs < fuel)%nat ->
  yields (_parseHeaders fuel) r (fun _ r' => exists t' d n, streams t' rest /\ stands_for d (foldl add_header [] hs) /\
    r' = with_content (with_content_length (with_headers (with_socket r (Some t')) d) n) []).
Proof.
  intros Et Hs Hg Hz Hd Hf. unfold _parseHeaders. apply yields_bind, yields_modify.
  apply yields_bind. eapply yields_on_parser; [exact Et|].
  eapply yields_mono; [by apply (parse_ok _ hs rest kvs)|]. intros _ s [Hs' Hd'].
  apply yields_bind. unfold hasHeader. eapply yields_header; [by apply hasKey_law|].
  unfold mem. destruct (lookup _ _) as [v|] eqn:Ev.
  - apply yields_bind, yields_bind. eapply content_length_ok; [exact Hd'|exact Ev|].
    apply yields_modify, yields_modify. by eexists _, _, _.
  - apply yields_bind, yields_ret, yields_modify. by eexists _, _, _.
Qed.

(** The message about the request fits. *)
Definition request_logged r method uri : bool := log_fits (new_message (_log_prefix r) method uri).

Lemma yields_logs text r (Q : unit -> HttpRequest W D -> Prop) : log_fits text = true -> Q tt r -> yields (logs text) r Q.
Proof. intros Hf HQ. unfold logs, logva. rewrite Hf. by apply yields_bind, yields_ret, yields_ret. Qed.

Lemma read_start_ok h r t method uri major minor hs rest kvs fuel : _socket r = Some t -> request_logged r method uri = true ->
  streams t (request method uri major minor hs rest) -> good_request method uri major minor hs rest ->
  stands_for (_headers r) kvs -> _keep_alive r = false ->
  (length (request method uri major minor hs rest) + length hs < fuel)%nat ->
  yields (read_start h fuel) r (fun _ r' => has_read r' method uri major minor hs rest /\ _log_prefix r' = _log_prefix r).
Proof.
  intros Et Hlog Hs (Hm & Hu & Ha & Hb & Hg & Hz & Hl) Hd Hk Hf. unfold request in *.
  assert (zlen (request_line method uri major minor) < 2 ^ 31 - 1).
  { rewrite zlen_app in Hl. pose proof (zlen_nonneg (CRLF ++ request_text hs rest)). lia. }
  destruct (request_line_parts method uri major minor) as (Hlf & Htrim & E1 & E2 & E3); [done|done|lia|lia|done|].
  set (l := request_line method uri major minor) in *.
  replace (l ++ CRLF ++ request_text hs rest) with ((l ++ [CR]) ++ [LF] ++ request_text hs rest) in *
    by (by rewrite <- app_assoc).
  assert (l <> []) as Hl0 by (intros E; rewrite E in E1; by vm_compute in E1; destruct Hm as [? _]; congruence).
  unfold read_start. destruct (clear_law _ _ Hd) as (d & Ed & Hd0).
  apply yields_bind. eapply yields_header; [exact Ed|]. apply yields_bind, yields_modify.
  apply yields_bind. eapply yields_mono; [apply (readLine_ok _ t (l ++ [CR]) (request_text hs rest)); [done|done| |lia]|].
  { rewrite not_elem_of_app. split; [done|compute_done]. }
  intros s r1 (-> & t1 & -> & Ht1). rewrite bool_decide_eq_false_2 by (by destruct l).
  apply yields_bind, yields_ret. replace ((l ++ [CR]) ++ [LF]) with (l ++ CRLF) by (by rewrite <- app_assoc).
  rewrite Htrim. apply yields_bind, yields_modify.
  apply yields_bind. eapply yields_lift; [exact E1|]. apply yields_bind. eapply yields_lift; [exact E2|].
  apply yields_bind. eapply yields_lift; [exact E3|]. apply yields_bind, yields_modify.
  apply yields_bind, yields_get. apply yields_bind, yields_logs; [exact Hlog|].
  apply yields_bind. eapply yields_mono; [apply (parseVersion_ok h _ major minor); done || lia|].
  intros _ r2 ->. apply yields_bind, yields_get. cbn [_major with_version]. replace (0 <? major) with true by lia.
  eapply yields_mono; [apply (parseHeaders_ok _ t1 hs rest []); try done|].
  { rewrite !length_app in Hf. cbn in Hf. lia. }
  intros _ r3 (t' & d' & n & Ht' & Hd' & ->). unfold has_read. cbn. split; [|done]. split_and!; try done. by exists t'.
Qed.


Definition needs_host (major minor : Z) : bool := (major =? 1) && (1 <=? minor).

Lemma check_host_ok h r method uri major minor hs rest : has_read r method uri major minor hs rest ->
  check_host h r =
    if needs_host major minor && negb (mem (lit "host") (foldl add_header [] hs))
    then (sendError h 400 (lit "Bad Request: No Host Header") ;;! sthrow IOException) r else (Ok tt, r).
Proof.
  intros (_ & Hd & _ & _ & _ & Ea & Eb & _). unfold check_host, sbind, get, hasHeader, header, needs_host. rewrite Ea, Eb.
  destruct (_ && _); cbn [andb]; [|done]. rewrite (hasKey_law _ _ _ Hd).
  by destruct (mem _ _).
Qed.

Lemma read_request_ok h r t method uri major minor hs rest kvs fuel : _socket r = Some t -> request_logged r method uri = true ->
  streams t (request method uri major minor hs rest) -> good_request method uri major minor hs rest ->
  stands_for (_headers r) kvs -> _keep_alive r = false ->
  (length (request method uri major minor hs rest) + length hs < fuel)%nat ->
  (needs_host major minor = true -> mem (lit "host") (foldl add_header [] hs) = true) ->
  yields (read_request h fuel) r (fun _ r' => has_read r' method uri major minor hs rest /\
    _content_length r' = length_field (foldl add_header [] hs)).
Proof.
  intros Et Hlog Hs Hg Hd Hk Hf Hhost. unfold read_request. apply yields_bind.
  eapply yields_mono; [by apply (read_start_ok h r t method uri major minor hs rest kvs)|].
  intros [] r1 [Hr1 _]. apply yields_bind. unfold yields at 1, does. rewrite (check_host_ok h r1 method uri major minor hs rest Hr1).
  replace (needs_host major minor && _) with false; [|by destruct (needs_host major minor); [rewrite Hhost|]]. cbn [fst snd].
  pose proof Hr1 as (_ & Hd1 & _).
  eapply yields_mono; [by apply find_length_ok|]. by intros _ r2 ->.
Qed.


(** [close] always succeeds. *)
Lemma close_ok r : exists r', close r = (Ok tt, r') /\
  match _socket r' with Some t => isConnected (_desc (_base t)) = false | None => True end.
Proof.
  unfold close. destruct (_socket r) as [t|] eqn:Et; [|exists r; by rewrite Et].
  unfold on_socket. rewrite Et. unfold base, zoom, Socket.close, sbind, desc, get.
  destruct (negb _); cbn; eexists; by split.
Qed.

(** A connection serves one request. *)
Lemma run_loop_closed h r fuel : (0 < fuel)%nat ->
  match _socket r with Some t => isConnected (_desc (_base t)) = false | None => True end ->
  run_loop h fuel r = (Ok tt, r).
Proof.
  intros Hf Hr. destruct fuel as [|fuel]; [lia|]. cbn [run_loop]. unfold sbind, get.
  destruct (_socket r); [by rewrite Hr|done].
Qed.

End reading.

(** A request of version 1.1 or later without a Host header is answered with an error page of status
    400 before the exception, unless the connection fails. *)
Theorem missing_host {W Addr : Type} `{OS W Addr, !Peer W Addr, !OSLaws W Addr, !Clock W, !ClockLaws W Addr}
    {D : Type} `{MapOps D str str, !Mapping D str str}
    (h : HttpRequestHandler W D) (r : HttpRequest W D) t method uri minor hs rest kvs fuel :
  _socket r = Some t -> request_logged r method uri = true ->
  log_fits (error_message (_log_prefix r) 400 (lit "Bad Request: No Host Header")) = true ->
  streams t (request method uri 1 minor hs rest) -> good_request method uri 1 minor hs rest ->
  stands_for (_headers r) kvs -> _keep_alive r = false ->
  (length (request method uri 1 minor hs rest) + length hs < fuel)%nat ->
  1 <= minor -> mem (lit "host") (foldl add_header [] hs) = false ->
  lines_fit h 1 minor 400 (lit "Bad Request: No Host Header") (lit "text/html") = true ->
  exists r1 t1, has_read r1 method uri 1 minor hs rest /\ _socket r1 = Some t1 /\
  match _parseRequest h fuel r with
  | (Throw IOException, r') => exists t' out, r' = with_socket r1 (Some t') /\ after_sending t1 out t' /\
      answer_text h 400 (lit "Bad Request: No Host Header") (lit "text/html")
        (error_page (lit "Bad Request: No Host Header")) r1 [] out
  | (Throw SocketDisconnected, _) | (Throw SocketException, _) => True
  | _ => False
  end.
Proof.
  intros Et Hlog Hlog2 Hs Hg Hd Hk Hf Hm Hno Hfit.
  pose proof (read_start_ok h r t method uri 1 minor hs rest kvs fuel Et Hlog Hs Hg Hd Hk Hf) as Hy.
  apply yields_Ok in Hy as ([] & r1 & E & Hr1 & Ep). pose proof Hr1 as ((t1 & Et1 & l & p & _ & _ & _ & _ & _ & _ & Hc) & _).
  exists r1, t1. split; [done|]. split; [done|].
  pose proof Hr1 as (_ & _ & _ & _ & _ & Ea & Eb & _).
  pose proof (sendError_ok h 400 (lit "Bad Request: No Host Header") r1) as He. rewrite Ep, Ea, Eb in He.
  specialize (He Hlog2 ltac:(reflexivity) Hfit t1 Et1 Hc).
  unfold _parseRequest, read_request, sbind. rewrite E.
  rewrite (check_host_ok h r1 method uri 1 minor hs rest Hr1), Hno.
  unfold needs_host. replace (1 <=? minor) with true by lia. cbn [andb negb Z.eqb Pos.eqb]. unfold sbind.
  destruct (sendError _ _ _ r1) as [[[]|[]| |] r2]; try done.
Qed.

(** A request object that was used before still has the version of the last request. *)
Definition used : HttpRequest sim (Dictionary str str) :=
  (serve HttpRequest_new [line "GET /a HTTP/1.1"; line "Host: h"; CRLF]).2.

(** Without a version, a POST has the request line as its content, and inherits the version of the
    last request on the same object; a content loses its last byte; 1.9 counts as 0.9; a long bad
    version makes the server print its error with arguments that are read already; and a long uri
    overruns the buffer of the logger. *)
Theorem request_defects :
  (serve HttpRequest_new [line "POST /b"]).1 = (Ok false, lit "POST /b" ++ CRLF ++ CRLF) /\
  (serve used [line "POST /b"]).1 =
    (Ok false, answer ["HTTP/1.0 400 Bad Request: No Host Header"; "Connection: close"; "Server: srv"; "Date: now";
      "Content-Type: text/html"; "Content-Length: 37"; ""] ++ lit "<h1>Bad Request: No Host Header</h1>" ++ [LF]) /\
  (serve HttpRequest_new [line "POST /x HTTP/1.0"; line "Content-Length: 5"; CRLF; lit "hello"]).1 =
    (Ok false, answer ["HTTP/1.0 200 OK"; "Connection: close"; "Server: srv"; "Date: now"; "Content-Type: text/plain";
      "Content-Length: 4"; ""] ++ lit "hell" ++ CRLF ++ CRLF) /\
  (serve HttpRequest_new [line "GET /index HTTP/1.9"; line "Host: h"; CRLF]).1 = (Ok false, lit "/index" ++ CRLF ++ CRLF) /\
  (serve HttpRequest_new [lit "GET / " ++ replicate 140 "x"%char ++ CRLF]).1.1 = UB /\
  (serve HttpRequest_new [lit "GET /" ++ replicate 470 "x"%char ++ line " HTTP/1.1"; line "Host: h"; CRLF]).1.1 = UB.
Proof. vm_compute. split_and!; reflexivity. Qed.

(** ** Witnesses *)

#[export] Instance good_request_dec method uri major minor hs rest : Decision (good_request method uri major minor hs rest).
Proof. unfold good_request, good_word, free_of. apply _. Defined.

#[export] Instance sim_ClockLaws : ClockLaws sim unit.
Proof. done. Qed.

(** A new request with a connection on which the peer sends [text]. *)
Lemma accept_sim text : zlen text < 1040 ->
  exists r t, accept (mkDesc 4 TCP true false false true) (mkSim [] [text] 0)
      (HttpRequest_new : HttpRequest sim (Dictionary str str)) = (Ok tt, r) /\
    _socket r = Some t /\ streams t text /\ stands_for (_headers r) [] /\ _keep_alive r = false /\
    _log_prefix r = lit "request(10.0.0.1:4000) ".
Proof.
  intros Hl. destruct (sim_streams [text]) as (t & E & Hs); [cbn; by rewrite app_nil_r|]. cbn in Hs. rewrite app_nil_r in Hs.
  unfold accept, sbind, lift. unfold sim_tcp in E. rewrite E. eexists _, t. split; [done|]. destruct t as [[]]. cbn. split_and!; try done.
  apply (@new_law _ _ _ _ _ _ (Dictionary_Mapping (K := str) (V := str))).
Qed.

Definition some_request : str := request (lit "GET") (lit "/a?b=1") 1 1 some_headers (lit "more").

Definition some_version : HttpRequest sim (Dictionary str str) := with_version HttpRequest_new 1 1.

Lemma sendResponse_spec_witness :
  sends (sendResponse (Addr := unit) echo (lit "hello") (lit "text/plain")) some_version
    (fun _ out => exists date n, strto n 10 = (false, 5) /\
      out = line "HTTP/1.0 200 OK" ++ line "Connection: close" ++ line "Server: srv" ++ date ++
        line "Content-Type: text/plain" ++ (lit "Content-Length: " ++ cstr n ++ CRLF) ++ CRLF ++ lit "hello" ++ CRLF ++ CRLF).
Proof.
  eapply sends_mono; [apply (sendResponse_spec (Addr := unit) echo (lit "hello") (lit "text/plain")); reflexivity|].
  intros _ out (date & n & Hn & ->). exists date, n. split; [exact Hn|].
  unfold head_lines, field_line. cbn [fmap list_fmap concat fst snd].
  set (n' := cstr n). set (a := start_lines _ _ _ _). vm_compute in a. subst a.
  replace (has_headers some_version) with true by reflexivity. cbv iota.
  rewrite <- !app_assoc. reflexivity.
Defined.


(** A handler that does nothing. *)
Definition silent : HttpRequestHandler sim (Dictionary str str) :=
  let yes := sret true in mkHandler 1 1 [] yes yes yes yes yes yes yes yes.

Lemma missing_host_witness :
  exists r r1 t1, accept (mkDesc 4 TCP true false false true)
      (mkSim [] [request (lit "GET") (lit "/") 1 1 [] []] 0) (HttpRequest_new : HttpRequest sim (Dictionary str str)) = (Ok tt, r) /\
    _socket r1 = Some t1 /\
    match _parseRequest (Addr := unit) silent 99 r with
    | (Throw IOException, r') => exists t' out, r' = with_socket r1 (Some t') /\ after_sending (Addr := unit) t1 out t' /\
        answer_text silent 400 (lit "Bad Request: No Host Header") (lit "text/html")
          (error_page (lit "Bad Request: No Host Header")) r1 [] out
    | (Throw SocketDisconnected, _) | (Throw SocketException, _) => True
    | _ => False
    end.
Proof.
  destruct (accept_sim (request (lit "GET") (lit "/") 1 1 [] [])) as (r & t & E & Et & Hs & Hd & Hk & Hp); [reflexivity|].
  edestruct (@missing_host sim unit sim_OS sim_Peer sim_OSLaws sim_Clock sim_ClockLaws (Dictionary str str) _ Dictionary_Mapping
    silent r t (lit "GET") (lit "/") 1 [] [] [] 99) as (r1 & t1 & _ & Et1 & Hr).
  - exact Et.
  - unfold request_logged. rewrite Hp. reflexivity.
  - rewrite Hp. reflexivity.
  - exact Hs.
  - compute_done.
  - exact Hd.
  - exact Hk.
  - vm_compute. repeat constructor.
  - discriminate.
  - reflexivity.
  - reflexivity.
  - exists r, r1, t1. split; [exact E|]. split; [exact Et1|exact Hr].
Defined.


