(* ===== verification/HttpClient.v ===== *)
(** * The HTTP client (src/cpp/src/net/HttpClient.cpp)

    [get] opens a socket, connects it to the host of a [URI], sends a request and reads the response
    with the same [HttpHeaders] as the server.  The name of the host is resolved by the system
    ([Resolver]); a socket that an earlier [get] left is replaced and never closed.  The one
    log message of the level INFO has to fit into the buffer of the logger; those of the level DEBUG are
    left out, but for the [trim] in the argument of one of them. *)

From S2P Require Import Prelude Dictionary DictTree DictSpec Mapping.
From S2P Require Import State CString Str StrConv StrMem ByteBuffer URI Socket TcpSocket HttpHeaders HttpRequest.

(** InetSocketAddress(hostname, port) *)
Class Resolver (W Addr : Type) := resolve : str -> Z -> W -> res Addr * W.

(** SRL::GetVersion (src/cpp/src/version.cpp) *)
Definition SRL_VERSION : Z * Z * Z := (2, 10, 4).

(** [%d] of printf *)
Definition fmt_d (n : Z) : str := if n <? 0 then lit "-" ++ fmt_u (- n) else fmt_u n.

Definition GET_FORMAT : str := lit "GET %s HTTP/1.1" ++ CRLF.
Definition get_line (path : str) : str := lit "GET " ++ cstr path ++ lit " HTTP/1.1" ++ CRLF.
Definition HOST_FORMAT : str := lit "host: %s:%d" ++ CRLF.
Definition host_line (host : str) (port : Z) : str := lit "host: " ++ cstr host ++ lit ":" ++ fmt_d (s32 port) ++ CRLF.
Definition AGENT_FORMAT : str := lit "user-agent: SRL-HttpClient/%d.%d.%d" ++ CRLF.
Definition agent_line : str :=
  let '(major, minor, revision) := SRL_VERSION in
  lit "user-agent: SRL-HttpClient/" ++ fmt_d major ++ lit "." ++ fmt_d minor ++ lit "." ++ fmt_d revision ++ CRLF.

Definition port_of (u : URI) : res Z :=
  if _port u =? 0 then
    if bool_decide (_scheme u = []) || op_eq (_scheme u) (lit "http") then Ok 80
    else if op_eq (_scheme u) (lit "https") then Ok 443
    else Throw IOException
  else Ok (_port u).

Section client.
Context {W Addr : Type} `{OS W Addr, !Resolver W Addr} {D : Type} `{MapOps D str str}.

(** Without a socket the client only knows the system it runs in. *)
Record HttpClient := mkClient {
  _socket : W + TcpSocket W;
  _headers : D
}.
Definition HttpClient_new (w : W) : HttpClient := mkClient (inl w) map_new.
Definition system_of (s : W + TcpSocket W) : W := match s with inl w => w | inr t => world (_base t) end.

(** [_socket = new TcpSocket()]; when the constructor throws, the socket stays what it was. *)
Definition new_socket : ST HttpClient unit := fun c =>
  let w := system_of (_socket c) in
  match TcpSocket_of (Descriptor_of INVALID TCP) w with
  | Ok t =>
      match open TCP (_base t) with
      | (Ok _, s) => (Ok tt, mkClient (inr (mkTcp s (_buffer t) (_max_size t))) (_headers c))
      | (r, s) => (r, mkClient (match _socket c with inl _ => inl (world s) | inr t =>
          inr (mkTcp (mkSocket (_desc (_base t)) (world s)) (_buffer t) (_max_size t)) end) (_headers c))
      end
  | Throw e => (Throw e, c)
  | UB => (UB, c)
  | NoFuel => (NoFuel, c)
  end.

(** A command on the socket and the headers *)
Definition on_connection {A} (m : ST (State W D) A) : ST HttpClient A := fun c =>
  match _socket c with
  | inr t => let '(a, s) := m (mkState t (_headers c)) in (a, mkClient (inr (conn s)) (headers s))
  | inl _ => (UB, c)
  end.

Abbreviation M := (ST (State W D)).
Definition connect_to (host : str) (port : Z) : M unit :=
  let! addr := on_conn (base (fun s => let '(a, w) := resolve host (s32 port) (world s) in (a, mkSocket (_desc s) w))) in
  on_conn (base (connect addr FOREVER)).

Definition say (s : str) : M Z := on_conn (base (send s)).
Definition say_format (fmt out : str) : M Z := let! s := lift (Format fmt out) in say s.

Definition send_request (path host : str) (port : Z) : M unit :=
  say_format GET_FORMAT (get_line path) ;;!
  say_format HOST_FORMAT (host_line host port) ;;!
  say (lit "accept: */*" ++ CRLF) ;;!
  say (lit "connection: close" ++ CRLF) ;;!
  let! user_agent := lift (Format AGENT_FORMAT agent_line) in
  say user_agent ;;!
  say CRLF ;;!
  sret tt.

Definition read_response (output : str) (fuel : nat) : M str :=
  let! (line, _) := on_conn (readUntil LF 30000 fuel) in
  let line := spec OTrim line in
  if bool_decide (line = []) then sthrow IOException
  else if negb (beginsWith line (lit "HTTP")) then sthrow IOException
  else
    parse fuel ;;!
    let! has := ask (map_hasKey (lit "content-length")) in
    if has : bool then
      let! s := ask (map_get (lit "content-length")) in
      let content_length := Int s 10 in
      if 0 <? content_length then
        let! (content, _) := on_conn (readAll content_length fuel) in sret content
      else sret output
    else sret output.

Definition connecting_message (host : str) (port : Z) : str :=
  lit "connecting to: " ++ cstr host ++ lit ":" ++ fmt_d (s32 port).

Definition get (u : URI) (output : str) (fuel : nat) : ST HttpClient str :=
  new_socket ;;!
  let! port := lift (port_of u) in
  let! _ := lift (logva (connecting_message (_host u) port)) in
  on_connection (
    connect_to (_host u) port ;;!
    send_request (_path u) (_host u) port ;;!
    read_response output fuel).

(** The destructor closes the last socket. *)
Definition HttpClient_delete (c : HttpClient) : W :=
  match _socket c with inl w => w | inr t => world (Socket.close (_base t)).2 end.
End client.
Arguments HttpClient W D : clear implicits.

(** ** What the client says *)

(** Sending takes nothing from what is coming in. *)
Class Duplex (W Addr : Type) `{Peer W Addr} :=
  duplex_law : forall s data w s', incoming s' (sys_send s data w).2 = incoming s' w.

Section exchange.
Context {W Addr : Type} `{OS W Addr, !Peer W Addr, !OSLaws W Addr, !Duplex W Addr} {D : Type} `{MapOps D str str, !Mapping D str str}.
Implicit Types (s : State W D) (t : TcpSocket W).

Lemma send_loop_incoming h data n fuel (k : Socket W) :
  match send_loop (Addr := Addr) h data n fuel k with
  | (Ok _, k') => incoming h (world k') = incoming h (world k)
  | _ => True
  end.
Proof.
  revert data n k. induction fuel as [|fuel IH]; intros data n k; cbn [send_loop]; (destruct (zlen data =? 0); [done|]); [done|].
  unfold sbind at 1, sys. pose proof (duplex_law h data (world k) h) as Hd.
  destruct (sys_send h data (world k)) as [sent w]. cbn [snd] in Hd.
  destruct (sent =? 0); [unfold sbind; by destruct (Socket.close _) as [[]]|]. destruct (sent <? 0); [done|].
  destruct (zlen data <? sent); [done|]. specialize (IH (zdrop sent data) (n + sent) (mkSocket (_desc k) w)). cbn [world] in IH.
  destruct (send_loop _ _ _ _ _) as [[]]; [by rewrite IH|done..].
Qed.

(** The command sends [out] on the connection and keeps what is coming in, or the connection fails. *)
Definition says {A} (m : ST (State W D) A) s (Q : A -> str -> Prop) : Prop :=
  _connected (_desc (_base (conn s))) = true ->
  match m s with
  | (Ok a, s') => exists t out, s' = mkState t (headers s) /\ after_sending (conn s) out t /\
      incoming_of t = incoming_of (conn s) /\ Q a out
  | (Throw SocketDisconnected, _) | (Throw SocketException, _) => True
  | _ => False
  end.

Lemma says_ret {A} (a : A) s (Q : A -> str -> Prop) : Q a [] -> says (sret a) s Q.
Proof. intros HQ Hc. destruct s as [t d]. exists t, []. split; [done|]. split; [apply after_sending_refl|]. by split. Qed.

Lemma says_bind {A B} (m : ST (State W D) A) (f : A -> ST (State W D) B) s (Q : B -> str -> Prop) :
  says m s (fun a o1 => forall t, says (f a) (mkState t (headers s)) (fun b o2 => Q b (o1 ++ o2))) ->
  says (let! a := m in f a) s Q.
Proof.
  intros Hm Hc. specialize (Hm Hc). unfold sbind. destruct (m s) as [[a|[]| |] s1]; try done.
  destruct Hm as (t1 & o1 & -> & Ha & Hi & Hf). pose proof Ha as (Hd & _).
  specialize (Hf t1). unfold says in Hf. cbn [conn] in Hf. rewrite Hd in Hf. specialize (Hf Hc).
  destruct (f a _) as [[b|[]| |] s2]; try done. destruct Hf as (t2 & o2 & -> & Hb & Hi2 & HQ).
  exists t2, (o1 ++ o2). split; [done|]. split; [by eapply after_sending_trans|]. by rewrite Hi2.
Qed.

Lemma says_mono {A} (m : ST (State W D) A) s (Q Q' : A -> str -> Prop) :
  says m s Q -> (forall a out, Q a out -> Q' a out) -> says m s Q'.
Proof. intros Hm HQ Hc. specialize (Hm Hc). destruct (m s) as [[a|[]| |] s1]; naive_solver. Qed.

Lemma says_lift {A} (x : res A) a s (Q : A -> str -> Prop) : x = Ok a -> Q a [] -> says (lift x) s Q.
Proof. intros ->. apply (says_ret a). Qed.

Lemma says_say data s (Q : Z -> str -> Prop) : Q (zlen data) data -> says (say data) s Q.
Proof.
  intros HQ Hc. destruct s as [t d]. cbn [conn] in *. unfold say, on_conn, base, zoom. cbn [conn].
  pose proof (send_outcome data (_base t) Hc) as Hs. unfold send_result in Hs.
  assert (match send data (_base t) with (Ok _, k') => incoming_of (mkTcp k' (_buffer t) (_max_size t)) =
    incoming (Socket._socket (_desc (_base t))) (world k') -> incoming_of (mkTcp k' (_buffer t) (_max_size t)) = incoming_of t | _ => True end) as Hi.
  { unfold send, sbind, desc, State.get, throw_if, isConnected. rewrite Hc. cbn [negb sret].
    pose proof (send_loop_incoming (Socket._socket (_desc (_base t))) data 0 (length data) (_base t)) as Hl.
    destruct (send_loop _ _ _ _ _) as [[]]; [|done..]. intros ->. by rewrite Hl. }
  destruct (send data (_base t)) as [[n|[]| |] k]; try done.
  destruct Hs as (-> & Hd & Hs). eexists _, data. split; [done|]. split.
  - unfold after_sending, sent_on. cbn. by rewrite Hd.
  - split; [|done]. apply Hi. unfold incoming_of. cbn. by rewrite Hd.
Qed.

Lemma says_format fmt out s (Q : Z -> str -> Prop) : fits fmt out = true -> Q (zlen out) out -> says (say_format fmt out) s Q.
Proof.
  intros Hf HQ. unfold say_format. apply says_bind. eapply says_lift; [by unfold Format; rewrite Hf|]. intros t.
  by apply says_say.
Qed.

(** The request, and when the lines fit the buffer of [Format] *)
Definition client_request (path host : str) (port : Z) : str :=
  get_line path ++ host_line host port ++ (lit "accept: */*" ++ CRLF) ++ (lit "connection: close" ++ CRLF) ++ agent_line ++ CRLF.
Definition request_fits (path host : str) (port : Z) : bool :=
  fits GET_FORMAT (get_line path) && fits HOST_FORMAT (host_line host port).

Lemma send_request_ok path host port s : request_fits path host port = true ->
  says (send_request path host port) s (fun _ out => out = client_request path host port).
Proof.
  unfold request_fits. rewrite andb_true_iff. intros [Hp Hh]. unfold send_request.
  apply says_bind, says_format; [done|]. intros t1. apply says_bind, says_format; [done|]. intros t2.
  apply says_bind, says_say. intros t3. apply says_bind, says_say. intros t4.
  apply says_bind. eapply says_lift; [by vm_compute|]. intros t5. apply says_bind, says_say. intros t6.
  apply says_bind, says_say. intros t7. apply says_ret. cbn [app]. by rewrite app_nil_r.
Qed.

(** ** What the client hears *)

Lemma trim_http x : exists y, spec OTrim (lit "HTTP" ++ x) = lit "HTTP" ++ y.
Proof.
  cbn [spec]. change (trim_front (lit "HTTP" ++ x)) with (lit "HTTP" ++ x).
  induction x as [|c x [y IH]] using rev_ind; [by exists []|]. rewrite app_assoc, trim_back_snoc.
  destruct (is_trim c); [by exists y|]. exists (x ++ [c]). by rewrite app_assoc.
Qed.

(** The content: what [Content-Length] announces, without its last byte *)
Definition heard (kvs : list (str * str)) (body output : str) : str * str :=
  match DictSpec.lookup (lit "content-length") kvs with
  | Some v => if 0 <? Int v 10 then (ztake (Int v 10 - 1) body, zdrop (Int v 10 - 1) body) else (output, body)
  | None => (output, body)
  end.
Definition length_fits (kvs : list (str * str)) (body : str) : Prop :=
  forall v, DictSpec.lookup (lit "content-length") kvs = Some v -> 0 < Int v 10 -> 2 <= Int v 10 <= zlen body.

Definition good_response (status : str) (hs : list (str * str)) (body : str) : Prop :=
  free_of CRLF status /\ Forall good_header hs /\ zlen hs < MAX_HEADERS /\ length_fits (foldl add_header [] hs) body.
Definition response (status : str) (hs : list (str * str)) (body : str) : str :=
  lit "HTTP" ++ status ++ CRLF ++ request_text hs body.

Lemma read_response_ok s status hs body kvs output fuel :
  streams (conn s) (response status hs body) -> good_response status hs body -> stands_for (headers s) kvs ->
  (length (response status hs body) + length hs < fuel)%nat ->
  yields (read_response output fuel) s (fun out s' =>
    out = (heard (foldl add_header [] hs) body output).1 /\ streams (conn s') (heard (foldl add_header [] hs) body output).2 /\
    stands_for (headers s') (foldl add_header [] hs)).
Proof.
  intros Hs (Hst & Hg & Hz & Hfit) Hd Hf. pose proof (streams_length _ _ Hs) as [Hl _].
  assert (response status hs body = ((lit "HTTP" ++ status) ++ [CR]) ++ [LF] ++ request_text hs body) as Et
    by (unfold response, CRLF; rewrite <- !app_assoc; done).
  assert (length (response status hs body) = length (((lit "HTTP" ++ status) ++ [CR])) + 1 + length (request_text hs body))%nat as Elen
    by (rewrite Et, !length_app; cbn; lia).
  rewrite Et in Hs. unfold read_response. apply yields_bind.
  assert (LF ∉ (lit "HTTP" ++ status) ++ [CR]) as Hlf.
  { rewrite !not_elem_of_app. split_and!; [compute_done|marks|compute_done]. }
  pose proof (streams_length _ _ Hs) as [_ Hi].
  destruct (readUntil_mark LF 30000 fuel (conn s) _ _ Hs Hlf ltac:(done)) as (t1 & E1 & Hs1); [rewrite Et in Hf; lia|].
  apply yields_zoom. exists ((((lit "HTTP" ++ status) ++ [CR]) ++ [LF]), zlen ((lit "HTTP" ++ status) ++ [CR]) + 1), t1. split; [exact E1|].
  destruct (trim_http (status ++ CRLF)) as (y & Ey).
  replace (((lit "HTTP" ++ status) ++ [CR]) ++ [LF]) with (lit "HTTP" ++ status ++ CRLF) by (unfold CRLF; by rewrite <- !app_assoc).
  rewrite Ey, bool_decide_false by done. change (beginsWith (lit "HTTP" ++ y) (lit "HTTP")) with true. cbn [negb].
  apply yields_bind. eapply yields_mono; [apply (parse_ok _ hs body kvs); cbn [conn headers]; [exact Hs1|done..|]; lia|].
  intros [] s2 [Hs2 Hd2]. apply yields_bind. eapply yields_ask; [by apply hasKey_law|].
  unfold mem, heard. destruct (DictSpec.lookup (lit "content-length") _) as [v|] eqn:Ev; [|by apply yields_ret].
  apply yields_bind. eapply yields_ask; [by rewrite (get_law _ _ _ Hd2), Ev|].
  destruct (Z.ltb_spec 0 (Int v 10)) as [Hv|Hv]; [|by apply yields_ret].
  specialize (Hfit v Ev Hv). pose proof (streams_length _ _ Hs2) as [Hl2 Hi2].
  destruct (readAll_short (Int v 10) fuel (conn s2) body Hs2 Hfit ltac:(lia)) as (t3 & E3 & Hs3).
  { assert (length body <= length (request_text hs body))%nat by (unfold request_text; rewrite !length_app; lia). lia. }
  apply yields_bind. apply yields_zoom. exists (ztake (Int v 10 - 1) body, Int v 10 - 1), t3. split; [exact E3|].
  by apply yields_ret.
Qed.
End exchange.

(** ** The client and the server *)

(** The headers of the request *)
Definition client_headers (host : str) (port : Z) : list (str * str) :=
  [(lit "host", lit " " ++ cstr host ++ lit ":" ++ fmt_d (s32 port)); (lit "accept", lit " */*"); (lit "connection", lit " close");
   (lit "user-agent", lit " SRL-HttpClient/2.10.4")].

Lemma client_request_text path host port : nul_free path ->
  client_request path host port = request (lit "GET") path 1 1 (client_headers host port) [].
Proof.
  intros Hp. unfold client_request, get_line. rewrite cstr_id by done.
  unfold request, request_line, request_text, client_headers. cbn [join fmap list_fmap concat].
  change (version_text 1 1) with (lit "HTTP/1.1"). change agent_line with (lit "user-agent: SRL-HttpClient/2.10.4" ++ CRLF).
  unfold header_text, host_line. cbn [fst snd]. rewrite <- !app_assoc. cbn. rewrite <- ?app_assoc. cbn. rewrite <- ?app_assoc. reflexivity.
Qed.

Section both.
Context {W Addr : Type} `{OS W Addr, !Peer W Addr, !OSLaws W Addr, !Duplex W Addr} {D : Type} `{MapOps D str str, !Mapping D str str}.


(** The server of this library reads the request of this client: method, path and headers, and no
    content. *)
Theorem client_request_read `{!Clock W} (h : HttpRequestHandler W D) (r : HttpRequest W D) t path host port kvs fuel :
  HttpRequest._socket r = Some t -> request_logged r (lit "GET") path = true -> streams t (client_request path host port) ->
  good_request (lit "GET") path 1 1 (client_headers host port) [] -> stands_for (HttpRequest._headers r) kvs -> _keep_alive r = false ->
  (length (client_request path host port) + 4 < fuel)%nat ->
  exists r', read_request h fuel r = (Ok tt, r') /\ has_read r' (lit "GET") path 1 1 (client_headers host port) [] /\
    _content_length r' = 0.
Proof.
  intros Et Hlog Hs Hg Hd Hk Hf. pose proof Hg as (_ & (_ & _ & Hp) & _). rewrite client_request_text in Hs, Hf by done.
  pose proof (read_request_ok h r t (lit "GET") path 1 1 (client_headers host port) [] kvs fuel Et Hlog Hs Hg Hd Hk ltac:(change (length (client_headers host port)) with 4%nat; lia)) as Hy.
  specialize (Hy ltac:(intros _; vm_compute; reflexivity)). apply yields_Ok in Hy as ([] & r' & E & Hr & Hn). exists r'. split; [done|]. split; [done|].
  rewrite Hn. vm_compute. reflexivity.
Qed.
End both.

(** ** A client to evaluate *)

#[export] Instance sim_Resolver : Resolver sim unit := fun _ _ w => (Ok tt, w).
#[export] Instance sim_Duplex : Duplex sim unit.
Proof. done. Qed.

(** What [get] returns for a URI from a host that answers [chunks], and what it sends *)
Definition fetch (uri : str) (chunks : list str) : res str * str :=
  match URI_set uri true with
  | Ok u =>
      let '(r, c) := get (Addr := unit) u [] 99 (HttpClient_new (mkSim [] chunks 0) : HttpClient sim (Dictionary str str)) in
      (r, sim_sent (system_of (_socket c)))
  | _ => (UB, [])
  end.
Definition asked (path host : string) : str :=
  lit "GET " ++ lit path ++ line " HTTP/1.1" ++ lit "host: " ++ line host ++ line "accept: */*" ++ line "connection: close" ++
  line "user-agent: SRL-HttpClient/2.10.4" ++ CRLF.

Example fetch_1 :
  fetch (lit "http://host:8080/a") [line "HTTP/1.1 200 OK"; line "Content-Type: text/plain"; line "Content-Length: 6"; CRLF; lit "hello"; [LF]] =
  (Ok (lit "hello"), asked "/a" "host:8080").
Proof. vm_compute. reflexivity. Qed.

(** The last byte of the content is lost; the query is not asked for; an empty path is none;
    a response without a length is not read; and a long path is printed
    with arguments that are read already. *)
Theorem client_defects :
  (fetch (lit "http://host/a") [line "HTTP/1.1 200 OK"; line "Content-Length: 5"; CRLF; lit "hello"]).1 = Ok (lit "hell") /\
  (fetch (lit "http://host/a?b=1") [line "HTTP/1.1 200 OK"; CRLF]).2 = asked "/a" "host:80" /\
  (fetch (lit "http://host") [line "HTTP/1.1 200 OK"; CRLF]).2 = asked "" "host:80" /\
  (fetch (lit "http://host/a") [line "HTTP/1.1 200 OK"; CRLF; lit "hello"]).1 = Ok [] /\
  (fetch (lit "http://host/" ++ replicate 131 "a"%char) [line "HTTP/1.1 200 OK"; CRLF]).1 = UB.
Proof. vm_compute. repeat split. Qed.

(** ** Witnesses *)

Definition some_fields : list (str * str) := [(lit "Content-Length", lit " 6")].


Lemma client_request_read_witness :
  exists r r', accept (mkDesc 4 TCP true false false true) (mkSim [] [client_request (lit "/a") (lit "host") 80] 0)
      (HttpRequest_new : HttpRequest sim (Dictionary str str)) = (Ok tt, r) /\
    read_request (Addr := unit) echo 300 r = (Ok tt, r') /\ _uri r' = lit "/a" /\ _content_length r' = 0.
Proof.
  destruct (accept_sim (client_request (lit "/a") (lit "host") 80)) as (r & t & E & Et & Hs & Hd & Hk & Hp); [reflexivity|].
  destruct (@client_request_read sim unit sim_OS sim_Peer (Dictionary str str) _ Dictionary_Mapping sim_Clock
    echo r t (lit "/a") (lit "host") 80 [] 300) as (r' & E' & Hr & Hn).
  - exact Et.
  - unfold request_logged. rewrite Hp. reflexivity.
  - exact Hs.
  - compute_done.
  - exact Hd.
  - exact Hk.
  - vm_compute. repeat constructor.
  - exists r, r'. split; [exact E|]. split; [exact E'|]. split; [apply Hr|exact Hn].
Defined.
