(* ===== verification/XmlRpcProtocol.v ===== *)
(** * XML-RPC over HTTP (src/cpp/src/xml/XmlRpcProtocol.cpp, include/srl/xml/XmlRpcProtocol.h)

    The handler of an HTTP server that answers POST requests: the content of the request is parsed with
    [XML], the parameters with [RpcValue], the method is found with [RpcProtocol], and the value it
    returns is the content of the response.  The services are those of [RpcProtocol]; a method changes
    the state [W] of the system in which the socket of the request lives.  The name of the host and
    [Sleep] are calls of the system; [message] stands for the texts of exceptions, which the model does
    not keep, and the theorems hold for any.  The log messages of the level INFO have to
    fit into the buffer of the logger. *)

From S2P Require Import Prelude Dictionary DictTree DictSpec Mapping State CString Str StrConv ByteBuffer XML RpcValue RpcProtocol Socket TcpSocket HttpHeaders HttpRequest.

Class System (W : Type) := {
  GetHostName : W -> str * W;
  Sleep : Z -> W -> W
}.

Definition XML_HEAD : str := lit "<?xml version=" ++ [chr 34] ++ lit "1.0" ++ [chr 34] ++ lit "?>" ++ [LF].
Definition METHOD_RESPONSE_HEADER : str := XML_HEAD ++ lit "<methodResponse><params>".
Definition METHOD_RESPONSE_FOOTER : str := lit "</params></methodResponse>" ++ [LF].
Definition METHOD_RESPONSE : str := METHOD_RESPONSE_HEADER ++ lit "%s" ++ METHOD_RESPONSE_FOOTER.
Definition METHOD_FAULT : str := XML_HEAD ++ lit "<methodResponse><fault>%s</fault></methodResponse>" ++ [LF].

Definition response_text (x : str) : str := METHOD_RESPONSE_HEADER ++ x ++ METHOD_RESPONSE_FOOTER.
Definition fault_text (x : str) : str :=
  XML_HEAD ++ lit "<methodResponse><fault>" ++ cstr x ++ lit "</fault></methodResponse>" ++ [LF].

(** The struct of a fault, as XML *)
Definition fault_xml (e : str) : res str :=
  let? ms := struct_set (lit "faultCode") (set_int (-1)) [] in
  let? ms := struct_set (lit "faultString") (fun v => Ok (set_String e v)) ms in
  let? (t, _) := asXml (mkRpcValue TypeStruct [] (Word 0) (Struct ms)) in Ok t.

(** ** Reading a call *)

Section reading.
Context {D : Doubles} {F : Type} `{TextFile F}.
Implicit Types p : Parser F.

(** The loop over at most [i] elements; [got] is whether [element] is not NULL. *)
Fixpoint find_call (i : nat) (got : bool) p (fuel : nat) : res (bool * Parser F) :=
  match i with
  | O => Ok (false, p)
  | S i =>
      assume got ;;?
      if named (lit "methodCall") p then Ok (true, p)
      else let? (got, p) := getNextElement p fuel in find_call i got p fuel
  end.

(** The names of the service and of the method, with the parser at the element of the method's name *)
Definition parse_method (content : str) (fuel : nat) : res (str * str * Parser F) :=
  let? (got, p) := getNextElement (Parser_text content) fuel in
  let? (is_methodCall, p) := find_call 4 got p fuel in
  if negb is_methodCall then Throw IOException
  else
    let? (got, p) := getNextElement p fuel in
    if negb (got && named (lit "methodName") p) then Throw IOException
    else
      let? (has, p) := hasContent p fuel in
      if negb has then Throw IOException
      else
        let? (text, p) := XML.getContent p fuel in
        let? dot := find_char text "." 0 in
        if dot =? -1 then Throw IOException
        else
          let? (text, p) := XML.getContent p fuel in
          let? service_name := section_char text "." 0 true in
          let? (text, p) := XML.getContent p fuel in
          let? method_name := section_char text "." 1 true in
          Ok (service_name, method_name, p).

Fixpoint params_loop p (args : list (option RpcValue)) (fuel : nat) : res (list (option RpcValue) * Parser F) :=
  match fuel with
  | O => NoFuel
  | S fuel' =>
      let? (got, p) := getNextElement p fuel in
      if got && named (lit "param") p then
        let? (got, p) := getNextElement p fuel in
        if got && named VALUE_TAG p then
          let? (v, p) := FromXml p fuel in
          let? (_, p) := getNextElement p fuel in
          params_loop p (array_add v args) fuel'
        else Ok (args, p)
      else Ok (args, p)
  end.

(** Behind the name: its end tag, the tag of the parameters, and the parameters *)
Definition parse_params p (fuel : nat) : res (list (option RpcValue)) :=
  let? (_, p) := getNextElement p fuel in
  let? (got, p) := getNextElement p fuel in
  assume got ;;?
  if negb (named (lit "params") p) then Throw IOException
  else let? (args, _) := params_loop p [] fuel in Ok args.
End reading.

(** ** The handler *)

Section handler.
Context {W Addr : Type} `{OS W Addr, !Clock W, !System W} {D : Type} `{MapOps D str str}.
Context {MD SD : Type} `{MapOps MD str (option (RpcMethod W)), MapOps SD str ref}.
Context {N : Doubles} {F : Type} `{TextFile F}.
Variable version : str.
Variable services : list (RpcService MD).
Variable protocol : RpcProtocol (SD := SD).
Variable message : exn -> str.

(** What the base class HttpRequestHandler(1, 0) says of the version *)
Definition base_handler : HttpRequestHandler W D := HttpRequestHandler_base 1 0 version.

Definition on_world {A} (m : ST W A) : ST (HttpRequest W D) A :=
  on_socket (base (zoom world (fun s w => mkSocket (_desc s) w) m)).
Definition call_system {A} (f : W -> A * W) : ST (HttpRequest W D) A := on_world (fun w => let '(a, w) := f w in (Ok a, w)).

(** [request.sendResponse(Format(METHOD_FAULT, fault.asXml().text()), "text/xml")] for the fault of [e] *)
Definition send_fault (e : str) : ST (HttpRequest W D) bool :=
  let! x := lift (fault_xml e) in
  let! s := lift (Format METHOD_FAULT (fault_text x)) in
  sendResponse base_handler s (lit "text/xml") ;;!
  sret true.

Definition HOST_FORMAT : str := lit "%s: %s".
Definition sendError_text (e : str) : ST (HttpRequest W D) bool :=
  let! host := call_system GetHostName in
  let! s := lift (Format HOST_FORMAT (cstr host ++ lit ": " ++ cstr e)) in
  send_fault s.
Definition sendError_exn (e : exn) : ST (HttpRequest W D) bool := send_fault (message e).

(** The text of an exception, which has to fit as well *)
Definition throw_format {A} (fmt out : str) : ST (HttpRequest W D) A :=
  let! _ := lift (Format fmt out) in sthrow IOException.

Definition names_message (service_name method_name : str) : str :=
  lit "service: '" ++ cstr service_name ++ lit "'   method: '" ++ cstr method_name ++ lit "'".
Definition post_message (uri : str) : str := lit "xml-rpc post: " ++ cstr uri.

Definition NO_SERVICE : str := lit "no service with name: %s".
Definition NO_METHOD : str := lit "service:%s does not have method: %s".

Definition send_list : ST (HttpRequest W D) bool :=
  let! list := lift (listMethods services protocol) in
  let! (x, _) := lift (asXml list) in
  let! s := lift (Format METHOD_RESPONSE (response_text (cstr x))) in
  sendResponse base_handler s (lit "text/html") ;;!
  sret true.

(** The text of what a method returned *)
Definition result_xml (result : option RpcValue) : res str :=
  match result with
  | Some v => let? (x, _) := asXml v in Ok x
  | None => Ok (lit "<value><nil/></value>")
  end.

(** What is done in the try block with the content *)
Definition call (content : str) (fuel : nat) : ST (HttpRequest W D) bool :=
  let! (service_name, method_name, p) := lift (parse_method (F := F) content fuel) in
  logs (names_message service_name method_name) ;;!
  if op_eq service_name (lit "system") && op_eq method_name (lit "listMethods") then send_list
  else
    let! has := lift (hasService service_name protocol) in
    if negb has then throw_format NO_SERVICE (lit "no service with name: " ++ cstr service_name)
    else
      let! service := lift (get_service services service_name protocol) in
      let! has := lift (hasMethod method_name service) in
      if negb has then
        throw_format NO_METHOD (lit "service:" ++ cstr service_name ++ lit " does not have method: " ++ cstr method_name)
      else
        let! args := lift (parse_params p fuel) in
        let! result := on_world (service_execute method_name (Some (mkRpcValue TypeArray [] (Word 0) (Array args))) service) in
        let! x := lift (result_xml result) in
        sendResponse base_handler (response_text x) (lit "text/html") ;;!
        call_system (fun w => (tt, Sleep 1000 w)) ;;!
        sret true.

Definition INVALID_URI : str := lit "invalid XML-RPC method call syntax: invalid URI".
Definition NO_TYPE : str := lit "invalid XML-RPC method call syntax: no content-type".
Definition NO_CONTENT : str := lit "invalid XML-RPC method call syntax: no content".
Definition BAD_TYPE : str := lit "invalid XML-RPC method call syntax: bad content-type".

(** The two catch clauses; [out_of_range] is no Exception of the library. *)
Definition caught (e : exn) : ST (HttpRequest W D) bool :=
  if decide (e = out_of_range) then sendError_text (lit "unknown error in xml request!") else sendError_exn e.

Definition http_post (fuel : nat) : ST (HttpRequest W D) bool :=
  let! uri := get _uri in
  logs (post_message uri) ;;!
  if op_ne uri (lit "/RPC2") then sendError_text INVALID_URI
  else
    let! has := hasHeader (lit "content-type") in
    if negb has then sendError_text NO_TYPE
    else
      let! n := get _content_length in
      if n <=? 0 then sendError_text NO_CONTENT
      else
        let! ct := getHeader (lit "content-type") in
        if op_eq ct (lit "text/html") then sendError_text BAD_TYPE
        else try (let! content := HttpRequest.getContent (Addr := Addr) fuel in call content fuel) caught.

Definition XmlRpcProtocol (fuel : nat) : HttpRequestHandler W D :=
  let no := sret false in mkHandler 1 0 version no no (http_post fuel) no no no no no.
End handler.

(** ** The text of a call *)

Definition xml_of {D : Doubles} (v : RpcValue) : str := match asXml v with Ok (t, _) => t | _ => [] end.
Definition param_text {D : Doubles} (v : RpcValue) : str := lit "<param>" ++ xml_of v ++ lit "</param>".
Definition params_text {D : Doubles} (vs : list RpcValue) : str := concat (param_text <$> vs).

(** [head] is nothing or the declaration of XML; what comes behind the parameters is never read. *)
Definition call_text {D : Doubles} (head service method : str) (vs : list RpcValue) (rest : str) : str :=
  head ++ lit "<methodCall><methodName>" ++ service ++ lit "." ++ method ++ lit "</methodName><params>" ++
  params_text vs ++ lit "</params>" ++ rest.

(** A name of a service or method *)
Definition good_name (s : str) : Prop :=
  s <> [] /\ ("."%char ∉ s) /\ ("<"%char ∉ s).

Definition params_size (vs : list RpcValue) : nat := foldr (fun v n => S (size v + n)) O vs.

Section parsing.
Context {D : Doubles} {F : Type} `{TextFile F}.
Implicit Types p : Parser F.

Lemma head_tag : good_tag (mkTag Instruction (lit "xml") (lit "version=" ++ [chr 34] ++ lit "1.0" ++ [chr 34])).
Proof. unfold good_tag, nul_free. split_and!; try (compute_done || (vm_compute; congruence)). Qed.

Lemma to_call xml p head rest fuel : head = [] \/ head = XML_HEAD ->
  stands xml p (head ++ lit "<methodCall>" ++ rest) ->
  exists p', (let? (got, p) := getNextElement p (S fuel) in find_call 4 got p (S fuel)) = Ok (true, p') /\
    at_tag p' (lit "methodCall") false /\ stands xml p' rest.
Proof.
  intros [-> | ->] Hs.
  - destruct (next_open xml p [] (lit "methodCall") rest fuel Hs) as (p1 & -> & Hp1 & Hs1); [done|apply not_elem_of_nil|].
    exists p1. cbn [bind find_call assume]. by rewrite (named_at _ _ _ _ Hp1).
  - destruct Hs as (Ex & Hf & Hl & pre & Ep & Epos).
    rewrite (getNextElement_ok p pre [] _ ([LF] ++ lit "<methodCall>" ++ rest) fuel head_tag);
      [|apply not_elem_of_nil|by rewrite Ex, Ep|done|congruence|congruence].
    cbn [bind find_call assume]. set (p1 := mkParser _ _ _ _).
    assert (stands xml p1 ([LF] ++ lit "<methodCall>" ++ rest)) as Hs1.
    { split; [done|]. do 2 (split; [done|]). exists (pre ++ ztake 21 XML_HEAD). split; [by rewrite Ep, <- app_assoc|].
      unfold p1. cbn [_pos]. rewrite zlen_app, zlen_nil. change (zlen (ztake 21 XML_HEAD)) with 21.
      change (zlen (tag_text _)) with 19. lia. }
    assert (named (lit "methodCall") p1 = false) as -> by done.
    destruct (next_open xml p1 [LF] (lit "methodCall") rest fuel Hs1) as (p2 & -> & Hp2 & Hs2); [done|compute_done|].
    exists p2. cbn [bind]. by rewrite (named_at _ _ _ _ Hp2).
Qed.

Lemma good_name_parts service method : good_name service -> good_name method ->
  nul_free (service ++ lit "." ++ method) -> zlen (service ++ lit "." ++ method) < 2 ^ 31 - 1 ->
  find_char (service ++ lit "." ++ method) "." 0 = Ok (zlen service) /\
  section_char (service ++ lit "." ++ method) "." 0 true = Ok service /\
  section_char (service ++ lit "." ++ method) "." 1 true = Ok method.
Proof.
  intros (Hs & Hsd & _) (Hm & Hmd & _) Hf Hl.
  assert (forall k g, [service; method] !! k = Some g -> g <> [] -> section_char (join "." [service; method]) "." (Z.of_nat k) true = Ok g) as Hsec.
  { intros k g Ek Hg. assert (Z.of_nat k < 2 ^ 31) by (apply lookup_lt_Some in Ek; cbn in Ek; lia).
    rewrite section_char_at; [|done|done|by repeat constructor|done|done|done]. rewrite Ek. by rewrite decide_False. }
  split_and!; [|by apply (Hsec 0%nat)|by apply (Hsec 1%nat)].
  rewrite (find_char_hit_at _ [] service "." method); [done|done|done|done|lia|done].
Qed.

Lemma parse_method_ok head service method vs rest fuel :
  let text := call_text head service method vs rest in
  head = [] \/ head = XML_HEAD -> good_name service -> good_name method -> nul_free text -> zlen text < 2 ^ 31 - 1 ->
  exists p, parse_method (F := F) text (S fuel) = Ok (service, method, p) /\
    stands text p (service ++ lit "." ++ method ++ lit "</methodName><params>" ++ params_text vs ++ lit "</params>" ++ rest).
Proof.
  intros text Hh Hs Hm Hf Hl. unfold parse_method.
  assert (stands (F := F) text (Parser_text text) text) as H0 by (do 3 (split; [done|]); by exists []).
  unfold text at 3 in H0. unfold call_text in H0.
  change (lit "<methodCall><methodName>") with (lit "<methodCall>" ++ lit "<methodName>") in H0. rewrite <- (app_assoc (lit "<methodCall>")) in H0.
  destruct (to_call _ _ _ _ fuel Hh H0) as (p1 & E1 & Hp1 & Hs1).
  destruct (getNextElement (Parser_text text) (S fuel)) as [[got p0]| | |]; try done. cbn [bind] in E1 |- *. rewrite E1. cbn [bind negb].
  destruct (next_open text p1 [] (lit "methodName") _ fuel Hs1) as (p2 & -> & Hp2 & Hs2); [done|apply not_elem_of_nil|].
  cbn [bind andb]. rewrite (named_at _ _ _ _ Hp2). change (op_eq (lit "methodName") (lit "methodName")) with true. cbn [negb].
  set (name := service ++ lit "." ++ method).
  set (rest' := lit "/methodName><params>" ++ params_text vs ++ lit "</params>" ++ rest).
  assert (stands text p2 (name ++ lit "<" ++ rest')) as Hs2' by (unfold name; rewrite <- !app_assoc; exact Hs2).
  assert ("<"%char ∉ name) as Ht.
  { destruct Hs as (_ & _ & Hs), Hm as (_ & _ & Hm). unfold name. rewrite !not_elem_of_app. split_and!; [done|compute_done|done]. }
  assert (name <> []) as Hne by (by unfold name; destruct service).
  assert (blank name = false) as Hb by (unfold name, blank; rewrite !forallb_app; apply andb_false_r || (cbn; apply andb_false_r)).
  rewrite (hasContent_text text p2 name (lit "methodName") rest'), Hb by done. cbn [bind negb].
  rewrite (getContent_text text p2 name (lit "methodName") rest') by done. cbn [bind].
  assert (nul_free name /\ zlen name < 2 ^ 31 - 1) as [Hnf Hnl].
  { destruct Hs2' as (_ & _ & _ & pre & Ep & _). rewrite Ep in Hf, Hl. rewrite !nul_free_app in Hf. rewrite !zlen_app in Hl.
    pose proof (zlen_nonneg pre). pose proof (zlen_nonneg (lit "<")). pose proof (zlen_nonneg rest'). split; [by apply Hf|lia]. }
  destruct (good_name_parts service method Hs Hm Hnf Hnl) as (E2 & E3 & E4).
  fold name in E2, E3, E4. rewrite E2. cbn [bind].
  replace (zlen service =? -1) with false by (pose proof (zlen_nonneg service); lia).
  rewrite getContent_again by done. cbn [bind]. rewrite E3. cbn [bind]. rewrite getContent_again by done. cbn [bind]. rewrite E4. cbn [bind].
  eexists. split; [done|]. apply stands_content. unfold name, rest' in Hs2'. rewrite <- !app_assoc in Hs2'. exact Hs2'.
Qed.
End parsing.

Section params.
Context {D : Doubles} {F : Type} `{TextFile F}.
Implicit Types p : Parser F.

Lemma params_loop_ok vs rest xml : Forall (reads (F := F)) vs -> forall p acc fuel,
  stands xml p (params_text vs ++ lit "</params>" ++ rest) -> (params_size vs < fuel)%nat ->
  exists p', params_loop p acc fuel = Ok (acc ++ (Some <$> vs), p').
Proof.
  induction 1 as [|v vs Hv Hvs IH]; intros p acc fuel Hs Hf; (destruct fuel as [|fuel]; [lia|]); cbn [params_loop].
  - destruct (next_close xml p [] (lit "params") rest fuel Hs) as (p1 & -> & Hp1 & _); [done|apply not_elem_of_nil|].
    exists p1. cbn [bind andb]. rewrite (named_at _ _ _ _ Hp1). cbn [fmap list_fmap]. by rewrite app_nil_r.
  - cbn [params_size foldr] in Hf. destruct Hv as (body & Ev & Hr).
    assert (params_text (v :: vs) = lit "<param>" ++ (lit "<value>" ++ body ++ [LF]) ++ lit "</param>" ++ params_text vs) as Et.
    { unfold params_text. cbn [fmap list_fmap concat]. unfold param_text at 1, xml_of. rewrite Ev. by rewrite <- !app_assoc. }
    rewrite Et, <- !app_assoc in Hs.
    destruct (next_open xml p [] (lit "param") _ fuel Hs) as (p1 & -> & Hp1 & Hs1); [done|apply not_elem_of_nil|].
    cbn [bind andb]. rewrite (named_at _ _ _ _ Hp1). change (op_eq (lit "param") (lit "param")) with true. cbv iota.
    destruct (next_open xml p1 [] VALUE_TAG _ fuel Hs1) as (p2 & -> & Hp2 & Hs2); [done|apply not_elem_of_nil|].
    cbn [bind andb]. rewrite (named_at _ _ _ _ Hp2). change (op_eq VALUE_TAG VALUE_TAG) with true. cbv iota.
    destruct (Hr xml p2 _ (S fuel) ltac:(lia) Hp2 Hs2) as (p3 & -> & _ & Hs3). cbn [bind].
    destruct (next_close xml p3 [LF] (lit "param") _ fuel Hs3) as (p4 & -> & _ & Hs4); [done|compute_done|]. cbn [bind].
    destruct (IH p4 (array_add (Some v) acc) fuel Hs4) as (p5 & ->); [unfold params_size; lia|]. exists p5.
    unfold array_add. by rewrite <- app_assoc.
Qed.

Lemma parse_params_ok vs name rest xml p fuel : Forall (reads (F := F)) vs -> ("<"%char ∉ name) ->
  stands xml p (name ++ lit "</methodName><params>" ++ params_text vs ++ lit "</params>" ++ rest) -> (params_size vs < S fuel)%nat ->
  parse_params p (S fuel) = Ok (Some <$> vs).
Proof.
  intros Hvs Hn Hs Hf. unfold parse_params.
  destruct (next_close xml p name (lit "methodName") (lit "<params>" ++ params_text vs ++ lit "</params>" ++ rest) fuel Hs)
    as (p1 & -> & _ & Hs1); [done|done|]. cbn [bind].
  destruct (next_open xml p1 [] (lit "params") _ fuel Hs1) as (p2 & -> & Hp2 & Hs2); [done|apply not_elem_of_nil|].
  cbn [bind assume]. rewrite (named_at _ _ _ _ Hp2). change (op_eq (lit "params") (lit "params")) with true. cbn [negb].
  by destruct (params_loop_ok vs rest xml Hvs p2 [] (S fuel) Hs2 Hf) as (p3 & ->).
Qed.
End params.

(** ** The answer *)

(** Sleeping sends nothing. *)
Class SystemLaws (W Addr : Type) `{OSLaws W Addr, !System W} :=
  sleep_law : forall s n (w : W), sent s (Sleep n w) = sent s w.

Section answer.
Context {W Addr : Type} `{OS W Addr, !Peer W Addr, !OSLaws W Addr, !Clock W, !ClockLaws W Addr, !System W, !SystemLaws W Addr}.
Context {D : Type} `{MapOps D str str, !Mapping D str str}.
Context {MD SD : Type} `{MapOps MD str (option (RpcMethod W)), !Mapping MD str (option (RpcMethod W))}
  `{MapOps SD str ref, !Mapping SD str ref}.
Context {N : Doubles} {F : Type} `{TextFile F}.
Variable version : str.
Variable services : list (RpcService MD).
Variable protocol : RpcProtocol (SD := SD).
Variable message : exn -> str.
Implicit Types (r : HttpRequest W D) (t : TcpSocket W).

Lemma sends_world {A} (m : ST W A) a r (Q : A -> str -> Prop) :
  (forall w, exists w', m w = (Ok a, w') /\ forall s, sent s w' = sent s w) -> Q a [] -> sends (on_world m) r Q.
Proof.
  intros Hm HQ t Et Hc. unfold on_world, on_socket. rewrite Et. unfold base, zoom.
  destruct (Hm (world (_base t))) as (w' & -> & Hw). cbn. eexists _, []. split; [done|]. split; [|done].
  unfold after_sending, sent_on. cbn. by rewrite Hw, app_nil_r.
Qed.

Lemma respond_ok content ctype r :
  zlen content < 2 ^ 32 -> lines_fit (base_handler version : HttpRequestHandler W D) (_major r) (_minor r) 200 (lit "OK") ctype = true ->
  sends (sendResponse (base_handler version) content ctype) r (fun _ out =>
    answer_text (base_handler version) 200 (lit "OK") ctype content r (CRLF ++ CRLF) out).
Proof.
  intros Hl Hfit. apply (answer_ok (base_handler version) 200 (lit "OK") ctype content (tcp_send (CRLF ++ CRLF) ;;! sret tt)); [done..|].
  intros t. apply sends_bind, sends_tcp. intros t'. by apply sends_ret.
Qed.

(** A call that can be answered: the method is known and returns [result] with the text [x]. *)
Definition answers (g : registry (W := W)) (service method : str) (vs : list RpcValue) (x : str) : Prop :=
  exists m result, spec_method g service method = Some m /\ result_xml result = Ok x /\
    forall w, exists w', method_execute m (Some (mkRpcValue TypeArray [] (Word 0) (Array (Some <$> vs)))) w = (Ok result, w') /\
      forall s, sent s w' = sent s w.

Definition good_call head service method vs rest (fuel : nat) : Prop :=
  let text := call_text head service method vs rest in
  (head = [] \/ head = XML_HEAD) /\ good_name service /\ good_name method /\ nul_free text /\ zlen text < 2 ^ 30 - 1 /\
  Forall (reads (F := F)) vs /\ (params_size vs < fuel)%nat /\
  op_eq service (lit "system") && op_eq method (lit "listMethods") = false /\
  log_fits (names_message service method) = true.

Lemma call_ok g r head service method vs rest fuel x :
  RpcProtocol.keeps (services, protocol) g -> good_call head service method vs rest fuel -> answers g service method vs x ->
  zlen (response_text x) < 2 ^ 32 ->
  lines_fit (base_handler version : HttpRequestHandler W D) (_major r) (_minor r) 200 (lit "OK") (lit "text/html") = true ->
  sends (call (F := F) version services protocol (call_text head service method vs rest) fuel) r
    (fun b out => b = true /\
      answer_text (base_handler version) 200 (lit "OK") (lit "text/html") (response_text x) r (CRLF ++ CRLF) out).
Proof.
  intros Hk (Hh & Hs & Hm & Hf & Hl & Hvs & Hfuel & Hsys & Hlog) (m & result & Em & Ex & Hw) Hlx Hfit.
  destruct fuel as [|fuel]; [lia|].
  destruct (parse_method_ok (F := F) head service method vs rest fuel Hh Hs Hm Hf ltac:(lia)) as (p & Ep & Hp).
  unfold spec_method in Em. destruct (find_named _ service (known g)) as [i|] eqn:Ei; [|done]. cbn [mbind option_bind] in Em.
  destruct (get_service_ok service _ g i Hk Ei) as (s & Es & Ho). pose proof (hasService_ok service _ g Hk) as Eh. rewrite Ei in Eh.
  pose proof (hasMethod_ok method s _ Ho) as Eh2. rewrite Em in Eh2. cbn [fst snd] in Es, Eh.
  unfold call. apply sends_bind. eapply sends_lift; [exact Ep|]. intros t1. cbv beta iota.
  apply sends_bind, sends_logs; [exact Hlog|]. intros t0. rewrite Hsys.
  apply sends_bind. eapply sends_lift; [exact Eh|]. intros t2. cbn [negb].
  apply sends_bind. eapply sends_lift; [exact Es|]. intros t3.
  apply sends_bind. eapply sends_lift; [exact Eh2|]. intros t4. cbn [negb].
  apply sends_bind. eapply sends_lift.
  { apply (parse_params_ok vs (service ++ lit "." ++ method) rest (call_text head service method vs rest) p fuel Hvs); [|by rewrite <- !app_assoc|done].
    rewrite !not_elem_of_app. destruct Hs as (_ & _ & Hs), Hm as (_ & _ & Hm). split_and!; [done|compute_done|done]. }
  intros t5. apply sends_bind. eapply sends_world.
  { intros w. destruct (Hw w) as (w' & E & Hw'). exists w'. split; [|done]. unfold service_execute, sbind, lift.
    rewrite Eh2. by rewrite (get_method_ok method s _ m Ho Em). }
  intros t6. apply sends_bind. eapply sends_lift; [exact Ex|]. intros t7.
  apply sends_bind. eapply sends_mono; [by apply respond_ok|]. intros ? out Hout t8.
  apply sends_bind. eapply sends_world; [intros w; eexists; split; [done|]; intros s'; apply sleep_law|].
  intros t9. apply sends_ret. cbn [app]. rewrite app_nil_r. by split.
Qed.

(** ** The content, and faults *)

Lemma getContent_read r t text n fuel : _socket r = Some t -> streams t text -> _content r = [] -> _content_length r = n ->
  2 <= n <= zlen text -> n < 2 ^ 30 -> (length (incoming_of t) < fuel)%nat ->
  exists t', HttpRequest.getContent (Addr := Addr) fuel r = (Ok (ztake (n - 1) text), with_content (with_socket r (Some t')) (ztake (n - 1) text)) /\
    streams t' (zdrop (n - 1) text).
Proof.
  intros Et Hs Ec En Hn Hn2 Hf. destruct (readAll_short n fuel t text Hs Hn Hn2 Hf) as (t' & E & Hs').
  exists t'. split; [|done]. unfold HttpRequest.getContent, sbind, get. rewrite Ec, En. cbn [bool_decide]. rewrite bool_decide_true by done.
  replace (0 <? n) with true by lia. cbn [andb]. unfold on_socket. rewrite Et, (wrapS_small 32) by lia. by rewrite E.
Qed.

Definition FAULT_START : str :=
  c_lit "<value>\n\t<struct>\n\t\t<member>\n\t\t\t<name>faultCode</name>\n\t\t\t<value><int>-1</int></value>\n\t\t</member>\n\t\t<member>\n\t\t\t<name>faultString</name>\n\t\t\t<value><string>".

Lemma fault_xml_start e : exists rest, fault_xml e = Ok (FAULT_START ++ rest).
Proof.
  unfold fault_xml. set (code := mkRpcValue TypeInt (lit "-1") (Word 4294967295) Plain).
  assert (struct_set (lit "faultCode") (set_int (-1)) [] = Ok [(lit "faultCode", Some code)]) as -> by by vm_compute.
  cbn [bind]. unfold struct_set at 1, struct_add.
  assert (DictSpec.lookup (lit "faultString") [(lit "faultCode", Some code)] = None) as -> by by vm_compute.
  assert (mem (lit "faultString") [(lit "faultCode", Some code)] = false) as -> by by vm_compute.
  cbn [bind app asXml struct_texts]. unfold code. cbn [asXml GetTag of_option bind set_String RpcValue_new members clear struct_texts].
  generalize (encode e). intros s. eexists. vm_compute. reflexivity.
Qed.

(** The text of a fault never fits the buffer of [Format]. *)
Lemma fault_too_long x : fits METHOD_FAULT (fault_text (FAULT_START ++ x)) = false.
Proof.
  unfold fits, fault_text. rewrite cstr_app by (unfold nul_free; compute_done). rewrite !zlen_app.
  change (zlen FAULT_START) with 156. change (zlen METHOD_FAULT) with 73. change (zlen XML_HEAD) with 22.
  change (zlen (lit "<methodResponse><fault>")) with 23. pose proof (zlen_nonneg (cstr x)).
  change (zlen (lit "</fault></methodResponse>")) with 25. change (zlen [LF]) with 1. lia.
Qed.

Lemma send_fault_UB e r : exists r', send_fault version e r = (UB, r').
Proof.
  destruct (fault_xml_start e) as (x & E). unfold send_fault, sbind, lift. rewrite E. unfold Format. rewrite fault_too_long. by eexists.
Qed.

(** C27: A fault is never sent: its text does not fit into the buffer of [Format], whatever the error. *)
Theorem fault_undefined e (text : str) r t : _socket r = Some t -> exists r1 r2,
  sendError_exn version message e r = (UB, r1) /\ sendError_text version text r = (UB, r2).
Proof.
  intros Et. destruct (send_fault_UB (message e) r) as (r1 & E1). exists r1.
  assert (exists r2, sendError_text version text r = (UB, r2)) as (r2 & E2); [|exists r2; split; [exact E1|exact E2]].
  unfold sendError_text, call_system, on_world, on_socket, sbind, lift. rewrite Et. unfold base, zoom.
  destruct (GetHostName (world (_base t))) as [host w]. unfold Format. destruct (fits HOST_FORMAT _); [apply send_fault_UB|by eexists].
Qed.

End answer.

(** ** A server to evaluate *)

#[local] Existing Instance RpcValue.whole_doubles.
#[local] Existing Instance XML.no_file.
#[local] Existing Instance DefaultValue_method.
#[export] Instance sim_System : System sim := {
  GetHostName w := (lit "here", w);
  Sleep n w := mkSim (sim_sent w) (sim_peer w) (sim_time w + n)
}.
#[export] Instance sim_SystemLaws : SystemLaws sim unit.
Proof. done. Qed.

Abbreviation SimMethods := (Dictionary str (option (RpcMethod sim))).
Abbreviation SimServices := (Dictionary str ref).

(** The sum of the parameters; a method that returns nothing; one that throws *)
Definition sum (args : option RpcValue) : res (option RpcValue) :=
  let? v := of_option args in
  match members v with
  | Array vs =>
      let? n := foldr (fun x n => let? n := n in let? v := of_option x in let? k := asInt v in Ok (s32 (k + n))) (Ok 0) vs in
      let? v := RpcValue_int n in Ok (Some v)
  | _ => UB
  end.
Definition method (name : string) (f : option RpcValue -> res (option RpcValue)) : RpcMethod sim :=
  mkMethod (lit name) [] (fun args => lift (f args)).
Definition math_with (f1 f2 f3 : option RpcValue -> res (option RpcValue)) : list (rpc_op (W := sim)) :=
  [NewService (lit "math"); AddService 0; AddMethod 0 (method "sum" f1); AddMethod 0 (method "none" f2);
   AddMethod 0 (method "fail" f3)].
Definition math : list (rpc_op (W := sim)) := math_with sum (fun _ => Ok None) (fun _ => Throw IOException).
Definition math_program : program (MD := SimMethods) (SD := SimServices) :=
  (rpc_run (MD := SimMethods) (SD := SimServices) ([], RpcProtocol_new (lit "XML-RPC")) math).2.
Definition math_registry : registry (W := sim) := (rpc_spec_run (mkRegistry [] []) math).2.

Definition server (fuel : nat) : HttpRequestHandler sim (Dictionary str str) :=
  XmlRpcProtocol (Addr := unit) (F := unit) (lit "srv") math_program.1 math_program.2 (fun _ => lit "oops") fuel.

Definition int_value (n : Z) : RpcValue := mkRpcValue TypeInt (match Val_int32 n 10 with Ok s => s | _ => [] end) (Word (u32 n)) Plain.
Definition sum_call : str := call_text XML_HEAD (lit "math") (lit "sum") [int_value 2; int_value 40] (lit "</methodCall").

Definition post_headers (uri : string) (body : str) : str :=
  line ("POST " +:+ uri +:+ " HTTP/1.0") ++ line "Content-Type: text/xml" ++
  (lit "Content-Length: " ++ fmt_u (zlen body) ++ CRLF) ++ CRLF.

(** What comes back for a body that is posted, and the outcome of [run] *)
Definition post (uri : string) (body : str) : res bool * str :=
  match accept (mkDesc 4 TCP true false false true) (mkSim [] [post_headers uri body; body] 0) HttpRequest_new with
  | (Ok _, r) =>
      let '(b, r) := run (Addr := unit) (server 999) 999 r in
      (b, match _socket r with Some t => sim_sent (world (_base t)) | None => [] end)
  | (_, r) => (UB, [])
  end.

Definition answer_page (x : str) : res bool * str :=
  (Ok false, answer ["HTTP/1.0 200 OK"; "Connection: close"; "Server: srv"; "Date: now"; "Content-Type: text/html"] ++
    (lit "Content-Length: " ++ fmt_u (zlen (response_text x)) ++ CRLF) ++ CRLF ++ response_text x ++ CRLF ++ CRLF).

Example rpc_sum : post "/RPC2" (sum_call ++ lit ">") = answer_page (c_lit "<value><int>42</int></value>\n").
Proof. vm_compute. reflexivity. Qed.

Example rpc_none : post "/RPC2" (call_text [] (lit "math") (lit "none") [] (lit "</methodCall>")) = answer_page (lit "<value><nil/></value>").
Proof. vm_compute. reflexivity. Qed.

Definition list_call : str := call_text [] (lit "system") (lit "listMethods") [] (lit "</methodCall>").

(** Another uri, an unknown service or method, a method that throws, a text that is no call: each of
    them, and the list of three methods, makes the handler print more than [Format] has room for. *)
Theorem xmlrpc_defects :
  (post "/other" (sum_call ++ lit ">")).1 = UB /\
  (post "/RPC2" (call_text [] (lit "maths") (lit "sum") [] (lit "</methodCall>"))).1 = UB /\
  (post "/RPC2" (call_text [] (lit "math") (lit "add") [] (lit "</methodCall>"))).1 = UB /\
  (post "/RPC2" (call_text [] (lit "math") (lit "fail") [] (lit "</methodCall>"))).1 = UB /\
  (post "/RPC2" (lit "<methodCall></methodCall>")).1 = UB /\
  (post "/RPC2" list_call).1 = UB.
Proof. vm_compute. repeat split. Qed.

(** ** Witnesses *)

Lemma int_readable n : - 2 ^ 31 <= n < 2 ^ 31 -> readable (int_value n).
Proof.
  intros Hn. apply (readable_int n); [done|]. destruct (Val_int32_ok n 10 Hn) as (s & E & _); [lia|].
  unfold RpcValue_int, set_int, int_value. by rewrite E.
Qed.

Lemma math_kept : RpcProtocol.keeps (math_program.1, math_program.2) math_registry.
Proof.
  rewrite <- surjective_pairing. apply (rpc_run_ok (MD := SimMethods) (SD := SimServices) math ([], RpcProtocol_new (lit "XML-RPC")) (mkRegistry [] [])); [|by vm_compute].
  split; [done|]. split; [done|]. apply (@new_law _ _ _ _ _ _ (Dictionary_Mapping (K := str) (V := ref))).
Qed.

Definition sum_args : list RpcValue := [int_value 2; int_value 40].
Definition sum_rest : str := lit "</methodCall".

Lemma sum_good : good_call (F := unit) XML_HEAD (lit "math") (lit "sum") sum_args sum_rest 400.
Proof.
  split_and!.
  - by right.
  - unfold good_name. split_and!; [done|compute_done|compute_done].
  - unfold good_name. split_and!; [done|compute_done|compute_done].
  - unfold nul_free. compute_done.
  - by vm_compute.
  - apply Forall_cons_2; [apply readable_reads, int_readable; lia|].
    apply Forall_cons_2; [apply readable_reads, int_readable; lia|]. apply Forall_nil_2.
  - vm_compute. lia.
  - by vm_compute.
  - by vm_compute.
Qed.

Lemma sum_known f1 f2 f3 :
  spec_method (rpc_spec_run (mkRegistry [] []) (math_with f1 f2 f3)).2 (lit "math") (lit "sum") = Some (method "sum" f1).
Proof. vm_compute. reflexivity. Qed.

Lemma sum_42 : sum (Some (mkRpcValue TypeArray [] (Word 0) (Array (Some <$> sum_args)))) = Ok (Some (int_value 42)).
Proof. vm_compute. reflexivity. Qed.

Lemma sum_answers : answers math_registry (lit "math") (lit "sum") sum_args (c_lit "<value><int>42</int></value>\n").
Proof.
  exists (method "sum" sum), (Some (int_value 42)). split; [exact (sum_known sum (fun _ => Ok None) (fun _ => Throw IOException))|].
  split; [by vm_compute|]. intros w. exists w. split; [|done]. cbn [method method_execute]. unfold lift. by rewrite sum_42.
Qed.

Definition sum_headers : list (str * str) :=
  [(lit "Content-Type", lit "text/xml"); (lit "Content-Length", fmt_u (zlen (sum_call ++ lit ">")))].


Lemma fault_undefined_witness :
  exists r t, accept (mkDesc 4 TCP true false false true) (mkSim [] [lit "x"] 0)
      (HttpRequest_new : HttpRequest sim (Dictionary str str)) = (Ok tt, r) /\ _socket r = Some t /\
    exists r1 r2, sendError_exn (Addr := unit) (lit "srv") (fun _ => []) IOException r = (UB, r1) /\
      sendError_text (Addr := unit) (lit "srv") INVALID_URI r = (UB, r2).
Proof.
  destruct (accept_sim (lit "x")) as (r & t & E & Et & _); [reflexivity|]. exists r, t. split; [exact E|]. split; [exact Et|].
  exact (fault_undefined (Addr := unit) (lit "srv") (fun _ => []) IOException INVALID_URI r t Et).
Defined.
