(* ===== verification/Mutex.v ===== *)
(** * Semaphores and mutexes (src/cpp/src/sys/Semaphore.cpp, src/cpp/src/sys/Mutex.cpp)

    A semaphore is its number of permits.  The methods of [Mutex] are not atomic: the owner's id and the
    counter are read and written around the calls on the pthread mutex.  [move] takes one thread through
    its next statement, and any thread may be interleaved with any other; the theorems say that no
    interleaving lets two threads in, and that every thread gets through when the lock is given back. *)

From S2P Require Import Prelude.

(** ** Semaphores *)

Module Semaphore.
Definition Semaphore (permits : Z) : Z := permits.

(** [None] while [sem_wait] blocks *)
Definition acquire (permits : Z) : option Z := if 0 <? permits then Some (permits - 1) else None.
Definition tryAcquire (permits : Z) : bool * Z := if 0 <? permits then (true, permits - 1) else (false, permits).
Definition release (permits : Z) : Z := permits + 1.
Definition testAcquire (permits : Z) : bool * Z :=
  let '(b, permits) := tryAcquire permits in if b then (true, release permits) else (false, permits).
Definition availablePermits (permits : Z) : Z := permits.

Lemma testAcquire_spec permits : testAcquire permits = (0 <? permits, permits).
Proof. unfold testAcquire, tryAcquire, release. destruct (0 <? permits); [f_equal; lia|done]. Qed.
End Semaphore.

(** ** Mutexes *)

(** A recursive pthread mutex: its owner and how often it holds it. *)
Definition pthread_mutex : Type := option (Z * Z).
Definition pthread_mutex_lock (t : Z) (p : pthread_mutex) : option pthread_mutex :=
  match p with
  | None => Some (Some (t, 1))
  | Some (u, n) => if u =? t then Some (Some (t, n + 1)) else None
  end.
Definition EBUSY : Z := 16.
Definition pthread_mutex_trylock (t : Z) (p : pthread_mutex) : Z * pthread_mutex :=
  match pthread_mutex_lock t p with Some p' => (0, p') | None => (EBUSY, p) end.
Definition pthread_mutex_unlock (t : Z) (p : pthread_mutex) : pthread_mutex :=
  match p with
  | Some (u, n) => if u =? t then if n =? 1 then None else Some (u, n - 1) else p
  | None => None
  end.

Definition NULL_THREAD : Z := 0.

Record Mutex := mkMutex {
  _is_locked : bool;
  _thread_id : Z;
  _counter : Z;
  _pmutex : pthread_mutex
}.
Definition Mutex_new : Mutex := mkMutex false NULL_THREAD 0 None.

Definition with_locked m b := mkMutex b (_thread_id m) (_counter m) (_pmutex m).
Definition with_thread m t := mkMutex (_is_locked m) t (_counter m) (_pmutex m).
Definition with_counter m n := mkMutex (_is_locked m) (_thread_id m) n (_pmutex m).
Definition with_pmutex m p := mkMutex (_is_locked m) (_thread_id m) (_counter m) p.

Definition isLocked (id : Z) (m : Mutex) : Z := if _thread_id m =? id then 0 else _thread_id m.
Definition lockCount (m : Mutex) : Z := _counter m.

(** Where a thread is: between two calls, with the result of the last one, or in front of a statement
    of [lock] and [tryLock] or of [unlock]. *)
Inductive pc :=
  | Idle (r : res bool)
  | LockId (is_try : bool) | LockWait (is_try : bool) | LockSetId | LockSetLocked | LockCount
  | UnlockId | UnlockCount | UnlockDec | UnlockTest | UnlockSetLocked | UnlockSetId | UnlockLast | UnlockGive.

(** The mutex, and of each thread where it is and how often it has locked. *)
Record config := mkConfig { mutex : Mutex; pcs : Z -> pc; held : Z -> Z }.

Definition upd {A} (f : Z -> A) (t : Z) (a : A) : Z -> A := fun u => if u =? t then a else f u.
Definition goto (c : config) (t : Z) (p : pc) : config := mkConfig (mutex c) (upd (pcs c) t p) (held c).
Definition write (c : config) (m : Mutex) : config := mkConfig m (pcs c) (held c).
Definition hold (c : config) (t : Z) (n : Z) : config := mkConfig (mutex c) (pcs c) (upd (held c) t n).

(** The next statement of thread [t]; [None] when it is between two calls, or blocked. *)
Definition move (t : Z) (c : config) : option config :=
  let m := mutex c in
  match pcs c t with
  | Idle _ => None
  | LockId b => Some (goto c t (if negb (_thread_id m =? t) then LockWait b else LockSetLocked))
  | LockWait false =>
      match pthread_mutex_lock t (_pmutex m) with
      | Some p => Some (goto (write c (with_pmutex m p)) t LockSetId)
      | None => None
      end
  | LockWait true =>
      let '(r, p) := pthread_mutex_trylock t (_pmutex m) in
      Some (if r =? EBUSY then goto c t (Idle (Ok false)) else goto (write c (with_pmutex m p)) t LockSetId)
  | LockSetId => Some (goto (write c (with_thread m t)) t LockSetLocked)
  | LockSetLocked => Some (goto (write c (with_locked m true)) t LockCount)
  | LockCount =>
      Some (hold (goto (write c (with_counter m (u32 (_counter m + 1)))) t (Idle (Ok true))) t (held c t + 1))
  | UnlockId => Some (goto c t (if negb (_thread_id m =? t) then Idle (Throw MutexException) else UnlockCount))
  | UnlockCount => Some (goto c t (if _counter m =? 0 then Idle (Throw MutexException) else UnlockDec))
  | UnlockDec => Some (hold (goto (write c (with_counter m (u32 (_counter m - 1)))) t UnlockTest) t (held c t - 1))
  | UnlockTest => Some (goto c t (if _counter m =? 0 then UnlockSetLocked else UnlockLast))
  | UnlockSetLocked => Some (goto (write c (with_locked m false)) t UnlockSetId)
  | UnlockSetId => Some (goto (write c (with_thread m NULL_THREAD)) t UnlockLast)
  | UnlockLast => Some (goto c t (if _counter m =? 0 then UnlockGive else Idle (Ok true)))
  | UnlockGive => Some (goto (write c (with_pmutex m (pthread_mutex_unlock t (_pmutex m)))) t (Idle (Ok true)))
  end.

Inductive op := lock | tryLock | unlock.
Definition call (t : Z) (o : op) (c : config) : option config :=
  match pcs c t with
  | Idle _ => Some (goto c t (match o with lock => LockId false | tryLock => LockId true | unlock => UnlockId end))
  | _ => None
  end.

Definition start : config := mkConfig Mutex_new (fun _ => Idle (Ok true)) (fun _ => 0).

(** Threads have an id other than [NULL_THREAD], and none locks 2^32 times. *)
Inductive step (c c' : config) : Prop :=
  | step_move t : move t c = Some c' -> held c t + 1 < 2 ^ 32 -> step c c'
  | step_call t o : t <> NULL_THREAD -> call t o c = Some c' -> step c c'.

Inductive reachable : config -> Prop :=
  | reachable_start : reachable start
  | reachable_step c c' : reachable c -> step c c' -> reachable c'.

(** A schedule: calls and moves, one after the other. *)
Inductive event := Call (t : Z) (o : op) | Move (t : Z).
Fixpoint schedule (es : list event) (c : config) : option config :=
  match es with
  | [] => Some c
  | Call t o :: es =>
      if t =? NULL_THREAD then None else match call t o c with Some c' => schedule es c' | None => None end
  | Move t :: es =>
      if 2 ^ 32 <=? held c t + 1 then None else match move t c with Some c' => schedule es c' | None => None end
  end.

Definition moves (n : nat) (t : Z) : list event := replicate n (Move t).

(** Thread 1 locks twice; 2 has to wait until it has unlocked twice, and the try of 3 fails. *)
Example mutex_1 :
  option_map (fun c => (_counter (mutex c), pcs c 1, pcs c 2, pcs c 3, move 2 c))
    (schedule ([Call 1 lock] ++ moves 5 1 ++ [Call 1 lock; Call 2 lock; Call 3 tryLock] ++ moves 3 1 ++ moves 2 3 ++ [Move 2]) start)
  = Some (2, Idle (Ok true), LockWait false, Idle (Ok false), None).
Proof. vm_compute. reflexivity. Qed.

Example mutex_2 :
  option_map (fun c => (_counter (mutex c), pcs c 1, pcs c 2, pcs c 3))
    (schedule ([Call 1 lock] ++ moves 5 1 ++ [Call 2 lock; Move 2; Call 1 unlock; Call 3 unlock] ++ moves 8 1 ++ moves 4 2 ++ [Move 3]) start)
  = Some (1, Idle (Ok true), Idle (Ok true), Idle (Throw MutexException)).
Proof. vm_compute. reflexivity. Qed.

(** ** The invariant *)

(** With [d] locks held, a thread at [p] may be there, owns the pthread mutex, has its id in the object. *)
Definition may_be (p : pc) (d : Z) : bool :=
  match p with
  | Idle _ | LockId _ | UnlockId | LockSetLocked | LockCount | UnlockTest | UnlockLast => 0 <=? d
  | LockWait _ | LockSetId | UnlockSetLocked | UnlockSetId | UnlockGive => d =? 0
  | UnlockCount | UnlockDec => 0 <? d
  end.
Definition owns (p : pc) (d : Z) : bool :=
  match p with
  | Idle _ | LockId _ | LockWait _ | UnlockId => 0 <? d
  | _ => true
  end.
Definition has_id (p : pc) (d : Z) : bool :=
  match p with
  | Idle _ | LockId _ | LockWait _ | UnlockId | UnlockLast => 0 <? d
  | LockSetId | UnlockGive => false
  | _ => true
  end.

Definition inside (c : config) (t : Z) : bool := owns (pcs c t) (held c t).
Definition owner (c : config) : option Z := fst <$> _pmutex (mutex c).

Record inv (c : config) : Prop := {
  inv_null : owns (pcs c NULL_THREAD) (held c NULL_THREAD) = false /\ (exists r, pcs c NULL_THREAD = Idle r);
  inv_pc : forall t, may_be (pcs c t) (held c t) = true /\ held c t < 2 ^ 32;
  inv_owner : forall t, inside c t = true <-> owner c = Some t;
  inv_once : forall p, _pmutex (mutex c) = Some p -> p.2 = 1;
  inv_id : forall t, t <> NULL_THREAD -> has_id (pcs c t) (held c t) = true <-> _thread_id (mutex c) = t;
  inv_counter : _counter (mutex c) = match owner c with Some t => held c t | None => 0 end
}.

Lemma upd_same {A} (f : Z -> A) t a : upd f t a t = a.
Proof. unfold upd. by rewrite Z.eqb_refl. Qed.
Lemma upd_other {A} (f : Z -> A) t a u : u <> t -> upd f t a u = f u.
Proof. intros Hu. unfold upd. by destruct (Z.eqb_spec u t). Qed.

Lemma start_inv : inv start.
Proof.
  split; try done. split; [done|by eexists].
Qed.

(** A step of [t] changes what the others see only through the mutex: it is enough to look at [t], at the
    owner and at the id. *)
Lemma inv_local c m t p h :
  inv c -> t <> NULL_THREAD -> (forall u, u <> t -> h u = held c u) ->
  (forall u, u <> t -> fst <$> _pmutex m = Some u <-> owner c = Some u) ->
  (forall u, u <> t -> u <> NULL_THREAD -> _thread_id m = u <-> _thread_id (mutex c) = u) ->
  may_be p (h t) = true /\ h t < 2 ^ 32 ->
  (owns p (h t) = true <-> fst <$> _pmutex m = Some t) ->
  (has_id p (h t) = true <-> _thread_id m = t) ->
  (forall q, _pmutex m = Some q -> q.2 = 1) ->
  (_counter m = match fst <$> _pmutex m with Some u => h u | None => 0 end) ->
  inv (mkConfig m (upd (pcs c) t p) h).
Proof.
  intros [Hn Hp Ho H1 Hi Hc] Ht Hh Ho' Hi' Hmay Hot Hit H1' Hc'.
  split; unfold inside, owner in *; cbn [mutex pcs held]; try done.
  - by rewrite Hh, !upd_other by done.
  - intros u. destruct (decide (u = t)) as [->|Hu]; [by rewrite upd_same|by rewrite Hh, upd_other].
  - intros u. destruct (decide (u = t)) as [->|Hu]; [by rewrite upd_same|]. rewrite Hh, upd_other by done. by rewrite Ho', Ho.
  - intros u Hu0. destruct (decide (u = t)) as [->|Hu]; [by rewrite upd_same|]. rewrite Hh, upd_other by done. by rewrite Hi', Hi.
Qed.

(** What the invariant says of the thread that moves. *)
Lemma inv_thread c t : inv c -> t <> NULL_THREAD ->
  may_be (pcs c t) (held c t) = true /\ held c t < 2 ^ 32 /\
  (owns (pcs c t) (held c t) = true <-> owner c = Some t) /\
  (has_id (pcs c t) (held c t) = true <-> _thread_id (mutex c) = t) /\
  (owner c = Some t -> _pmutex (mutex c) = Some (t, 1) /\ _counter (mutex c) = held c t).
Proof.
  intros Hi Ht. destruct (inv_pc c Hi t) as [Hm Hd].
  split_and!; try done; try apply (inv_owner c Hi t); try by apply (inv_id c Hi t).
  - intros E. rewrite (inv_counter c Hi), E. unfold owner in E. destruct (_pmutex (mutex c)) as [[u n]|] eqn:Ep; [|done].
    cbn in E. injection E as ->. by rewrite <- (inv_once c Hi _ Ep).
Qed.

(** A step that leaves the lock, the id and the counter alone. *)
Lemma inv_goto c t p m :
  inv c -> t <> NULL_THREAD ->
  _pmutex m = _pmutex (mutex c) -> _thread_id m = _thread_id (mutex c) -> _counter m = _counter (mutex c) ->
  may_be p (held c t) = true -> owns p (held c t) = owns (pcs c t) (held c t) ->
  has_id p (held c t) = has_id (pcs c t) (held c t) ->
  inv (goto (write c m) t p).
Proof.
  intros Hi Ht Ep Ei Ec Hmay Ho Hid. destruct (inv_thread c t Hi Ht) as (_ & Hd & Howns & Hhas & _).
  apply (inv_local c m t p (held c)); rewrite ?Ep, ?Ei, ?Ec, ?Ho, ?Hid; try done;
    first [exact Howns | exact Hhas | apply (inv_once c Hi) | apply (inv_counter c Hi)].
Qed.

Lemma moving_not_null c t c' : inv c -> move t c = Some c' -> t <> NULL_THREAD.
Proof. intros Hi Hm ->. destruct (inv_null c Hi) as [_ [r Er]]. unfold move in Hm. by rewrite Er in Hm. Qed.

(** The lock is taken only when nobody has it. *)
Lemma pthread_lock_inv c t p : inv c -> t <> NULL_THREAD -> owns (pcs c t) (held c t) = false ->
  pthread_mutex_lock t (_pmutex (mutex c)) = Some p -> owner c = None /\ p = Some (t, 1).
Proof.
  intros Hi Ht Hno E. unfold owner. pose proof (inv_owner c Hi t) as Ho. unfold inside, owner in Ho. rewrite Hno in Ho.
  destruct (_pmutex (mutex c)) as [[u n]|]; cbn in *; [|by injection E as <-].
  destruct (Z.eqb_spec u t) as [->|]; [|done]. by destruct Ho as [_ Ho]; specialize (Ho eq_refl).
Qed.

Lemma take_inv c t p : inv c -> t <> NULL_THREAD -> held c t = 0 -> owns (pcs c t) (held c t) = false ->
  has_id (pcs c t) (held c t) = false ->
  pthread_mutex_lock t (_pmutex (mutex c)) = Some p ->
  inv (goto (write c (with_pmutex (mutex c) p)) t LockSetId).
Proof.
  intros Hi Ht H0 Hno Hid E. destruct (pthread_lock_inv c t p Hi Ht Hno E) as [Ho ->].
  destruct (inv_thread c t Hi Ht) as (_ & Hd & _ & Hhas & _). pose proof (inv_counter c Hi) as Ec. rewrite Ho in Ec.
  apply (inv_local c _ t LockSetId (held c)); cbn [with_pmutex _pmutex _thread_id _counter fmap option_fmap option_map fst may_be owns has_id]; try done.
  - intros u Hu. rewrite Ho. split; [intros [= <-]; done|done].
  - rewrite H0. by split.
  - rewrite <- Hhas, Hid. done.
  - by intros q [= <-].
  - cbn. by rewrite Ec, H0.
Qed.

Lemma has_id_owns p d : has_id p d = true -> owns p d = true.
Proof. by destruct p. Qed.

(** While [t] owns the lock, the id is nobody else's. *)
Lemma owner_id c t u : inv c -> owner c = Some t -> u <> t -> u <> NULL_THREAD -> _thread_id (mutex c) <> u.
Proof.
  intros Hi Ho Hu Hu0 E. apply (inv_id c Hi u Hu0) in E. apply has_id_owns, (inv_owner c Hi u) in E. congruence.
Qed.

(** The owner of the lock changes the object. *)
Lemma inv_owned c t p h b id n :
  inv c -> t <> NULL_THREAD -> owner c = Some t -> (forall u, u <> t -> h u = held c u) ->
  may_be p (h t) = true -> h t < 2 ^ 32 -> owns p (h t) = true ->
  id = (if has_id p (h t) then t else NULL_THREAD) -> n = h t ->
  inv (mkConfig (mkMutex b id n (Some (t, 1))) (upd (pcs c) t p) h).
Proof.
  intros Hi Ht Ho Hh Hmay Hd Howns -> ->.
  apply inv_local; cbn [_pmutex _thread_id _counter fmap option_fmap option_map fst]; try done.
  - intros u Hu. by rewrite Ho.
  - intros u Hu Hu0. split; [|intros E; by destruct (owner_id c t u Hi Ho Hu Hu0)].
    destruct (has_id p (h t)); intros E; congruence.
  - destruct (has_id p (h t)); split; congruence.
  - by intros q [= <-].
Qed.

(** The mutex of the owner, spelled out. *)
Lemma owner_mutex c t : inv c -> owner c = Some t ->
  _pmutex (mutex c) = Some (t, 1) /\ _counter (mutex c) = held c t.
Proof.
  intros Hi E. rewrite (inv_counter c Hi), E. unfold owner in E.
  destruct (_pmutex (mutex c)) as [[u n]|] eqn:Ep; [|done].
  cbn in E. injection E as ->. by rewrite <- (inv_once c Hi _ Ep).
Qed.

(** The lock is given back. *)
Lemma give_inv c t : inv c -> t <> NULL_THREAD -> pcs c t = UnlockGive ->
  inv (goto (write c (with_pmutex (mutex c) (pthread_mutex_unlock t (_pmutex (mutex c))))) t (Idle (Ok true))).
Proof.
  intros Hi Ht Ep. destruct (inv_thread c t Hi Ht) as (Hmay & Hd & Howns & Hhas & Hcnt).
  rewrite Ep in *. cbn [may_be owns has_id] in *. destruct Howns as [Ho _]. specialize (Ho eq_refl).
  destruct (owner_mutex c t Hi Ho) as [Epm Ec]. rewrite Epm. cbn [pthread_mutex_unlock]. rewrite Z.eqb_refl.
  change (1 =? 1) with true. cbv iota.
  apply (inv_local c _ t (Idle (Ok true)) (held c));
    cbn [with_pmutex write mutex _pmutex _thread_id _counter fmap option_fmap option_map fst may_be owns has_id]; try done.
  - intros u Hu. rewrite Ho. split; [done|]. intros [= <-]. done.
  - split; [lia|done].
  - split; [lia|done].
  - rewrite <- Hhas. split; [lia|done].
  - rewrite Ec. lia.
Qed.

(** A case of [move_inv] where the thread that moves owns the lock. *)
Ltac owned Hinv Ht :=
  unfold hold, goto, write, with_thread, with_locked, with_counter;
  cbn [mutex pcs held _is_locked _thread_id _counter _pmutex];
  repeat match goal with E : _pmutex (mutex _) = _ |- _ => rewrite E end;
  eapply (inv_owned _ _ _ _ _ _ _ Hinv Ht);
  [eassumption | intros; by rewrite ?upd_other | cbn [may_be owns has_id]; rewrite ?upd_same ..];
  try done; try lia; try congruence.

(** ... where only the place changes. *)
Ltac stay Hinv Ht p Ep :=
  apply (inv_goto _ _ p _ Hinv Ht); rewrite ?Ep; cbn [may_be owns has_id]; try done; lia.

Lemma move_inv t c c' : inv c -> move t c = Some c' -> held c t + 1 < 2 ^ 32 -> inv c'.
Proof.
  intros Hinv Hmove Hb. pose proof (moving_not_null c t c' Hinv Hmove) as Ht.
  destruct (inv_thread c t Hinv Ht) as (Hmay & Hd & Howns & Hid & _).
  pose proof (give_inv c t Hinv Ht) as Hgive. pose proof (take_inv c t) as Htake.
  unfold move in Hmove. destruct (pcs c t) as [r|b|[]| | | | | | | | | | | ] eqn:Ep; cbn [may_be owns has_id] in *.
  all: try (pose proof (proj1 Howns eq_refl) as Hown; destruct (owner_mutex c t Hinv Hown) as [Epm Ec]).
  all: try (pose proof (proj1 Hid eq_refl) as Eid).
  all: try done.
  - (* LockId *) injection Hmove as <-. destruct (Z.eqb_spec (_thread_id (mutex c)) t) as [E|E]; cbn [negb].
    + assert (0 < held c t) by (apply Z.ltb_lt, Hid, E).
      stay Hinv Ht LockSetLocked Ep.
    + assert (~ 0 < held c t) by (intros H; apply E, Hid; lia).
      stay Hinv Ht (LockWait b) Ep.
  - (* trylock *) unfold pthread_mutex_trylock in Hmove.
    destruct (pthread_mutex_lock t (_pmutex (mutex c))) as [p|] eqn:El; cbn in Hmove; injection Hmove as <-.
    + apply Htake; cbn; try done; lia.
    + stay Hinv Ht (Idle (Ok false) : pc) Ep.
  - (* lock *) destruct (pthread_mutex_lock t (_pmutex (mutex c))) as [p|] eqn:El; [|done].
    injection Hmove as <-. apply Htake; cbn; try done; lia.
  - (* LockSetId *) injection Hmove as <-. owned Hinv Ht.
  - (* LockSetLocked *) injection Hmove as <-. owned Hinv Ht.
  - (* LockCount *) injection Hmove as <-. owned Hinv Ht.
    + replace (0 <? held c t + 1) with true by lia. done.
    + rewrite Ec, wrapU_small; lia.
  - (* UnlockId *) injection Hmove as <-. destruct (Z.eqb_spec (_thread_id (mutex c)) t) as [E|E]; cbn [negb].
    + assert (0 < held c t) by (apply Z.ltb_lt, Hid, E).
      stay Hinv Ht UnlockCount Ep.
    + assert (~ 0 < held c t) by (intros H; apply E, Hid; lia).
      stay Hinv Ht (Idle (Throw MutexException)) Ep.
  - (* UnlockCount *) injection Hmove as <-. rewrite Ec. replace (held c t =? 0) with false by lia. stay Hinv Ht UnlockDec Ep.
  - (* UnlockDec *) injection Hmove as <-. owned Hinv Ht. rewrite Ec, wrapU_small; lia.
  - (* UnlockTest *) injection Hmove as <-. rewrite Ec. destruct (Z.eqb_spec (held c t) 0).
    + stay Hinv Ht UnlockSetLocked Ep.
    + stay Hinv Ht UnlockLast Ep.
  - (* UnlockSetLocked *) injection Hmove as <-. owned Hinv Ht.
  - (* UnlockSetId *) injection Hmove as <-. owned Hinv Ht. replace (0 <? held c t) with false by lia. done.
  - (* UnlockLast *) injection Hmove as <-. rewrite Ec. destruct (Z.eqb_spec (held c t) 0).
    + stay Hinv Ht UnlockGive Ep.
    + stay Hinv Ht (Idle (Ok true)) Ep.
  - injection Hmove as <-. by apply Hgive.
Qed.

Lemma call_inv t o c c' : inv c -> t <> NULL_THREAD -> call t o c = Some c' -> inv c'.
Proof.
  intros Hinv Ht Hc. pose proof (inv_pc c Hinv t) as [Hmay _]. unfold call in Hc.
  destruct (pcs c t) eqn:Ep; try done. injection Hc as <-. cbn [may_be] in Hmay.
  destruct o; [stay Hinv Ht (LockId false) Ep|stay Hinv Ht (LockId true) Ep|stay Hinv Ht UnlockId Ep].
Qed.

Lemma reachable_inv c : reachable c -> inv c.
Proof.
  induction 1 as [|c c' _ IH [t Hm Hb|t o Ht Hc]]; [apply start_inv|by eapply move_inv|by eapply call_inv].
Qed.

(** ** What a mutex promises *)

(** The atomic lock: a thread that locks finds no other one inside, one that unlocks is inside. *)
Inductive abstract_step (h h' : Z -> Z) : Prop :=
  | abstract_lock t : (forall u, u <> t -> h u = 0) -> h' = upd h t (h t + 1) -> abstract_step h h'
  | abstract_unlock t : 0 < h t -> (forall u, u <> t -> h u = 0) -> h' = upd h t (h t - 1) -> abstract_step h h'.

(** Only the owner holds the lock. *)
Lemma inv_held c t u : inv c -> inside c t = true -> u <> t -> held c u = 0.
Proof.
  intros Hi Ht Hu. apply (inv_owner c Hi t) in Ht. destruct (inv_pc c Hi u) as [Hmay _].
  assert (inside c u <> true) as Hno by (intros E; apply (inv_owner c Hi u) in E; congruence).
  unfold inside in Hno. destruct (pcs c u); cbn [may_be owns] in *; try done; lia.
Qed.

(** C4: refinement. In every interleaving, each statement leaves the locks held as they are, or takes one
    while no other thread holds any, or gives one back that the thread holds. *)
Theorem Mutex_refines c c' : reachable c -> step c c' -> held c' = held c \/ abstract_step (held c) (held c').
Proof.
  intros Hr [t Hm Hb|t o Ht Hc].
  - pose proof (reachable_inv c Hr) as Hi. pose proof (inv_held c t) as Hh.
    destruct (inv_pc c Hi t) as [Hmay _]. unfold inside in Hh. unfold move in Hm.
    destruct (pcs c t) as [r|b|[]| | | | | | | | | | | ]; cbn [may_be owns] in *; try done.
    all: try (injection Hm as <-; by left).
    + destruct (pthread_mutex_trylock _ _) as [r p]. injection Hm as <-. left. by destruct (r =? EBUSY).
    + destruct (pthread_mutex_lock _ _); [|done]. injection Hm as <-. by left.
    + injection Hm as <-. right. apply (abstract_lock _ _ t); [|done]. intros u Hu. by apply Hh.
    + injection Hm as <-. right. apply (abstract_unlock _ _ t); [lia| |done]. intros u Hu. by apply Hh.
  - left. unfold call in Hc. destruct (pcs c t); try done. by injection Hc as <-.
Qed.

(** C30: At most one thread holds the lock; the counter is how often it does, and the id is its own. *)
Theorem mutual_exclusion c : reachable c ->
  (forall t u, 0 < held c t -> 0 < held c u -> t = u) /\
  (forall t, 0 < held c t -> lockCount (mutex c) = held c t /\
    (forall r, pcs c t = Idle r -> _thread_id (mutex c) = t)).
Proof.
  intros Hr. pose proof (reachable_inv c Hr) as Hi.
  assert (forall t, 0 < held c t -> inside c t = true) as Hin.
  { intros t Ht. unfold inside. destruct (inv_pc c Hi t) as [Hmay _]. destruct (pcs c t); cbn [may_be owns] in *; try done; lia. }
  split.
  - intros t u Ht%Hin%(inv_owner c Hi) Hu%Hin%(inv_owner c Hi). congruence.
  - intros t Ht. assert (owner c = Some t) as Ho by (by apply (inv_owner c Hi), Hin). split.
    + by destruct (owner_mutex c t Hi Ho).
    + intros r E. destruct (decide (t = NULL_THREAD)) as [->|Ht0].
      * destruct (inv_null c Hi) as [Hn _]. specialize (Hin NULL_THREAD Ht). unfold inside in Hin. congruence.
      * apply (inv_id c Hi t Ht0). rewrite E. cbn. lia.
Qed.

(** A thread that does not hold the lock cannot unlock it. *)
Lemma unlock_refused c t c' : reachable c -> pcs c t = UnlockId -> move t c = Some c' ->
  if 0 <? held c t then pcs c' t = UnlockCount else pcs c' t = Idle (Throw MutexException) /\ mutex c' = mutex c.
Proof.
  intros Hr Ep Hm. pose proof (reachable_inv c Hr) as Hi. pose proof (moving_not_null c t c' Hi Hm) as Ht.
  pose proof (inv_id c Hi t Ht) as Hid. rewrite Ep in Hid. cbn [has_id] in Hid.
  unfold move in Hm. rewrite Ep in Hm. injection Hm as <-. cbn. rewrite !upd_same.
  destruct (Z.eqb_spec (_thread_id (mutex c)) t) as [E|E]; destruct (0 <? held c t); cbn; try done; naive_solver.
Qed.

(** How many statements a thread has in front of it at most, when it need not wait. *)
Definition rank (p : pc) : nat :=
  match p with
  | Idle _ => 0
  | LockId _ => 5 | LockWait _ => 4 | LockSetId => 3 | LockSetLocked => 2 | LockCount => 1
  | UnlockId => 8 | UnlockCount => 7 | UnlockDec => 6 | UnlockTest => 5 | UnlockSetLocked => 4 | UnlockSetId => 3
  | UnlockLast => 2 | UnlockGive => 1
  end.

Lemma can_move c t : (0 < rank (pcs c t))%nat -> pcs c t <> LockWait false ->
  exists c', move t c = Some c' /\ (rank (pcs c' t) < rank (pcs c t))%nat.
Proof.
  intros Hr Hw. unfold move. destruct (pcs c t) as [r|b|[]| | | | | | | | | | | ]; cbn in Hr; try lia; try done.
  all: try (destruct (pthread_mutex_trylock _ _) as [r p]).
  all: eexists; (split; [done|]); repeat case_match; cbn; rewrite upd_same; cbn; lia.
Qed.

Lemma waiting_dec p : Decision (p = LockWait false).
Proof. destruct p as [|?|[]| | | | | | | | | | | ]; first [by left | by right]. Defined.

(** C31: liveness. A thread in [lock], [tryLock] or [unlock] gets nearer to its return with each of its
    statements, unless it waits for the lock; then there is another thread inside, which gets nearer to
    its return or holds the lock between two calls. *)
Theorem lock_progress c t : reachable c -> (0 < rank (pcs c t))%nat ->
  (exists c', move t c = Some c' /\ (rank (pcs c' t) < rank (pcs c t))%nat) \/
  (pcs c t = LockWait false /\ move t c = None /\ exists u, u <> t /\ inside c u = true /\
    ((exists c', move u c = Some c' /\ (rank (pcs c' u) < rank (pcs c u))%nat) \/
     (exists r, pcs c u = Idle r /\ 0 < held c u))).
Proof.
  intros Hr Hk. pose proof (reachable_inv c Hr) as Hi.
  destruct (waiting_dec (pcs c t)) as [Ep|Ep]; [|left; by apply can_move].
  destruct (pthread_mutex_lock t (_pmutex (mutex c))) as [p|] eqn:El.
  { left. unfold move. rewrite Ep, El. eexists. split; [done|]. cbn. rewrite upd_same. cbn. lia. }
  right. split; [done|]. unfold move at 1. rewrite Ep, El. split; [done|].
  unfold pthread_mutex_lock in El. destruct (_pmutex (mutex c)) as [[u n]|] eqn:Epm; [|done].
  destruct (Z.eqb_spec u t) as [|Hu]; [done|]. exists u. split; [done|].
  assert (inside c u = true) as Hin by (apply (inv_owner c Hi); unfold owner; by rewrite Epm). split; [done|].
  destruct (inv_pc c Hi u) as [Hmay _]. unfold inside in Hin.
  destruct (decide (rank (pcs c u) = 0%nat)) as [E|E].
  - right. destruct (pcs c u); cbn in E; try lia. eexists. split; [done|]. cbn in Hin. lia.
  - left. apply can_move; [lia|]. intros Eu. rewrite Eu in *. cbn in *. lia.
Qed.

(** ** Witnesses *)

Lemma schedule_reachable es : forall c c', reachable c -> schedule es c = Some c' -> reachable c'.
Proof.
  induction es as [|[t o|t] es IH]; intros c c' Hr Hs; cbn [schedule] in Hs; [by injection Hs as <-|..].
  - destruct (Z.eqb_spec t NULL_THREAD); [done|]. destruct (call t o c) as [c1|] eqn:E; [|done].
    apply (IH c1); [|done]. eapply reachable_step; [exact Hr|by eapply step_call].
  - destruct (Z.leb_spec (2 ^ 32) (held c t + 1)); [done|]. destruct (move t c) as [c1|] eqn:E; [|done].
    apply (IH c1); [|done]. eapply reachable_step; [exact Hr|by eapply step_move].
Qed.

(** Thread 1 holds the lock, and 2 waits for it. *)
Definition contended : list event := [Call 1 lock] ++ moves 5 1 ++ [Call 2 lock; Move 2].

Lemma mutual_exclusion_witness :
  exists c, schedule contended start = Some c /\ forall u, 0 < held c u -> 1 = u.
Proof.
  destruct (schedule contended start) as [c|] eqn:E; [|discriminate E].
  pose proof (schedule_reachable _ _ _ reachable_start E) as Hr. exists c. split; [reflexivity|].
  intros u Hu. apply (proj1 (mutual_exclusion c Hr)); [|exact Hu]. vm_compute in E. injection E as <-. reflexivity.
Defined.

Lemma Mutex_refines_witness :
  exists c c', schedule contended start = Some c /\ move 2 c = None /\ call 1 unlock c = Some c' /\
    (held c' = held c \/ abstract_step (held c) (held c')).
Proof.
  destruct (schedule contended start) as [c|] eqn:E; [|discriminate E].
  pose proof (schedule_reachable _ _ _ reachable_start E) as Hr.
  destruct (call 1 unlock c) as [c'|] eqn:E'; [|vm_compute in E; injection E as <-; discriminate E'].
  exists c, c'. split; [reflexivity|]. split; [vm_compute in E; injection E as <-; reflexivity|].
  split; [exact E'|]. apply Mutex_refines; [exact Hr|]. apply (step_call c c' 1 unlock); [discriminate|exact E'].
Defined.

Lemma lock_progress_witness :
  exists c, schedule contended start = Some c /\
    ((exists c', move 2 c = Some c' /\ (rank (pcs c' 2) < rank (pcs c 2))%nat) \/
     (pcs c 2 = LockWait false /\ move 2 c = None /\ exists u, u <> 2 /\ inside c u = true /\
       ((exists c', move u c = Some c' /\ (rank (pcs c' u) < rank (pcs c u))%nat) \/
        (exists r, pcs c u = Idle r /\ 0 < held c u)))).
Proof.
  destruct (schedule contended start) as [c|] eqn:E; [|discriminate E].
  pose proof (schedule_reachable _ _ _ reachable_start E) as Hr. exists c. split; [reflexivity|].
  apply lock_progress; [exact Hr|]. vm_compute in E. injection E as <-. repeat constructor.
Defined.
