(* ===== verification/Thread.v ===== *)
(** * Threads (src/cpp/src/sys/Thread.cpp)

    A [Thread] and the one that controls it share the flags [_do_pause] and [_do_cancel], the state and
    the semaphore [_pauseSem], without a lock.  [move_thread] takes the thread through the next statement
    of its loop, [move_control] the other one through the next statement of [pause], [unpause] or
    [cancel]; they may be interleaved in any way.  What [initial] and [run] return is chosen from outside. *)

From S2P Require Import Prelude Mutex.

Inductive THREAD_STATE :=
  | THREAD_DEAD | THREAD_CLOSING | THREAD_STARTING | THREAD_SLEEPING | THREAD_PAUSED | THREAD_BUSY.
Definition state_value (s : THREAD_STATE) : Z :=
  match s with
  | THREAD_DEAD => -1 | THREAD_CLOSING => 0 | THREAD_STARTING => 1
  | THREAD_SLEEPING => 2 | THREAD_PAUSED => 3 | THREAD_BUSY => 4
  end.

Record Thread := mkThread {
  managed : bool;   (* _manager != NULL *)
  _state : THREAD_STATE;
  _do_pause : bool;
  _do_cancel : bool;
  _pauseSem : Z
}.

(** The constructors: the state is DEAD, and the semaphore has one permit. *)
Definition Thread_new (managed : bool) : Thread := mkThread managed THREAD_DEAD false false (Semaphore.Semaphore 1).

Definition isAlive (t : Thread) : bool := 0 <? state_value (_state t).
Definition isSleeping (t : Thread) : bool := state_value (_state t) =? state_value THREAD_SLEEPING.
Definition isPaused (t : Thread) : bool := state_value (_state t) =? state_value THREAD_PAUSED.

Definition set_state t s := mkThread (managed t) s (_do_pause t) (_do_cancel t) (_pauseSem t).
Definition set_pause t b := mkThread (managed t) (_state t) b (_do_cancel t) (_pauseSem t).
Definition set_cancel t b := mkThread (managed t) (_state t) (_do_pause t) b (_pauseSem t).
Definition set_sem t n := mkThread (managed t) (_state t) (_do_pause t) (_do_cancel t) n.

(** The statements that may follow [if (_do_pause) _doPause();] *)
Inductive after := ToInitial | ToLoop | ToSleep.

(** Where the thread is in [__threadLoop] or [__managedLoop], with [_doPause] and its own [pause]
    inside [task_completed]. *)
Inductive tpc :=
  | Unstarted | Starting | Top
  | PauseTest (k : after) | PauseState (k : after) | PauseAcquire (k : after) | PauseRelease (k : after)
  | Initial | Loop | Busy | Run | Ran | Sleep | Slept
  | Final | SelfPause | SelfPauseSet | SelfPauseTake
  | Closing | ClosingFinal | Dead | Ended.

Definition go (k : after) : tpc := match k with ToInitial => Initial | ToLoop => Loop | ToSleep => Sleep end.

(** Where the other one is in [pause], [unpause] and [cancel(NOW)]. *)
Inductive cpc :=
  | Free
  | Pausing | PauseSet | PauseTake
  | Unpausing (cancelling : bool) | UnpauseClear (cancelling : bool) | UnpauseTest (cancelling : bool)
  | UnpauseGive (cancelling : bool)
  | CancelSet.

Record config := mkConfig { thread : Thread; at_ : tpc; control : cpc }.

(** The next statement of the thread; [b] is what [initial] or [run] returns. *)
Definition move_thread (b : bool) (c : config) : option config :=
  let t := thread c in
  let to t p := Some (mkConfig t p (control c)) in
  match at_ c with
  | Unstarted | Ended => None
  | Starting => to (set_state t THREAD_STARTING) (if managed t then Top else PauseTest ToInitial)
  | Top => to t (if negb (_do_cancel t) then PauseTest ToInitial else Dead)
  | PauseTest k => to t (if _do_pause t then PauseState k else go k)
  | PauseState k => to (set_state t THREAD_PAUSED) (PauseAcquire k)
  | PauseAcquire k => match Semaphore.acquire (_pauseSem t) with Some n => to (set_sem t n) (PauseRelease k) | None => None end
  | PauseRelease k => to (set_sem t (Semaphore.release (_pauseSem t))) (go k)
  | Initial => to t (if b then PauseTest ToLoop else if managed t then Top else Closing)
  | Loop => to t (if negb (_do_cancel t) then Busy else if managed t then Top else Closing)
  | Busy => to (set_state t THREAD_BUSY) Run
  | Run => to t (if b then Ran else if managed t then Final else Closing)
  | Ran => to t (if negb (_do_cancel t) then PauseTest ToSleep else Loop)
  | Sleep => to (set_state t THREAD_SLEEPING) Slept
  | Slept => to t Loop
  (* final(); _manager->task_completed(this), which pauses the thread *)
  | Final => to t SelfPause
  | SelfPause => to t (if negb (_do_pause t) then SelfPauseSet else Top)
  | SelfPauseSet => to (set_pause t true) SelfPauseTake
  | SelfPauseTake => to (set_sem t (snd (Semaphore.tryAcquire (_pauseSem t)))) Top
  | Closing => to (set_state t THREAD_CLOSING) ClosingFinal
  | ClosingFinal => to t Dead
  | Dead => to (set_state t THREAD_DEAD) Ended
  end.

Definition move_control (c : config) : option config :=
  let t := thread c in
  let to t p := Some (mkConfig t (at_ c) p) in
  let finish (b : bool) := if b then CancelSet else Free in
  match control c with
  | Free => None
  | Pausing => to t (if negb (_do_pause t) then PauseSet else Free)
  | PauseSet => to (set_pause t true) PauseTake
  | PauseTake => to (set_sem t (snd (Semaphore.tryAcquire (_pauseSem t)))) Free
  | Unpausing b => to t (if _do_pause t then UnpauseClear b else finish b)
  | UnpauseClear b => to (set_pause t false) (UnpauseTest b)
  | UnpauseTest b => to t (if isPaused t then UnpauseGive b else finish b)
  | UnpauseGive b => to (set_sem t (Semaphore.release (_pauseSem t))) (finish b)
  | CancelSet => to (set_cancel t true) Free
  end.

Inductive request := pause | unpause | cancel | start.
Definition call (r : request) (c : config) : option config :=
  match control c, r with
  | Free, pause => Some (mkConfig (thread c) (at_ c) Pausing)
  | Free, unpause => Some (mkConfig (thread c) (at_ c) (Unpausing false))
  | Free, cancel => Some (mkConfig (thread c) (at_ c) (Unpausing true))
  | Free, start => match at_ c with
                   | Unstarted => Some (mkConfig (set_cancel (thread c) false) Starting Free)
                   | _ => None
                   end
  | _, _ => None
  end.

Definition created (managed : bool) : config := mkConfig (Thread_new managed) Unstarted Free.

(** A schedule of calls and moves. *)
Inductive event := Call (r : request) | Control | Own (b : bool).
Definition happens (e : event) (c : config) : option config :=
  match e with Call r => call r c | Control => move_control c | Own b => move_thread b c end.
Fixpoint schedule (es : list event) (c : config) : option config :=
  match es with [] => Some c | e :: es => match happens e c with Some c' => schedule es c' | None => None end end.

Definition controls (n : nat) : list event := replicate n Control.
Definition owns (n : nat) : list event := replicate n (Own true).

(** As a pool creates its threads: paused, and then started. *)
Definition create : list event := [Call pause] ++ controls 3 ++ [Call start].

(** Paused at the start, it runs when it is unpaused, and ends when it is cancelled. *)
Example thread_1 :
  option_map (fun c => (at_ c, _pauseSem (thread c), control c))
    (schedule (create ++ owns 4 ++ [Call unpause] ++ controls 4 ++ owns 6) (created true)) = Some (Run, 1, Free).
Proof. vm_compute. reflexivity. Qed.

Example thread_2 :
  option_map (fun c => (at_ c, isAlive (thread c)))
    (schedule ([Call start] ++ owns 6 ++ [Call cancel] ++ controls 2 ++ owns 6) (created false)) = Some (Ended, false).
Proof. vm_compute. reflexivity. Qed.

(** ** What goes wrong *)

(** The thread is in [_doPause], waits for a permit that nobody will give, and is not to be paused. *)
Definition lost (c : config) : Prop :=
  (exists k, at_ c = PauseAcquire k) /\ _pauseSem (thread c) = 0 /\ _do_pause (thread c) = false /\
  (control c = Free \/ (exists b, control c = Unpausing b) \/ control c = CancelSet).

Lemma lost_happens e c c' : lost c -> e <> Call pause -> happens e c = Some c' -> lost c'.
Proof.
  destruct c as [[m s dp dc sem] p ctl]. intros ((k & Ep) & Es & Ed & Hc) He Hs. cbn in *. subst.
  destruct e as [[]| |b]; cbn in Hs; try done.
  all: destruct Hc as [->|[[b' ->]| ->]]; cbn in Hs; try done; injection Hs as <-; unfold lost; cbn.
  all: try (destruct b'; cbn); naive_solver.
Qed.

(** When [unpause] falls between the test of the flag and the state PAUSED, the thread of a pool waits
    for a permit that no later [unpause] or [cancel] gives. *)
Theorem lost_wakeup :
  (exists c, schedule (create ++ owns 3 ++ [Call unpause] ++ controls 3 ++ owns 1) (created true) = Some c /\
    control c = Free /\ lost c) /\
  (forall es c c', lost c -> Call pause ∉ es -> schedule es c = Some c' ->
    lost c' /\ forall b, move_thread b c' = None).
Proof.
  split.
  - eexists. split; [vm_compute; reflexivity|]. split; [reflexivity|]. unfold lost. cbn.
    split; [by eexists|]. split_and!; try done. by left.
  - intros es. induction es as [|e es IH]; intros c c' Hl Hn Hs; cbn in Hs.
    + injection Hs as <-. split; [done|]. intros b. destruct Hl as ((k & Ep) & Es & _). unfold move_thread. by rewrite Ep, Es.
    + apply not_elem_of_cons in Hn as [He Hn]. destruct (happens e c) as [c1|] eqn:E; [|done].
      apply (IH c1); [|done..]. by apply (lost_happens e c).
Qed.

(** When [pause] falls into the thread's [_doPause], it returns and the thread calls [run] again and
    again. *)
Theorem pause_ineffective :
  exists c, schedule ([Call start] ++ owns 6 ++ [Call pause] ++ controls 2 ++ owns 5 ++ controls 1 ++ owns 5) (created false) = Some c /\
    control c = Free /\ _do_pause (thread c) = true /\ at_ c = Run /\ schedule (owns 10) c = Some c.
Proof. eexists. split; [vm_compute; reflexivity|]. by split_and!. Qed.

(** ** What goes right *)

(** The thread waits in [_doPause] for the permit that [pause] took. *)
Definition parked (k : after) (c : config) : Prop :=
  at_ c = PauseAcquire k /\ _state (thread c) = THREAD_PAUSED /\ _do_pause (thread c) = true /\
  _pauseSem (thread c) = 0 /\ control c = Free.

(** Liveness. When the thread waits in [_doPause], every interleaving of [unpause] with it can go on,
    and after six statements the thread is past the pause and the permit is back. *)
Theorem unpause_parked k c c0 es c' : parked k c -> call unpause c = Some c0 ->
  Forall (fun e => match e with Call _ => False | _ => True end) es -> schedule es c0 = Some c' ->
  if (length es <? 6)%nat then exists e c'', happens e c' = Some c''
  else exists c1 es', schedule es' c1 = Some c' /\ length es = (6 + length es')%nat /\
    at_ c1 = go k /\ _do_pause (thread c1) = false /\ _pauseSem (thread c1) = 1.
Proof.
  destruct c as [[m s dp dc sem] p ctl]. intros (Ep & Es & Ed & Ez & Ec) Hcall Hes Hs. cbn in *. subst.
  injection Hcall as <-.
  do 4 (destruct es as [|[?| |?] es]; cbn in Hs;
    [injection Hs as <-; cbn; eexists Control, _; reflexivity | by apply Forall_cons_iff in Hes as [[] _] | | done];
    apply Forall_cons_iff in Hes as [_ Hes]).
  do 2 (destruct es as [|[?| |?] es]; cbn in Hs;
    [injection Hs as <-; cbn; eexists (Own true), _; reflexivity | by apply Forall_cons_iff in Hes as [[] _] | done | ];
    apply Forall_cons_iff in Hes as [_ Hes]).
  cbn.
  eexists _, es. split; [exact Hs|]. by split_and!.
Qed.

(** How many moves are left to a thread that is cancelled. *)
Definition rank (p : tpc) : nat :=
  let past k := match k with ToInitial => 9 | ToLoop => 4 | ToSleep => 6 end%nat in
  match p with
  | Unstarted => 15 | Starting => 14
  | PauseTest k => 4 + past k | PauseState k => 3 + past k | PauseAcquire k => 2 + past k | PauseRelease k => 1 + past k
  | Initial => 9 | Busy => 8 | Run => 7 | Final => 6 | Sleep => 6 | Slept => 5 | SelfPause => 5 | Ran => 5
  | Loop => 4 | SelfPauseSet => 4 | SelfPauseTake => 3 | Closing => 3
  | Top => 2 | ClosingFinal => 2 | Dead => 1 | Ended => 0
  end%nat.

(** A thread after [cancel] has returned, which is not lost. *)
Definition cancelled (c : config) : Prop :=
  _do_cancel (thread c) = true /\ at_ c <> Unstarted /\
  (_do_pause (thread c) = false \/ at_ c = SelfPauseTake \/ at_ c = Top \/ at_ c = Dead \/ at_ c = Ended) /\
  (forall k, at_ c = PauseState k \/ at_ c = PauseAcquire k -> 0 < _pauseSem (thread c)) /\
  (at_ c = Ended -> _state (thread c) = THREAD_DEAD).

Lemma cancelled_move b c : cancelled c -> at_ c <> Ended ->
  exists c', move_thread b c = Some c' /\ cancelled c' /\ (rank (at_ c') < rank (at_ c))%nat.
Proof.
  destruct c as [[m s dp dc sem] p ctl]. intros (Ec & Hu & Hp & Hs & He) Hn. cbn in *. subst dc.
  assert (forall k, p = PauseAcquire k -> Semaphore.acquire sem = Some (sem - 1)) as Ha.
  { intros k ->. unfold Semaphore.acquire. replace (0 <? sem) with true; [done|]. specialize (Hs k). symmetry. apply Z.ltb_lt. tauto. }
  destruct p; cbn [move_thread at_ thread _do_pause _do_cancel _pauseSem negb]; try done.
  all: try rewrite (Ha _ eq_refl).
  all: eexists; (split; [reflexivity|]).
  all: destruct Hp as [->|[E|[E|[E|E]]]]; try done.
  all: try destruct k; try destruct b; try destruct m; cbn; (split; [|lia]); unfold cancelled; cbn; split_and!; naive_solver.
Qed.

(** C34: liveness. A thread that is cancelled, and not lost in a pause, ends within [rank] statements,
    whatever [initial] and [run] return, and is no longer alive. *)
Theorem cancel_terminates bs c : cancelled c -> (rank (at_ c) <= length bs)%nat ->
  exists n c', (n <= rank (at_ c))%nat /\ schedule (Own <$> take n bs) c = Some c' /\
    at_ c' = Ended /\ isAlive (thread c') = false.
Proof.
  revert c. induction bs as [|b bs IH]; intros c Hc Hl; cbn in Hl.
  - exists 0%nat, c. split; [lia|]. split; [done|]. destruct Hc as (_ & Hu & _ & _ & He).
    destruct (at_ c) eqn:E; cbn in Hl; try lia; try (destruct k; cbn in Hl; lia).
    split; [done|]. unfold isAlive. by rewrite He.
  - destruct (decide (rank (at_ c) = 0%nat)) as [E0|E0].
    + exists 0%nat, c. split; [lia|]. split; [done|]. destruct Hc as (_ & Hu & _ & _ & He).
      destruct (at_ c) eqn:E; cbn in E0; try lia; try (destruct k; cbn in E0; lia).
      split; [done|]. unfold isAlive. by rewrite He.
    + destruct (cancelled_move b c Hc) as (c1 & Em & Hc1 & Hr); [intros E; by rewrite E in E0|].
      destruct (IH c1 Hc1) as (n & c' & Hn & Es & H'); [lia|]. exists (S n), c'. split; [lia|].
      cbn. by rewrite Em.
Qed.

(** ** Witnesses *)

Lemma unpause_parked_witness :
  exists c c0 c' c1 es', schedule (create ++ owns 4) (created true) = Some c /\ call unpause c = Some c0 /\
    schedule (controls 4 ++ owns 3) c0 = Some c' /\ schedule es' c1 = Some c' /\ length es' = 1%nat /\ at_ c1 = Initial.
Proof.
  set (es := controls 4 ++ owns 3).
  destruct (schedule (create ++ owns 4) (created true)) as [c|] eqn:E; [|discriminate E].
  destruct (call unpause c) as [c0|] eqn:E0; [|vm_compute in E; injection E as <-; discriminate E0].
  destruct (schedule es c0) as [c'|] eqn:E'.
  - exists c, c0, c'.
    assert (parked ToInitial c) as Hp by (vm_compute in E; injection E as <-; repeat split).
    assert (Forall (fun e => match e with Call _ => False | _ => True end) es) as Hes by repeat constructor.
    pose proof (unpause_parked ToInitial c c0 es c' Hp E0 Hes E') as (c1 & es' & Es' & Hl & Ea & _).
    exists c1, es'. split; [reflexivity|]. split; [exact E0|]. split; [exact E'|]. split; [exact Es'|].
    split; [by injection Hl|exact Ea].
  - vm_compute in E. injection E as <-. vm_compute in E0. injection E0 as <-. discriminate E'.
Defined.

Lemma cancel_terminates_witness :
  exists c n c', schedule ([Call start] ++ owns 6 ++ [Call cancel] ++ controls 2) (created false) = Some c /\
    (n <= 7)%nat /\ schedule (Own <$> take n (replicate 7 true)) c = Some c' /\ isAlive (thread c') = false.
Proof.
  destruct (schedule ([Call start] ++ owns 6 ++ [Call cancel] ++ controls 2) (created false)) as [c|] eqn:E; [|discriminate E].
  assert (cancelled c) as Hc.
  { vm_compute in E. injection E as <-. unfold cancelled. cbn.
    split_and!; [reflexivity|discriminate|left; reflexivity|intros k [Ek|Ek]; discriminate Ek|discriminate]. }
  assert (rank (at_ c) = 7%nat) as Hr by (vm_compute in E; injection E as <-; reflexivity).
  destruct (cancel_terminates (replicate 7 true) c Hc) as (n & c' & Hn & Es & _ & Ha); [rewrite Hr; cbn; lia|].
  exists c, n, c'. split; [reflexivity|]. split; [rewrite <- Hr; exact Hn|]. split; [exact Es|exact Ha].
Defined.
