(* ===== verification/ThreadPool.v ===== *)
(** * Pools of threads (src/cpp/src/sys/ThreadPool.cpp, and the pool of src/cpp/src/net/HttpServer.cpp)

    A [ThreadPool] hands tasks to its threads, and an [HttpServer] connections to its request threads.
    Both pools have the same text, but for the semaphore [_waiter] of [waitAll]; [waits] tells them
    apart.  What runs under [_pool_lock] is one step here ([Mutex.mutual_exclusion]); the calls of the
    semaphores outside of it, and those of several clients, are interleaved in any way.  The vectors are
    lists ([Vector.Vector_refines]), and threads are numbered as they are created. *)

From S2P Require Import Prelude Mutex.

Record ThreadPool := mkPool {
  waits : bool;
  _max_size : Z;
  _min_size : Z;
  _size : Z;
  _available_pool : list Z;
  _busy_pool : list Z;
  _waiter : Z;
  _blocker : Z;
  paused : list Z;             (* the threads whose [_do_pause] is set *)
  jobs : list (Z * Z)          (* the runnable or the connection of a thread *)
}.

Definition set_pools p available busy :=
  mkPool (waits p) (_max_size p) (_min_size p) (_size p) available busy (_waiter p) (_blocker p) (paused p) (jobs p).
Definition set_waiter p n :=
  mkPool (waits p) (_max_size p) (_min_size p) (_size p) (_available_pool p) (_busy_pool p) n (_blocker p) (paused p) (jobs p).
Definition set_blocker p n :=
  mkPool (waits p) (_max_size p) (_min_size p) (_size p) (_available_pool p) (_busy_pool p) (_waiter p) n (paused p) (jobs p).
Definition set_paused p l :=
  mkPool (waits p) (_max_size p) (_min_size p) (_size p) (_available_pool p) (_busy_pool p) (_waiter p) (_blocker p) l (jobs p).
Definition set_jobs p l :=
  mkPool (waits p) (_max_size p) (_min_size p) (_size p) (_available_pool p) (_busy_pool p) (_waiter p) (_blocker p) (paused p) l.

(** [pause], [unpause] and [setRunnable] or [accept] of a thread; [remove] of a vector *)
Definition pause (t : Z) (p : ThreadPool) : ThreadPool := set_paused p (t :: filter (fun u => u <> t) (paused p)).
Definition unpause (t : Z) (p : ThreadPool) : ThreadPool := set_paused p (filter (fun u => u <> t) (paused p)).
Definition set_job (t : Z) (job : option Z) (p : ThreadPool) : ThreadPool :=
  let others := filter (fun kv => kv.1 <> t) (jobs p) in
  set_jobs p (match job with Some j => (t, j) :: others | None => others end).
Fixpoint remove (t : Z) (l : list Z) : list Z :=
  match l with [] => [] | u :: l => if u =? t then l else u :: remove t l end.

(** [_createThread] and [_createRequest]: a new thread, which is paused *)
Definition create (p : ThreadPool) : Z * ThreadPool :=
  let n := u32 (_size p + 1) in
  (n, pause n (mkPool (waits p) (_max_size p) (_min_size p) n (_available_pool p) (_busy_pool p) (_waiter p) (_blocker p) (paused p) (jobs p))).

Fixpoint fill (p : ThreadPool) (n : nat) : ThreadPool :=
  match n with
  | O => p
  | S n => let '(t, p) := create p in fill (set_pools p (_available_pool p ++ [t]) (_busy_pool p)) n
  end.

Definition ThreadPool_new (max_size min_size : Z) : ThreadPool :=
  fill (mkPool true max_size min_size 0 [] [] 1 1 [] []) (Z.to_nat min_size).

Definition STARTING_THREADS : Z := 2.
Definition HttpServer_new (max_cons : Z) : ThreadPool :=
  fill (mkPool false max_cons STARTING_THREADS 0 [] [] 1 1 [] []) (Z.to_nat STARTING_THREADS).

Definition busyCount (p : ThreadPool) : Z := zlen (_busy_pool p).
Definition availableCount (p : ThreadPool) : Z := u32 (_max_size p - busyCount p).

(** [_getThread] and [_getRequest]; [None] is the NULL they return when the pool is used up. *)
Definition handed (t : Z) (p : ThreadPool) : ThreadPool :=
  let p := if (zlen (_available_pool p) =? 0) && (_size p =? _max_size p)
           then set_blocker p (snd (Semaphore.tryAcquire (_blocker p))) else p in
  let p := if waits p && (zlen (_busy_pool p) =? 0)
           then set_waiter p (snd (Semaphore.tryAcquire (_waiter p))) else p in
  set_pools p (_available_pool p) (_busy_pool p ++ [t]).
Definition _getThread (p : ThreadPool) : option Z * ThreadPool :=
  match last (_available_pool p) with
  | Some t => (Some t, handed t (set_pools p (removelast (_available_pool p)) (_busy_pool p)))
  | None =>
      if _size p <? _max_size p then let '(t, p) := create p in (Some t, handed t p)
      else (None, p)
  end.

(** [while (!_waiter.testAcquire()) _waiter.release();] *)
Fixpoint release_until (permits : Z) (fuel : nat) : Z :=
  match fuel with
  | O => permits
  | S fuel => if fst (Semaphore.testAcquire permits) then permits else release_until (Semaphore.release permits) fuel
  end.

Definition task_completed (t : Z) (p : ThreadPool) : ThreadPool :=
  let p := set_job t None (pause t p) in
  let p := set_pools p (_available_pool p ++ [t]) (remove t (_busy_pool p)) in
  let p := if (zlen (_available_pool p) =? 1) && (_size p =? _max_size p)
           then if negb (fst (Semaphore.testAcquire (_blocker p))) then set_blocker p (Semaphore.release (_blocker p)) else p
           else p in
  if waits p && (zlen (_busy_pool p) =? 0) then set_waiter p (release_until (_waiter p) 2) else p.

(** Where a client is in [runTask], or in the loop of [HttpServer::run], and in [waitAll]. *)
Inductive cpc :=
  | Free
  | Get (job : Z) | Block (job : Z) | GetAgain (job : Z) | Assign (t job : Z) | Unpause (t : Z)
  | WaitTest | WaitProbe | WaitAcquire | WaitRelease
  | Crashed.

Record config := mkConfig { pool : ThreadPool; clients : Z -> cpc }.

Definition move (u : Z) (c : config) : option config :=
  let p := pool c in
  let to p q := Some (mkConfig p (upd (clients c) u q)) in
  match clients c u with
  | Free | Crashed => None
  | Get j => let '(r, p) := _getThread p in to p (match r with Some t => Assign t j | None => Block j end)
  | Block j => match Semaphore.acquire (_blocker p) with Some n => to (set_blocker p n) (GetAgain j) | None => None end
  | GetAgain j => let '(r, p) := _getThread p in to p (match r with Some t => Assign t j | None => Crashed end)
  | Assign t j => to (set_job t (Some j) p) (Unpause t)
  | Unpause t => to (unpause t p) Free
  | WaitTest => to p (if busyCount p =? 0 then Free else WaitProbe)
  | WaitProbe => to p (if fst (Semaphore.testAcquire (_waiter p)) then Free else WaitAcquire)
  | WaitAcquire => match Semaphore.acquire (_waiter p) with Some n => to (set_waiter p n) WaitRelease | None => None end
  | WaitRelease => to (set_waiter p (Semaphore.release (_waiter p))) Free
  end.

Inductive request := runTask (job : Z) | waitAll.
Definition call (u : Z) (r : request) (c : config) : option config :=
  match clients c u, r with
  | Free, runTask j => Some (mkConfig (pool c) (upd (clients c) u (Get j)))
  | Free, waitAll => if waits (pool c) then Some (mkConfig (pool c) (upd (clients c) u WaitTest)) else None
  | _, _ => None
  end.

(** A thread that is not paused runs its job, and is done with it. *)
Definition complete (t : Z) (c : config) : option config :=
  if bool_decide (t ∈ _busy_pool (pool c)) && negb (bool_decide (t ∈ paused (pool c)))
  then Some (mkConfig (task_completed t (pool c)) (clients c)) else None.

Inductive event := Call (u : Z) (r : request) | Move (u : Z) | Complete (t : Z).
Definition happens (e : event) (c : config) : option config :=
  match e with Call u r => call u r c | Move u => move u c | Complete t => complete t c end.
Fixpoint schedule (es : list event) (c : config) : option config :=
  match es with [] => Some c | e :: es => match happens e c with Some c' => schedule es c' | None => None end end.

Definition start (p : ThreadPool) : config := mkConfig p (fun _ => Free).
Definition moves (n : nat) (u : Z) : list event := replicate n (Move u).
Definition run_job (u j : Z) : list event := Call u (runTask j) :: moves 3 u.

(** Client 1 fills a pool of two threads, waits with its third job, and gets the thread that is done. *)
Example pool_1 :
  option_map (fun c => (_available_pool (pool c), _busy_pool (pool c), _blocker (pool c), jobs (pool c), clients c 1))
    (schedule (run_job 1 7 ++ run_job 1 8 ++ [Call 1 (runTask 9); Move 1; Complete 2] ++ moves 4 1)
       (start (ThreadPool_new 2 1))) = Some ([], [1; 2], 0, [(2, 9); (1, 7)], Free).
Proof. vm_compute. reflexivity. Qed.

Example pool_2 :
  option_map (fun c => (_busy_pool (pool c), _waiter (pool c), clients c 1))
    (schedule (run_job 1 7 ++ [Call 1 waitAll] ++ moves 2 1 ++ [Complete 2] ++ moves 2 1) (start (ThreadPool_new 4 2)))
  = Some ([], 1, Free).
Proof. vm_compute. reflexivity. Qed.

(** ** The invariant of a pool *)

Record ok (p : ThreadPool) : Prop := {
  ok_size : zlen (_available_pool p) + zlen (_busy_pool p) = _size p /\ _size p <= _max_size p < 2 ^ 31 /\ 0 < _max_size p;
  ok_nodup : NoDup (_available_pool p ++ _busy_pool p);
  ok_ids : forall t, t ∈ _available_pool p ++ _busy_pool p -> 1 <= t <= _size p;
  ok_idle : forall t, t ∈ _available_pool p -> t ∈ paused p;
  ok_jobs : forall t, t ∈ (jobs p).*1 -> t ∈ _busy_pool p;
  ok_blocker : 0 <= _blocker p <= 1;
  ok_full : _available_pool p = [] -> _size p = _max_size p -> _blocker p = 0;
  ok_waiter : 0 <= _waiter p <= 1
}.

(** [_waiter] has its permit when no thread is busy. *)
Definition quiet (p : ThreadPool) : Prop := waits p = true -> _busy_pool p = [] <-> _waiter p = 1.

Lemma elem_pause t u p : u ∈ paused (pause t p) <-> u = t \/ u ∈ paused p.
Proof. cbn. rewrite elem_of_cons, list_elem_of_filter. destruct (decide (u = t)); naive_solver. Qed.
Lemma elem_unpause t u p : u ∈ paused (unpause t p) <-> u <> t /\ u ∈ paused p.
Proof. cbn. by rewrite list_elem_of_filter. Qed.
Lemma elem_job t u j p : u ∈ (jobs (set_job t j p)).*1 <-> (u = t /\ j <> None) \/ (u <> t /\ u ∈ (jobs p).*1).
Proof.
  unfold set_job. assert (u ∈ (filter (fun kv : Z * Z => kv.1 <> t) (jobs p)).*1 <-> u <> t /\ u ∈ (jobs p).*1) as Hf.
  { rewrite !list_elem_of_fmap. setoid_rewrite list_elem_of_filter. naive_solver. }
  destruct j; cbn [jobs set_jobs fmap list_fmap]; rewrite ?elem_of_cons, Hf; naive_solver.
Qed.
Lemma remove_perm t l : t ∈ l -> Permutation l (t :: remove t l).
Proof.
  induction l as [|u l IH]; intros Hin; [by apply elem_of_nil in Hin|]. cbn.
  destruct (Z.eqb_spec u t) as [->|Hu]; [done|]. apply elem_of_cons in Hin as [->|Hin]; [done|].
  etransitivity; [apply perm_skip, (IH Hin)|apply perm_swap].
Qed.

(** A client sees a thread that was just handed out: it is busy, and still paused. *)
Definition hands (t : Z) (p p' : ThreadPool) : Prop :=
  _busy_pool p' = _busy_pool p ++ [t] /\ (t ∉ _busy_pool p) /\ t ∈ paused p' /\ (t ∉ (jobs p').*1) /\
  jobs p' = jobs p /\ (forall u, u ∈ _busy_pool p -> u ∈ paused p' <-> u ∈ paused p) /\ waits p' = waits p.

Lemma take_0 n : 0 <= n <= 1 -> snd (Semaphore.tryAcquire n) = 0.
Proof. intros Hn. unfold Semaphore.tryAcquire. destruct (Z.ltb_spec 0 n); cbn; lia. Qed.

Lemma zlen_0 {A} (l : list A) : (zlen l =? 0) = bool_decide (l = []).
Proof. destruct l as [|x l]; [done|]. rewrite zlen_cons. pose proof (zlen_nonneg l). cbn. lia. Qed.

(** What [handed] does to the fields. *)
Lemma handed_fields t p : 0 <= _blocker p <= 1 -> 0 <= _waiter p <= 1 ->
  handed t p = mkPool (waits p) (_max_size p) (_min_size p) (_size p) (_available_pool p) (_busy_pool p ++ [t])
    (if waits p && bool_decide (_busy_pool p = []) then 0 else _waiter p)
    (if bool_decide (_available_pool p = []) && (_size p =? _max_size p) then 0 else _blocker p)
    (paused p) (jobs p).
Proof.
  intros Hb Hw. unfold handed. rewrite zlen_0.
  destruct (bool_decide (_available_pool p = []) && (_size p =? _max_size p)); cbn;
    rewrite zlen_0; destruct (waits p && bool_decide (_busy_pool p = [])); cbn; rewrite ?take_0 by done; done.
Qed.

Lemma handed_ok t p :
  zlen (_available_pool p) + zlen (_busy_pool p) + 1 = _size p -> _size p <= _max_size p < 2 ^ 31 /\ 0 < _max_size p ->
  NoDup (t :: _available_pool p ++ _busy_pool p) ->
  (forall u, u ∈ t :: _available_pool p ++ _busy_pool p -> 1 <= u <= _size p) ->
  (forall u, u ∈ _available_pool p -> u ∈ paused p) -> (forall u, u ∈ (jobs p).*1 -> u ∈ _busy_pool p) ->
  0 <= _blocker p <= 1 -> 0 <= _waiter p <= 1 -> quiet p ->
  ok (handed t p) /\ quiet (handed t p).
Proof.
  intros Hs Hm Hn Hi Hidle Hj Hb Hw Hq. rewrite handed_fields by done. split.
  - assert (Permutation (_available_pool p ++ _busy_pool p ++ [t]) (t :: _available_pool p ++ _busy_pool p)) as Hp.
    { by rewrite app_assoc, Permutation_app_comm. }
    split; cbn; try done.
    + rewrite zlen_app. change (zlen [t]) with 1. lia.
    + by rewrite Hp.
    + intros u. rewrite Hp. apply Hi.
    + intros u Hu. apply elem_of_app. left. by apply Hj.
    + destruct (_ && _); lia.
    + intros -> ->. by rewrite bool_decide_eq_true_2, Z.eqb_refl.
    + destruct (_ && _); lia.
  - unfold quiet in *. cbn. intros E. rewrite E. cbn. specialize (Hq E).
    split; [intros Ea; by apply app_eq_nil in Ea as [_ ?]|].
    case_bool_decide as Hn'; [done|]. intros E1. by apply Hq in E1.
Qed.

Lemma last_split {A} (l : list A) t : last l = Some t -> l = removelast l ++ [t].
Proof.
  intros E. destruct l as [|x l] using rev_ind; [done|].
  rewrite last_snoc in E. injection E as ->. by rewrite removelast_last.
Qed.

(** [_getThread] hands out a thread that is not busy, unless all are. *)
Lemma getThread_ok p : ok p -> quiet p ->
  match _getThread p with
  | (Some t, p') => ok p' /\ quiet p' /\ hands t p p'
  | (None, p') => p' = p /\ _available_pool p = [] /\ _size p = _max_size p
  end.
Proof.
  intros [[Hs Hm] Hn Hi Hidle Hj Hb Hf Hw] Hq. unfold _getThread.
  destruct (last (_available_pool p)) as [t|] eqn:El.
  - apply last_split in El as Ea. set (rest := removelast _) in *. rewrite Ea in Hs, Hn, Hi, Hidle.
    rewrite zlen_app in Hs. change (zlen [t]) with 1 in Hs.
    assert (Permutation ((rest ++ [t]) ++ _busy_pool p) (t :: rest ++ _busy_pool p)) as Hp.
    { by rewrite <- app_assoc, (Permutation_app_comm rest), <- app_assoc, (Permutation_app_comm _ rest). }
    rewrite Hp in Hn. setoid_rewrite Hp in Hi.
    set (p1 := set_pools p rest (_busy_pool p)).
    destruct (handed_ok t p1) as [H1 H2]; cbn; try done; try lia.
    { intros u Hu. apply Hidle, elem_of_app. by left. }
    split; [done|]. split; [done|]. rewrite handed_fields by done. unfold hands. cbn.
    assert (t ∈ paused p) as Ht1 by (apply Hidle, elem_of_app; right; left).
    apply NoDup_cons in Hn as [Hnt _]. rewrite elem_of_app in Hnt. by split_and!; naive_solver.
  - apply last_None in El. destruct (Z.ltb_spec (_size p) (_max_size p)) as [Hlt|Hge].
    + cbn [create]. rewrite El in *. cbn [app] in *. change (zlen (@nil Z)) with 0 in Hs.
      pose proof (zlen_nonneg (_busy_pool p)). unfold create. rewrite wrapU_small by lia.
      set (p1 := pause _ _). assert (_size p + 1 ∉ _busy_pool p) as Hnew by (intros Hin; apply Hi in Hin; lia).
      destruct (handed_ok (_size p + 1) p1) as [H1 H2]; subst p1; cbn; rewrite ?El; change (zlen (@nil Z)) with 0; cbn [app]; try done; try lia.
      { by apply NoDup_cons. }
      { intros u Hu. pose proof (zlen_nonneg (_busy_pool p)). apply elem_of_cons in Hu as [->|Hu]; [lia|]. apply Hi in Hu. lia. }
      { intros u Hu. by apply elem_of_nil in Hu. }
      split; [done|]. split; [done|]. rewrite handed_fields by done. unfold hands. cbn. split_and!; try done.
      * left.
      * intros Hin. by apply Hj in Hin.
      * intros u Hu. rewrite elem_of_cons, list_elem_of_filter. assert (u <> _size p + 1) by congruence. naive_solver.
    + split; [done|]. split; [done|lia].
Qed.

Lemma zlen_snoc_1 {A} (l : list A) x : (zlen (l ++ [x]) =? 1) = bool_decide (l = []).
Proof. rewrite <- zlen_0, zlen_app. change (zlen [x]) with 1. pose proof (zlen_nonneg l).
  destruct (Z.eqb_spec (zlen l) 0), (Z.eqb_spec (zlen l + 1) 1); try done; lia.
Qed.

Lemma release_until_1 n : 0 <= n <= 1 -> release_until n 2 = 1.
Proof.
  intros Hn. assert (n = 0 \/ n = 1) as [->| ->] by lia; reflexivity.
Qed.

(** What [task_completed] does to the fields. *)
Lemma completed_fields t p : 0 <= _blocker p <= 1 -> 0 <= _waiter p <= 1 ->
  task_completed t p = mkPool (waits p) (_max_size p) (_min_size p) (_size p)
    (_available_pool p ++ [t]) (remove t (_busy_pool p))
    (if waits p && bool_decide (remove t (_busy_pool p) = []) then 1 else _waiter p)
    (if bool_decide (_available_pool p = []) && (_size p =? _max_size p) then 1 else _blocker p)
    (paused (pause t p)) (jobs (set_job t None p)).
Proof.
  intros Hb Hw. unfold task_completed. set (p1 := set_pools _ _ _).
  set (p2 := if (zlen (_available_pool p1) =? 1) && (_size p1 =? _max_size p1) then _ else p1).
  assert (p2 = set_blocker p1 (if bool_decide (_available_pool p = []) && (_size p =? _max_size p) then 1 else _blocker p)) as ->.
  { subst p2 p1. cbn [_available_pool _size _max_size _blocker set_pools set_job set_jobs pause set_paused].
    rewrite zlen_snoc_1, Semaphore.testAcquire_spec. cbn [fst].
    destruct (_ && _); [|done]. unfold Semaphore.release. destruct (Z.ltb_spec 0 (_blocker p)); cbn [negb].
    - unfold set_blocker, set_pools. cbn. f_equal. lia.
    - unfold set_blocker. cbn. f_equal. lia. }
  subst p1. cbn [waits _busy_pool _waiter set_blocker set_pools set_job set_jobs pause set_paused].
  rewrite zlen_0, release_until_1 by done.
  by destruct (waits p && bool_decide (remove t (_busy_pool p) = [])).
Qed.

(** A thread that is done goes back, and wakes who waits. *)
Lemma task_completed_ok t p : ok p -> quiet p -> t ∈ _busy_pool p ->
  ok (task_completed t p) /\ quiet (task_completed t p).
Proof.
  intros [[Hs Hm] Hn Hi Hidle Hj Hb Hf Hw] Hq Ht. rewrite completed_fields by done.
  pose proof (remove_perm t _ Ht) as Hp. set (rest := remove t (_busy_pool p)) in *.
  assert (zlen (_busy_pool p) = zlen rest + 1) as Hl.
  { unfold zlen. rewrite (Permutation_length Hp). cbn. lia. }
  assert (Permutation ((_available_pool p ++ [t]) ++ rest) (_available_pool p ++ _busy_pool p)) as Hp'.
  { rewrite <- app_assoc. by rewrite Hp. }
  split.
  - split; cbn; try done.
    + rewrite zlen_app. change (zlen [t]) with 1. lia.
    + by rewrite Hp'.
    + intros u. rewrite Hp'. apply Hi.
    + intros u. rewrite elem_of_app, list_elem_of_singleton, elem_of_cons, list_elem_of_filter.
      destruct (decide (u = t)); naive_solver.
    + intros u Hu. rewrite (elem_job t u None p) in Hu. destruct Hu as [[_ Hu]|[Hu Hu2]]; [done|].
      apply Hj in Hu2. rewrite Hp in Hu2. by apply elem_of_cons in Hu2 as [?|?].
    + destruct (_ && _); lia.
    + intros E. by apply app_eq_nil in E as [_ ?].
    + destruct (_ && _); lia.
  - unfold quiet in *. cbn. intros E. rewrite E. cbn. specialize (Hq E). case_bool_decide as Hr; [done|].
    split; [done|]. intros E1. apply Hq in E1. by rewrite E1 in Ht; apply elem_of_nil in Ht.
Qed.

(** A new pool, with no more threads than it may have. *)
Record fresh (p : ThreadPool) : Prop := {
  fresh_busy : _busy_pool p = [] /\ jobs p = [] /\ _blocker p = 1 /\ _waiter p = 1;
  fresh_size : zlen (_available_pool p) = _size p;
  fresh_nodup : NoDup (_available_pool p);
  fresh_ids : forall t, t ∈ _available_pool p -> 1 <= t <= _size p /\ t ∈ paused p
}.

Lemma fill_fresh n : forall p, fresh p -> _size p + Z.of_nat n < 2 ^ 31 ->
  fresh (fill p n) /\ _size (fill p n) = _size p + Z.of_nat n /\ _max_size (fill p n) = _max_size p /\
  waits (fill p n) = waits p.
Proof.
  induction n as [|n IH]; intros p [(Hb & Hj & Hbl & Hw) Hs Hn Hi] Hm; [cbn; split_and!; done || lia|].
  cbn [fill]. unfold create. pose proof (zlen_nonneg (_available_pool p)). rewrite wrapU_small by lia.
  destruct (IH (set_pools (pause (_size p + 1) (mkPool (waits p) (_max_size p) (_min_size p) (_size p + 1) (_available_pool p)
    (_busy_pool p) (_waiter p) (_blocker p) (paused p) (jobs p))) (_available_pool p ++ [_size p + 1]) (_busy_pool p)))
    as (H1 & H2 & H3 & H4).
  - split; cbn; [done| | |].
    + rewrite zlen_app. change (zlen [_]) with 1. lia.
    + apply NoDup_app. split; [done|]. split; [|apply NoDup_singleton].
      intros t Ht Ht'. apply list_elem_of_singleton in Ht'. apply Hi in Ht. lia.
    + intros t. rewrite elem_of_app, list_elem_of_singleton, elem_of_cons, list_elem_of_filter.
      intros [Ht|Ht]; [|subst t; split; [lia|by left]].
      destruct (Hi t Ht) as [? ?]. split; [lia|]. right. split; [lia|done].
  - cbn. lia.
  - cbn in *. split; [exact H1|]. cbn. split_and!; [lia|done|done].
Qed.

Lemma fresh_ok p : fresh p -> 0 < _max_size p -> _size p <= _max_size p < 2 ^ 31 -> ok p /\ quiet p.
Proof.
  intros [(Hb & Hj & Hbl & Hw) Hs Hn Hi] H0 Hm. split.
  - split; rewrite ?Hb, ?Hj, ?app_nil_r; try done; try lia.
    + change (zlen (@nil Z)) with 0. lia.
    + intros t Ht. by apply Hi.
    + intros t Ht. by apply Hi.
    + intros Ha E. rewrite Ha in Hs. change (zlen (@nil Z)) with 0 in Hs. lia.
  - intros _. by rewrite Hb, Hw.
Qed.

Lemma ThreadPool_new_ok max min : 0 <= min <= max -> 0 < max < 2 ^ 31 ->
  let p := ThreadPool_new max min in ok p /\ quiet p /\ _busy_pool p = [].
Proof.
  intros Hm Hx. cbv zeta. unfold ThreadPool_new.
  destruct (fill_fresh (Z.to_nat min) (mkPool true max min 0 [] [] 1 1 [] [])) as (H1 & H2 & H3 & _); cbn in *.
  { split; try done; [constructor|]. cbn. intros t Ht. by apply elem_of_nil in Ht. }
  { lia. }
  destruct (fresh_ok _ H1) as [? ?]; [lia|lia|]. split_and!; try done. apply H1.
Qed.

Lemma HttpServer_new_ok max : STARTING_THREADS <= max < 2 ^ 31 ->
  let p := HttpServer_new max in ok p /\ quiet p /\ _busy_pool p = [].
Proof.
  intros Hm. cbv zeta. unfold HttpServer_new, STARTING_THREADS in *.
  destruct (fill_fresh (Z.to_nat 2) (mkPool false max 2 0 [] [] 1 1 [] [])) as (H1 & H2 & H3 & _); cbn in *.
  { split; try done; [constructor|]. cbn. intros t Ht. by apply elem_of_nil in Ht. }
  { lia. }
  destruct (fresh_ok _ H1) as [? ?]; [cbn; lia|cbn; lia|]. by split_and!.
Qed.

(** ** One client *)

(** The thread that the client is about to start. *)
Definition handing (q : cpc) : option Z := match q with Assign t _ | Unpause t => Some t | _ => None end.

Record client_ok (p : ThreadPool) (q : cpc) : Prop := {
  client_handing : forall t, handing q = Some t -> t ∈ _busy_pool p;
  client_running : forall t, t ∈ _busy_pool p -> t ∈ paused p <-> handing q = Some t;
  client_job : forall t, t ∈ _busy_pool p -> t ∉ (jobs p).*1 <-> exists j, q = Assign t j;
  client_quiet : match q with
                 | WaitRelease => _busy_pool p = [] /\ _waiter p = 0
                 | _ => quiet p
                 end;
  client_at : match q with
              | Block _ => _size p = _max_size p /\ (_available_pool p <> [] -> _blocker p = 1)
              | GetAgain _ => _available_pool p <> []
              | WaitTest | WaitProbe | WaitAcquire | WaitRelease => waits p = true
              | Crashed => False
              | _ => True
              end
}.

(** The client is number 1. *)
Definition inv (c : config) : Prop := ok (pool c) /\ client_ok (pool c) (clients c 1).
Definition by_one (e : event) : Prop := match e with Call u _ | Move u => u = 1 | Complete _ => True end.

Lemma complete_inv t c c' : inv c -> complete t c = Some c' -> inv c'.
Proof.
  intros [Hok [H1 H2 H3 H4 H5]] Hc. unfold complete in Hc.
  destruct (bool_decide (t ∈ _busy_pool (pool c))) eqn:Eb; [|done]. apply bool_decide_eq_true in Eb.
  destruct (bool_decide (t ∈ paused (pool c))) eqn:Ep; [done|]. apply bool_decide_eq_false in Ep.
  injection Hc as <-. set (p := pool c) in *. set (q := clients c 1) in *.
  assert (handing q <> Some t) as Hq by (intros E; apply Ep, H2; done).
  assert (quiet p) as Hquiet by (destruct q; try done; destruct H4 as [E _]; rewrite E in Eb; by apply elem_of_nil in Eb).
  destruct (task_completed_ok t p Hok Hquiet Eb) as [Hok' Hquiet']. split; [done|].
  assert (forall u, u ∈ remove t (_busy_pool p) <-> u ∈ _busy_pool p /\ u <> t) as Hrem.
  { intros u. pose proof (remove_perm t _ Eb) as Hp. destruct Hok as [_ Hn _ _ _ _ _ _].
    apply NoDup_app in Hn as (_ & _ & Hn). rewrite Hp in Hn. apply NoDup_cons in Hn as [Hn _].
    rewrite Hp at 2. rewrite elem_of_cons. destruct (decide (u = t)); naive_solver. }
  cbn [pool clients]. fold q. split.
  - intros u E. rewrite completed_fields by apply Hok. cbn. apply Hrem. split; [by apply H1|congruence].
  - intros u. rewrite completed_fields by apply Hok. cbn. rewrite Hrem, elem_of_cons, list_elem_of_filter.
    intros [Hu Hut]. rewrite <- H2 by done. naive_solver.
  - intros u. rewrite completed_fields by apply Hok. cbn [_busy_pool jobs]. rewrite Hrem, elem_job.
    intros [Hu Hut]. rewrite <- H3 by done. naive_solver.
  - destruct q; try done. destruct H4 as [E _]. rewrite E in Eb. by apply elem_of_nil in Eb.
  - rewrite completed_fields by apply Hok. destruct q; cbn; try done.
    + destruct H5 as [Es H5]. split; [done|]. intros _. case_bool_decide as Ea.
      * by rewrite Es, Z.eqb_refl.
      * cbn. by apply H5.
    + intros E. by apply app_eq_nil in E as [_ ?].
Qed.

Lemma hands_client t j p p' q : ok p' -> quiet p' -> hands t p p' -> client_ok p q -> handing q = None ->
  client_ok p' (Assign t j).
Proof.
  intros Hok' Hq' (Eb & Hnt & Htp & Htj & Ej & Hpa & _) [H1 H2 H3 _ _] Hn. rewrite Ej in Htj.
  assert (forall u j', q <> Assign u j') as Hna by (intros u j' ->; done).
  split; cbn; try done.
  - intros u [= <-]. rewrite Eb. apply elem_of_app. right. left.
  - intros u. rewrite Eb, elem_of_app, list_elem_of_singleton. intros [Hu| ->]; [|done].
    rewrite Hpa, H2, Hn by done. split; [done|]. intros [= ->]. done.
  - intros u. rewrite Eb, Ej, elem_of_app, list_elem_of_singleton. intros [Hu| ->]; [|naive_solver].
    rewrite H3 by done. split; [intros (j' & E); by apply Hna in E|]. intros (j' & [= -> _]). done.
Qed.

(** A step that leaves the pool alone. *)
Lemma client_goto p q q' : client_ok p q -> handing q = None -> handing q' = None -> quiet p ->
  match q' with
  | Block _ => _size p = _max_size p /\ (_available_pool p <> [] -> _blocker p = 1)
  | GetAgain _ => _available_pool p <> []
  | WaitTest | WaitProbe | WaitAcquire => waits p = true
  | Crashed | WaitRelease => False
  | _ => True
  end -> client_ok p q'.
Proof.
  intros [H1 H2 H3 _ _] Hn Hn' Hq Hm.
  assert (forall t j, q <> Assign t j) as Hna by (intros t j ->; done).
  assert (forall t j, q' <> Assign t j) as Hna' by (intros t j ->; done).
  split.
  - intros t. by rewrite Hn'.
  - intros t Ht. by rewrite H2, Hn, Hn'.
  - intros t Ht. rewrite H3 by done. split; intros (j & E); [by apply Hna in E|by apply Hna' in E].
  - by destruct q'.
  - by destruct q'.
Qed.

Lemma pool_move_inv c c' : inv c -> move 1 c = Some c' -> inv c'.
Proof.
  intros [Hok Hcl] Hm. unfold move in Hm. set (p := pool c) in *.
  assert (forall p q, ok p -> client_ok p q -> inv (mkConfig p (upd (clients c) 1 q))) as Hto.
  { intros p1 q1 ? ?. split; [done|]. cbn [pool clients]. by rewrite upd_same. }
  pose proof (client_at _ _ Hcl) as Hat. pose proof (client_quiet _ _ Hcl) as Hq.
  destruct (clients c 1) as [|j|j|j|t j|t| | | | |] eqn:Eq; try done.
  - (* Get *) pose proof (getThread_ok p Hok Hq) as Hg. destruct (_getThread p) as [[t|] p']; injection Hm as <-.
    + destruct Hg as (H1 & H2 & H3). apply Hto; [done|]. by apply (hands_client t j p p' (Get j)).
    + destruct Hg as (-> & Ea & Es). apply Hto; [done|]. by apply (client_goto p (Get j)).
  - (* Block *) destruct (Semaphore.acquire (_blocker p)) as [n|] eqn:Ea; [|done]. injection Hm as <-.
    unfold Semaphore.acquire in Ea. destruct (Z.ltb_spec 0 (_blocker p)) as [Hlt|]; [|done]. injection Ea as <-.
    assert (_available_pool p <> []) as Hav.
    { intros E. destruct Hat as [Es _]. pose proof (ok_full p Hok E Es). lia. }
    destruct Hok as [Hs Hn Hi Hidle Hj Hb Hf Hw]. apply Hto.
    + split; cbn; try done. lia.
    + destruct Hcl as [H1 H2 H3 H4 H5]. split; cbn; try done.
      intros t Ht. rewrite H3 by done. split; intros (? & E); discriminate E.
  - (* GetAgain *) pose proof (getThread_ok p Hok Hq) as Hg. destruct (_getThread p) as [[t|] p']; injection Hm as <-.
    + destruct Hg as (H1 & H2 & H3). apply Hto; [done|]. by apply (hands_client t j p p' (GetAgain j)).
    + by destruct Hg as (-> & Ea & Es).
  - (* Assign *) injection Hm as <-. destruct Hok as [Hs Hn Hi Hidle Hj Hb Hf Hw]. destruct Hcl as [H1 H2 H3 H4 H5].
    specialize (H1 t eq_refl). apply Hto.
    + split; try done. intros u. rewrite elem_job. intros [[-> _]|[_ Hu]]; [done|by apply Hj].
    + split; try done.
      * intros u [= <-]. done.
      * intros u Hu. rewrite elem_job. destruct (decide (u = t)) as [->|Hut].
        { split; [|by intros (? & ?)]. intros Hno. exfalso. apply Hno. by left. }
        assert (u ∈ (jobs p).*1) as Huj.
        { destruct (decide (u ∈ (jobs p).*1)) as [?|Hno]; [done|].
          apply (H3 u Hu) in Hno as (j' & [= -> _]). done. }
        split; [intros Hno; exfalso; apply Hno; right; by split|by intros (? & ?)].
  - (* Unpause *) injection Hm as <-. destruct Hok as [Hs Hn Hi Hidle Hj Hb Hf Hw]. destruct Hcl as [H1 H2 H3 H4 H5].
    specialize (H1 t eq_refl). apply NoDup_app in Hn as Hn'. destruct Hn' as (_ & Hdis & _). apply Hto.
    + split; try done. intros u Hu. rewrite elem_unpause. split; [|by apply Hidle]. intros ->. by apply (Hdis t).
    + split; try done.
      * intros u Hu. rewrite elem_unpause. split; [|done]. intros [Hut Hup]. apply (H2 u Hu) in Hup as [= ->]. done.
      * intros u Hu. cbn [jobs unpause set_paused]. rewrite (H3 u Hu). split; intros (? & E); discriminate E.
  - (* WaitTest *) injection Hm as <-. apply Hto; [done|]. destruct (busyCount p =? 0); by apply (client_goto p WaitTest).
  - (* WaitProbe *) injection Hm as <-. apply Hto; [done|].
    destruct (Semaphore.testAcquire (_waiter p)).1; by apply (client_goto p WaitProbe).
  - (* WaitAcquire *) destruct (Semaphore.acquire (_waiter p)) as [n|] eqn:Ea; [|done]. injection Hm as <-.
    unfold Semaphore.acquire in Ea. destruct (Z.ltb_spec 0 (_waiter p)) as [Hlt|]; [|done]. injection Ea as <-.
    destruct Hok as [Hs Hn Hi Hidle Hj Hb Hf Hw]. assert (_waiter p = 1) as Ew by lia.
    assert (_busy_pool p = []) as Eb by by apply Hq.
    apply Hto.
    + split; cbn; try done. lia.
    + destruct Hcl as [H1 H2 H3 H4 H5]. split; cbn; try done.
      * intros t Ht. rewrite H3 by done. split; intros (? & E); discriminate E.
      * split; [done|lia].
  - (* WaitRelease *) injection Hm as <-. destruct Hok as [Hs Hn Hi Hidle Hj Hb Hf Hw]. destruct Hq as [Eb Ew].
    apply Hto.
    + split; cbn; try done. unfold Semaphore.release. lia.
    + destruct Hcl as [H1 H2 H3 H4 H5]. split; cbn; try done.
      * intros t Ht. rewrite H3 by done. split; intros (? & E); discriminate E.
      * intros _. cbn. rewrite Ew. unfold Semaphore.release. done.
Qed.

Lemma pool_call_inv r c c' : inv c -> call 1 r c = Some c' -> inv c'.
Proof.
  intros [Hok Hcl] Hc. unfold call in Hc. destruct (clients c 1) eqn:Eq; try done.
  pose proof (client_quiet _ _ Hcl) as Hq.
  destruct r as [j|]; [|destruct (waits (pool c)) eqn:Ew; [|done]]; injection Hc as <-; (split; [done|]);
    cbn [pool clients]; rewrite upd_same; by apply (client_goto (pool c) Free).
Qed.

Lemma schedule_inv es : forall c c', Forall by_one es -> inv c -> schedule es c = Some c' -> inv c'.
Proof.
  induction es as [|e es IH]; intros c c' Hes Hc Hs; cbn in Hs; [by injection Hs as <-|].
  apply Forall_cons_iff in Hes as [He Hes]. destruct (happens e c) as [c1|] eqn:E; [|done].
  apply (IH c1); [done| |done].
  destruct e as [u r|u|t]; cbn in E, He; subst; [by eapply pool_call_inv|by eapply pool_move_inv|by eapply complete_inv].
Qed.

Lemma pool_start_inv p : ok p -> quiet p -> _busy_pool p = [] -> inv (start p).
Proof.
  intros Hok Hq Hb. split; [done|]. split; cbn; try done; intros t Ht; rewrite Hb in Ht; by apply elem_of_nil in Ht.
Qed.

(** The pools that are made with room for their first threads. *)
Definition sound_pool (p : ThreadPool) : Prop :=
  (exists max min, p = ThreadPool_new max min /\ 0 <= min <= max /\ 0 < max < 2 ^ 31) \/
  (exists max, p = HttpServer_new max /\ STARTING_THREADS <= max < 2 ^ 31).

Lemma sound_inv p es c : sound_pool p -> Forall by_one es -> schedule es (start p) = Some c -> inv c.
Proof.
  intros Hp Hes Hs. apply (schedule_inv es (start p)); [done| |done].
  destruct Hp as [(max & min & -> & Hm & Hx)|(max & -> & Hx)].
  - destruct (ThreadPool_new_ok max min Hm Hx) as (? & ? & ?). by apply pool_start_inv.
  - destruct (HttpServer_new_ok max Hx) as (? & ? & ?). by apply pool_start_inv.
Qed.




(** ** What goes wrong *)

(** Three tasks on a pool of one thread: the first is busy, so is the one too many; and two clients. *)
Definition three_jobs : list event := run_job 1 7 ++ run_job 1 8 ++ [Call 1 (runTask 9)] ++ moves 3 1.
Definition stolen : list event :=
  run_job 1 7 ++ [Call 1 (runTask 8); Move 1; Complete 1; Move 1; Call 2 (runTask 9); Move 2; Move 1].

(** A pool of one thread with the default minimum of two, a server for one connection, and a pool with
    two clients use the NULL that [_getThread] returns. *)
Theorem pool_defects :
  let ends p es := option_map (fun c => clients c 1) (schedule es (start p)) in
  ends (ThreadPool_new 1 2) three_jobs = Some Crashed /\
  ends (HttpServer_new 1) three_jobs = Some Crashed /\
  ends (ThreadPool_new 1 1) stolen = Some Crashed.
Proof. vm_compute. split_and!; reflexivity. Qed.

(** ** Witnesses *)

Definition two_busy : list event := run_job 1 7 ++ run_job 1 8 ++ [Call 1 (runTask 9); Move 1].

Lemma two_threads : sound_pool (ThreadPool_new 2 2).
Proof. left. exists 2, 2. split; [done|]. lia. Qed.


Definition one_done : list event := run_job 1 7 ++ [Complete 2; Call 1 waitAll].


